(* ===== verification/_CoqProject ===== *)
-Q . S2P
Prelude.v
CharConv.v
Query.v
Response.v
ResponseSpec.v
ResponseTotal.v
ResponseFormat.v
Effects.v
Database.v
Http.v
Sql.v
Auth.v
Routes.v
RouteLogic.v
RouteAuth.v
RouteUser.v
RouteParts.v
RouteVehicle.v
Double.v
DoubleFacts.v
RouteServices.v
RouteServiceViews.v
Policy.v
RouteLax.v
RouteFacts.v
RouteTheorems.v
Trace.v
Net.v
NetFacts.v
Frames.v
Security.v
Behaviour.v
ViewFacts.v
Htmt.v
HtmtTotal.v
HtmtRender.v
HtmtPrint.v
HtmtRoundTrip.v
Handles.v
HandleFacts.v
Multi.v
Streams.v
Translator.v
TranslatorFacts.v
NoHandle.v
LinkFacts.v
Pages.v
Deployment.v
System.v
Console.v
ConsoleFacts.v
Startup.v
Concrete.v
Witnesses.v
PageWitnesses.v
SystemWitnesses.v
