(* ===== verification/Prelude.v ===== *)
(** WFA: a web application for a vehicle workshop, written in C++.

    The program consists of a _server_ (directory Server), which keeps accounts,
    vehicles, parts and services in an SQLite database and answers HTTP requests
    through uWebSockets, and of a _translator_ (directory Translator), which
    stands between the browser and the server and builds HTML pages.  They share
    the formats they exchange (directory Shared): URL-encoded fields on the way
    in, [responseWrapper] texts on the way out.  The development models all
    three, down to the libraries they call.

    * How the parts fit together

    The server starts with a console (Server/src/Source.cpp), where an operator
    loads a database, runs scripts and statements, and leaves to serve requests.
    A request then reaches [net] (Server/src/Network.cpp), which picks a route by
    method and path and, for most routes, collects the body first
    ([HttpCallWrapper]).  A route checks its fields ([queryBase]) and the session
    named by the request's cookie ([authenticator]), sends SQL statements to the
    database ([sqlite3DB]), logs a line, and answers with a status or with a
    [responseWrapper] built from the rows.  Routes share two stores, the database
    and the sessions, and nothing else.

    The translator reads a link file once ([linkPages]), which names its pages:
    static files, templates and forwarded addresses.  A request to a template
    page is forwarded to the server through a [requestWrapper]; the answer is
    read back as a [responseWrapper], and the template of the page is applied to
    it.

    * Files

    - [Prelude]: texts, outcomes (value or fault), machine integers, searching
      and splitting texts, tactics and hints.
    - [CharConv]: [std::from_chars] and [std::to_string] on integers.
    - [Query]: Shared/include/Query.h.  [queryBase] is the map of fields; its
      operations keep their names.
    - [Response]: Shared/include/Response.h, data, printer and parser;
      [ResponseSpec]: the printed form as a function of the tree, and the round
      trip; [ResponseTotal]: the parser on arbitrary input; [ResponseFormat]: the
      padded form.
    - [Effects]: a state-and-fault monad over any state, for the parts that are
      not routes.
    - [Database]: Server/include/Database.h and Server/src/Database.cpp: the
      statement loop over the SQLite calls, and the two builders of SQL text.
      The class [Database] is what the wrapper promises the routes, the instance
      [sqlite_database] the wrapper itself.
    - [Http]: requests, the events a run leaves behind, the state-and-fault monad
      [M] the routes are written in, [HttpCallWrapper], and the program logic
      [wp] for [M].
    - [Sql]: every SQL text of the server, and the table names of
      Server/src/ServerData.cpp.
    - [Auth]: [cookieManager] and [authenticator] of Server/include/Network.h.
    - [Routes]: the loops and tests the routes share, rows as objects, and the
      invariant [kinded] under which [responseWrapper::add] cannot fail.
    - [RouteAuth], [RouteUser], [RouteParts], [RouteVehicle], [RouteServices],
      [RouteServiceViews]: the routes of Server/include/WebRoutes, one definition
      each, under their own names.  [Double] has the floating-point arithmetic
      of the service views, [DoubleFacts] shows it exact on whole numbers below
      2^53.
    - [RouteLogic]: the contract of a route and the tactic that runs one
      symbolically.  [Policy]: the access table, which is the abstract
      specification of all routes: level, statements, possible fault.
      [RouteLax] and [RouteFacts] prove every route against its entry, without
      and with assumptions on the shape of results; [RouteTheorems] draws the
      conclusions and shows that the SQLite wrapper meets the assumptions.
    - [Trace]: a second small logic, for the routes that change sessions.
    - [Net]: Server/src/Network.cpp: the table of addresses, the routes defined
      in place, and the server as a transition system over requests.
      [NetFacts]: its invariants.  [Frames]: what every run does step by step: a
      relation that holds of the smallest steps holds of every request; so the
      database is what the statements on record made of it.
    - [Security], [Behaviour]: single routes: who may do what, which statements
      are sent in which order, what is answered.  [ViewFacts]: one service as an
      employee sees it, with its total.
    - [Htmt]: the template language of Translator/src/Source.cpp: its parser, its
      conditions and its interpreter, with iterator moves past the end as faults.
      [HtmtTotal]: the parser ends and returns well-typed templates.
      [HtmtRender]: a reference interpreter without state, and the equivalence.
      [HtmtPrint] and [HtmtRoundTrip]: templates written out and read back.
    - [Handles]: Translator/include/Curl.h over a heap of curl handles and
      objects; [HandleFacts]: who owns which handle.  [Multi]: the collections of
      handles of the same file.
    - [Streams]: [std::getline] and the loops over lines.
    - [Translator]: the pages, Translator/include/Forwarding.h, the link file and
      the start-up; [TranslatorFacts] and [LinkFacts]: what they do; [NoHandle]:
      the pages when libcurl has no handle left.
    - [Pages]: one page of the repository, ManageSuppliers.htmt, from the rows of
      the server's database to the HTML table.  [Deployment]: the link file of the
      repository, and the route each of its pages leads to.
    - [Console]: Server/src/Source.cpp and the object that owns the database
      connection; [ConsoleFacts]: what the console does.
    - [System]: browser, translator, server and database composed; [Startup]:
      console and network part composed, the whole life of the server.
    - [Concrete], [Witnesses], [PageWitnesses], [SystemWitnesses]: instances,
      inputs, and every theorem with hypotheses applied where they hold.

    * How state and operations correspond to the code

    The world of [M] holds the database connection, [authenticator::sessions],
    the values the random device will give, and the trace: statements with their
    results, statuses, headers, ends of responses and log lines, in the order in
    which they happen.  A C++ fault (an exception, a failed [assert], an index
    outside a vector, a division by zero) ends a run with the fault as its
    result; the events before it stay.  A statement that gives rows for ever is the
    fault [NeverReturns], SQL longer than an [int] can say the failed assertion of
    [query]; a route stops there, and the trace ends in [EvLost].  A log line is one event, written when the
    whole line has been computed.  Statuses and headers are recorded as the code
    writes them, even after the header that uWebSockets requires to come last.

    The translator's state is the heap of [Handles] (libcurl's handles, the C++
    objects that point to them, and the requests sent) with the events of the
    response; its start-up builds a site, the registered pages and what was
    printed.  A callback that captures an object keeps its address: using it
    after the object's end is a fault.  The console's state is the pointer to the
    database, the connections opened and closed, the files, [std::cin],
    [std::cout] and the statements answered.  What [printResult] has printed before a
    fault is not kept, and two connections to one file do not share it.

    The two programs are composed in [System].  The class [Wire] is HTTP as the two
    libraries speak it: the request uWebSockets shows for what libcurl sent, the
    pieces of the body, and the answer libcurl reads for what was written; its laws
    are [WireFacts].  The instance [connected] of [Libcurl] is then the server
    itself: the answer to a request is what [serve] does in the state its
    predecessors left, and a fault ends the process.  Which page a request gets is
    uWebSockets' choice among the paths registered, patterns included: the class
    [Router], with the law that a static path leads to its own page.  The theorems of [Translator],
    proved against any [Libcurl], and those of [Net], proved for any reachable
    state, meet there.

    * What the theorems show

    - Sessions (C1, C10, C15, C16): every session of every reachable state was
      created by a login the database confirmed, with the user and level of the
      row; no statement of a guarded route without such a login; logging in gives
      exactly that.
    - Routes (C2, C3, C7, C8, C14): a route below its level asks the database
      nothing; the statements come from a fixed list but for five updates; every
      route ends the response once or runs into the fault listed for it; SQLite's
      results have the shape this needs.
    - The whole system (C4, C5, C11, C18): whatever is browsed, the server handles
      exactly what the pages forward; the server's life from the console on, and
      what its database is at any time; one page from the browser to the database
      and back; where each address of the link file leads.
    - Single routes (C19 to C21, C24 to C26, C36 to C38): no account above its
      maker, removal of accounts, owners, quantities, the life cycle of a
      service, a service with its parts and its exact total, and two defects:
      levels set through "permissions" unchecked, and registration that cannot be
      followed by a login.
    - Translator (C6, C9, C12, C13, C23, C29, C31): what a page forwards, ownership
      of curl handles, the template language (termination and typing, round trip,
      equivalence with the reference interpreter), the link file, and what happens
      without a handle.
    - Formats (C17, C28, C30, C34, C35): round trips for the texts the formats can
      carry (each theorem names them: [clean], [plain]), termination on every input,
      a text that breaks the format, and the names of fields, which are not decoded.
    - Database (C27, C39, C40): the wrapper's results, exactly when a query comes
      back, its statements finalized on every path, and the update statement that
      escapes nothing.
    - Console (C22, C32, C33): when it hands over to the network part and where it
      stops when it does not, loading a database.
    - Further theorems without an identifier: the address table, logging out, the
      draw of identifiers, the pieces of a body, cookies, stale sessions, scripts,
      the printed tables and their column widths, [forward], collections of handles.

    * Bounds and fuel

    Loops over a text take its length as fuel, which suffices because each round
    consumes a character; for the response parser this is theorem C30, for
    templates C29, for the loops over lines [whileLines_lines].  The statement
    loop of the database takes its fuel from [rows_left], which is no call of SQLite
    but tells whether a statement ends, and within how many rows: such a function
    exists whatever SQLite does ([rows_left_exists]), so that nothing is assumed of
    it, and the loop comes back exactly when the statement ends (C27, C39).  Two
    loops have no bound in the code, and their fuel is an argument: the draw of a
    session identifier ([drawLoop_fresh] shows when it suffices) and the
    console's (C22 shows when it suffices, C33 when none does).  Integers
    keep their widths: 64-bit identifiers and quantities, 32-bit levels with the
    cast to [int], the 32-bit [long] of [std::stol] in templates, and the
    [size_t] depth of the bracket matcher with its wrap-around.

    * Not modelled

    uWebSockets, libcurl and SQLite are interfaces ([HttpRequest] and the events;
    [Curl] with [CurlFacts], and [Libcurl]; [SQLite] with [SQLiteColumns] and
    [SQLiteFiles]; [SQLiteFacts] only says what [rows_left] means).  The iteration order of
    [std::unordered_map] is the interface [UnorderedMap]: some permutation.  The
    sign of a NaN price is not modelled.  The HTML and image files themselves but
    for one page are left out.  HTTP between the two programs is [Wire] with
    [WireFacts], libcurl's polling [LibcurlMulti].  The pieces of two bodies are
    not interleaved, on purpose: the handlers read the request object after
    uWebSockets has given it up, so that only a body that comes with its request
    has the behaviour modelled here.

    * Plan

    Next: the answers of [searchServices] against the rows they come from; more
    pages end to end (users, parts, vehicles). *)

From Stdlib Require Export Ascii ZArith Lia.
From stdpp Require Export strings gmap option list fin_maps.


Declare Scope wfa_scope.
Delimit Scope wfa_scope with wfa.

(** ** Texts

    [std::string] and [std::string_view] hold bytes; both are lists of 8-bit
    characters here.  [T "..."] is a C++ string literal. *)

Abbreviation text := (list ascii).

Definition T (s : string) : text := String.list_ascii_of_string s.
#[global] Opaque T.

Definition TAB : ascii := "009"%char.
Definition NEWLINE : ascii := "010"%char.
Definition QUOTE : ascii := "034"%char.

(** [text_eqb] is [operator==] on strings. *)
Definition text_eqb (a b : text) : bool := bool_decide (a = b).

(** ** Outcomes

    The ways a piece of C++ ends: with a value, with an exception of the
    standard library, in a failed [assert], or in undefined behaviour (an
    iterator or index outside its range, a division by zero).  [OutOfFuel] is
    not a behaviour of the program: it marks a bound of the model being too
    small, and the totality theorems show where it cannot arise. *)

Inductive fault :=
  | OutOfRange          (** [std::out_of_range], thrown by [unordered_map::at] and [std::stol] *)
  | BadOptionalAccess   (** thrown by [optional::value] *)
  | BadVariantAccess    (** thrown by [std::get] *)
  | InvalidArgument     (** thrown by [std::stol] *)
  | LengthError         (** thrown by the constructors of [std::string] *)
  | AssertFailed
  | UndefinedBehaviour
  | NeverReturns        (** no fault: the program is inside a loop that has no end *)
  | OutOfFuel.

#[global] Instance fault_eq_dec : EqDecision fault.
Proof. solve_decision. Defined.

Inductive outcome (A : Type) :=
  | Ok (a : A)
  | Raise (e : fault).
Arguments Ok {A} _.
Arguments Raise {A} _.

#[global] Instance outcome_eq_dec `{EqDecision A} : EqDecision (outcome A).
Proof. solve_decision. Defined.

#[global] Instance outcome_ret : MRet outcome := @Ok.
#[global] Instance outcome_bind : MBind outcome := λ A B f m,
  match m with Ok a => f a | Raise e => Raise e end.
#[global] Arguments outcome_bind _ _ _ !_ / : assert.

Lemma bind_Ok {A B} (a : A) (f : A → outcome B) : Ok a ≫= f = f a.
Proof. done. Qed.

Definition is_ok {A} (o : outcome A) : Prop := ∃ a, o = Ok a.

(** [unordered_map::at] and [optional::value]. *)
Definition at_ {A} (o : option A) : outcome A :=
  match o with Some a => Ok a | None => Raise OutOfRange end.
Definition value {A} (o : option A) : outcome A :=
  match o with Some a => Ok a | None => Raise BadOptionalAccess end.
(** [vector::operator[]], which does not check its index. *)
Definition index_ {A} (l : list A) (i : nat) : outcome A :=
  match l !! i with Some a => Ok a | None => Raise UndefinedBehaviour end.
Definition assert_ (b : bool) : outcome unit :=
  if b then Ok tt else Raise AssertFailed.

(** [std::isspace] in the "C" locale. *)
Definition isspace (c : ascii) : bool :=
  bool_decide (c = " "%char) || bool_decide (9 ≤ nat_of_ascii c ∧ nat_of_ascii c ≤ 13)%nat.

(** ** Machine integers

    Unsigned arithmetic wraps; a [static_cast] to [int] (the underlying type of
    a C++ [enum class]) keeps the low 32 bits in two's complement. *)

Definition uwrap (w z : Z) : Z := (z mod 2 ^ w)%Z.
Definition int32 (z : Z) : Z :=
  let m := (z mod 2 ^ 32)%Z in if (m <? 2 ^ 31)%Z then m else (m - 2 ^ 32)%Z.

Lemma uwrap_small w z : (0 ≤ z < 2 ^ w)%Z → uwrap w z = z.
Proof. intros H. by apply Z.mod_small. Qed.

Lemma uwrap_range w z : (0 ≤ w)%Z → (0 ≤ uwrap w z < 2 ^ w)%Z.
Proof. intros Hw. apply Z.mod_pos_bound. lia. Qed.

Lemma int32_small z : (- 2 ^ 31 ≤ z < 2 ^ 31)%Z → int32 z = z.
Proof.
  intros H. unfold int32. destruct (decide (0 ≤ z)%Z).
  - rewrite (Z.mod_small z) by lia. destruct (Z.ltb_spec z (2 ^ 31)); lia.
  - assert (z `mod` 2 ^ 32 = z + 2 ^ 32)%Z as -> by
      (symmetry; apply Z.mod_unique with (-1)%Z; lia).
    destruct (Z.ltb_spec (z + 2 ^ 32) (2 ^ 31)); lia.
Qed.

Lemma int32_range z : (- 2 ^ 31 ≤ int32 z < 2 ^ 31)%Z.
Proof.
  unfold int32. pose proof (Z.mod_pos_bound z (2 ^ 32)).
  destruct (Z.ltb_spec (z `mod` 2 ^ 32) (2 ^ 31)); lia.
Qed.

(** ** Searching texts *)

(** [std::find(it, end, c)]: what precedes the first [c] and the range that
    starts at it; the latter is empty when [find] returns [end]. *)
Fixpoint span_to (c : ascii) (s : text) : text * text :=
  match s with
  | [] => ([], [])
  | x :: s' => if bool_decide (x = c) then ([], s)
               else let '(p, r) := span_to c s' in (x :: p, r)
  end.

(** [if (it != end) ++it]: step over the separator just found, if any. *)
Definition skip1 (s : text) : text := tail s.

(** The pieces of [s] between the separators [c]. *)
Fixpoint split_on (c : ascii) (s : text) : list text :=
  match s with
  | [] => [[]]
  | x :: s' => if bool_decide (x = c) then [] :: split_on c s'
               else match split_on c s' with
                    | p :: ps => (x :: p) :: ps
                    | [] => [[x]]
                    end
  end.

(** The pieces [ps] with the separator [sep] between them. *)
Fixpoint join (sep : text) (ps : list text) : text :=
  match ps with
  | [] => []
  | [p] => p
  | p :: ps => p ++ sep ++ join sep ps
  end.

Fixpoint is_prefix (p s : text) : bool :=
  match p, s with
  | [], _ => true
  | x :: p', y :: s' => bool_decide (x = y) && is_prefix p' s'
  | _ :: _, [] => false
  end.

(** [string_view::find(pat)]: the least position where [pat] occurs. *)
Fixpoint find_sub (pat s : text) : option nat :=
  if is_prefix pat s then Some 0%nat
  else match s with
       | [] => None
       | _ :: s' => S <$> find_sub pat s'
       end.

Lemma span_to_eq c s p r : span_to c s = (p, r) → s = p ++ r.
Proof.
  revert p r. induction s as [|x s IH]; intros p r H; simplify_eq/=; [done|].
  case_bool_decide; simplify_eq/=; [done|].
  destruct (span_to c s) as [p' r'] eqn:E. simplify_eq/=. f_equal. by apply IH.
Qed.

Lemma span_to_fst c s p r : span_to c s = (p, r) → c ∉ p.
Proof.
  revert p r. induction s as [|x s IH]; intros p r H; simplify_eq/=; [set_solver|].
  case_bool_decide; simplify_eq/=; [set_solver|].
  destruct (span_to c s) as [p' r'] eqn:E. simplify_eq/=.
  apply not_elem_of_cons. split; [done|]. by eapply IH.
Qed.

Lemma span_to_snd c s p r : span_to c s = (p, r) → r = [] ∨ ∃ r', r = c :: r'.
Proof.
  revert p r. induction s as [|x s IH]; intros p r H; simplify_eq/=; [by left|].
  case_bool_decide; simplify_eq/=; [by right; eexists|].
  destruct (span_to c s) as [p' r'] eqn:E. simplify_eq/=. by eapply IH.
Qed.

Lemma span_to_found c p r : c ∉ p → span_to c (p ++ c :: r) = (p, c :: r).
Proof.
  induction p as [|x p IH]; intros H; simpl.
  - by rewrite bool_decide_true.
  - rewrite bool_decide_false by set_solver. rewrite IH by set_solver. done.
Qed.

Lemma span_to_absent c s : c ∉ s → span_to c s = (s, []).
Proof.
  induction s as [|x s IH]; intros H; simpl; [done|].
  rewrite bool_decide_false by set_solver. rewrite IH by set_solver. done.
Qed.

Lemma span_to_length c s p r : span_to c s = (p, r) → length s = (length p + length r)%nat.
Proof. intros H. apply span_to_eq in H as ->. by rewrite length_app. Qed.

Lemma split_on_nonempty c s : split_on c s ≠ [].
Proof. destruct s; simpl; [done|]. repeat case_match; done. Qed.

Lemma split_on_span c s :
  split_on c s = match span_to c s with
                 | (p, []) => [p]
                 | (p, _ :: r) => p :: split_on c r
                 end.
Proof.
  induction s as [|x s IH]; simpl; [done|].
  case_bool_decide; [done|]. rewrite IH.
  by destruct (span_to c s) as [p [|y r]].
Qed.

Lemma split_on_absent c s : c ∉ s → split_on c s = [s].
Proof. intros H. by rewrite split_on_span, span_to_absent. Qed.

Lemma split_on_app c p r : c ∉ p → split_on c (p ++ c :: r) = p :: split_on c r.
Proof. intros H. by rewrite split_on_span, span_to_found. Qed.

Lemma join_cons sep p ps : ps ≠ [] → join sep (p :: ps) = p ++ sep ++ join sep ps.
Proof. by destruct ps. Qed.

Lemma split_on_join c ps :
  ps ≠ [] → Forall (λ p, c ∉ p) ps → split_on c (join [c] ps) = ps.
Proof.
  induction ps as [|p ps IH]; intros Hne HF; [done|].
  apply Forall_cons in HF as [Hp HF]. destruct ps as [|p' ps].
  - by apply split_on_absent.
  - rewrite join_cons by done. simpl ([c] ++ _). rewrite split_on_app by done.
    f_equal. by apply IH.
Qed.

Lemma length_skip1 s : (length (skip1 s) ≤ length s)%nat.
Proof. destruct s; simpl; lia. Qed.

Lemma is_prefix_spec p s : is_prefix p s = true ↔ ∃ r, s = p ++ r.
Proof.
  revert s. induction p as [|x p IH]; intros s; simpl; [naive_solver|].
  destruct s as [|y s].
  - split; [done|]. by intros [r ?].
  - rewrite andb_true_iff, bool_decide_eq_true, IH. naive_solver.
Qed.

Lemma is_prefix_app p r : is_prefix p (p ++ r) = true.
Proof. apply is_prefix_spec. by eexists. Qed.

(** A found position really is an occurrence, and a text that contains the
    pattern is found. *)
Lemma find_sub_Some pat s n : find_sub pat s = Some n → ∃ r, drop n s = pat ++ r.
Proof.
  revert n. induction s as [|x s IH]; intros n; simpl.
  - case_match eqn:E; [|done]. intros [= <-]. by apply is_prefix_spec.
  - case_match eqn:E.
    + intros [= <-]. by apply is_prefix_spec.
    + intros H. apply fmap_Some in H as (m & Hm & ->). simpl. by apply IH.
Qed.

Lemma find_sub_app pre pat post : is_Some (find_sub pat (pre ++ pat ++ post)).
Proof.
  induction pre as [|x pre IH]; simpl.
  - assert (is_prefix pat (pat ++ post) = true) as E by apply is_prefix_app.
    destruct (pat ++ post); simpl; by rewrite E.
  - case_match; [done|]. by apply fmap_is_Some.
Qed.

(** Inserting pairs one after the other, as the parsers of key/value lists do,
    builds the map of the pairs when no key repeats. *)
Lemma foldl_insert (kvs : list (text * text)) (m : gmap text text) :
  NoDup kvs.*1 → foldl (λ m kv, <[kv.1 := kv.2]> m) m kvs = list_to_map kvs ∪ m.
Proof.
  revert m. induction kvs as [|[k v] kvs IH]; intros m HN; simpl.
  - by rewrite (left_id_L ∅ (∪)).
  - apply NoDup_cons in HN as [Hn HN]. rewrite IH by done.
    rewrite <- insert_union_r by by apply not_elem_of_list_to_map_1.
    apply insert_union_l.
Qed.

(** ** Automation *)

(** Split every conjunction and existential among the hypotheses. *)
Ltac split_hyps :=
  repeat match goal with
         | H : _ ∧ _ |- _ => destruct H
         | H : ∃ _, _ |- _ => destruct H
         end.

(** Membership in a list that is written out. *)
Ltac one_of := first [by left | right; one_of].

(** Close a decidable goal on concrete data by running its decision procedure. *)
Ltac by_decision :=
  match goal with
  | |- ?P => refine (bool_decide_eq_true_1 P _); vm_compute; reflexivity
  end.

Create HintDb wfa discriminated.
#[export] Hint Resolve split_on_nonempty length_skip1 is_prefix_app find_sub_app : wfa.
