(* ===== verification/CharConv.v ===== *)
(** The number conversions of [<charconv>] and [<string>] the program uses:
    [std::from_chars] into an unsigned integer of a given width (the callers
    look only at whether [ec] is set, never at where the scan stopped) and
    [std::to_string]. *)

From S2P Require Import Prelude.

Definition is_digit (c : ascii) : bool :=
  bool_decide (48 ≤ nat_of_ascii c ∧ nat_of_ascii c ≤ 57)%nat.
Definition digit_val (c : ascii) : Z := Z.of_nat (nat_of_ascii c) - 48.
Definition digit_of (d : Z) : ascii := ascii_of_nat (Z.to_nat (48 + d)).

(** The digits at the front of [s]. *)
Fixpoint take_digits (s : text) : text :=
  match s with
  | c :: s' => if is_digit c then c :: take_digits s' else []
  | [] => []
  end.

Definition digits_value (ds : text) : Z :=
  foldl (λ acc c, 10 * acc + digit_val c)%Z 0%Z ds.

(** [from_chars(first, last, uintW_t&)]: no digit is [invalid_argument], a value
    that does not fit is [result_out_of_range]; both are [None]. *)
Definition from_chars_uint (w : Z) (s : text) : option Z :=
  let ds := take_digits s in
  let v := digits_value ds in
  if bool_decide (ds = []) then None
  else if (v <? 2 ^ w)%Z then Some v else None.

Fixpoint dec_digits (fuel : nat) (n : Z) : text :=
  match fuel with
  | O => []
  | S fuel' => if (n <? 10)%Z then [digit_of n]
               else dec_digits fuel' (n / 10) ++ [digit_of (n mod 10)]
  end.

Definition dec_uint (n : Z) : text := dec_digits (S (Z.to_nat (Z.log2 n))) n.

(** [std::to_string] of an integer. *)
Definition to_string (n : Z) : text :=
  if (n <? 0)%Z then "-"%char :: dec_uint (- n) else dec_uint n.

(** ** Digits *)

Lemma digit_of_val d : (0 ≤ d < 10)%Z → digit_val (digit_of d) = d.
Proof.
  intros H. unfold digit_val, digit_of. rewrite nat_ascii_embedding by lia. lia.
Qed.

Lemma digit_of_is_digit d : (0 ≤ d < 10)%Z → is_digit (digit_of d) = true.
Proof.
  intros H. unfold is_digit, digit_of. rewrite nat_ascii_embedding by lia.
  apply bool_decide_eq_true. lia.
Qed.

Lemma digit_val_range c : is_digit c = true → (0 ≤ digit_val c < 10)%Z.
Proof. unfold is_digit, digit_val. rewrite bool_decide_eq_true. lia. Qed.

Lemma digits_value_app a b :
  digits_value (a ++ b) = foldl (λ acc c, 10 * acc + digit_val c)%Z (digits_value a) b.
Proof. apply foldl_app. Qed.

Lemma digits_value_snoc a c : digits_value (a ++ [c]) = (10 * digits_value a + digit_val c)%Z.
Proof. by rewrite digits_value_app. Qed.

Lemma take_digits_all s : Forall (λ c, is_digit c = true) (take_digits s).
Proof.
  induction s as [|c s IH]; simpl; [by constructor|].
  destruct (is_digit c) eqn:E; by constructor.
Qed.

Lemma take_digits_app ds r :
  Forall (λ c, is_digit c = true) ds → (∀ c r', r = c :: r' → is_digit c = false) →
  take_digits (ds ++ r) = ds.
Proof.
  intros Hds Hr. induction Hds as [|c ds Hc _ IH]; simpl.
  - destruct r as [|c r]; simpl; [done|]. by rewrite (Hr c r).
  - by rewrite Hc, IH.
Qed.

Lemma digits_value_nonneg ds :
  Forall (λ c, is_digit c = true) ds → (0 ≤ digits_value ds)%Z.
Proof.
  induction ds as [|c ds IH] using rev_ind; intros H; [done|].
  apply Forall_app in H as [H Hc]. apply Forall_cons in Hc as [Hc _].
  rewrite digits_value_snoc. pose proof (digit_val_range c Hc). specialize (IH H). lia.
Qed.

Lemma dec_digits_spec fuel n :
  (0 ≤ n < 2 ^ Z.of_nat fuel)%Z →
  Forall (λ c, is_digit c = true) (dec_digits fuel n) ∧
  digits_value (dec_digits fuel n) = n.
Proof.
  revert n. induction fuel as [|fuel IH]; intros n Hn.
  { simpl in *. split; [constructor|]. change (0 = n)%Z. lia. }
  cbn [dec_digits]. destruct (Z.ltb_spec n 10).
  - split; [repeat constructor; apply digit_of_is_digit; lia|].
    unfold digits_value. simpl. rewrite digit_of_val; lia.
  - rewrite Nat2Z.inj_succ, Z.pow_succ_r in Hn by lia.
    destruct (IH (n / 10)%Z) as [HF Hv].
    { split; [apply Z.div_pos; lia|].
      apply Z.div_lt_upper_bound; lia. }
    pose proof (Z.mod_pos_bound n 10).
    split.
    + apply Forall_app. split; [done|]. repeat constructor. apply digit_of_is_digit; lia.
    + rewrite digits_value_snoc, Hv, digit_of_val by lia.
      pose proof (Z.div_mod n 10). lia.
Qed.

Lemma dec_uint_spec n :
  (0 ≤ n)%Z → Forall (λ c, is_digit c = true) (dec_uint n) ∧ digits_value (dec_uint n) = n.
Proof.
  intros Hn. apply dec_digits_spec. split; [done|].
  rewrite Nat2Z.inj_succ. destruct (decide (n = 0)%Z) as [->|]; [done|].
  rewrite Z2Nat.id by apply Z.log2_nonneg. apply Z.log2_spec. lia.
Qed.

Lemma dec_uint_nonempty n : dec_uint n ≠ [].
Proof.
  unfold dec_uint. cbn [dec_digits]. case_match; [done|].
  by destruct (dec_digits _ _).
Qed.

Lemma to_string_nonneg n : (0 ≤ n)%Z → to_string n = dec_uint n.
Proof. intros H. unfold to_string. destruct (Z.ltb_spec n 0); [lia|done]. Qed.

Lemma to_string_digits n :
  (0 ≤ n)%Z → Forall (λ c, is_digit c = true) (to_string n).
Proof. intros H. rewrite to_string_nonneg by done. by apply dec_uint_spec. Qed.

Lemma to_string_nonempty n : to_string n ≠ [].
Proof. unfold to_string. case_match; [done|]. apply dec_uint_nonempty. Qed.

(** ** The conversions *)

(** Only the digits at the front matter. *)
Lemma from_chars_uint_app w ds r :
  ds ≠ [] → Forall (λ c, is_digit c = true) ds →
  (∀ c r', r = c :: r' → is_digit c = false) →
  from_chars_uint w (ds ++ r) = if (digits_value ds <? 2 ^ w)%Z then Some (digits_value ds) else None.
Proof.
  intros Hne Hds Hr. unfold from_chars_uint. rewrite take_digits_app by done.
  by rewrite bool_decide_false.
Qed.

(** Whatever the text, a value [from_chars] reads fits its width, so the
    cast and the comparisons that follow never see a larger one. *)
Lemma from_chars_uint_range w s n :
  from_chars_uint w s = Some n → (0 ≤ n < 2 ^ w)%Z.
Proof.
  unfold from_chars_uint. case_bool_decide; [done|].
  destruct (Z.ltb_spec (digits_value (take_digits s)) (2 ^ w)); intros [= <-].
  split; [|done]. apply digits_value_nonneg, take_digits_all.
Qed.

Lemma from_chars_uint_to_string w n r :
  (0 ≤ n < 2 ^ w)%Z → (∀ c r', r = c :: r' → is_digit c = false) →
  from_chars_uint w (to_string n ++ r) = Some n.
Proof.
  intros Hn Hr. rewrite to_string_nonneg by lia.
  destruct (dec_uint_spec n) as [HF Hv]; [lia|].
  rewrite from_chars_uint_app by (done || apply dec_uint_nonempty).
  rewrite Hv. destruct (Z.ltb_spec n (2 ^ w)); [done|lia].
Qed.

Lemma to_string_inj n m : (0 ≤ n)%Z → (0 ≤ m)%Z → to_string n = to_string m → n = m.
Proof.
  intros Hn Hm H. rewrite !to_string_nonneg in H by done.
  rewrite <- (proj2 (dec_uint_spec n Hn)), <- (proj2 (dec_uint_spec m Hm)). by rewrite H.
Qed.
