(* ===== verification/Query.v ===== *)
(** Shared/include/Query.h: URL-encoded key/value lists ("a=1&b=2"), used both
    for the query string of a URL and for the body of a form POST.

    libcurl's percent-decoding is not part of the repository: it is the
    operation of the interface [Curl], and nothing is assumed of it except in
    the round-trip theorem, which names what it relies on. *)

From S2P Require Import Prelude.

Class Curl := { curl_easy_unescape : text → text }.

(** [std::replace(.., '+', ' ')]. *)
Definition plus_to_space (s : text) : text :=
  (λ c : ascii, if bool_decide (c = "+"%char) then " "%char else c) <$> s.

Record queryBase := { elements : gmap text text }.

Definition emptyQuery : queryBase := {| elements := ∅ |}.

Section query.
Context `{Curl}.

(** One "name=value" segment, i.e. one round of the loop of [parseURLValues]
    between two separators. *)
Definition parseSegment (seg : text) (ret : gmap text text) : gmap text text :=
  let '(id, rest) := span_to "="%char seg in
  match rest with
  | _ :: _ :: _ =>
      <[id := curl_easy_unescape (plus_to_space (skip1 rest))]> ret
  | _ => <[id := []]> ret
  end.

(** The [while (it != source.cend())] loop; [fuel] bounds the rounds. *)
Fixpoint parseLoop (fuel : nat) (it : text) (ret : gmap text text) : gmap text text :=
  match fuel with
  | O => ret
  | S fuel' =>
      match it with
      | [] => ret
      | _ => let '(seg, rest) := span_to "&"%char it in
             parseLoop fuel' (skip1 rest) (parseSegment seg ret)
      end
  end.

Definition parseURLValues (source : text) : gmap text text :=
  parseLoop (length source) source ∅.

(** The constructors of [query] and [body]. *)
Definition mkQuery (source : text) : queryBase := {| elements := parseURLValues source |}.
End query.

Definition hasElement (q : queryBase) (name : text) (allowEmpty : bool) : bool :=
  match elements q !! name with
  | None => false
  | Some v => allowEmpty || negb (bool_decide (v = []))
  end.

(** [elements.at(name)] throws when the name is missing. *)
Definition getElement (q : queryBase) (name : text) : outcome text :=
  at_ (elements q !! name).

Fixpoint containsAll (q : queryBase) (names : list text) (allowEmpty : bool) : bool :=
  match names with
  | [] => true
  | i :: names' => if negb (hasElement q i allowEmpty) then false
                   else containsAll q names' allowEmpty
  end.

Fixpoint containsAny (q : queryBase) (names : list text) (allowEmpty : bool) : bool :=
  match names with
  | [] => false
  | i :: names' => if hasElement q i allowEmpty then true
                   else containsAny q names' allowEmpty
  end.

(** ** Access *)

Lemma hasElement_true q name e :
  hasElement q name e = true ↔
  ∃ v, elements q !! name = Some v ∧ (e = true ∨ v ≠ []).
Proof.
  unfold hasElement. destruct (elements q !! name) as [v|]; [|naive_solver].
  rewrite orb_true_iff, negb_true_iff, bool_decide_eq_false. naive_solver.
Qed.

Lemma containsAll_true q names e :
  containsAll q names e = true ↔ Forall (λ n, hasElement q n e = true) names.
Proof.
  induction names as [|n names IH]; simpl; [by split|].
  destruct (hasElement q n e) eqn:E; simpl.
  - rewrite IH. split; [by constructor|]. intros HF. by apply Forall_cons in HF as [].
  - split; [done|]. intros HF. apply Forall_cons in HF as []. congruence.
Qed.

Lemma containsAny_true q names e :
  containsAny q names e = true ↔ Exists (λ n, hasElement q n e = true) names.
Proof.
  induction names as [|n names IH]; simpl; [split; [done|intros ?%Exists_nil; done]|].
  rewrite Exists_cons. destruct (hasElement q n e) eqn:E.
  - split; [by left|done].
  - rewrite IH. naive_solver.
Qed.

Lemma hasElement_get q name e :
  hasElement q name e = true → ∃ v, getElement q name = Ok v ∧ (e = true ∨ v ≠ []).
Proof.
  intros (v & Hv & ?)%hasElement_true. exists v. unfold getElement. by rewrite Hv.
Qed.

Lemma hasElement_get_nonempty q name :
  hasElement q name false = true → ∃ v, getElement q name = Ok v ∧ v ≠ [].
Proof. intros (v & ? & [?|?])%hasElement_get; [done|eauto]. Qed.

(** ** The parser against a specification by splitting *)

Section spec.
Context `{Curl}.

(** The segments the loop visits: the pieces between the ['&']s, without the
    empty piece after a final ['&'] (or of an empty source). *)
Definition segments (s : text) : list text :=
  let ps := split_on "&"%char s in
  if bool_decide (last ps = Some []) then removelast ps else ps.

Lemma segments_cons p r :
  "&"%char ∉ p → segments (p ++ "&"%char :: r) = p :: segments r.
Proof.
  intros Hp. unfold segments. rewrite split_on_app by done.
  pose proof (split_on_nonempty "&"%char r) as Hne.
  destruct (split_on "&"%char r) as [|a l]; [done|].
  simpl. repeat case_bool_decide; done.
Qed.

Lemma parseLoop_segments fuel s ret :
  (length s ≤ fuel)%nat → parseLoop fuel s ret = foldl (λ m seg, parseSegment seg m) ret (segments s).
Proof.
  revert s ret. induction fuel as [|fuel IH]; intros s ret Hlen.
  - by destruct s; simpl in Hlen; [|lia].
  - destruct s as [|x s]; [done|]. cbn [parseLoop].
    destruct (span_to "&"%char (x :: s)) as [seg rest] eqn:E.
    pose proof (span_to_length _ _ _ _ E) as Hl.
    pose proof (span_to_fst _ _ _ _ E) as Hf.
    pose proof (span_to_eq _ _ _ _ E) as Heq.
    destruct (span_to_snd _ _ _ _ E) as [->|[r' ->]].
    + rewrite app_nil_r in Heq. rewrite Heq.
      unfold segments. rewrite split_on_absent by done. simpl.
      rewrite bool_decide_false by (intros [= ?]; congruence). simpl.
      rewrite IH by (simpl; lia). done.
    + rewrite Heq, segments_cons by done. simpl.
      apply IH. simpl in Hl. simpl in Hlen. lia.
Qed.

Theorem parseURLValues_segments s :
  parseURLValues s = foldl (λ m seg, parseSegment seg m) ∅ (segments s).
Proof. by apply parseLoop_segments. Qed.

(** *** Encoding and decoding *)

Definition encodeSegment (enc : text → text) (kv : text * text) : text :=
  enc kv.1 ++ "="%char :: enc kv.2.
Definition encodeFields (enc : text → text) (kvs : list (text * text)) : text :=
  join ["&"%char] (encodeSegment enc <$> kvs).

(** What the round trip needs of an encoder: it leaves no separator in a name or
    value, and decoding undoes it. *)
Record encoder_ok (enc : text → text) : Prop := {
  enc_amp : ∀ v, "&"%char ∉ enc v;
  enc_eq : ∀ v, "="%char ∉ enc v;
  enc_dec : ∀ v, curl_easy_unescape (plus_to_space (enc v)) = v;
  enc_nil : ∀ v, enc v = [] → v = [];
}.

Lemma enc_inj enc : encoder_ok enc → Inj (=) (=) enc.
Proof. intros He v1 v2 E. by rewrite <- (enc_dec _ He v1), <- (enc_dec _ He v2), E. Qed.

(** The name of a field is taken as it stands, the value is decoded. *)
Lemma parseSegment_encode enc k v m :
  encoder_ok enc → parseSegment (encodeSegment enc (k, v)) m = <[enc k := v]> m.
Proof.
  intros He. unfold parseSegment, encodeSegment. simpl.
  rewrite span_to_found by by apply enc_eq. simpl.
  destruct (enc v) as [|c s] eqn:E.
  - by rewrite (enc_nil _ He v E).
  - by rewrite <- E, enc_dec.
Qed.

Lemma encodeSegment_sep enc kv : encoder_ok enc → "&"%char ∉ encodeSegment enc kv.
Proof.
  intros He. unfold encodeSegment.
  rewrite not_elem_of_app, not_elem_of_cons. split_and!; [by apply enc_amp|done|by apply enc_amp].
Qed.

Lemma segments_encode enc kvs :
  encoder_ok enc → segments (encodeFields enc kvs) = encodeSegment enc <$> kvs.
Proof.
  intros He. induction kvs as [|kv kvs IH]; [done|].
  unfold encodeFields in *. rewrite fmap_cons. destruct kvs as [|kv' kvs].
  - simpl. unfold segments. rewrite split_on_absent by by apply encodeSegment_sep.
    simpl. rewrite bool_decide_false; [done|]. unfold encodeSegment.
    intros [= Heq]. by destruct (enc kv.1).
  - rewrite join_cons by done. simpl (["&"%char] ++ _). rewrite segments_cons by by apply encodeSegment_sep.
    f_equal. exact IH.
Qed.

Lemma parseURLValues_encoder enc kvs :
  encoder_ok enc → NoDup kvs.*1 →
  parseURLValues (encodeFields enc kvs) = list_to_map (prod_map enc id <$> kvs).
Proof.
  intros He HN. rewrite parseURLValues_segments, segments_encode by done.
  assert (∀ m, foldl (λ m seg, parseSegment seg m) m (encodeSegment enc <$> kvs)
               = foldl (λ m kv, <[kv.1 := kv.2]> m) m (prod_map enc id <$> kvs)) as ->.
  { clear HN. induction kvs as [|[k v] kvs IH]; intros m; [done|].
    simpl. by rewrite parseSegment_encode, IH. }
  rewrite foldl_insert, (right_id_L ∅ (∪)); [done|].
  replace ((prod_map enc id <$> kvs).*1) with (enc <$> kvs.*1); [|by rewrite <- !list_fmap_compose].
  apply NoDup_fmap_2; [by apply enc_inj|done].
Qed.
End spec.

(** ** The encoding of forms

    Browsers send the names and values of a form in the media type
    application/x-www-form-urlencoded: letters, digits and [*-._] as they are, a
    space as a plus sign, every other byte as a percent sign and two hexadecimal
    digits. *)

Definition hex_digit (n : nat) : ascii :=
  ascii_of_nat (if bool_decide (n < 10)%nat then 48 + n else 55 + n).
Definition hex_code (c : ascii) : text :=
  let n := nat_of_ascii c in [hex_digit (n / 16); hex_digit (n mod 16)].

Definition unreserved (c : ascii) : bool :=
  let n := nat_of_ascii c in
  bool_decide ((48 ≤ n ∧ n ≤ 57) ∨ (65 ≤ n ∧ n ≤ 90) ∨ (97 ≤ n ∧ n ≤ 122))%nat ||
  bool_decide (c ∈ T "*-._").

Definition formEncodeChar (c : ascii) : text :=
  if unreserved c then [c]
  else if bool_decide (c = " "%char) then ["+"%char]
  else "%"%char :: hex_code c.
Definition formEncode (v : text) : text := v ≫= formEncodeChar.

(** [curl_easy_unescape] as its manual describes it: percent codes become the
    byte they stand for, all other bytes stay. *)
Class CurlFacts `{Curl} := {
  unescape_nil : curl_easy_unescape [] = [];
  unescape_plain c s : c ≠ "%"%char → curl_easy_unescape (c :: s) = c :: curl_easy_unescape s;
  unescape_code c s : curl_easy_unescape ("%"%char :: hex_code c ++ s) = c :: curl_easy_unescape s;
}.

(** A decidable statement about bytes, settled by trying all 256. *)
Lemma by_bytes (P : ascii → Prop) `{∀ c, Decision (P c)} :
  forallb (λ n, bool_decide (P (ascii_of_nat n))) (seq 0 256) = true → ∀ c, P c.
Proof.
  intros HP c. rewrite forallb_forall in HP. rewrite <- (ascii_nat_embedding c).
  eapply bool_decide_eq_true_1, (HP (nat_of_ascii c)), in_seq. pose proof (nat_ascii_bounded c). lia.
Qed.

Ltac all_bytes :=
  lazymatch goal with |- ∀ c, @?P c => apply (by_bytes P) end; vm_compute; done.

Lemma formEncodeChar_sep c : "&"%char ∉ formEncodeChar c ∧ "="%char ∉ formEncodeChar c.
Proof. revert c. all_bytes. Qed.

Lemma formEncode_plain k : Forall (λ c, unreserved c = true) k → formEncode k = k.
Proof.
  induction 1 as [|c k Hc _ IH]; [done|].
  change (formEncode (c :: k)) with (formEncodeChar c ++ formEncode k). rewrite IH.
  unfold formEncodeChar. by rewrite Hc.
Qed.

Lemma plus_to_space_code c : plus_to_space ("%"%char :: hex_code c) = "%"%char :: hex_code c.
Proof. revert c. all_bytes. Qed.

Lemma plus_to_space_unreserved c : unreserved c = true → plus_to_space [c] = [c] ∧ c ≠ "%"%char.
Proof. revert c. all_bytes. Qed.

Section form.
Context `{CurlFacts}.

Lemma unescape_char c s :
  curl_easy_unescape (plus_to_space (formEncodeChar c) ++ s) = c :: curl_easy_unescape s.
Proof.
  unfold formEncodeChar. destruct (unreserved c) eqn:Hu.
  - destruct (plus_to_space_unreserved c Hu) as [-> Hp]. by apply unescape_plain.
  - case_bool_decide as Hs; [subst; by apply unescape_plain|].
    rewrite plus_to_space_code. apply unescape_code.
Qed.

Lemma formEncode_ok : encoder_ok formEncode.
Proof.
  assert (∀ (c : ascii), (∀ x, c ∉ formEncodeChar x) → ∀ v, c ∉ formEncode v) as Hsep.
  { intros c Hc v. unfold formEncode. rewrite list_elem_of_bind. intros (x & Hx & _). by destruct (Hc x). }
  split.
  - apply Hsep. intros x. apply formEncodeChar_sep.
  - apply Hsep. intros x. apply formEncodeChar_sep.
  - intros v. induction v as [|c v IH]; [apply unescape_nil|].
    unfold formEncode, plus_to_space in *. simpl. rewrite fmap_app.
    pose proof (unescape_char c) as Hc. unfold plus_to_space in Hc. rewrite Hc. by f_equal.
  - intros [|c v]; [done|]. unfold formEncode. simpl. unfold formEncodeChar.
    destruct (unreserved c); [done|]. by case_bool_decide.
Qed.

(** C28: what a browser sends for a form with distinct names is read back value by
    value, whatever bytes the values hold, each under its name as it was sent: a name of letters,
    digits and [*-._] is the name of the field, any other is left encoded. *)
Theorem parseURLValues_form kvs :
  NoDup kvs.*1 →
  parseURLValues (encodeFields formEncode kvs) = list_to_map (prod_map formEncode id <$> kvs) ∧
  ∀ k v, (k, v) ∈ kvs → parseURLValues (encodeFields formEncode kvs) !! formEncode k = Some v ∧
    (Forall (λ c, unreserved c = true) k → formEncode k = k).
Proof.
  intros HN. pose proof (parseURLValues_encoder formEncode kvs formEncode_ok HN) as E. split; [done|].
  intros k v Hkv. split; [|apply formEncode_plain]. rewrite E. apply elem_of_list_to_map_1.
  - replace ((prod_map formEncode id <$> kvs).*1) with (formEncode <$> kvs.*1); [|by rewrite <- !list_fmap_compose].
    apply NoDup_fmap_2; [apply enc_inj, formEncode_ok|done].
  - apply list_elem_of_fmap. by exists (k, v).
Qed.
End form.
