(* ===== verification/ResponseSpec.v ===== *)
(** What [responseWrapper] promises: a compositional description of the text
    [toData] builds by appending and erasing, and the round trip through
    [fromData]. *)

From S2P Require Import Prelude Response.

(** ** The printed text, compositionally *)

Definition padding (pad : bool) (c : ascii) (n : nat) : text :=
  if pad then replicate n c else [].
Arguments padding : simpl never.

Definition comma_join (pad : bool) (ps : list text) : text :=
  match ps with
  | [] => []
  | _ => join (T "," ++ padding pad NEWLINE 1) ps ++ padding pad NEWLINE 1
  end.

Definition renderString (depth : nat) (v : text) (prespace pad : bool) : text :=
  (if prespace then padding pad TAB depth else []) ++
  (if pad then [QUOTE] ++ v ++ [QUOTE] else v).

Definition renderContainer {V} (f : nat → V → bool → text) (depth : nat) (l : list V)
    (forced pad : bool) : text :=
  match l with
  | [] => []
  | v :: l' =>
      if bool_decide (1 < length l) || forced then
        T "[" ++ padding pad NEWLINE 1 ++ comma_join pad ((λ v, f (S depth) v true) <$> l) ++
        padding pad TAB depth ++ T "]"
      else f depth v false
  end.

Section renderField.
Context (renderObject : nat → responseWrapper → bool → text) (pad : bool) (depth : nat).

Definition renderField (kc : text * elementContainer) (forced : bool) : text :=
  padding pad TAB depth ++ kc.1 ++ T ":" ++ padding pad " "%char 1 ++
  match kc.2 with
  | Strings l => renderContainer (λ d v pre, renderString d v pre pad) depth l forced pad
  | Objects l => renderContainer renderObject depth l forced pad
  end.
End renderField.

Fixpoint render (pad : bool) (w : responseWrapper) (depth : nat) (prespace : bool) : text :=
  let 'RW els fs := w in
  (if prespace then padding pad TAB depth else []) ++ T "{" ++ padding pad NEWLINE 1 ++
  comma_join pad (zip_with (renderField (λ d v pre, render pad v d pre) pad (S depth)) els fs) ++
  padding pad TAB depth ++ T "}".

Lemma addPadding_app pad src c n : addPadding pad src c n = src ++ padding pad c n.
Proof. unfold addPadding, padding. destruct pad; [done|]. by rewrite app_nil_r. Qed.

Lemma stringToData_app src d v pre pad :
  stringToData src d v pre pad = src ++ renderString d v pre pad.
Proof.
  unfold stringToData, renderString, padding.
  destruct pre, pad; simpl; by rewrite <- ?app_assoc.
Qed.

Lemma erase_last_comma_app src pad :
  erase_last_comma (src ++ T "," ++ padding pad NEWLINE 1) pad = src ++ padding pad NEWLINE 1.
Proof.
  unfold erase_last_comma, padding. change (T ",") with [","%char]. rewrite !length_app.
  destruct pad; simpl.
  - replace (length src + 2 - 2)%nat with (length src) by lia.
    replace (S (length src)) with (length (src ++ [","%char])) by (rewrite length_app; simpl; lia).
    rewrite take_app_length. f_equal.
    change (src ++ [","%char; NEWLINE]) with (src ++ [","%char] ++ [NEWLINE]).
    by rewrite app_assoc, drop_app_length.
  - replace (length src + 1 - 1)%nat with (length src) by lia.
    replace (S (length src)) with (length (src ++ [","%char])) by (rewrite length_app; simpl; lia).
    by rewrite take_app_length, drop_all.
Qed.

(** A loop that appends [f x ++ ","] for every element and then erases the
    last comma builds the comma-separated list. *)
Definition trailing (pad : bool) (ps : list text) : text :=
  concat ((λ p, p ++ T "," ++ padding pad NEWLINE 1) <$> ps).

Lemma erase_trailing src pad ps :
  ps ≠ [] → erase_last_comma (src ++ trailing pad ps) pad = src ++ comma_join pad ps.
Proof.
  intros Hne. revert src. induction ps as [|p ps IH]; intros src; [done|]. clear Hne.
  destruct ps as [|p' ps].
  - transitivity (erase_last_comma ((src ++ p) ++ T "," ++ padding pad NEWLINE 1) pad).
    + f_equal. unfold trailing. simpl. by rewrite app_nil_r, <- !app_assoc.
    + rewrite erase_last_comma_app. simpl. by rewrite <- !app_assoc.
  - transitivity (erase_last_comma
                    ((src ++ p ++ T "," ++ padding pad NEWLINE 1) ++ trailing pad (p' :: ps)) pad).
    + f_equal. unfold trailing. simpl. by rewrite <- !app_assoc.
    + rewrite IH by done. simpl. by rewrite <- !app_assoc.
Qed.

Section container.
Context {V : Type} (elementToData : text → nat → V → bool → bool → outcome text).
Context (f : nat → V → bool → text) (pad : bool).

Definition appends (v : V) : Prop :=
  ∀ src d pre, elementToData src d v pre pad = Ok (src ++ f d v pre).

Lemma containerLoop_app src depth values :
  Forall appends values →
  containerLoop elementToData src depth values pad =
    Ok (src ++ trailing pad ((λ v, f (S depth) v true) <$> values)).
Proof.
  intros HF. revert src. induction HF as [|v values Hv _ IH]; intros src; simpl.
  - by rewrite app_nil_r.
  - rewrite Hv. simpl. rewrite IH, addPadding_app. unfold trailing. rewrite fmap_cons. simpl.
    by rewrite <- !app_assoc.
Qed.

Lemma containerToData_app src depth values forced :
  values ≠ [] → Forall appends values →
  containerToData elementToData src depth values forced pad =
    Ok (src ++ renderContainer f depth values forced pad).
Proof.
  intros Hne HF. unfold containerToData, renderContainer.
  destruct values as [|v values]; [done|]. case_match.
  - rewrite containerLoop_app by done. cbn [mbind outcome_bind].
    rewrite !addPadding_app, erase_trailing by done. by rewrite <- !app_assoc.
  - apply Forall_cons in HF as [Hv _]. apply Hv.
Qed.
End container.

Section fields.
Context (printObject : text → nat → responseWrapper → bool → bool → outcome text).
Context (renderObject : nat → responseWrapper → bool → text) (pad : bool).

Lemma fieldsLoop_app fs els i src depth :
  length els = length (drop i fs) →
  Forall (λ kc, wf_container kc.2) els →
  Forall (λ kc, container_all (appends printObject renderObject pad) kc.2) els →
  fieldsLoop printObject fs els i src depth pad =
    Ok (src ++ trailing pad (zip_with (renderField renderObject pad depth) els (drop i fs))).
Proof.
  revert i src. induction els as [|[k c] els IH]; intros i src Hlen Hwf Hall.
  { simpl. by rewrite app_nil_r. }
  apply Forall_cons in Hwf as [Hc Hwf]. apply Forall_cons in Hall as [Ha Hall].
  destruct (drop i fs) as [|b fs'] eqn:Hd; [done|].
  assert (fs !! i = Some b) as Hb by by rewrite <- (Nat.add_0_r i), <- lookup_drop, Hd.
  assert (fs' = drop (S i) fs) as Hd' by (by rewrite (drop_S fs b i) in Hd; simplify_eq).
  simpl. unfold index_. rewrite Hb. simpl. rewrite !addPadding_app.
  set (pre := ((_ ++ k) ++ _) ++ _).
  assert ((match c with
    | Strings l => containerToData (λ src d v pre pad, Ok (stringToData src d v pre pad)) pre depth l b pad
    | Objects l => containerToData printObject pre depth l b pad
    end) = Ok (src ++ renderField renderObject pad depth (k, c) b)) as ->.
  { unfold renderField. subst pre. destruct c as [l|l]; inversion Hc; subst; simpl.
    - rewrite (containerToData_app _ (λ d v pre, renderString d v pre pad)).
      + by rewrite <- !app_assoc.
      + done.
      + apply Forall_true. intros v ???. by rewrite stringToData_app.
    - rewrite (containerToData_app _ renderObject) by done. by rewrite <- !app_assoc. }
  simpl. rewrite IH by (rewrite <- ?Hd'; simpl in *; (lia || done)).
  rewrite addPadding_app, <- Hd'. unfold trailing. simpl. by rewrite <- !app_assoc.
Qed.
End fields.

(** on a well-formed wrapper the printer neither fails nor depends on what
    it appends to: it appends exactly the rendered text. *)
Theorem toData_render w src depth prespace pad :
  wf w → toData_ w src depth prespace pad = Ok (src ++ render pad w depth prespace).
Proof.
  revert src depth prespace. induction w as [els fs IH] using wrapper_ind.
  intros src depth prespace Hw. inversion Hw as [? ? Hlen HF]; subst.
  simpl. rewrite !addPadding_app.
  rewrite (fieldsLoop_app _ (λ d v pre, render pad v d pre)); [|done|done|].
  - simpl. rewrite drop_0. rewrite !addPadding_app. case_bool_decide as Hels.
    + subst els. simpl. destruct prespace; simpl; by rewrite ?app_nil_r, <- ?app_assoc.
    + rewrite erase_trailing by (by destruct els, fs).
      destruct prespace; simpl; by rewrite ?addPadding_app, <- ?app_assoc.
  - apply Forall_forall. intros [k c] Hin. rewrite Forall_forall in IH, HF.
    specialize (IH _ Hin). specialize (HF _ Hin). destruct c as [l|l]; simpl in *; [done|].
    inversion HF; subst. apply Forall_forall. intros v Hv ???.
    rewrite Forall_forall in IH. apply (IH v Hv). by eapply Forall_forall in Hv.
Qed.

(** ** The unpadded form *)

Definition listText (l : list text) (forced : bool) : text :=
  match l with
  | [] => []
  | v :: _ => if bool_decide (1 < length l) || forced then T "[" ++ join (T ",") l ++ T "]" else v
  end.

Definition compact (w : responseWrapper) : text := render false w 0 false.

Definition fieldText (kc : text * elementContainer) (forced : bool) : text :=
  kc.1 ++ T ":" ++ listText (match kc.2 with Strings l => l | Objects l => compact <$> l end) forced.

Definition body (w : responseWrapper) : text :=
  join (T ",") (zip_with fieldText (elements_of w) (forcedArrays_of w)).

Lemma comma_join_compact ps : comma_join false ps = join (T ",") ps.
Proof. unfold comma_join, padding. rewrite !app_nil_r. by destruct ps. Qed.

Lemma renderContainer_compact {V} (f : nat → V → bool → text) (g : V → text) depth l forced :
  Forall (λ v, ∀ d pre, f d v pre = g v) l →
  renderContainer f depth l forced false = listText (g <$> l) forced.
Proof.
  intros HF. unfold renderContainer, listText. destruct l as [|v l]; [done|].
  assert ((λ v, f (S depth) v true) <$> (v :: l) = g <$> (v :: l)) as ->.
  { apply list_fmap_ext. intros i x Hx. rewrite Forall_forall in HF.
    apply HF, list_elem_of_lookup. by exists i. }
  rewrite length_fmap. cbn [fmap list_fmap]. case_match.
  - by rewrite comma_join_compact.
  - by apply Forall_cons in HF as [-> _].
Qed.

Lemma render_compact w depth prespace : render false w depth prespace = compact w.
Proof.
  revert depth prespace. unfold compact. induction w as [els fs IH] using wrapper_ind.
  intros depth prespace. simpl. rewrite !comma_join_compact.
  assert (Hf : ∀ d, zip_with (renderField (λ d v pre, render false v d pre) false d) els fs
                  = zip_with fieldText els fs).
  { intros d. revert fs. induction IH as [|[k c] els Hc _ IH]; intros [|b fs]; simpl; [done..|].
    rewrite IH. f_equal. unfold renderField, fieldText. simpl. do 2 f_equal.
    destruct c as [l|l]; simpl in Hc.
    - rewrite (renderContainer_compact _ id); [by rewrite list_fmap_id|].
      apply Forall_true. by intros ? ? [].
    - apply renderContainer_compact. eapply Forall_impl; [done|]. auto. }
  rewrite !Hf. by destruct prespace.
Qed.

Lemma compact_eq w : compact w = T "{" ++ body w ++ T "}".
Proof.
  destruct w as [els fs]. unfold compact, body. simpl. rewrite comma_join_compact.
  do 3 f_equal. clear. revert fs.
  induction els as [|[k c] els IH]; intros [|b fs]; simpl; [done..|]. rewrite IH. f_equal.
  unfold renderField, fieldText. simpl. do 2 f_equal. destruct c as [l|l].
  - rewrite (renderContainer_compact _ id); [by rewrite list_fmap_id|].
    apply Forall_true. by intros ? ? [].
  - apply renderContainer_compact, Forall_true. intros v ??. apply render_compact.
Qed.

(** ** Bracket matching *)

(** A text the scan for the closing bracket passes over, whatever its depth. *)
Definition neutral (open close : ascii) (s : text) : Prop :=
  ∀ d rest, (0 ≤ d)%Z → (d + Z.of_nat (length s) < 2 ^ 64)%Z →
    match_loop open close d (s ++ rest) = prod_map (app s) id <$> match_loop open close d rest.

Section neutral.
Context (open close : ascii) (Hoc : open ≠ close).
Abbreviation neutral := (neutral open close).

Lemma neutral_nil : neutral [].
Proof. intros d rest _ _. simpl. by destruct (match_loop _ _ _ _) as [[]|]. Qed.

Lemma neutral_app s1 s2 : neutral s1 → neutral s2 → neutral (s1 ++ s2).
Proof.
  intros H1 H2 d rest Hd Hl. rewrite length_app in Hl.
  rewrite <- app_assoc, H1, H2 by lia.
  destruct (match_loop _ _ _ rest) as [[p q]|]; simpl; [|done]. by rewrite <- app_assoc.
Qed.

Lemma neutral_chars s : open ∉ s → close ∉ s → neutral s.
Proof.
  intros Ho Hc d rest Hd Hl. induction s as [|x s IH].
  - by apply neutral_nil.
  - apply not_elem_of_cons in Ho as [Ho ?]. apply not_elem_of_cons in Hc as [Hc ?].
    simpl. rewrite !bool_decide_false by done. rewrite IH by (done || simpl in Hl; lia).
    by destruct (match_loop _ _ _ rest) as [[]|].
Qed.

Lemma neutral_wrap s : neutral s → neutral ([open] ++ s ++ [close]).
Proof.
  intros Hs d rest Hd Hl. rewrite !length_app in Hl. simpl in Hl.
  simpl. rewrite (bool_decide_true (open = open)), (bool_decide_false (open = close)) by done.
  rewrite uwrap_small by lia. rewrite <- app_assoc, Hs by lia. simpl.
  rewrite (bool_decide_false (close = open)), (bool_decide_true (close = close)) by done.
  destruct (Z.eqb_spec (d + 1) 0); [lia|]. rewrite uwrap_small by lia.
  replace (d + 1 - 1)%Z with d by lia.
  destruct (match_loop _ _ _ rest) as [[p q]|]; simpl; [|done].
  by rewrite <- app_assoc.
Qed.

Lemma neutral_join sep ps : neutral sep → Forall neutral ps → neutral (join sep ps).
Proof.
  intros Hsep HF. induction HF as [|p ps Hp HF IH]; simpl; [apply neutral_nil|].
  destruct ps; [done|]. by repeat apply neutral_app.
Qed.

Lemma match_wrap s rest :
  neutral s → (Z.of_nat (length s) < 2 ^ 64)%Z →
  match_ open close ([open] ++ s ++ [close] ++ rest) = Some ([open] ++ s, [close] ++ rest).
Proof.
  intros Hs Hl. unfold match_. simpl.
  rewrite (bool_decide_true (open = open)), (bool_decide_false (open = close)) by done.
  change (uwrap 64 (2 ^ 64 - 1 + 1)) with 0%Z. rewrite Hs by lia. simpl.
  rewrite (bool_decide_false (close = open)), (bool_decide_true (close = close)) by done. simpl. by rewrite app_nil_r.
Qed.
End neutral.

(** ** The round trip *)

Definition key_clean (k : text) : Prop := Forall (λ c, c ∉ T "{}[]:") k.
Definition value_clean (v : text) : Prop := Forall (λ c, c ∉ T "{}[],") v.
Definition clean (w : responseWrapper) : Prop := texts_ok key_clean value_clean w.

#[global] Instance key_clean_dec k : Decision (key_clean k).
Proof. unfold key_clean. apply _. Defined.
#[global] Instance value_clean_dec v : Decision (value_clean v).
Proof. unfold value_clean. apply _. Defined.

(** What the printed form records: an element with several values was written
    as an array, so it comes back as one. *)
Fixpoint normalise (w : responseWrapper) : responseWrapper :=
  let 'RW els fs := w in
  RW ((λ kc, (kc.1, match kc.2 with
                    | Strings l => Strings l
                    | Objects l => Objects (normalise <$> l)
                    end)) <$> els)
     (zip_with (λ kc f, bool_decide (1 < container_size kc.2) || f) els fs).

Lemma key_clean_avoid k c : key_clean k → c ∈ T "{}[]:" → c ∉ k.
Proof. intros Hk Hc Hin. unfold key_clean in Hk. rewrite Forall_forall in Hk. by apply (Hk c). Qed.
Lemma value_clean_avoid v c : value_clean v → c ∈ T "{}[],"  → c ∉ v.
Proof. intros Hv Hc Hin. unfold value_clean in Hv. rewrite Forall_forall in Hv. by apply (Hv c). Qed.

Section brackets.
Context (open close : ascii) (Hoc : open ≠ close).
Context (Hok : open ∈ T "{}[]:" ∧ close ∈ T "{}[]:").
Context (Hov : open ∈ T "{}[]," ∧ close ∈ T "{}[],").
Context (Hbr : (open = "{"%char ∧ close = "}"%char) ∨ (open = "["%char ∧ close = "]"%char)).
Abbreviation neutral := (neutral open close).

Lemma neutral_key k : key_clean k → neutral k.
Proof. intros Hk. destruct Hok. apply neutral_chars; by apply key_clean_avoid. Qed.
Lemma neutral_value v : value_clean v → neutral v.
Proof. intros Hv. destruct Hov. apply neutral_chars; by apply value_clean_avoid. Qed.

(** A text in matching brackets is neutral for both kinds of bracket. *)
Lemma neutral_bracketed o c s :
  (o = "{"%char ∧ c = "}"%char) ∨ (o = "["%char ∧ c = "]"%char) →
  neutral s → neutral ([o] ++ s ++ [c]).
Proof.
  intros Hb Hs.
  destruct Hbr as [[-> ->]|[-> ->]], Hb as [[-> ->]|[-> ->]];
    try (by apply neutral_wrap);
    (apply neutral_app; [|apply neutral_app]; [by apply neutral_chars; by_decision|done|];
     apply neutral_chars; by_decision).
Qed.

Lemma neutral_comma : neutral (T ",").
Proof. destruct Hbr as [[-> ->]|[-> ->]]; apply neutral_chars; by_decision. Qed.
Lemma neutral_colon : neutral (T ":").
Proof. destruct Hbr as [[-> ->]|[-> ->]]; apply neutral_chars; by_decision. Qed.

Lemma neutral_listText l forced : Forall neutral l → neutral (listText l forced).
Proof.
  intros HF. unfold listText. destruct l as [|v l]; [apply neutral_nil|]. case_match.
  - apply (neutral_bracketed "["%char "]"%char); [by right|].
    apply neutral_join; [apply neutral_comma|done].
  - by apply Forall_cons in HF as [? _].
Qed.

Lemma neutral_body w : clean w → neutral (body w).
Proof.
  induction w as [els fs IH] using wrapper_ind. intros Hw. inversion Hw as [? ? HF]; subst.
  unfold body. simpl. apply neutral_join; [apply neutral_comma|].
  clear Hw. revert fs HF.
  induction IH as [|[k c] els Hc _ IH']; intros [|b fs] HF; simpl; [constructor..|].
  apply Forall_cons in HF as [[Hk Ht] HF]. constructor; [|by apply IH'].
  unfold fieldText. simpl. repeat apply neutral_app; [by apply neutral_key|apply neutral_colon|].
  apply neutral_listText. simpl in *. inversion Ht as [l Hl|l Hl]; subst.
  - eapply Forall_impl; [exact Hl|]. apply neutral_value.
  - apply Forall_fmap. simpl in Hc. rewrite Forall_forall in Hc, Hl.
    apply Forall_forall. intros w Hin. simpl. rewrite compact_eq.
    apply (neutral_bracketed "{"%char "}"%char); [by left|]. by apply Hc, Hl.
Qed.
End brackets.

(** The side conditions on which bracket is which. *)
Ltac bracket_side := first [done | by_decision | split; by_decision | by left | by right].

Lemma match_braces w rest :
  clean w → (Z.of_nat (length (body w)) < 2 ^ 64)%Z →
  match_ "{"%char "}"%char (compact w ++ rest) = Some (T "{" ++ body w, T "}" ++ rest).
Proof.
  intros Hw Hl. rewrite compact_eq, <- !app_assoc. apply match_wrap; [done| |done].
  apply neutral_body; bracket_side.
Qed.

Lemma match_brackets l rest :
  Forall (neutral "["%char "]"%char) l → (Z.of_nat (length (join (T ",") l)) < 2 ^ 64)%Z →
  match_ "["%char "]"%char (T "[" ++ join (T ",") l ++ T "]" ++ rest)
    = Some (T "[" ++ join (T ",") l, T "]" ++ rest).
Proof.
  intros Hl Hlen. apply match_wrap; [done| |done].
  apply neutral_join; [|done]. apply neutral_chars; by_decision.
Qed.

(** ** Reading back what was printed *)

Lemma fromDataWith_compact f w : fromDataWith f (compact w) = f (body w).
Proof.
  rewrite compact_eq. unfold fromDataWith, front_is, back_is.
  change (T "{") with ["{"%char]. change (T "}") with ["}"%char].
  rewrite bool_decide_false by done. simpl ([_] ++ _).
  rewrite bool_decide_true by done. simpl tail.
  replace (last ("{"%char :: body w ++ ["}"%char])) with (Some "}"%char).
  - rewrite bool_decide_true by done. simpl. by rewrite removelast_last.
  - change ("{"%char :: body w ++ ["}"%char]) with (("{"%char :: body w) ++ ["}"%char]).
    by rewrite last_snoc.
Qed.

(** The rest of an object after one of its elements. *)
Definition continues (after : text) : Prop := after = [] ∨ ∃ r, after = T "," ++ r.

Lemma front_is_app c s after :
  c ∉ s → c ≠ ","%char → continues after → front_is c (s ++ after) = false.
Proof.
  intros Hc Hne Ha. apply bool_decide_eq_false. destruct s as [|x s]; simpl.
  - destruct Ha as [->|[r ->]]; [done|]. change (T ",") with [","%char]. naive_solver.
  - intros [= ->]. set_solver.
Qed.

Lemma span_to_continues v after :
  ","%char ∉ v → continues after → span_to ","%char (v ++ after) = (v, after).
Proof.
  intros Hv [->|[r ->]].
  - rewrite app_nil_r. by apply span_to_absent.
  - by apply span_to_found.
Qed.

Section step.
Context (fuel : nat) (k after : text) (ret : responseWrapper).
Context (Hk : key_clean k) (Hafter : continues after).

Lemma elementsLoop_key next :
  elementsLoop (S fuel) (k ++ T ":" ++ next) ret =
    (let nested := λ s, elementsLoop fuel s emptyWrapper in
     if front_is "{"%char next then
       match match_ "{"%char "}"%char next with
       | Some (b, close) =>
           val ← fromDataWith nested (b ++ T "}");
           match val with
           | None => Ok None
           | Some v => elementsLoop fuel (skip1 (skip1 close)) (push_element ret k (Objects [v]) false)
           end
       | None =>
           val ← fromDataWith nested (next ++ T "}");
           match val with None => Ok None | Some _ => Raise UndefinedBehaviour end
       end
     else if front_is "["%char next then
       let '(sub, close) := match match_ "["%char "]"%char next with
                            | Some (b, close) => (tail b, close)
                            | None => (tail next, [])
                            end in
       let closed := negb (bool_decide (close = [])) in
       cont ← (if front_is "{"%char sub
               then objs ← objectsLoop nested fuel sub closed []; Ok (option_map Objects objs)
               else Ok (Some (Strings (split_on ","%char sub))));
       match cont with
       | None => Ok None
       | Some c =>
           if closed then elementsLoop fuel (skip1 (skip1 close)) (push_element ret k c true)
           else Raise UndefinedBehaviour
       end
     else
       let '(v, rest) := span_to ","%char next in
       elementsLoop fuel (skip1 rest) (push_element ret k (Strings [v]) false)).
Proof.
  cbn [elementsLoop]. rewrite bool_decide_false by by destruct k.
  change (T ":" ++ next) with (":"%char :: next).
  rewrite span_to_found by (apply (key_clean_avoid k); [done|by_decision]).
  by rewrite bool_decide_false.
Qed.

Lemma elementsLoop_string v :
  value_clean v →
  elementsLoop (S fuel) (k ++ T ":" ++ v ++ after) ret =
    elementsLoop fuel (skip1 after) (push_element ret k (Strings [v]) false).
Proof.
  intros Hv. rewrite elementsLoop_key. cbv zeta.
  rewrite !front_is_app by (done || (apply (value_clean_avoid v); [done|by_decision])).
  by rewrite span_to_continues by (done || (apply (value_clean_avoid v); [done|by_decision])).
Qed.

Lemma elementsLoop_object w v :
  clean w → (Z.of_nat (length (body w)) < 2 ^ 64)%Z →
  elementsLoop fuel (body w) emptyWrapper = Ok (Some v) →
  elementsLoop (S fuel) (k ++ T ":" ++ compact w ++ after) ret =
    elementsLoop fuel (skip1 after) (push_element ret k (Objects [v]) false).
Proof.
  intros Hw Hl He. rewrite elementsLoop_key. cbv zeta.
  replace (front_is "{"%char (compact w ++ after)) with true by by rewrite compact_eq.
  rewrite match_braces by done. rewrite <- app_assoc, <- compact_eq, fromDataWith_compact, He.
  done.
Qed.

Lemma elementsLoop_strings l :
  l ≠ [] → Forall value_clean l → (Z.of_nat (length (join (T ",") l)) < 2 ^ 64)%Z →
  elementsLoop (S fuel) (k ++ T ":" ++ T "[" ++ join (T ",") l ++ T "]" ++ after) ret =
    elementsLoop fuel (skip1 after) (push_element ret k (Strings l) true).
Proof.
  intros Hne Hl Hlen. rewrite elementsLoop_key. cbv zeta.
  change (front_is "{"%char (T "[" ++ _)) with false.
  change (front_is "["%char (T "[" ++ _)) with true.
  rewrite match_brackets; [|eapply Forall_impl; [exact Hl|]|done].
  - change (tail (T "[" ++ join (T ",") l)) with (join (T ",") l).
    rewrite bool_decide_false by done.
    replace (front_is "{"%char (join (T ",") l)) with false.
    + simpl. rewrite split_on_join; [done|done|]. eapply Forall_impl; [exact Hl|].
      intros v Hv. apply (value_clean_avoid v); [done|by_decision].
    + destruct l as [|v l]; [done|]. apply Forall_cons in Hl as [Hv _]. destruct l as [|v' l].
      * simpl. rewrite <- (app_nil_r v). rewrite front_is_app; [done| |done|by left].
        apply (value_clean_avoid v); [done|by_decision].
      * rewrite join_cons by done. rewrite front_is_app; [done| |done|right; by eexists].
        apply (value_clean_avoid v); [done|by_decision].
  - intros v Hv. apply neutral_chars; apply (value_clean_avoid v); (done || by_decision).
Qed.

Lemma objectsLoop_compact nested n l acc :
  l ≠ [] → (length l ≤ n)%nat →
  Forall (λ w, clean w ∧ (Z.of_nat (length (body w)) < 2 ^ 64)%Z ∧
               nested (body w) = Ok (Some (normalise w))) l →
  objectsLoop nested n (join (T ",") (compact <$> l)) true acc = Ok (Some (acc ++ (normalise <$> l))).
Proof.
  intros Hne Hn HF. revert n acc Hn.
  induction HF as [|w l (Hw & Hl & He) HF IH]; intros n acc Hn; [done|].
  destruct n as [|n]; [simpl in Hn; lia|].
  assert (∃ tl, join (T ",") (compact <$> w :: l) = compact w ++ tl ∧
                ((l = [] ∧ tl = []) ∨ (l ≠ [] ∧ tl = T "," ++ join (T ",") (compact <$> l))))
    as (tl & -> & Htl).
  { destruct l as [|w' l].
    - exists []. split; [by rewrite app_nil_r|by left].
    - exists (T "," ++ join (T ",") (compact <$> w' :: l)). split; [done|by right]. }
  cbn [objectsLoop]. replace (front_is "{"%char (compact w ++ tl)) with true
    by by rewrite compact_eq.
  simpl. rewrite match_braces by done. rewrite <- app_assoc, <- compact_eq.
  rewrite fromDataWith_compact, He. simpl. change (skip1 (T "}" ++ tl)) with tl.
  destruct Htl as [[-> ->]|[Hl' ->]].
  - done.
  - rewrite bool_decide_false by done.
    change (skip1 (T "," ++ ?s)) with s. rewrite IH by (done || simpl in Hn; lia).
    by rewrite <- app_assoc.
Qed.

Lemma elementsLoop_objects l :
  l ≠ [] → (length l ≤ fuel)%nat →
  Forall clean l → (Z.of_nat (length (join (T ",") (compact <$> l))) < 2 ^ 64)%Z →
  Forall (λ w, (Z.of_nat (length (body w)) < 2 ^ 64)%Z ∧
               elementsLoop fuel (body w) emptyWrapper = Ok (Some (normalise w))) l →
  elementsLoop (S fuel) (k ++ T ":" ++ T "[" ++ join (T ",") (compact <$> l) ++ T "]" ++ after) ret =
    elementsLoop fuel (skip1 after) (push_element ret k (Objects (normalise <$> l)) true).
Proof.
  intros Hne Hn Hl Hlen HF. rewrite elementsLoop_key. cbv zeta.
  change (front_is "{"%char (T "[" ++ _)) with false.
  change (front_is "["%char (T "[" ++ _)) with true.
  rewrite match_brackets; [|apply Forall_fmap; eapply Forall_impl; [exact Hl|]|done].
  - change (tail (T "[" ++ ?s)) with s. rewrite bool_decide_false by done.
    replace (front_is "{"%char (join (T ",") (compact <$> l))) with true.
    + rewrite objectsLoop_compact; [done|done|done|].
      rewrite Forall_forall in *. intros v Hv. destruct (HF v Hv). auto.
    + destruct l as [|w [|w' l]]; [done| |]; simpl; by rewrite compact_eq.
  - intros w Hw. simpl. rewrite compact_eq.
    apply neutral_bracketed with (o := "{"%char) (c := "}"%char);
      try bracket_side.
    apply neutral_body; bracket_side.
Qed.
End step.

Lemma length_fieldText kc forced :
  length (fieldText kc forced) =
    (length kc.1 + 1 + length (listText (match kc.2 with Strings l => l | Objects l => compact <$> l end) forced))%nat.
Proof. unfold fieldText. rewrite !length_app. change (length (T ":")) with 1%nat. lia. Qed.

Lemma length_compact w : length (compact w) = (length (body w) + 2)%nat.
Proof.
  rewrite compact_eq, !length_app. change (length (T "{")) with 1%nat.
  change (length (T "}")) with 1%nat. lia.
Qed.

Lemma length_join_elem sep ps p : p ∈ ps → (length p ≤ length (join sep ps))%nat.
Proof.
  induction ps as [|q ps IH]; intros Hin; [set_solver|].
  apply elem_of_cons in Hin as [<-|Hin].
  - destruct ps; simpl; rewrite ?length_app; lia.
  - destruct ps as [|q' ps]; [set_solver|]. rewrite join_cons, !length_app by done.
    specialize (IH Hin). lia.
Qed.

Lemma length_join_ge sep ps : Forall (λ p, p ≠ []) ps → (length ps ≤ length (join sep ps))%nat.
Proof.
  induction 1 as [|p ps Hp HF IH]; simpl; [lia|]. destruct p; [done|].
  destruct ps; simpl in *; rewrite ?length_app; simpl in *; lia.
Qed.

Definition normaliseContainer (c : elementContainer) : elementContainer :=
  match c with Strings l => Strings l | Objects l => Objects (normalise <$> l) end.
Definition becomesArray (kc : text * elementContainer) (f : bool) : bool :=
  bool_decide (1 < container_size kc.2) || f.

Lemma listText_cases l forced :
  l ≠ [] →
  (listText l forced = T "[" ++ join (T ",") l ++ T "]" ∧ bool_decide (1 < length l) || forced = true) ∨
  (∃ v, l = [v] ∧ listText l forced = v ∧ forced = false).
Proof.
  intros Hne. unfold listText. destruct l as [|v l]; [done|]. case_match eqn:E; [by left|].
  right. apply orb_false_iff in E as [E ->]. apply bool_decide_eq_false in E.
  destruct l; [by exists v|simpl in E; lia].
Qed.

Lemma length_listText_elem l forced p : p ∈ l → (length p ≤ length (listText l forced))%nat.
Proof.
  intros Hin. destruct (listText_cases l forced) as [[-> _]|(v & -> & -> & _)].
  - intros ->. set_solver.
  - rewrite !length_app. pose proof (length_join_elem (T ",") l p Hin). lia.
  - apply list_elem_of_singleton in Hin as ->. lia.
Qed.

(** One element of an object is read back, given that nested objects are. *)
Section field.
Context (fuel : nat) (k : text) (f : bool) (after : text) (ret : responseWrapper).
Context (Hk : key_clean k) (Ha : continues after).

Lemma elementsLoop_listText_strings l :
  l ≠ [] → Forall value_clean l →
  (Z.of_nat (length (listText l f)) < 2 ^ 64)%Z →
  elementsLoop (S fuel) (k ++ T ":" ++ listText l f ++ after) ret =
    elementsLoop fuel (skip1 after) (push_element ret k (Strings l) (becomesArray (k, Strings l) f)).
Proof.
  intros Hne Hl Hlen. unfold becomesArray. simpl.
  destruct (listText_cases l f Hne) as [[E ->]|(v & -> & -> & ->)].
  - rewrite E in Hlen |- *. rewrite !length_app in Hlen. rewrite <- !app_assoc. apply elementsLoop_strings; try done. lia.
  - apply Forall_cons in Hl as [Hv _]. by apply elementsLoop_string.
Qed.

Lemma elementsLoop_listText_objects l :
  l ≠ [] → Forall clean l →
  (Z.of_nat (length (listText (compact <$> l) f)) < 2 ^ 64)%Z →
  (length (listText (compact <$> l) f) ≤ fuel)%nat →
  Forall (λ w, (Z.of_nat (length (body w)) < 2 ^ 64)%Z → (length (body w) < fuel)%nat →
               elementsLoop fuel (body w) emptyWrapper = Ok (Some (normalise w))) l →
  elementsLoop (S fuel) (k ++ T ":" ++ listText (compact <$> l) f ++ after) ret =
    elementsLoop fuel (skip1 after)
      (push_element ret k (Objects (normalise <$> l)) (becomesArray (k, Objects l) f)).
Proof.
  intros Hne Hl Hlen Hfuel IH. unfold becomesArray. simpl.
  assert (HP : Forall (λ w, (Z.of_nat (length (body w)) < 2 ^ 64)%Z ∧
            elementsLoop fuel (body w) emptyWrapper = Ok (Some (normalise w))) l).
  { rewrite Forall_forall in *. intros w Hin.
    pose proof (length_listText_elem (compact <$> l) f (compact w)) as He.
    rewrite length_compact in He. specialize (He (list_elem_of_fmap_2 _ _ _ Hin)).
    split; [lia|]. apply IH; [done|lia|lia]. }
  destruct (listText_cases (compact <$> l) f) as [[E1 E2]|(v & E1 & E2 & E3)].
  - by destruct l.
  - rewrite length_fmap in E2. rewrite E2. rewrite E1 in Hlen, Hfuel |- *.
    rewrite !length_app in Hlen, Hfuel. rewrite <- !app_assoc.
    apply elementsLoop_objects; try done; [|lia].
    assert (Forall (λ p, p ≠ []) (compact <$> l)) as Hge.
    { apply Forall_fmap, Forall_true. intros v. simpl. by rewrite compact_eq. }
    apply (length_join_ge (T ",")) in Hge. rewrite length_fmap in Hge. lia.
  - destruct l as [|w [|w' l]]; simplify_eq/=.
    apply Forall_cons in HP as [(Hlw & He) _]. apply Forall_cons in Hl as [Hw _].
    by apply elementsLoop_object.
Qed.
End field.

Definition reads_back (w : responseWrapper) : Prop :=
  wf w → clean w → (Z.of_nat (length (body w)) < 2 ^ 64)%Z →
  ∀ fuel, (length (body w) < fuel)%nat →
  elementsLoop fuel (body w) emptyWrapper = Ok (Some (normalise w)).

Lemma elementsLoop_field fuel k c f after ret :
  key_clean k → texts_ok_container key_clean value_clean c → wf_container c → continues after →
  (Z.of_nat (length (fieldText (k, c) f)) < 2 ^ 64)%Z →
  (length (fieldText (k, c) f) ≤ fuel)%nat →
  container_all reads_back c →
  elementsLoop (S fuel) (fieldText (k, c) f ++ after) ret =
    elementsLoop fuel (skip1 after) (push_element ret k (normaliseContainer c) (becomesArray (k, c) f)).
Proof.
  intros Hk Hc Hw Ha Hl Hfuel IH. rewrite length_fieldText in Hl, Hfuel.
  unfold fieldText. cbn [fst snd] in *. rewrite <- !app_assoc.
  destruct c as [l|l]; inversion Hc as [? Hcl|? Hcl]; subst; inversion Hw; subst.
  - apply elementsLoop_listText_strings; try done. lia.
  - apply elementsLoop_listText_objects; try done; [lia|lia|].
    cbn [container_all] in IH. rewrite Forall_forall in *. intros w Hin Hlw Hfw.
    apply IH; auto. by apply Hcl.
Qed.

(** The remaining elements, appended to what was read before. *)
Definition appended (ret : responseWrapper) (els : list (text * elementContainer)) (fs : list bool)
    : responseWrapper :=
  let 'RW els0 fs0 := ret in
  RW (els0 ++ ((λ kc, (kc.1, normaliseContainer kc.2)) <$> els)) (fs0 ++ zip_with becomesArray els fs).

Lemma appended_cons ret k c els f fs :
  appended (push_element ret k (normaliseContainer c) (becomesArray (k, c) f)) els fs =
  appended ret ((k, c) :: els) (f :: fs).
Proof. destruct ret. simpl. by rewrite <- !app_assoc. Qed.

Lemma elementsLoop_fields els fs fuel ret :
  length els = length fs →
  Forall (λ kc, wf_container kc.2) els →
  Forall (λ kc, key_clean kc.1 ∧ texts_ok_container key_clean value_clean kc.2) els →
  Forall (λ kc, container_all reads_back kc.2) els →
  (Z.of_nat (length (join (T ",") (zip_with fieldText els fs))) < 2 ^ 64)%Z →
  (length (join (T ",") (zip_with fieldText els fs)) < fuel)%nat →
  elementsLoop fuel (join (T ",") (zip_with fieldText els fs)) ret = Ok (Some (appended ret els fs)).
Proof.
  revert fs fuel ret. induction els as [|[k c] els IH]; intros fs fuel ret Hlen Hwf Hcl Hrb Hl Hfuel.
  - destruct fs; [|done]. destruct fuel; [simpl in Hfuel; lia|]. simpl.
    destruct ret. simpl. by rewrite !app_nil_r.
  - destruct fs as [|f fs]; [done|]. simpl in Hlen. simplify_eq.
    apply Forall_cons in Hwf as [Hc Hwf]. apply Forall_cons in Hcl as [[Hk Hct] Hcl].
    apply Forall_cons in Hrb as [Hr Hrb].
    set (after := match zip_with fieldText els fs with [] => [] | ps => T "," ++ join (T ",") ps end).
    assert (Ha : continues after).
    { unfold after. case_match; [by left|right; by eexists]. }
    assert (Hj : join (T ",") (zip_with fieldText ((k, c) :: els) (f :: fs)) = fieldText (k, c) f ++ after).
    { unfold after. cbn [zip_with]. destruct (zip_with fieldText els fs); [|done].
      simpl. by rewrite app_nil_r. }
    assert (Hs : skip1 after = join (T ",") (zip_with fieldText els fs)).
    { unfold after. by destruct (zip_with fieldText els fs). }
    rewrite Hj in *. rewrite length_app in Hl, Hfuel.
    assert (length (skip1 after) ≤ length after)%nat as Hsk by apply length_skip1.
    rewrite length_fieldText in Hl, Hfuel.
    destruct fuel as [|fuel]; [lia|].
    rewrite elementsLoop_field by (done || rewrite ?length_fieldText; lia).
    rewrite Hs, IH, appended_cons by (done || rewrite <- ?Hs; lia). done.
Qed.

Lemma wrapper_reads_back w : reads_back w.
Proof.
  induction w as [els fs IH] using wrapper_ind. intros Hwf Hcl Hl fuel Hfuel.
  inversion Hwf; subst. inversion Hcl; subst.
  unfold body in *. cbn [elements_of forcedArrays_of] in *.
  rewrite elementsLoop_fields by done. by simpl.
Qed.

Lemma toData_compact w : wf w → toData w false = Ok (compact w).
Proof. intros Hw. unfold toData. rewrite toData_render by done. by rewrite render_compact. Qed.

Lemma fromData_compact w :
  wf w → clean w → (Z.of_nat (length (compact w)) < 2 ^ 64)%Z →
  fromData (compact w) = Ok (Some (normalise w)).
Proof.
  intros Hwf Hcl Hl. unfold fromData. rewrite fromDataWith_compact.
  rewrite length_compact in *. apply wrapper_reads_back; (done || lia).
Qed.

(** C17: the unpadded text of a well-formed wrapper whose texts hold none of the
    format's own characters is read back as the same wrapper, up to the array
    marks the text itself records. *)
Theorem fromData_toData w s :
  wf w → clean w → toData w false = Ok s → (Z.of_nat (length s) < 2 ^ 64)%Z →
  fromData s = Ok (Some (normalise w)).
Proof.
  intros Hwf Hcl Hs Hl. rewrite toData_compact in Hs by done. simplify_eq. by apply fromData_compact.
Qed.

(** Reading back loses nothing: what [normalise] records is already in the text. *)
Lemma normalise_wf w : wf w → wf (normalise w).
Proof.
  induction w as [els fs IH] using wrapper_ind. intros Hw. inversion Hw as [? ? Hl HF]; subst.
  simpl. constructor.
  - rewrite length_fmap, length_zip_with. lia.
  - apply Forall_fmap. clear Hw Hl. induction IH as [|[k c] els Hc _ IH']; [constructor|].
    apply Forall_cons in HF as [Hw HF]. constructor; [|by apply IH'].
    simpl in *. inversion Hw as [|l Hne Hl]; subst; constructor; simpl in *.
    + done.
    + by destruct l.
    + apply Forall_fmap. rewrite Forall_forall in *. intros w Hin. by apply Hc, Hl.
Qed.

Lemma listText_normalise l forced :
  listText l (bool_decide (1 < length l) || forced) = listText l forced.
Proof. destruct l as [|v l]; [done|]. unfold listText. by case_bool_decide. Qed.

Lemma compact_normalise w : compact (normalise w) = compact w.
Proof.
  induction w as [els fs IH] using wrapper_ind. rewrite !compact_eq. do 2 f_equal.
  unfold body. f_equal. simpl. revert fs.
  induction IH as [|[k c] els Hc _ IH']; intros [|f fs]; simpl; [done..|].
  rewrite IH'. f_equal. unfold fieldText. simpl. do 2 f_equal. destruct c as [l|l]; simpl in *.
  - apply listText_normalise.
  - assert (compact <$> (normalise <$> l) = compact <$> l) as ->.
    { induction Hc as [|w l Hw _ IHl]; [done|]. rewrite !fmap_cons. by rewrite Hw, IHl. }
    rewrite <- (length_fmap compact l). apply listText_normalise.
Qed.

(** reading a printed text and printing again reproduces the text. *)
Theorem fromData_reprints w s :
  wf w → clean w → toData w false = Ok s → (Z.of_nat (length s) < 2 ^ 64)%Z →
  ∃ w', fromData s = Ok (Some w') ∧ wf w' ∧ toData w' false = Ok s.
Proof.
  intros Hwf Hcl Hs Hl. rewrite toData_compact in Hs by done. simplify_eq.
  exists (normalise w). split_and!; [by apply fromData_compact|by apply normalise_wf|].
  rewrite toData_compact by by apply normalise_wf. by rewrite compact_normalise.
Qed.
