(* ===== verification/ResponseTotal.v ===== *)
(** [fromData] on arbitrary input: it always terminates, what it returns can be
    printed again, and the ways a text that is not well bracketed breaks it. *)

From S2P Require Import Prelude Response ResponseSpec.

(** ** Termination and well-formedness of the result *)

(** The outcomes of a parser that neither ran out of fuel nor built a wrapper
    [toData] cannot print. *)
Definition good {A} (P : A → Prop) (o : outcome (option A)) : Prop :=
  match o with
  | Ok (Some a) => P a
  | Ok None => True
  | Raise e => e ≠ OutOfFuel
  end.

Lemma good_bind {A B} (P : A → Prop) (Q : B → Prop) (o : outcome (option A))
    (f : option A → outcome (option B)) :
  good P o → good Q (f None) → (∀ a, P a → good Q (f (Some a))) → good Q (o ≫= f).
Proof. destruct o as [[a|]|e]; simpl; auto. Qed.

Lemma match_loop_split open close d s b r :
  match_loop open close d s = Some (b, r) → s = b ++ r ∧ ∃ r', r = close :: r'.
Proof.
  revert d b r. induction s as [|c s IH]; intros d b r; simpl; [done|].
  set (d' := if bool_decide (c = open) then _ else _). clearbody d'.
  assert (∀ d, prod_map (cons c) id <$> match_loop open close d s = Some (b, r) →
               c :: s = b ++ r ∧ ∃ r', r = close :: r') as Hrec.
  { intros d'' ([b' r0] & Hm & [= -> ->])%fmap_Some. destruct (IH _ _ _ Hm) as [-> ?]. done. }
  case_bool_decide as Hc; [|apply Hrec]. case_match; [|apply Hrec].
  intros [= <- <-]. subst. eauto.
Qed.

Lemma match_split open close s b r :
  match_ open close s = Some (b, r) → s = b ++ r ∧ ∃ r', r = close :: r'.
Proof. apply match_loop_split. Qed.

Lemma length_removelast {A} (l : list A) : length (removelast l) = (length l - 1)%nat.
Proof.
  destruct l as [|x l] using rev_ind; [done|].
  rewrite removelast_last, length_app. simpl. lia.
Qed.

Lemma length_inner (s : text) : length (removelast (tail s)) = (length s - 2)%nat.
Proof. rewrite length_removelast. destruct s; simpl; lia. Qed.

Lemma wf_empty : wf emptyWrapper.
Proof. by constructor. Qed.

Lemma push_element_wf ret k c forced : wf ret → wf_container c → wf (push_element ret k c forced).
Proof.
  intros Hr Hc. destruct ret as [els fs]. inversion Hr; subst. simpl. constructor.
  - rewrite !length_app. simpl. lia.
  - apply Forall_app. auto.
Qed.

Lemma fromDataWith_good n (elements : text → outcome (option responseWrapper)) data :
  (∀ s, (length s < n)%nat → good wf (elements s)) → (length data < n + 2)%nat →
  (0 < n)%nat → good wf (fromDataWith elements data).
Proof.
  intros He Hl Hn. unfold fromDataWith. case_bool_decide; [apply wf_empty|].
  case_match; [done|]. apply He. rewrite length_inner. lia.
Qed.

Lemma length_T1 c : length (T (String c EmptyString)) = 1%nat.
Proof. done. Qed.

Section objects.
Context (elements : text → outcome (option responseWrapper)) (n : nat).
Context (He : ∀ s, (length s < n)%nat → good wf (elements s)) (Hn : (0 < n)%nat).

Lemma objectsLoop_good fuel sub closed acc :
  (length sub < n + 1)%nat → (length sub < fuel)%nat → Forall wf acc →
  good (λ l, l ≠ [] ∧ Forall wf l) (objectsLoop elements fuel sub closed acc).
Proof using He Hn.
  revert sub acc. induction fuel as [|fuel IH]; intros sub acc Hl Hf Hacc; [lia|].
  simpl. destruct (front_is "{"%char sub); [simpl|done].
  destruct (match_ "{"%char "}"%char sub) as [[b close]|] eqn:Em.
  - destruct (match_split _ _ _ _ _ Em) as [-> [r' ->]].
    rewrite length_app in Hl, Hf. simpl in Hl, Hf.
    apply (good_bind wf); [|done|].
    + apply (fromDataWith_good n); [done| |done]. rewrite length_app, length_T1. lia.
    + intros w Hw. simpl. case_bool_decide.
      * simpl. split; [by destruct acc|]. apply Forall_app. auto.
      * apply IH; [| |apply Forall_app; auto];
          pose proof (length_skip1 r'); simpl; lia.
  - apply (good_bind wf); [|done|done].
    apply (fromDataWith_good n); [done| |done]. rewrite length_app.
    destruct closed; rewrite length_T1; lia.
Qed.
End objects.

Lemma elementsLoop_good fuel left ret :
  (length left < fuel)%nat → wf ret → good wf (elementsLoop fuel left ret).
Proof.
  revert left ret. induction fuel as [|fuel IH]; intros left ret Hl Hr; [lia|].
  cbn [elementsLoop]. cbv zeta. case_bool_decide; [done|].
  destruct (span_to ":"%char left) as [key div] eqn:Ed.
  case_bool_decide; [done|].
  pose proof (span_to_length _ _ _ _ Ed) as Hlen.
  destruct div as [|c next]; [done|]. simpl in Hlen.
  change (skip1 (c :: next)) with next.
  assert (∀ s, (length s < fuel)%nat → good wf (elementsLoop fuel s emptyWrapper)) as Hnest.
  { intros s Hs. apply IH; [done|apply wf_empty]. }
  assert (∀ r k c' f, (length r ≤ length next)%nat → wf_container c' →
            good wf (elementsLoop fuel r (push_element ret k c' f))) as Hnext.
  { intros r k c' f Hlr Hc. apply IH; [lia|by apply push_element_wf]. }
  destruct (front_is "{"%char next).
  { destruct (match_ "{"%char "}"%char next) as [[b close]|] eqn:Em.
    - destruct (match_split _ _ _ _ _ Em) as [-> [r' ->]]. rewrite length_app in *. simpl in *.
      apply (good_bind wf); [|done|].
      + apply (fromDataWith_good fuel); [done| |lia]. rewrite length_app, length_T1. lia.
      + intros w Hw. apply Hnext; [pose proof (length_skip1 r'); simpl; lia|].
        constructor; [done|by constructor].
    - apply (good_bind wf); [|done|done].
      apply (fromDataWith_good fuel); [done| |lia]. rewrite length_app, length_T1. lia. }
  destruct (front_is "["%char next).
  { destruct (match match_ "["%char "]"%char next with
              | Some (b, close) => (tail b, close) | None => (tail next, []) end)
      as [sub close] eqn:Es.
    assert (length sub + length (skip1 close) ≤ length next)%nat as Hsub.
    { destruct (match_ "["%char "]"%char next) as [[b cl]|] eqn:Em; simplify_eq.
      - destruct (match_split _ _ _ _ _ Em) as [-> [r' ->]]. rewrite length_app.
        destruct b; simpl; lia.
      - destruct next; simpl; lia. }
    apply (good_bind wf_container).
    - destruct (front_is "{"%char sub); [|simpl; constructor; apply split_on_nonempty].
      apply (good_bind (λ l, l ≠ [] ∧ Forall wf l)); [|done|].
      + apply (objectsLoop_good _ fuel); (done || constructor || lia).
      + intros l [??]. by constructor.
    - done.
    - intros c' Hc'. cbn beta iota. destruct (negb (bool_decide (close = []))); [|done]. apply Hnext; [|done].
      pose proof (length_skip1 (skip1 close)). lia. }
  destruct (span_to ","%char next) as [v rest] eqn:Ev.
  pose proof (span_to_length _ _ _ _ Ev). apply Hnext; [|by constructor].
  pose proof (length_skip1 rest). lia.
Qed.

Lemma fromData_good data : good wf (fromData data).
Proof.
  apply (fromDataWith_good (S (length data))); [|lia|lia].
  intros s Hs. apply elementsLoop_good; [done|apply wf_empty].
Qed.

(** C30: the parser terminates on every input: the fuel [fromData] hands to its
    loops is never used up. *)
Theorem fromData_terminates data : fromData data ≠ Raise OutOfFuel.
Proof. intros H. pose proof (fromData_good data) as Hg. by rewrite H in Hg. Qed.

(** Whatever text a wrapper was parsed from, printing it again succeeds. *)
Theorem fromData_printable data w pad :
  fromData data = Ok (Some w) → ∃ s, toData w pad = Ok s.
Proof.
  intros H. pose proof (fromData_good data) as Hg. rewrite H in Hg. simpl in Hg.
  unfold toData. rewrite toData_render by done. eauto.
Qed.

(** ** Values that look like structure *)

Lemma match_none open close s :
  open ≠ close → close ∉ s → match_ open close s = None.
Proof.
  intros Hoc. unfold match_. generalize (2 ^ 64 - 1)%Z. intros d. revert d.
  induction s as [|c s IH]; intros d Hin; [done|].
  apply not_elem_of_cons in Hin as [Hne Hin]. simpl.
  rewrite (bool_decide_false (c = close)) by congruence. by rewrite IH.
Qed.

(** C34: a single stored value that begins with an opening brace, and holds no closing
    brace and no colon, under a key that is clean, is printed without complaint and sends the reader of the
    printed text past the end of its input. *)
Theorem open_brace_crashes k v :
  key_clean k → "}"%char ∉ v → ":"%char ∉ v →
  ∃ w s, add emptyWrapper k (T "{" ++ v) false = Ok w ∧ toData w false = Ok s ∧
         fromData s = Raise UndefinedBehaviour.
Proof.
  intros Hk Hv Hc. set (val := T "{" ++ v).
  exists (RW [(k, Strings [val])] [false]).
  assert (Hwf : wf (RW [(k, Strings [val])] [false])) by by repeat constructor.
  eexists. split; [done|]. split; [by apply toData_compact|].
  unfold fromData. rewrite fromDataWith_compact.
  change (body _) with (k ++ T ":" ++ val).
  rewrite elementsLoop_key by done. cbv zeta.
  change (front_is "{"%char val) with true. cbn iota.
  assert (Hvb : "}"%char ∉ val).
  { unfold val. rewrite not_elem_of_app. split; [by_decision|done]. }
  rewrite match_none by done.
  unfold fromDataWith, val, front_is, back_is.
  rewrite bool_decide_false by done. change (head ((T "{" ++ v) ++ T "}")) with (Some "{"%char).
  rewrite bool_decide_true by done.
  change (T "}") with ["}"%char]. rewrite last_snoc, bool_decide_true by done. cbn [negb orb].
  change (tail ((T "{" ++ v) ++ ["}"%char])) with (v ++ ["}"%char]).
  rewrite removelast_last.
  match goal with |- context [elementsLoop ?n v emptyWrapper] => assert (∃ m, n = S m) as [m ->] end.
  { rewrite length_compact. eexists. rewrite Nat.add_comm. simpl. done. }
  cbn [elementsLoop]. case_bool_decide; [done|].
  rewrite span_to_absent by done. done.
Qed.

(** ** A value that merely contains a separator *)

Example comma_splits_value :
  (w ← add emptyWrapper (T "Notes") (T "oil,filter:1") false; s ← toData w false; fromData s)
  = Ok (Some (RW [(T "Notes", Strings [T "oil"]); (T "filter", Strings [T "1"])] [false; false])).
Proof. reflexivity. Qed.
