(* ===== verification/ResponseFormat.v ===== *)
(** The padded form of [toData] (tabs, newlines, quoted values) against
    [fromUnformattedData]: stripping it gives exactly the unpadded form. *)

From S2P Require Import Prelude Response ResponseSpec.

Definition unformat (isQuote : bool) (s : text) : text :=
  filter (λ v, v ≠ QUOTE) (strip_spaces isQuote s).

(** Stripping takes the text [p], met outside quotes, to [q]. *)
Definition reduces (p q : text) : Prop :=
  ∀ rest, unformat false (p ++ rest) = q ++ unformat false rest.

Definition key_plain (k : text) : Prop := Forall (λ c, c ≠ QUOTE ∧ isspace c = false) k.
Definition value_plain (v : text) : Prop := QUOTE ∉ v.
Definition plain (w : responseWrapper) : Prop := texts_ok key_plain value_plain w.

Lemma reduces_nil : reduces [] [].
Proof. done. Qed.

Lemma reduces_app p1 q1 p2 q2 : reduces p1 q1 → reduces p2 q2 → reduces (p1 ++ p2) (q1 ++ q2).
Proof. intros H1 H2 rest. by rewrite <- !app_assoc, H1, H2. Qed.

Lemma reduces_plain k : key_plain k → reduces k k.
Proof.
  intros Hk rest. induction Hk as [|c k [Hc Hs] _ IH]; [done|].
  unfold unformat in *. simpl. rewrite (bool_decide_false (c = QUOTE)) by done.
  rewrite Hs. simpl. rewrite filter_cons_True by done. by rewrite IH.
Qed.

Lemma reduces_padding pad c n : isspace c = true → c ≠ QUOTE → reduces (padding pad c n) [].
Proof.
  intros Hs Hc rest. unfold padding. destruct pad; [|done].
  induction n as [|n IH]; [done|]. unfold unformat in *. simpl.
  rewrite (bool_decide_false (c = QUOTE)) by done. by rewrite Hs.
Qed.

Lemma unformat_quoted v rest :
  value_plain v → unformat true (v ++ QUOTE :: rest) = v ++ unformat false rest.
Proof.
  unfold value_plain, unformat. induction v as [|c v IH]; intros Hv.
  - reflexivity.
  - apply not_elem_of_cons in Hv as [Hc Hv]. simpl.
    rewrite (bool_decide_false (c = QUOTE)) by done. simpl.
    rewrite filter_cons_True by done. by rewrite IH.
Qed.

Lemma reduces_quoted v : value_plain v → reduces ([QUOTE] ++ v ++ [QUOTE]) v.
Proof.
  intros Hv rest. rewrite <- !app_assoc, <- unformat_quoted by done.
  reflexivity.
Qed.

Ltac reduce_plain := apply reduces_plain; unfold key_plain; by_decision.

(** Peel a concatenation on the left against one on the right, dropping padding. *)
Lemma reduces_pad_l pad c n p q :
  isspace c = true → c ≠ QUOTE → reduces p q → reduces (padding pad c n ++ p) q.
Proof. intros. apply (reduces_app _ []); [by apply reduces_padding|done]. Qed.

Lemma reduces_pad_r pad c n p q :
  isspace c = true → c ≠ QUOTE → reduces p q → reduces (p ++ padding pad c n) q.
Proof.
  intros. rewrite <- (app_nil_r q). apply reduces_app; [done|by apply reduces_padding].
Qed.

Lemma reduces_comma_join pad ps qs :
  Forall2 reduces ps qs → reduces (comma_join pad ps) (join (T ",") qs).
Proof.
  intros HF. unfold comma_join.
  assert (reduces (join (T "," ++ padding pad NEWLINE 1) ps) (join (T ",") qs)) as Hj.
  { induction HF as [|p q ps qs Hp HF IH]; [done|].
    destruct HF as [|p' q' ps qs]; [done|].
    rewrite !join_cons by done. apply reduces_app; [done|].
    apply reduces_app; [|done]. apply reduces_pad_r; [done|done|reduce_plain]. }
  destruct HF; [done|]. by apply reduces_pad_r.
Qed.

Lemma reduces_string d v pre : value_plain v → reduces (renderString d v pre true) v.
Proof.
  intros Hv. unfold renderString. destruct pre; simpl.
  - apply reduces_pad_l; [done|done|]. by apply reduces_quoted.
  - by apply reduces_quoted.
Qed.

Lemma reduces_container {V} (f : nat → V → bool → text) (g : V → text) depth l forced :
  Forall (λ v, ∀ d pre, reduces (f d v pre) (g v)) l →
  reduces (renderContainer f depth l forced true) (listText (g <$> l) forced).
Proof.
  intros HF.
  assert (HF2 : Forall2 reduces ((λ v, f (S depth) v true) <$> l) (g <$> l)).
  { clear -HF. induction HF as [|v l Hv _ IH]; [constructor|]. constructor; [apply Hv|done]. }
  unfold renderContainer, listText. destruct l as [|v l]; [done|].
  rewrite length_fmap. cbn [fmap list_fmap]. case_match.
  - apply reduces_app; [reduce_plain|]. apply reduces_pad_l; [done|done|].
    apply reduces_app.
    + by apply reduces_comma_join.
    + apply reduces_pad_l; [done|done|reduce_plain].
  - by apply Forall_cons in HF as [Hv _].
Qed.

Lemma reduces_render w depth pre : plain w → reduces (render true w depth pre) (compact w).
Proof.
  revert depth pre. induction w as [els fs IH] using wrapper_ind. intros depth pre Hw.
  inversion Hw as [? ? HF]; subst. rewrite compact_eq. simpl.
  assert (reduces (comma_join true (zip_with (renderField (λ d v pre, render true v d pre) true (S depth)) els fs))
                  (body (RW els fs))) as Hb.
  { apply reduces_comma_join. simpl. clear Hw. revert fs HF.
    induction IH as [|[k c] els Hc _ IH']; intros [|b fs] HF; simpl; [constructor..|].
    apply Forall_cons in HF as [[Hk Ht] HF]. constructor; [|by apply IH'].
    unfold renderField, fieldText. cbn [fst snd] in *. apply reduces_pad_l; [done|done|].
    apply reduces_app; [by apply reduces_plain|]. apply reduces_app; [reduce_plain|].
    apply reduces_pad_l; [done|done|]. inversion Ht as [l Hl|l Hl]; subst; cbn [container_all] in Hc.
    - rewrite <- (list_fmap_id l) at 2. apply reduces_container.
      eapply Forall_impl; [exact Hl|]. intros v ? ??. by apply reduces_string.
    - apply reduces_container. rewrite Forall_forall in *. intros w Hin d pre'.
      apply Hc; [done|]. by apply Hl. }
  assert (reduces (T "{" ++ padding true NEWLINE 1 ++
      comma_join true (zip_with (renderField (λ d v pre, render true v d pre) true (S depth)) els fs) ++
      padding true TAB depth ++ T "}") (T "{" ++ body (RW els fs) ++ T "}")) as H.
  { apply reduces_app; [reduce_plain|]. apply reduces_pad_l; [done|done|].
    apply reduces_app; [done|]. apply reduces_pad_l; [done|done|reduce_plain]. }
  destruct pre; [by apply reduces_pad_l|done].
Qed.

(** C35: reading the padded text is reading the unpadded one, when no value holds a
    double quote and no name a double quote or white space ([plain]); values keep
    their spaces because they are quoted. *)
Theorem fromUnformattedData_toData w s s' :
  wf w → plain w → toData w true = Ok s → toData w false = Ok s' →
  fromUnformattedData s = fromData s'.
Proof.
  intros Hw Hp Hs Hs'. rewrite toData_compact in Hs' by done.
  unfold toData in Hs. rewrite toData_render in Hs by done. simplify_eq/=.
  unfold fromUnformattedData. f_equal.
  pose proof (reduces_render w 0 false Hp []) as H. unfold unformat in H.
  rewrite !app_nil_r in H. exact H.
Qed.
