(* ===== verification/Effects.v ===== *)
(** The state-and-fault monad of the programs that do not run on the server's
    world ([Http.M]): the translator's pages, its curl handles, the streams. *)

From S2P Require Import Prelude.

(** A program over a state [S]: a fault keeps the state it happened in. *)
Definition ST (S A : Type) : Type := S → outcome A * S.

#[global] Instance ST_ret {S} : MRet (ST S) := λ A a s, (Ok a, s).
#[global] Instance ST_bind {S} : MBind (ST S) := λ A B f m s,
  match m s with
  | (Ok a, s') => f a s'
  | (Raise e, s') => (Raise e, s')
  end.

Section operations.
Context {S : Type}.

Definition liftS {A} (o : outcome A) : ST S A := λ s, (o, s).
Definition getS : ST S S := λ s, (Ok s, s).
Definition modifyS (f : S → S) : ST S unit := λ s, (Ok tt, f s).

(** [for (const auto& i : l) f(i);] *)
Definition forEach {A} (f : A → ST S unit) : list A → ST S unit :=
  fix go l := match l with
              | [] => mret tt
              | a :: l' => _ ← f a; go l'
              end.

Lemma bindS_eq {A B} (m : ST S A) (f : A → ST S B) s :
  (m ≫= f) s = match m s with (Ok a, s') => f a s' | (Raise e, s') => (Raise e, s') end.
Proof. done. Qed.

Lemma bindS_ok {A B} (m : ST S A) (f : A → ST S B) s a s' :
  m s = (Ok a, s') → (m ≫= f) s = f a s'.
Proof. intros H. by rewrite bindS_eq, H. Qed.

Lemma bindS_raise {A B} (m : ST S A) (f : A → ST S B) s e s' :
  m s = (Raise e, s') → (m ≫= f) s = (Raise e, s').
Proof. intros H. by rewrite bindS_eq, H. Qed.

Lemma forEach_app {A} (f : A → ST S unit) l1 l2 s s' :
  forEach f l1 s = (Ok tt, s') → forEach f (l1 ++ l2) s = forEach f l2 s'.
Proof.
  revert s. induction l1 as [|a l1 IH]; intros s H; simpl in *; [by injection H as <-|].
  rewrite bindS_eq in *. destruct (f a s) as [[[]|e] s1]; [|done]. by apply IH.
Qed.
End operations.

(** ** Functions with enough fuel *)

(** The outcomes of a function that had enough fuel. *)
Definition ends {A} (P : A → Prop) (o : outcome A) : Prop :=
  match o with
  | Ok a => P a
  | Raise e => e ≠ OutOfFuel
  end.

Lemma ends_bind {A B} (P : A → Prop) (Q : B → Prop) (o : outcome A) (f : A → outcome B) :
  ends P o → (∀ a, P a → ends Q (f a)) → ends Q (o ≫= f).
Proof. destruct o; simpl; auto. Qed.

Lemma ends_mono {A} (P Q : A → Prop) (o : outcome A) : ends P o → (∀ a, P a → Q a) → ends Q o.
Proof. destruct o; simpl; auto. Qed.

Lemma ends_assert b : ends (λ _, b = true) (assert_ b).
Proof. by destruct b. Qed.

Lemma ends_index {A} (l : list A) i : ends (λ a, l !! i = Some a) (index_ l i).
Proof. unfold index_. by destruct (l !! i) eqn:E. Qed.
