(* ===== verification/Database.v ===== *)
(** Server/include/Database.h and Server/src/Database.cpp: the wrapper around
    SQLite and the two helpers that build SQL text.

    SQLite is not part of the repository: [SQLite] lists the calls the wrapper
    makes.  Nothing is assumed of the number of rows a statement has, which may be
    endless: [rows_left] only tells the two cases apart ([rows_left_exists]).
    [Database] is the interface the web routes are modelled against, and
    [sqlite_database] the instance the wrapper provides. *)

From Stdlib.Logic Require ClassicalEpsilon.
From S2P Require Import Prelude Query.

(** The named parameters of a statement, in the order the map yields them. *)
Abbreviation params := (list (text * text)).

(** ** Results *)

Record SQLResult := {
  colCount : nat;
  data : list text;
  colNames : list text;
}.

(** [SQLCode]: only the test [isOK] is ever made on it. *)
Definition SQLCode := Z.
Definition SQLITE_OK : SQLCode := 0%Z.
Definition SQLITE_ERROR : SQLCode := 1%Z.
Definition SQLITE_ROW : SQLCode := 100%Z.
Definition SQLITE_DONE : SQLCode := 101%Z.
Definition isOK (c : SQLCode) : bool := (c =? SQLITE_OK)%Z.

Definition emptyResult (size : nat) : SQLResult :=
  {| colCount := size; data := []; colNames := [] |}.

Definition columnCount (r : SQLResult) : nat := colCount r.
(** [data.size() / colCount], a division by zero for a statement without columns. *)
Definition rowCount (r : SQLResult) : outcome nat :=
  if bool_decide (colCount r = 0%nat) then Raise UndefinedBehaviour
  else Ok (length (data r) / colCount r)%nat.
(** [result[row][col]]. *)
Definition get (r : SQLResult) (row col : nat) : outcome text :=
  index_ (data r) (row * colCount r + col).
Definition getColName (r : SQLResult) (col : nat) : outcome text := index_ (colNames r) col.

(** The interface of [sqlite3DB::query] the routes are written against; it can
    fault, or not come back. *)
Class Database := {
  db_state : Type;
  db_query : db_state → text → params → outcome (db_state * (SQLCode * SQLResult));
}.

(** ** The calls into SQLite *)

Class SQLite := {
  connection : Type;
  statement : Type;
  sqlite3_prepare_v2 : connection → text → option statement;
  sqlite3_bind_parameter_index : statement → text → Z;
  sqlite3_bind_text : statement → Z → text → statement;
  sqlite3_column_count : statement → nat;
  sqlite3_column_name : statement → nat → text;
  sqlite3_step : connection → statement → SQLCode * connection * statement;
  sqlite3_column_text : statement → nat → option text;
  (** not a call: a bound on the rows [sqlite3_step] still gives, if it ends *)
  rows_left : connection → statement → option nat;
}.

(** The next [n] steps all give a row. *)
Fixpoint still_rows `{SQLite} (n : nat) (c : connection) (s : statement) : bool :=
  match n with
  | O => true
  | S n' => let '(status, c', s') := sqlite3_step c s in (status =? SQLITE_ROW)%Z && still_rows n' c' s'
  end.
Definition endless `{SQLite} (c : connection) (s : statement) : Prop := ∀ n, still_rows n c s = true.

(** What [rows_left] means. *)
Class SQLiteFacts `{SQLite} := {
  rows_left_ends c s n : rows_left c s = Some n → still_rows (S n) c s = false;
  rows_left_endless c s : rows_left c s = None → endless c s;
}.

(** A [const char*] read as a string ends at the first NUL. *)
Fixpoint c_str (s : text) : text :=
  match s with
  | [] => []
  | c :: s' => if bool_decide (c = "000"%char) then [] else c :: c_str s'
  end.

Section sqlite.
Context `{SQLite}.

(** The state the wrapper works on: the connection and the number of
    statements prepared and not yet finalized. *)
Record handle := { conn : connection; live : nat }.

Definition prepare (h : handle) (SQL : text) : option statement * handle :=
  match sqlite3_prepare_v2 (conn h) SQL with
  | None => (None, h)
  | Some st => (Some st, {| conn := conn h; live := S (live h) |})
  end.

Definition sqlite3_finalize (h : handle) : handle :=
  {| conn := conn h; live := pred (live h) |}.

(** The cells of the row the statement stands on, as [execute] copies them. *)
Definition row_cells (st : statement) (cols : nat) : list text :=
  (λ i, match sqlite3_column_text st i with
        | None => T "NULL"
        | Some v => c_str v
        end) <$> seq 0 cols.

(** The [while (true)] loop of [SQLResult::execute]. *)
Fixpoint stepLoop (fuel : nat) (c : connection) (st : statement) (cols : nat) (acc : list text)
    : outcome (SQLCode * connection * list text) :=
  match fuel with
  | O => Raise OutOfFuel
  | S fuel' =>
      let '(status, c', st') := sqlite3_step c st in
      if (status =? SQLITE_ROW)%Z
      then stepLoop fuel' c' st' cols (acc ++ row_cells st' cols)
      else Ok (status, c', acc)
  end.

Definition execute (h : handle) (st : statement) (r : SQLResult)
    : outcome (handle * SQLCode * SQLResult) :=
  '(status, c', data') ←
    match rows_left (conn h) st with
    | Some n => stepLoop (S n) (conn h) st (colCount r) (data r)
    | None => Raise NeverReturns
    end;
  let h := sqlite3_finalize {| conn := c'; live := live h |} in
  let r := {| colCount := colCount r; data := data'; colNames := colNames r |} in
  Ok (h, if (status =? SQLITE_DONE)%Z then SQLITE_OK else status, r).

(** [sqlite3_bind_text(..., value.data(), static_cast<int>(value.size()), ...)]: a
    length that is negative as an [int] makes SQLite read up to the first NUL. *)
Definition bound_text (value : text) : text :=
  let n := int32 (Z.of_nat (length value)) in
  if (n <? 0)%Z then c_str value else take (Z.to_nat n) value.

(** The loop over [namedParams]; [None] when a name is not in the statement. *)
Fixpoint bindAll (st : statement) (ps : params) : option statement :=
  match ps with
  | [] => Some st
  | (name, val) :: ps' =>
      let id := sqlite3_bind_parameter_index st (c_str name) in
      if negb (id =? 0)%Z then bindAll (sqlite3_bind_text st id (bound_text val)) ps' else None
  end.

(** [SQLResult::query]; the SQL text must fit an [int]. *)
Definition query (h : handle) (SQL : text) (namedParams : params)
    : outcome (handle * SQLCode * SQLResult) :=
  _ ← assert_ (bool_decide (Z.of_nat (length SQL) ≤ 2 ^ 31 - 1)%Z);
  let '(statement, h) := prepare h SQL in
  match statement with
  | None => Ok (h, SQLITE_ERROR, emptyResult 0)
  | Some st =>
      match bindAll st namedParams with
      | None => Ok (sqlite3_finalize h, SQLITE_ERROR, emptyResult 0)
      | Some st =>
          let cols := sqlite3_column_count st in
          execute h st {| colCount := cols; data := [];
                          colNames := sqlite3_column_name st <$> seq 0 cols |}
      end
  end.
End sqlite.

(** ** SQL text *)

(** [generateLIKEArgument]. *)
Definition generateLIKEArgument (val : text) : text := T "%" ++ val ++ T "%".

(** [generateUpdateStatement]: [relations] pairs a form field with a column, in
    the order the map yields them. *)
Fixpoint updateLoop (b : queryBase) (relations : list (text * text)) (ret : text) : outcome text :=
  match relations with
  | [] => Ok ret
  | (bodyElementName, tableElementName) :: relations' =>
      skip ← (if negb (hasElement b bodyElementName false) then Ok true
              else v ← getElement b bodyElementName; Ok (bool_decide (v = [])));
      if (skip : bool) then updateLoop b relations' ret
      else
        let ret := if negb (bool_decide (ret = [])) then ret ++ T "," else ret in
        val ← getElement b bodyElementName;
        updateLoop b relations'
          (ret ++ tableElementName ++ T " = " ++ [QUOTE] ++ val ++ [QUOTE])
  end.

Definition generateUpdateStatement (b : queryBase) (relations : list (text * text)) : outcome text :=
  updateLoop b relations [].

(** ** The statement loop *)

Section sqlite_facts.
Context `{SQLiteFacts}.

(** [yields c s cols rows status c']: stepping [s] gives the rows [rows] and
    then ends with [status] on connection [c']. *)
Inductive yields (cols : nat) : connection → statement → list (list text) → SQLCode → connection → Prop :=
  | yields_end c s status c' s' :
      sqlite3_step c s = (status, c', s') → status ≠ SQLITE_ROW →
      yields cols c s [] status c'
  | yields_row c s c1 s1 rows status c' :
      sqlite3_step c s = (SQLITE_ROW, c1, s1) → yields cols c1 s1 rows status c' →
      yields cols c s (row_cells s1 cols :: rows) status c'.

Lemma length_row_cells s cols : length (row_cells s cols) = cols.
Proof. unfold row_cells. by rewrite length_fmap, length_seq. Qed.

Lemma yields_lengths cols c s rows status c' :
  yields cols c s rows status c' → Forall (λ row, length row = cols) rows.
Proof. induction 1; constructor; [apply length_row_cells|done]. Qed.

Lemma stepLoop_yields cols c s rows status c' fuel acc :
  yields cols c s rows status c' → (length rows < fuel)%nat →
  stepLoop fuel c s cols acc = Ok (status, c', acc ++ concat rows).
Proof.
  intros Hy. revert fuel acc.
  induction Hy as [c s status c' s' Hs Hne|c s c1 s1 rows status c' Hs Hy IH]; intros fuel acc Hf;
    (destruct fuel as [|fuel]; [simpl in Hf; lia|]); simpl; rewrite Hs.
  - destruct (Z.eqb_spec status SQLITE_ROW); [done|]. by rewrite app_nil_r.
  - rewrite Z.eqb_refl. rewrite IH by (simpl in Hf; lia). by rewrite <- app_assoc.
Qed.

Lemma yields_still cols c s rows status c' n :
  yields cols c s rows status c' → (length rows < n)%nat ↔ still_rows n c s = false.
Proof.
  intros Hy. revert n.
  induction Hy as [c s status c' s' Hs Hne|c s c1 s1 rows status c' Hs Hy IH]; intros [|n]; simpl;
    [split; [lia|done]|rewrite Hs|split; [lia|done]|rewrite Hs].
  - destruct (Z.eqb_spec status SQLITE_ROW); [done|]. split; [done|lia].
  - rewrite Z.eqb_refl. simpl. rewrite <- IH. lia.
Qed.

Lemma still_yields cols n c s :
  still_rows n c s = false → ∃ rows status c', yields cols c s rows status c'.
Proof.
  revert c s. induction n as [|n IH]; intros c s; simpl; [done|].
  destruct (sqlite3_step c s) as [[status c1] s1] eqn:Hs. destruct (Z.eqb_spec status SQLITE_ROW) as [->|Hne].
  - intros Hn. destruct (IH _ _ Hn) as (rows & status & c' & Hy). do 3 eexists. by eapply yields_row.
  - intros _. do 3 eexists. by eapply yields_end.
Qed.

(** The statement loop, when the statement ends and when it does not. *)
Lemma execute_yields h st r rows status c' :
  yields (colCount r) (conn h) st rows status c' →
  execute h st r = Ok ({| conn := c'; live := pred (live h) |},
    if (status =? SQLITE_DONE)%Z then SQLITE_OK else status,
    {| colCount := colCount r; data := data r ++ concat rows; colNames := colNames r |}).
Proof.
  intros Hy. unfold execute. destruct (rows_left (conn h) st) as [n|] eqn:En.
  - rewrite (stepLoop_yields _ _ _ _ _ _ _ _ Hy); [done|].
    apply (yields_still _ _ _ _ _ _ _ Hy). by apply rows_left_ends.
  - pose proof (rows_left_endless _ _ En (S (length rows))) as Hn.
    rewrite (proj1 (yields_still _ _ _ _ _ _ _ Hy)) in Hn; [done|lia].
Qed.

Lemma execute_cases h st r :
  (∃ rows status c', yields (colCount r) (conn h) st rows status c') ∨
  endless (conn h) st ∧ execute h st r = Raise NeverReturns.
Proof.
  destruct (rows_left (conn h) st) as [n|] eqn:En.
  - left. by eapply still_yields, rows_left_ends.
  - right. split; [by apply rows_left_endless|]. unfold execute. by rewrite En.
Qed.

Lemma yields_not_endless cols c s rows status c' : yields cols c s rows status c' → ¬ endless c s.
Proof.
  intros Hy He. specialize (He (S (length rows))).
  rewrite (proj1 (yields_still _ _ _ _ _ _ _ Hy)) in He; [done|lia].
Qed.

(** The statement that [query] runs for [SQL] gives rows for ever. *)
Definition hangs (h : handle) (SQL : text) (ps : params) : Prop :=
  ∃ st st', sqlite3_prepare_v2 (conn h) SQL = Some st ∧ bindAll st ps = Some st' ∧ endless (conn h) st'.

Lemma query_outcome h SQL ps :
  match query h SQL ps with
  | Ok (h', code, r) => (Z.of_nat (length SQL) < 2 ^ 31)%Z ∧ live h' = live h ∧ ¬ hangs h SQL ps
  | Raise AssertFailed => (2 ^ 31 ≤ Z.of_nat (length SQL))%Z
  | Raise NeverReturns => (Z.of_nat (length SQL) < 2 ^ 31)%Z ∧ hangs h SQL ps
  | Raise _ => False
  end.
Proof.
  unfold query, assert_, hangs. case_bool_decide; [rewrite bind_Ok|simpl; lia].
  unfold prepare. destruct (sqlite3_prepare_v2 (conn h) SQL) as [st|]; simpl;
    [|split_and!; [lia|done|naive_solver]].
  destruct (bindAll st ps) as [st'|] eqn:Hb; simpl; [|split_and!; [lia|done|naive_solver]].
  match goal with |- context [execute ?h' ?st' ?r] =>
    destruct (execute_cases h' st' r) as [(rows & status & c' & Hy)|[He ->]] end.
  - rewrite (execute_yields _ _ _ _ _ _ Hy). split_and!; [lia|done|].
    intros (s0 & s1 & [= <-] & E & He). assert (s1 = st') as -> by congruence. by eapply yields_not_endless.
  - split; [lia|]. naive_solver.
Qed.

(** C39: a query comes back unless its statement gives rows for ever, or its text is
    longer than an [int] can say, which the assertion catches.  When it comes back
    it has, on every path (a syntax error, an unknown parameter, a completed or
    failed execution), finalized exactly the statement it prepared. *)
Theorem query_returns h SQL ps :
  match query h SQL ps with
  | Ok (h', code, r) => (Z.of_nat (length SQL) < 2 ^ 31)%Z ∧ live h' = live h ∧ ¬ hangs h SQL ps
  | Raise AssertFailed => (2 ^ 31 ≤ Z.of_nat (length SQL))%Z
  | Raise NeverReturns => (Z.of_nat (length SQL) < 2 ^ 31)%Z ∧ hangs h SQL ps
  | Raise _ => False
  end.
Proof. apply query_outcome. Qed.

(** Whatever SQLite is, there is such a bound: the laws ask nothing of it. *)
Lemma rows_left_exists : ∃ bound : connection → statement → option nat, ∀ c s,
  match bound c s with Some n => still_rows (S n) c s = false | None => endless c s end.
Proof.
  exists (λ c s,
    match ClassicalEpsilon.excluded_middle_informative (∃ n, still_rows (S n) c s = false) with
    | left E => Some (proj1_sig (ClassicalEpsilon.constructive_indefinite_description _ E))
    | right _ => None
    end).
  intros c s. destruct (ClassicalEpsilon.excluded_middle_informative _) as [E|Hn].
  - by destruct (ClassicalEpsilon.constructive_indefinite_description _ E).
  - intros [|n]; [done|]. destruct (still_rows (S n) c s) eqn:E; [done|]. destruct Hn. by exists n.
Qed.

(** ** The flat store of cells *)

Lemma lookup_concat {A} n (rows : list (list A)) i j row :
  Forall (λ row, length row = n) rows → rows !! i = Some row → (j < n)%nat →
  concat rows !! (i * n + j)%nat = row !! j.
Proof.
  revert i. induction rows as [|r rows IH]; intros i HF Hi Hj; [done|].
  apply Forall_cons in HF as [Hr HF]. destruct i as [|i]; simplify_eq/=.
  - by rewrite lookup_app_l.
  - rewrite lookup_app_r by lia. rewrite <- (IH i) by done. f_equal. lia.
Qed.

Lemma length_concat_rows {A} n (rows : list (list A)) :
  Forall (λ row, length row = n) rows → length (concat rows) = (length rows * n)%nat.
Proof. induction 1; simpl; [done|]. rewrite length_app. lia. Qed.

(** C27: a successful query reports the rows SQLite yielded: as many as there
    were, each cell where [result[row][col]] looks for it. *)
Theorem query_cells h SQL ps st st' rows c' :
  (Z.of_nat (length SQL) < 2 ^ 31)%Z →
  sqlite3_prepare_v2 (conn h) SQL = Some st → bindAll st ps = Some st' →
  sqlite3_column_count st' ≠ 0%nat →
  yields (sqlite3_column_count st') (conn h) st' rows SQLITE_DONE c' →
  ∃ h' r, query h SQL ps = Ok (h', SQLITE_OK, r) ∧
    rowCount r = Ok (length rows) ∧
    ∀ i j row cell, rows !! i = Some row → row !! j = Some cell → get r i j = Ok cell.
Proof.
  intros Hl Hp Hb Hc Hy. unfold query, assert_. rewrite bool_decide_true by lia. simpl.
  unfold prepare. rewrite Hp, Hb. pose proof (yields_lengths _ _ _ _ _ _ Hy) as HF.
  match goal with |- context [execute ?h' ?st' ?r] => rewrite (execute_yields h' st' r _ _ _ Hy) end.
  do 2 eexists. split; [done|]. split.
  - unfold rowCount. simpl. rewrite bool_decide_false by done.
    rewrite (length_concat_rows _ _ HF). by rewrite Nat.div_mul.
  - intros i j row cell Hi Hj. unfold get, index_. simpl.
    assert (length row = sqlite3_column_count st') as Hr.
    { rewrite Forall_forall in HF. apply HF, list_elem_of_lookup. eauto. }
    rewrite (lookup_concat _ _ _ _ _ HF Hi); [by rewrite Hj|].
    rewrite <- Hr. by eapply lookup_lt_Some.
Qed.
End sqlite_facts.

(** The wrapper is the [Database] the routes run on. *)
#[global] Instance sqlite_database `{SQLite} : Database := {|
  db_state := handle;
  db_query h SQL ps :=
    '(h', code, r) ← query h SQL ps; Ok (h', (code, r));
|}.

(** ** Update statements *)

(** The assignment one form field contributes. *)
Definition assignment (b : queryBase) (rel : text * text) : option text :=
  v ← elements b !! rel.1;
  if bool_decide (v = []) then None else Some (rel.2 ++ T " = " ++ [QUOTE] ++ v ++ [QUOTE]).

Definition comma_before (ret : text) (l : list text) : text :=
  match l with
  | [] => ret
  | _ => if bool_decide (ret = []) then join (T ",") l else ret ++ T "," ++ join (T ",") l
  end.

Lemma comma_before_cons ret p l :
  p ≠ [] →
  comma_before ((if negb (bool_decide (ret = [])) then ret ++ T "," else ret) ++ p) l
  = comma_before ret (p :: l).
Proof.
  intros Hp. unfold comma_before. destruct (bool_decide (ret = [])) eqn:E; simpl.
  - apply bool_decide_eq_true in E as ->. simpl. rewrite bool_decide_false by done. by destruct l.
  - rewrite bool_decide_false by (intros [? ?]%app_eq_nil; done).
    destruct l; simpl; by rewrite <- ?app_assoc.
Qed.

Lemma updateLoop_spec b relations ret :
  updateLoop b relations ret = Ok (comma_before ret (omap (assignment b) relations)).
Proof.
  revert ret. induction relations as [|[f col] rels IH]; intros ret; [done|].
  assert (omap (assignment b) ((f, col) :: rels) =
          match assignment b (f, col) with
          | Some y => y :: omap (assignment b) rels
          | None => omap (assignment b) rels
          end) as -> by done.
  cbn [updateLoop]. unfold assignment at 1, hasElement, getElement, at_. cbn [fst snd].
  destruct (elements b !! f) as [v|] eqn:Ef; simpl; [|by rewrite IH].
  destruct (bool_decide (v = [])) eqn:Ev; simpl; [by rewrite IH|].
  rewrite IH. f_equal.
  apply comma_before_cons. by destruct col.
Qed.

Lemma generateUpdateStatement_run b relations :
  generateUpdateStatement b relations = Ok (join (T ",") (omap (assignment b) relations)).
Proof.
  unfold generateUpdateStatement. rewrite updateLoop_spec. unfold comma_before.
  by destruct (omap _ relations).
Qed.

(** the statement is the comma-separated list of one assignment per field
    the form fills in, in the order of the relations; it never fails. *)
Theorem generateUpdateStatement_spec b relations :
  generateUpdateStatement b relations = Ok (join (T ",") (omap (assignment b) relations)).
Proof. apply generateUpdateStatement_run. Qed.

(** C40: nothing is escaped.  A value holding a quote contributes a second
    assignment, to a column of its choice. *)
Theorem generateUpdateStatement_injection f1 c1 f2 c2 v1 v2 :
  f1 ≠ f2 → v1 ≠ [] → v2 ≠ [] →
  generateUpdateStatement
    {| elements := {[ f1 := v1 ++ [QUOTE] ++ T "," ++ c2 ++ T " = " ++ [QUOTE] ++ v2 ]} |} [(f1, c1)]
  = generateUpdateStatement {| elements := {[ f1 := v1; f2 := v2 ]} |} [(f1, c1); (f2, c2)].
Proof.
  intros Hne H1 H2. rewrite !generateUpdateStatement_run. f_equal. unfold assignment. simpl.
  rewrite lookup_insert_eq, lookup_insert_ne, !lookup_singleton_eq by done. simpl.
  rewrite !bool_decide_false by (done || intros [? ?]%app_eq_nil; done). simpl.
  repeat (rewrite <- ?app_assoc; simpl). done.
Qed.
