(* ===== verification/Http.v ===== *)
(** The world the web routes act on: the database connection, the session
    store, the random source and everything the program writes, with the small
    state and error monad the routes are written in, the program logic for it,
    and [HttpCallWrapper] (Server/include/Network.h), which collects the body of
    a request before it calls a route.

    uWebSockets is not part of the repository: a request is the record of what
    its accessors answer, and the calls on a response are recorded as events in
    the order they are made. *)

From S2P Require Import Prelude CharConv Query Response Database.

(** ** Requests, events, worlds *)

Record HttpRequest := {
  getHeader : text → text;  (** by lower-case name, empty when absent *)
  getQuery : text;
  getUrl : text;
  getMethod : text;
}.

Inductive event :=
  | EvQuery (SQL : text) (ps : params) (code : SQLCode) (result : SQLResult)
  | EvLost (SQL : text) (ps : params) (e : fault)  (** a query that has no result *)
  | EvStatus (status : text)
  | EvHeader (name val : text)
  | EvEnd (contents : text)
  | EvTryEnd (contents : text)
  | EvLog (line : text).

(** The statement an event is about, answered or not. *)
Definition asked (ev : event) : option (text * params) :=
  match ev with EvQuery SQL ps _ _ | EvLost SQL ps _ => Some (SQL, ps) | _ => None end.

(** [authenticator::session]. *)
Record session := { authLevel_of : Z; userID : Z }.

Section world.
Context `{Database}.

Record world := {
  w_db : db_state;
  w_sessions : gmap Z session;
  w_random : nat → Z;  (** the values [dist(random)] will draw *)
  w_trace : list event;
}.

Definition M (A : Type) : Type := world → outcome A * world.

#[global] Instance M_ret : MRet M := λ A a w, (Ok a, w).
#[global] Instance M_bind : MBind M := λ A B f m w,
  match m w with
  | (Ok a, w') => f a w'
  | (Raise e, w') => (Raise e, w')
  end.

Definition lift {A} (o : outcome A) : M A := λ w, (o, w).

Definition emit (ev : event) : M unit := λ w,
  (Ok tt, {| w_db := w_db w; w_sessions := w_sessions w; w_random := w_random w;
             w_trace := w_trace w ++ [ev] |}).

Definition writeStatus (status : text) : M unit := emit (EvStatus status).
Definition writeHeader (name val : text) : M unit := emit (EvHeader name val).
Definition end_ : M unit := emit (EvEnd []).
Definition endWith (contents : text) : M unit := emit (EvEnd contents).
Definition tryEnd (contents : text) : M unit := emit (EvTryEnd contents).
Definition log (line : text) : M unit := emit (EvLog line).

Definition getSessions : M (gmap Z session) := λ w, (Ok (w_sessions w), w).
Definition putSessions (s : gmap Z session) : M unit := λ w,
  (Ok tt, {| w_db := w_db w; w_sessions := s; w_random := w_random w; w_trace := w_trace w |}).

(** [serverData::database->query]. *)
Definition dbQuery (SQL : text) (ps : params) : M (SQLCode * SQLResult) := λ w,
  match db_query (w_db w) SQL ps with
  | Ok (d, (code, r)) =>
      (Ok (code, r), {| w_db := d; w_sessions := w_sessions w; w_random := w_random w;
                        w_trace := w_trace w ++ [EvQuery SQL ps code r] |})
  | Raise e =>
      (Raise e, {| w_db := w_db w; w_sessions := w_sessions w; w_random := w_random w;
                   w_trace := w_trace w ++ [EvLost SQL ps e] |})
  end.

(** The short-circuit [||]; the right operand runs only if the left is false. *)
Definition orM (a b : M bool) : M bool := x ← a; if (x : bool) then mret true else b.
Definition andM (a b : M bool) : M bool := x ← a; if (x : bool) then b else mret false.

(** [!status || result.rowCount() == 0]. *)
Definition failedOrEmpty (status : SQLCode) (r : SQLResult) : M bool :=
  orM (mret (negb (isOK status)))
      (n ← lift (rowCount r); mret (bool_decide (n = 0%nat))).

(** [writeStatus(code); end();], the way every early return answers. *)
Definition reply (status : text) : M unit := _ ← writeStatus status; end_.
End world.

(** [HTTPCodes]. *)
Definition OK : text := T "200".
Definition NOCONTENT_NOREDIRECT : text := T "204".
Definition BADREQUEST : text := T "400".
Definition UNAUTHORISED : text := T "401".
Definition FORBIDDEN : text := T "403".
Definition NOTFOUND : text := T "404".
Definition CONFLICT : text := T "409".
Definition INTERNALERROR : text := T "500".

(** ** [HttpCallWrapper] *)

Section callWrapper.
Context `{Database, Curl}.
Context (callback : HttpRequest → queryBase → queryBase → M unit).

Definition contentLength (req : HttpRequest) : Z :=
  match from_chars_uint 64 (getHeader req (T "content-length")) with
  | None => 0
  | Some v => v
  end.

(** The calls uWebSockets makes to the [onData] handler, in order; [buffer]
    lives in the handler across calls. *)
Fixpoint onData (req : HttpRequest) (q : queryBase) (buffer : text) (chunks : list (text * bool))
    : M unit :=
  match chunks with
  | [] => mret tt
  | (data, last) :: chunks' =>
      let buffer := buffer ++ data in
      _ ← (if (last : bool) then callback req (mkQuery buffer) q else mret tt);
      onData req q buffer chunks'
  end.

Definition onAborted : M unit := reply INTERNALERROR.

(** [HttpCallWrapper::operator()], with the chunks that arrive afterwards. *)
Definition callWrapper (req : HttpRequest) (chunks : list (text * bool)) : M unit :=
  let stackQuery := mkQuery (getQuery req) in
  if (contentLength req =? 0)%Z then callback req emptyQuery stackQuery
  else onData req stackQuery [] chunks.
End callWrapper.

(** ** Program logic

    [wp C s m Q]: run in any world whose session store is [s], with a database
    that answers within [c_reply C], the program [m] leaves the session store
    alone, adds only events in [c_event C] and either raises a fault in
    [c_fault C], or the fault of a query that has no result, or returns some [a]
    having ended the response [n] times, with [Q a n]. *)

Definition ends_response (ev : event) : bool :=
  match ev with EvEnd _ | EvTryEnd _ => true | _ => false end.
Fixpoint count_ends (evs : list event) : nat :=
  match evs with
  | [] => 0
  | ev :: evs' => if ends_response ev then S (count_ends evs') else count_ends evs'
  end.

Lemma count_ends_app l1 l2 : count_ends (l1 ++ l2) = (count_ends l1 + count_ends l2)%nat.
Proof. induction l1 as [|ev l1 IH]; simpl; [done|]. rewrite IH. by destruct (ends_response ev). Qed.

Record contract := {
  c_fault : fault → Prop;
  c_event : event → Prop;
  c_reply : text → params → SQLCode → SQLResult → Prop;
}.

Section wp.
Context `{Database}.

Definition answers (C : contract) : Prop :=
  ∀ d SQL ps d' code r, db_query d SQL ps = Ok (d', (code, r)) → c_reply C SQL ps code r.

(** The last thing a run did is a query that has no result. *)
Definition lost (evs : list event) (e : fault) : Prop := ∃ SQL ps, last evs = Some (EvLost SQL ps e).

Lemma lost_app evs evs' e : lost evs' e → lost (evs ++ evs') e.
Proof. intros (SQL & ps & E). exists SQL, ps. by rewrite last_app, E. Qed.

Definition wp {A} (C : contract) (s : gmap Z session) (m : M A) (Q : A → nat → Prop) : Prop :=
  answers C → ∀ w, w_sessions w = s → ∃ evs,
    w_trace (m w).2 = w_trace w ++ evs ∧ w_sessions (m w).2 = s ∧ Forall (c_event C) evs ∧
    match (m w).1 with
    | Ok a => Q a (count_ends evs)
    | Raise e => c_fault C e ∨ lost evs e
    end.

Context {C : contract} {s : gmap Z session}.

Lemma wp_mono {A} (m : M A) (Q Q' : A → nat → Prop) :
  wp C s m Q → (∀ a n, Q a n → Q' a n) → wp C s m Q'.
Proof.
  intros Hm HQ HC w Hw. destruct (Hm HC w Hw) as (evs & ? & ? & ? & Ho). exists evs.
  split_and!; [done..|]. destruct ((m w).1); auto.
Qed.

Lemma wp_ret {A} (a : A) (Q : A → nat → Prop) : Q a 0%nat → wp C s (mret a) Q.
Proof. intros HQ _ w Hw. exists []. rewrite app_nil_r. split_and!; by try constructor. Qed.

Lemma wp_bind {A B} (m : M A) (f : A → M B) (Q : B → nat → Prop) :
  wp C s m (λ a n, wp C s (f a) (λ b k, Q b (n + k)%nat)) → wp C s (m ≫= f) Q.
Proof.
  intros Hm HC w Hw. destruct (Hm HC w Hw) as (evs & Ht & Hs & HF & Ho).
  unfold mbind, M_bind. destruct (m w) as [[a|e] w1]; simpl in *.
  - destruct (Ho HC w1 Hs) as (evs' & Ht' & Hs' & HF' & Ho').
    exists (evs ++ evs'). rewrite Ht', Ht, app_assoc, count_ends_app.
    split_and!; [done|done|by apply Forall_app|].
    destruct ((f a w1).1); [done|]. destruct Ho' as [?|?]; [by left|right; by apply lost_app].
  - by exists evs.
Qed.

Lemma wp_lift {A} (o : outcome A) (Q : A → nat → Prop) :
  (∀ a, o = Ok a → Q a 0%nat) → (∀ e, o = Raise e → c_fault C e) → wp C s (lift o) Q.
Proof.
  intros HQ He _ w Hw. exists []. rewrite app_nil_r. split_and!; [done..|by constructor|].
  simpl. destruct o; auto.
Qed.

Lemma wp_lift_ok {A} (a : A) (Q : A → nat → Prop) : Q a 0%nat → wp C s (lift (Ok a)) Q.
Proof. apply wp_ret. Qed.

Lemma wp_emit ev (Q : unit → nat → Prop) :
  c_event C ev → Q tt (if ends_response ev then 1 else 0)%nat → wp C s (emit ev) Q.
Proof. intros He HQ _ w Hw. exists [ev]. split_and!; [done..|by repeat constructor|done]. Qed.

Lemma wp_getSessions (Q : gmap Z session → nat → Prop) : Q s 0%nat → wp C s getSessions Q.
Proof.
  intros HQ _ w Hw. exists []. rewrite app_nil_r. split_and!; [done..|by constructor|].
  simpl. by rewrite Hw.
Qed.

Lemma wp_dbQuery SQL ps (Q : SQLCode * SQLResult → nat → Prop) :
  (∀ e, c_event C (EvLost SQL ps e)) →
  (∀ code r, c_reply C SQL ps code r →
             c_event C (EvQuery SQL ps code r) ∧ Q (code, r) 0%nat) →
  wp C s (dbQuery SQL ps) Q.
Proof.
  intros Hl HQ HC w Hw. unfold dbQuery.
  destruct (db_query (w_db w) SQL ps) as [[d [code r]]|e] eqn:E.
  - destruct (HQ code r (HC _ _ _ _ _ _ E)).
    exists [EvQuery SQL ps code r]. split_and!; [done..|by repeat constructor|done].
  - exists [EvLost SQL ps e]. split_and!; [done..|by repeat constructor|right; by exists SQL, ps].
Qed.
End wp.

(** One step of symbolic execution: apply the rule of the program's head, or
    split on the test it makes. *)
Ltac wp_split :=
  match goal with
  | |- wp _ _ (if ?b then _ else _) _ => let E := fresh "E" in destruct b eqn:E
  | |- wp _ _ (match ?x with _ => _ end) _ => let E := fresh "E" in destruct x eqn:E
  end.

Ltac wp_step :=
  match goal with
  | |- wp _ _ (mbind _ _) _ => apply wp_bind
  | |- wp _ _ (mret _) _ => apply wp_ret
  | |- wp _ _ (orM _ _) _ => unfold orM
  | |- wp _ _ (andM _ _) _ => unfold andM
  | |- wp _ _ (failedOrEmpty _ _) _ => unfold failedOrEmpty
  | |- wp _ _ (reply _) _ => unfold reply
  | |- wp _ _ (writeStatus _) _ => apply wp_emit
  | |- wp _ _ (writeHeader _ _) _ => apply wp_emit
  | |- wp _ _ end_ _ => apply wp_emit
  | |- wp _ _ (endWith _) _ => apply wp_emit
  | |- wp _ _ (tryEnd _) _ => apply wp_emit
  | |- wp _ _ (log _) _ => apply wp_emit
  | |- wp _ _ getSessions _ => apply wp_getSessions
  | |- wp _ _ (dbQuery _ _) _ => apply wp_dbQuery
  | |- wp _ _ (lift (Ok _)) _ => apply wp_lift_ok
  | |- wp _ _ (lift _) _ => apply wp_lift
  | |- wp _ _ (let '(_, _) := ?x in _) _ => let E := fresh "E" in destruct x eqn:E
  | |- wp _ _ _ _ => wp_split
  end.

(** ** Collecting the body *)

Section callWrapper_facts.
Context `{Database, Curl}.
Context (callback : HttpRequest → queryBase → queryBase → M unit).

Lemma bind_ret_tt (m : M unit) w : (_ ← m; mret tt) w = m w.
Proof. unfold mbind, M_bind, mret, M_ret. by destruct (m w) as [[[]|e] w']. Qed.

Lemma onData_pieces req q buffer ds d w :
  onData callback req q buffer (((λ d, (d, false)) <$> ds) ++ [(d, true)]) w
  = callback req (mkQuery (buffer ++ concat ds ++ d)) q w.
Proof.
  revert buffer. induction ds as [|d' ds IH]; intros buffer; [apply bind_ret_tt|].
  transitivity (onData callback req q (buffer ++ d') (((λ d, (d, false)) <$> ds) ++ [(d, true)]) w);
    [done|]. rewrite IH. simpl. by rewrite <- !app_assoc.
Qed.

(** however the network splits the body of a request, the route runs once,
    after the last piece, on the body put back together. *)
Theorem callWrapper_pieces req ds d w :
  contentLength req ≠ 0%Z →
  callWrapper callback req (((λ d, (d, false)) <$> ds) ++ [(d, true)]) w
  = callback req (mkQuery (concat ds ++ d)) (mkQuery (getQuery req)) w.
Proof.
  intros Hc. unfold callWrapper. destruct (Z.eqb_spec (contentLength req) 0); [done|].
  apply onData_pieces.
Qed.
End callWrapper_facts.

(** ** Stepping through a run *)

Section runs.
Context `{Database}.

Lemma bind_eq {A B} (m : M A) (f : A → M B) w :
  (m ≫= f) w = match m w with
               | (Ok a, w') => f a w'
               | (Raise e, w') => (Raise e, w')
               end.
Proof. done. Qed.

Lemma bind_ok {A B} (m : M A) (f : A → M B) w a w' :
  m w = (Ok a, w') → (m ≫= f) w = f a w'.
Proof. intros E. by rewrite bind_eq, E. Qed.

Lemma bind_raise {A B} (m : M A) (f : A → M B) w e w' :
  m w = (Raise e, w') → (m ≫= f) w = (Raise e, w').
Proof. intros E. by rewrite bind_eq, E. Qed.

Lemma lift_run {A} (o : outcome A) w a : o = Ok a → lift o w = (Ok a, w).
Proof. by intros ->. Qed.

Lemma failedOrEmpty_run status r w n :
  isOK status = true → rowCount r = Ok n →
  failedOrEmpty status r w = (Ok (bool_decide (n = 0%nat)), w).
Proof. intros Hs Hr. unfold failedOrEmpty, orM. rewrite Hs, Hr. done. Qed.

Lemma dbQuery_run SQL ps w d code r :
  db_query (w_db w) SQL ps = Ok (d, (code, r)) →
  dbQuery SQL ps w = (Ok (code, r), {| w_db := d; w_sessions := w_sessions w;
    w_random := w_random w; w_trace := w_trace w ++ [EvQuery SQL ps code r] |}).
Proof. intros E. unfold dbQuery. by rewrite E. Qed.
End runs.

(** Run the first command of a bind whose outcome is known from the context. *)
Ltac run_known :=
  first [ erewrite bind_ok by (apply lift_run; first [eassumption | reflexivity])
        | erewrite bind_ok by (apply dbQuery_run; eassumption)
        | erewrite bind_ok by (apply failedOrEmpty_run; eassumption)
        | erewrite bind_ok by reflexivity ]; cbn beta iota.

(** Run the first command of a bind: [lift]s and tests are split, the rest
    computes. *)
Ltac run_step :=
  rewrite bind_eq;
  match goal with
  | |- context [lift ?o ?w] => let E := fresh "E" in unfold lift at 1; destruct o eqn:E
  | _ => idtac
  end; cbn beta iota.
