(* ===== verification/Sql.v ===== *)
(** The SQL statements the server sends, one definition per statement of the
    source, with the number of columns each SELECT names.  The texts are built
    from [serverData::tableNames] as the source builds them. *)

From S2P Require Import Prelude.

(** [serverData::tableNames], by the names of [enum tables]. *)
Inductive tables :=
  | USER | SUPPLIERS | PARTGROUPS | PARTS | PARTSINSERVICE | VEHICLESHARED | VEHICLES
  | SERVICESHARED | SERVICEUNAUTHORISED | SERVICEACTIVE | SERVICEOPEN | SERVICECLOSED.

Definition tableNames (t : tables) : text :=
  match t with
  | USER => T "USERS"
  | SUPPLIERS => T "SUPPLIERS"
  | PARTGROUPS => T "PARTGROUPS"
  | PARTS => T "PARTS"
  | PARTSINSERVICE => T "PARTSINSERVICE"
  | VEHICLESHARED => T "VEHICLESHAREDDATA"
  | VEHICLES => T "VEHICLES"
  | SERVICESHARED => T "SERVICESHAREDDATA"
  | SERVICEUNAUTHORISED => T "UNAUTHORISEDSERVICES"
  | SERVICEACTIVE => T "ACTIVESERVICEDATA"
  | SERVICEOPEN => T "OPENSERVICES"
  | SERVICECLOSED => T "CLOSEDSERVICES"
  end.

Definition sql_login : text :=
  T "SELECT ID, PERMISSIONS FROM " ++ tableNames USER ++ T " WHERE USERNAME = :USR AND PASSWORD = :PWD".


(** ** WebRoutes/Auth.h and WebRoutes/User.h *)

Definition sql_registerUser : text :=
  T "INSERT INTO " ++ tableNames USER ++
  T " (ID, USERNAME, PASSWORD, PERMISSIONS) VALUES (NULL, :USR, :PAS, 1);".

Definition sql_createUser : text :=
  T "INSERT INTO " ++ tableNames USER ++
  T " (ID, USERNAME, PASSWORD, PERMISSIONS) VALUES (NULL, :USR, :PAS, :PER);".

Definition sql_localUser : text :=
  T "SELECT ID, USERNAME, PERMISSIONS FROM " ++ tableNames USER ++ T " WHERE ID = :USR".

Definition sql_localVehicles : text :=
  T "SELECT V.ID, V.PLATE, VS.MAKE, VS.MODEL, V.YEAR, V.COLOUR FROM " ++ tableNames VEHICLES ++
  T " AS V INNER JOIN " ++ tableNames VEHICLESHARED ++ T " AS VS ON V.BASE = VS.ID WHERE V.OWNER = :USR;".

Definition sql_searchUsers : text :=
  T "SELECT ID, USERNAME, PERMISSIONS FROM " ++ tableNames USER ++
  T " WHERE USERNAME LIKE :USR ORDER BY USERNAME".

Definition sql_searchUserVehicles : text :=
  T "SELECT V.PLATE, VS.MAKE, VS.MODEL, V.YEAR, V.COLOUR FROM VEHICLES AS V INNER JOIN VEHICLESHAREDDATA AS VS ON V.BASE = VS.ID WHERE V.OWNER = :USR;".

Definition sql_selectUser : text :=
  T "SELECT ID, USERNAME, PERMISSIONS FROM " ++ tableNames USER ++ T " WHERE ID = :ID".

Definition sql_selectUserVehicles : text :=
  T "SELECT V.ID, V.PLATE, VS.MAKE, VS.MODEL, V.YEAR, V.COLOUR FROM VEHICLES AS V INNER JOIN VEHICLESHAREDDATA AS VS ON V.BASE = VS.ID WHERE V.OWNER = :USR;".

Definition sql_userPermissions : text :=
  T "SELECT PERMISSIONS FROM " ++ tableNames USER ++ T " WHERE ID = :ID".

Definition sql_deleteUser : text := T "DELETE FROM " ++ tableNames USER ++ T " WHERE ID = :ID".

Definition sql_updateUser (updateStatement : text) : text :=
  T "UPDATE " ++ tableNames USER ++ T " SET " ++ updateStatement ++ T " WHERE ID = :ID".

(** ** WebRoutes/Parts.h *)

Definition sql_createSupplier : text :=
  T "INSERT INTO " ++ tableNames SUPPLIERS ++ T " (ID, NAME, PHONE, EMAIL) VALUES (NULL, :NAM, :PHO, :EMA);".

Definition sql_updateSupplier (updateStatement : text) : text :=
  T "UPDATE " ++ tableNames SUPPLIERS ++ T " SET " ++ updateStatement ++ T " WHERE NAME = :NAM".

Definition sql_searchSuppliers : text :=
  T "SELECT ID, NAME, PHONE, EMAIL FROM " ++ tableNames SUPPLIERS ++
  T " WHERE NAME LIKE :VAL OR NAME LIKE :VAL OR PHONE LIKE :VAL OR EMAIL LIKE :VAL".

Definition sql_selectSupplier : text :=
  T "SELECT ID, NAME, PHONE, EMAIL FROM " ++ tableNames SUPPLIERS ++ T " WHERE ID = :ID".

Definition sql_createPartGroup : text :=
  T "INSERT INTO " ++ tableNames PARTGROUPS ++ T " (NAME) VALUES (:NAM);".

Definition sql_updatePartGroup : text :=
  T "UPDATE " ++ tableNames PARTGROUPS ++ T " SET NAME = :RNM WHERE NAME = :NAM".

Definition sql_searchPartGroups : text :=
  T "SELECT ID, NAME FROM " ++ tableNames PARTGROUPS ++ T " WHERE NAME LIKE :NAM".

Definition sql_selectPartGroup : text :=
  T "SELECT ID, NAME FROM " ++ tableNames PARTGROUPS ++ T " WHERE ID = :ID".

Definition sql_groupByName : text :=
  T "SELECT ID FROM " ++ tableNames PARTGROUPS ++ T " WHERE NAME = :GRP".

Definition sql_createPart : text :=
  T "INSERT INTO " ++ tableNames PARTS ++
  T " (ID, NAME, QUANTITY, SUPPLIER, PRICE, SIMILAR) VALUES (NULL, :NAM, :QUA, :SUP, :PRI, :SIM);".

Definition sql_updatePart (updateStatement : text) : text :=
  T "UPDATE " ++ tableNames PARTS ++ T " SET " ++ updateStatement ++ T " WHERE ID = :ID".

(** The condition of [searchParts] depends on which of the two filters is there. *)
Definition sql_searchTerm (hasName hasGroup : bool) : text :=
  (if hasName then T " P.NAME LIKE :NAM" ++ (if hasGroup then T " AND" else []) else []) ++
  (if hasGroup then T " G.ID = :ID" else []).

Definition sql_searchParts (hasName hasGroup : bool) : text :=
  T "SELECT P.ID, P.NAME, P.PRICE, P.QUANTITY, S.NAME, G.ID FROM " ++ tableNames PARTS ++
  T " AS P LEFT JOIN " ++ tableNames PARTGROUPS ++ T " AS G ON P.SIMILAR = G.ID " ++
  T "INNER JOIN " ++ tableNames SUPPLIERS ++ T " AS S ON P.SUPPLIER = S.ID WHERE " ++
  sql_searchTerm hasName hasGroup.

Definition sql_selectPart : text :=
  T "SELECT P.ID, P.NAME, P.PRICE, P.QUANTITY, S.NAME, G.ID FROM " ++ tableNames PARTS ++
  T " AS P LEFT JOIN " ++ tableNames PARTGROUPS ++ T " AS G INNER JOIN " ++ tableNames SUPPLIERS ++
  T " AS S WHERE P.ID = :ID".

(** ** WebRoutes/Vehicle.h *)

Definition sql_addSharedVehicle : text :=
  T "INSERT OR IGNORE INTO " ++ tableNames VEHICLESHARED ++ T "(MAKE, MODEL) VALUES (:MAK, :MOD)".

Definition sql_createVehicle : text :=
  T "INSERT INTO " ++ tableNames VEHICLES ++ T " (PLATE, BASE, OWNER, YEAR, COLOUR) VALUES (:PLT, " ++
  T "(SELECT ID FROM " ++ tableNames VEHICLESHARED ++
  T " WHERE MAKE = :MAK AND MODEL = :MOD), :OWN, :YEA, :COL);".

Definition sql_vehicleOwner : text :=
  T "SELECT OWNER FROM " ++ tableNames VEHICLES ++ T " WHERE ID = :ID".

Definition sql_updateVehicle (updateStatement : text) : text :=
  T "UPDATE " ++ tableNames VEHICLES ++ T " SET " ++ updateStatement ++ T " WHERE ID = :ID".

Definition sql_deleteVehicle : text := T "DELETE FROM " ++ tableNames VEHICLES ++ T " WHERE ID = :ID".

Definition sql_selectVehicle : text :=
  T "SELECT V.ID, V.PLATE, VS.MAKE, VS.MODEL, V.YEAR, V.COLOUR FROM VEHICLES AS V INNER JOIN VEHICLESHAREDDATA AS VS ON V.BASE = VS.ID WHERE V.ID = :ID;".

(** ** WebRoutes/Services.h *)

Definition sql_requestOwner : text :=
  T "SELECT OWNER FROM " ++ tableNames VEHICLES ++ T " WHERE ID = :VID".

Definition sql_createRequest : text :=
  T "INSERT INTO " ++ tableNames SERVICESHARED ++ T "(VEHICLE, REQUESTED, REQUEST) VALUES " ++
  T "(:ID, (SELECT date('now')), :REQ)".

Definition sql_createUnauthorised : text :=
  T "INSERT INTO " ++ tableNames SERVICEUNAUTHORISED ++ T " (SERVICE) VALUES ((SELECT last_insert_rowid()))".

Definition sql_findUnauthorised : text :=
  T "SELECT SERVICE FROM " ++ tableNames SERVICEUNAUTHORISED ++ T " WHERE SERVICE = :ID".

Definition sql_deleteUnauthorised : text :=
  T "DELETE FROM " ++ tableNames SERVICEUNAUTHORISED ++ T " WHERE SERVICE = :ID".

Definition sql_createActive : text :=
  T "INSERT INTO " ++ tableNames SERVICEACTIVE ++
  T " (SERVICE, LABOUR, NOTES, AUTHORISER, QUOTE) VALUES " ++ T "(:ID, 0, :NOT, :UID, :QOT)".

Definition sql_createOpen : text :=
  T "INSERT INTO " ++ tableNames SERVICEOPEN ++ T " (SERVICE) VALUES ((SELECT last_insert_rowid()))".

Definition sql_updateService (updateStatement : text) : text :=
  T "UPDATE " ++ tableNames SERVICEACTIVE ++ T " SET " ++ updateStatement ++ T " WHERE ID = :ID".

Definition sql_createClosed : text :=
  T "INSERT INTO " ++ tableNames SERVICECLOSED ++
  T "(SERVICE, COMPLETED, COMPLETER, PAID) VALUES (:ID, (SELECT date('now')), :USR, :PAD)".

Definition sql_deleteOpen : text :=
  T "DELETE FROM " ++ tableNames SERVICEOPEN ++ T " WHERE SERVICE = :ID".

Definition sql_deleteClosed : text :=
  T "DELETE FROM " ++ tableNames SERVICECLOSED ++ T " WHERE ID = :ID".

Definition sql_reopen : text :=
  T "INSERT INTO " ++ tableNames SERVICEOPEN ++ T "(SERVICE) VALUES (:ID)".

Definition sql_findServicePart : text :=
  T "SELECT ID FROM " ++ tableNames PARTSINSERVICE ++ T " WHERE SERVICE = :SID AND PART = :PRT".

Definition sql_increaseQuantity : text :=
  T "UPDATE " ++ tableNames PARTSINSERVICE ++ T " SET QUANTITY = QUANTITY + :QNT WHERE ID = :ID".

Definition sql_addServicePart : text :=
  T "INSERT INTO " ++ tableNames PARTSINSERVICE ++ T "(PART, QUANTITY, SERVICE) VALUES " ++
  T "(:PRT, :QNT, :SRV)".

Definition sql_entryQuantity : text :=
  T "SELECT QUANTITY FROM " ++ tableNames PARTSINSERVICE ++ T " WHERE ID = :ID".

Definition sql_deleteEntry : text :=
  T "DELETE FROM " ++ tableNames PARTSINSERVICE ++ T " WHERE ID = :ID".

Definition sql_decreaseQuantity : text :=
  T "UPDATE " ++ tableNames PARTSINSERVICE ++ T " SET QUANTITY = QUANTITY - :QNT WHERE ID = :ID".

(** [byUser]: whether the search is narrowed to one owner. *)
Definition sql_searchUnauthorised (byUser : bool) : text :=
  T "SELECT SERVICE, V.ID, V.OWNER, SS.REQUEST, SS.REQUESTED FROM " ++ tableNames SERVICEUNAUTHORISED ++
  T " INNER JOIN " ++ tableNames SERVICESHARED ++ T " AS SS ON SERVICE = SS.ID" ++
  T " INNER JOIN " ++ tableNames VEHICLES ++ T " AS V ON SS.VEHICLE = V.ID" ++
  T " INNER JOIN " ++ tableNames USER ++ T " AS U ON U.ID = V.OWNER" ++
  (if byUser then T " WHERE U.ID = :ID" else []).

Definition sql_searchOpen (byUser : bool) : text :=
  T "SELECT S.ID, S.VEHICLE, V.OWNER, S.REQUEST, S.REQUESTED, A.LABOUR, A.NOTES, U.ID, A.QUOTE, S.ID FROM " ++
  tableNames SERVICEOPEN ++ T " AS SO" ++
  T " INNER JOIN " ++ tableNames SERVICEACTIVE ++ T " AS A ON SO.SERVICE = A.ID" ++
  T " INNER JOIN " ++ tableNames SERVICESHARED ++ T " AS S ON A.SERVICE = S.ID" ++
  T " INNER JOIN " ++ tableNames VEHICLES ++ T " AS V ON S.VEHICLE = V.ID" ++
  T " INNER JOIN " ++ tableNames USER ++ T " AS U ON A.AUTHORISER = U.ID" ++
  T " INNER JOIN " ++ tableNames USER ++ T " AS O ON V.OWNER = O.ID" ++
  (if byUser then T " WHERE O.ID = :ID" else []).

Definition sql_openParts : text :=
  T "SELECT PS.ID, P.NAME, PS.PART, PS.QUANTITY, P.PRICE FROM " ++ tableNames PARTSINSERVICE ++ T " AS PS" ++
  T " INNER JOIN " ++ tableNames PARTS ++ T " AS P ON PS.PART = P.ID" ++
  T " WHERE PS.SERVICE = :ID".

Definition sql_searchClosed (byUser : bool) : text :=
  T "SELECT S.ID, S.VEHICLE, V.OWNER, S.REQUEST, S.REQUESTED, A.LABOUR, A.NOTES, A.AUTHORISER, A.QUOTE, C.COMPLETED, C.COMPLETER, C.PAID FROM " ++
  tableNames SERVICECLOSED ++ T " AS C " ++
  T "INNER JOIN " ++ tableNames SERVICEACTIVE ++ T " AS A ON C.SERVICE = A.ID " ++
  T "INNER JOIN " ++ tableNames SERVICESHARED ++ T " AS S ON A.SERVICE = S.ID " ++
  T "INNER JOIN " ++ tableNames VEHICLES ++ T " AS V ON S.VEHICLE = V.ID " ++
  T "INNER JOIN " ++ tableNames USER ++ T " AS O ON V.OWNER = O.ID" ++
  (if byUser then T " WHERE O.ID = :ID" else []).

Definition sql_closedParts : text :=
  T "SELECT P.NAME, PS.PART, PS.QUANTITY, P.PRICE FROM " ++ tableNames PARTSINSERVICE ++ T " AS PS " ++
  T "INNER JOIN " ++ tableNames PARTS ++ T " AS P ON PS.PART = P.ID WHERE PS.SERVICE = :ID".

Definition sql_serviceOwner : text :=
  T "SELECT U.ID FROM " ++ tableNames VEHICLES ++ T " AS V " ++
  T "INNER JOIN " ++ tableNames USER ++ T " AS V ON V.OWNER = U.ID " ++
  T "INNER JOIN " ++ tableNames SERVICESHARED ++ T " AS S ON S.VEHICLE = V.ID WHERE S.ID = :ID".

Definition sql_selectShared : text :=
  T "SELECT S.ID, V.ID, U.ID, S.REQUEST, S.REQUESTED FROM " ++ tableNames SERVICESHARED ++ T " AS S " ++
  T "INNER JOIN " ++ tableNames VEHICLES ++ T " AS V ON V.ID = S.VEHICLE " ++
  T "INNER JOIN " ++ tableNames USER ++ T " AS U ON U.ID = V.OWNER " ++
  T "WHERE S.ID = :ID".

Definition sql_selectUnauthorised : text :=
  T "SELECT U.ID FROM " ++ tableNames SERVICEUNAUTHORISED ++ T " AS U " ++
  T "INNER JOIN " ++ tableNames SERVICESHARED ++ T " AS S ON S.ID = U.SERVICE WHERE S.ID = :ID".

Definition sql_selectActive : text :=
  T "SELECT A.LABOUR, A.NOTES, A.AUTHORISER, A.QUOTE FROM " ++ tableNames SERVICEACTIVE ++
  T " AS A" ++ T " WHERE A.SERVICE = :ID".

Definition sql_selectParts : text :=
  T "SELECT P.NAME, PS.PART, PS.QUANTITY, P.PRICE FROM " ++ tableNames PARTSINSERVICE ++ T " AS PS" ++
  T " INNER JOIN " ++ tableNames PARTS ++ T " AS P ON PS.PART = P.ID" ++
  T " INNER JOIN " ++ tableNames SERVICESHARED ++ T " AS S ON PS.SERVICE = S.ID WHERE S.ID = :ID".

Definition sql_selectOpen : text :=
  T "SELECT ID FROM " ++ tableNames SERVICEOPEN ++ T " WHERE SERVICE = :ID".

Definition sql_selectClosed : text :=
  T "SELECT C.ID, C.COMPLETED, C.PAID FROM " ++ tableNames SERVICECLOSED ++ T " AS C " ++
  T "INNER JOIN " ++ tableNames SERVICESHARED ++ T " AS S ON SERVICE = S.ID " ++
  T "WHERE S.ID + :ID".

Definition sql_warrantyDate : text := T "SELECT DATE(:DAT, '-6 month')".

Definition sql_warrantiedParts : text :=
  T "SELECT P.NAME, PS.PART, PS.QUANTITY FROM " ++ tableNames SERVICECLOSED ++ T " AS S " ++
  T "INNER JOIN " ++ tableNames SERVICEACTIVE ++ T " AS A ON S.SERVICE = A.ID " ++
  T "INNER JOIN " ++ tableNames SERVICESHARED ++ T " AS SS ON A.SERVICE = SS.ID " ++
  T "INNER JOIN " ++ tableNames PARTSINSERVICE ++ T " AS PS ON SS.ID = PS.SERVICE " ++
  T "INNER JOIN " ++ tableNames PARTS ++ T " AS P ON PS.PART = P.ID " ++
  T "WHERE S.ID != :ID AND S.COMPLETED >= :LOWDATE AND S.COMPLETED <= :HIGHDATE".

Definition sql_selectEntry : text :=
  T "SELECT ID, SERVICE, PART, QUANTITY FROM " ++ tableNames PARTSINSERVICE ++ T " WHERE ID = :ID".

(** ** Network.cpp *)

Definition sql_tables : text := T "SELECT name FROM sqlite_schema WHERE type='table' ORDER BY name".

(** ** The SELECT statements of the program *)

Definition program_selects : list text :=
  [sql_login; sql_localUser; sql_localVehicles; sql_searchUsers; sql_searchUserVehicles;
   sql_selectUser; sql_selectUserVehicles; sql_userPermissions;
   sql_searchSuppliers; sql_selectSupplier; sql_searchPartGroups; sql_selectPartGroup;
   sql_groupByName; sql_searchParts true true; sql_searchParts true false; sql_searchParts false true;
   sql_selectPart; sql_vehicleOwner; sql_selectVehicle;
   sql_requestOwner; sql_findUnauthorised; sql_findServicePart; sql_entryQuantity;
   sql_searchUnauthorised true; sql_searchUnauthorised false; sql_searchOpen true;
   sql_searchOpen false; sql_openParts; sql_searchClosed true; sql_searchClosed false;
   sql_closedParts; sql_serviceOwner; sql_selectShared; sql_selectUnauthorised; sql_selectActive;
   sql_selectParts; sql_selectOpen; sql_selectClosed; sql_warrantyDate; sql_warrantiedParts;
   sql_selectEntry; sql_tables].
