(* ===== verification/Auth.v ===== *)
(** Server/include/Network.h: [cookieManager] and [authenticator], the session
    tracking every route consults. *)

From S2P Require Import Prelude CharConv Query Response Database Http Sql.

(** ** Cookies *)

Fixpoint skip_spaces (s : text) : text :=
  match s with
  | c :: s' => if isspace c then skip_spaces s' else s
  | [] => []
  end.

(** The loop of [getCookies] over the header; [fuel] bounds the rounds. *)
Fixpoint cookieLoop (fuel : nat) (it : text) (ret : gmap text text) : gmap text text :=
  match fuel with
  | O => ret
  | S fuel' =>
      match it with
      | [] => ret
      | _ =>
          let '(seg, end_) := span_to ";"%char it in
          let '(name, div) := span_to "="%char seg in
          if bool_decide (name = []) || bool_decide (div = [])
          then cookieLoop fuel' (skip1 end_) ret
          else cookieLoop fuel' (skip_spaces (skip1 end_)) (<[name := skip1 div]> ret)
      end
  end.

Definition parseCookies (mixed : text) : gmap text text := cookieLoop (length mixed) mixed ∅.

Definition getCookies (req : HttpRequest) : gmap text text :=
  parseCookies (getHeader req (T "cookie")).

(** [cookieManager::get]. *)
Definition cookie_get (values : gmap text text) (name : text) : text :=
  match values !! name with Some v => v | None => [] end.

Section cookies.
Context `{Database}.

Definition setCookie (name val : text) : M unit :=
  writeHeader (T "Set-Cookie") (name ++ T "=" ++ val).
Definition clearCookie (name : text) : M unit :=
  setCookie name (T "deleted; expires=Thu, 01 Jan 1970 00:00:00 GMT;").
Definition clearCookies : M unit :=
  writeHeader (T "Clear-Site-Data") ([QUOTE] ++ T "cookies" ++ [QUOTE]).
End cookies.

(** ** Permission levels and sessions *)

(** [enum class authLevel], whose underlying type is [int]. *)
Definition client : Z := 0.
Definition employee : Z := 1.
Definition manager : Z := 2.
Definition superuser : Z := 3.

Definition authCookie : text := T "auth".

Definition getSessionID (req : HttpRequest) : option Z :=
  let cookies := getCookies req in
  if bool_decide (cookies = ∅) || bool_decide (cookie_get cookies authCookie = []) then None
  else from_chars_uint 64 (cookie_get cookies authCookie).

(** [hash]: every byte complemented. *)
Definition complement (c : ascii) : ascii :=
  let 'Ascii a b c d e f g h := c in
  Ascii (negb a) (negb b) (negb c) (negb d) (negb e) (negb f) (negb g) (negb h).
Definition hash (val : text) : text := complement <$> val.

Definition hasSession (req : HttpRequest) : bool :=
  match getSessionID req with Some _ => true | None => false end.

Definition verify (sessions : gmap Z session) (req : HttpRequest) (checkLevel : Z) : bool :=
  match getSessionID req with
  | None => false
  | Some ID =>
      match sessions !! ID with
      | Some ses => (checkLevel <=? authLevel_of ses)%Z
      | None => false
      end
  end.

Definition getSessionUser (sessions : gmap Z session) (req : HttpRequest) : option Z :=
  match getSessionID req with
  | None => None
  | Some ID => userID <$> sessions !! ID
  end.

Definition getSessionAuthLevel (sessions : gmap Z session) (req : HttpRequest) : option Z :=
  match getSessionID req with
  | None => None
  | Some ID => authLevel_of <$> sessions !! ID
  end.

Definition isSessionUser (sessions : gmap Z session) (req : HttpRequest) (UID : text) : bool :=
  match getSessionUser sessions req with
  | None => false
  | Some ID => text_eqb (to_string ID) UID
  end.

Definition isSessionUserFromID (sessions : gmap Z session) (req : HttpRequest) (userIndex : text) : bool :=
  match getSessionUser sessions req with
  | None => false
  | Some ID =>
      match from_chars_uint 64 userIndex with
      | None => false
      | Some u => (ID =? u)%Z
      end
  end.

Definition quoted (v : text) : text := [QUOTE] ++ v ++ [QUOTE].

Section authenticator.
Context `{Database}.

Definition release (req : HttpRequest) : M bool :=
  match getSessionID req with
  | None => mret false
  | Some ID =>
      s ← getSessions;
      _ ← putSessions (delete ID s);
      _ ← clearCookie authCookie;
      _ ← log (T "Released session: " ++ to_string ID ++ T "." ++ [NEWLINE]);
      mret true
  end.

(** [do val = dist(random); while (sessions.count(val) != 0);], with at most
    [fuel] draws. *)
Fixpoint drawLoop (fuel : nat) (sessions : gmap Z session) : M Z :=
  match fuel with
  | O => lift (Raise OutOfFuel)
  | S fuel' => λ w,
      let val := w_random w 0%nat in
      let w := {| w_db := w_db w; w_sessions := w_sessions w;
                  w_random := λ n, w_random w (S n); w_trace := w_trace w |} in
      match sessions !! val with
      | None => (Ok val, w)
      | Some _ => drawLoop fuel' sessions w
      end
  end.

Definition request (fuel : nat) (req : HttpRequest) (b : queryBase) : M bool :=
  if negb (containsAll b [T "username"; T "password"] false) then mret false else
  _ ← (if hasSession req then release req else mret false);
  username ← lift (getElement b (T "username"));
  password ← lift (getElement b (T "password"));
  '(status, matches) ← dbQuery sql_login [(T ":USR", username); (T ":PWD", hash password)];
  none ← failedOrEmpty status matches;
  if (none : bool) then mret false else
  n ← lift (rowCount matches);
  _ ← lift (assert_ (bool_decide (n = 1%nat)));
  sessions ← getSessions;
  val ← drawLoop fuel sessions;
  id ← lift (get matches 0 0);
  match from_chars_uint 64 id with
  | None => mret false
  | Some user =>
      perm ← lift (get matches 0 1);
      match from_chars_uint 32 perm with
      | None => mret false
      | Some temp =>
          sessions ← getSessions;
          _ ← putSessions (<[val := {| authLevel_of := int32 temp; userID := user |}]> sessions);
          _ ← setCookie authCookie (to_string val);
          _ ← log (T "Authenticated " ++ quoted username ++ T " with session ID: " ++
                   to_string val ++ T "." ++ [NEWLINE]);
          mret true
      end
  end.

(** The lines a route logs: [std::cout << "Session (" <<
    serverData::auth->getSessionID(req).value() << ") ..."]. *)
Definition logSession (req : HttpRequest) (rest : M text) : M unit :=
  ID ← lift (value (getSessionID req));
  r ← rest;
  log (T "Session (" ++ to_string ID ++ T ") " ++ r ++ [NEWLINE]).
End authenticator.

(** ** Cookies *)

Lemma skip_spaces_length s : (length (skip_spaces s) ≤ length s)%nat.
Proof. induction s as [|c s IH]; simpl; [lia|]. destruct (isspace c); simpl; lia. Qed.

Definition cookie_name_ok (n : text) : Prop :=
  n ≠ [] ∧ (";"%char ∉ n) ∧ ("="%char ∉ n) ∧ (∀ c n', n = c :: n' → isspace c = false).
Definition cookie_ok (kv : text * text) : Prop := cookie_name_ok kv.1 ∧ ";"%char ∉ kv.2.

Definition cookiePair (kv : text * text) : text := kv.1 ++ T "=" ++ kv.2.
(** The header a browser sends. *)
Definition cookieHeader (kvs : list (text * text)) : text := join (T "; ") (cookiePair <$> kvs).

Lemma skip_spaces_name n s : cookie_name_ok n → skip_spaces (n ++ s) = n ++ s.
Proof.
  intros (Hne & _ & _ & Hs). destruct n as [|c n]; [done|]. simpl. by rewrite (Hs c n).
Qed.

Lemma cookieLoop_pair fuel kv end_ ret :
  cookie_ok kv → end_ = [] ∨ (∃ r, end_ = ";"%char :: r) →
  cookieLoop (S fuel) (cookiePair kv ++ end_) ret =
    cookieLoop fuel (skip_spaces (skip1 end_)) (<[kv.1 := kv.2]> ret).
Proof.
  intros [(Hne & Hsemi & Heq & _) Hv] Hend. cbn [cookieLoop].
  assert (";"%char ∉ cookiePair kv) as Hp.
  { unfold cookiePair. rewrite !not_elem_of_app. split_and!; [done|by_decision|done]. }
  assert (span_to ";"%char (cookiePair kv ++ end_) = (cookiePair kv, end_)) as Hspan.
  { destruct Hend as [->|[r ->]]; [rewrite app_nil_r; by apply span_to_absent|by apply span_to_found]. }
  assert (span_to "="%char (cookiePair kv) = (kv.1, "="%char :: kv.2)) as Hspan2.
  { by apply span_to_found. }
  destruct (cookiePair kv ++ end_) eqn:E.
  - apply app_eq_nil in E as [E _]. unfold cookiePair in E. by destruct kv.1.
  - rewrite Hspan, Hspan2. by rewrite !bool_decide_false.
Qed.

Lemma cookieLoop_header kvs fuel ret :
  Forall cookie_ok kvs → (length (cookieHeader kvs) ≤ fuel)%nat →
  cookieLoop fuel (cookieHeader kvs) ret = foldl (λ m kv, <[kv.1 := kv.2]> m) ret kvs.
Proof.
  intros HF. revert fuel ret. induction HF as [|kv kvs Hkv HF IH]; intros fuel ret Hlen.
  { by destruct fuel. }
  assert (∃ end_, cookieHeader (kv :: kvs) = cookiePair kv ++ end_ ∧
            (end_ = [] ∨ ∃ r, end_ = ";"%char :: r) ∧
            skip_spaces (skip1 end_) = cookieHeader kvs ∧
            (length (cookieHeader kvs) ≤ length end_)%nat) as (end_ & Heq & He & Hs & Hl).
  { destruct kvs as [|kv' kvs].
    - exists []. split_and!; [simpl; by rewrite app_nil_r|by left|done|simpl; lia].
    - exists (T "; " ++ cookieHeader (kv' :: kvs)). split_and!; [done|right; by eexists| |].
      + change (skip1 (T "; " ++ ?s)) with (" "%char :: s).
        change (skip_spaces (" "%char :: ?s)) with (skip_spaces s).
        apply Forall_cons in HF as [[Hn _] _]. unfold cookieHeader. rewrite fmap_cons.
        destruct (cookiePair <$> kvs) as [|p ps]; simpl; unfold cookiePair; rewrite <- ?app_assoc;
          by apply skip_spaces_name.
      + rewrite length_app. lia. }
  rewrite Heq in *. rewrite length_app in Hlen.
  destruct fuel as [|fuel].
  { destruct Hkv as [(Hne & _) _]. unfold cookiePair in Hlen. rewrite length_app in Hlen.
    destruct kv.1; [done|]. simpl in Hlen. lia. }
  rewrite cookieLoop_pair, Hs by done. apply IH.
  unfold cookiePair in Hlen. rewrite !length_app in Hlen.
  change (length (T "=")) with 1%nat in Hlen. lia.
Qed.

Lemma parseCookies_run kvs :
  Forall cookie_ok kvs → NoDup kvs.*1 → parseCookies (cookieHeader kvs) = list_to_map kvs.
Proof.
  intros HF HN. unfold parseCookies. rewrite cookieLoop_header, foldl_insert by done.
  by rewrite (right_id_L ∅ (∪)).
Qed.

(** A well-formed Cookie header is read pair by pair: each name has the value
    sent with it, and no other name has any. *)
Theorem parseCookies_header kvs name :
  Forall cookie_ok kvs → NoDup kvs.*1 →
  cookie_get (parseCookies (cookieHeader kvs)) name = default [] ((list_to_map kvs : gmap text text) !! name).
Proof. intros HF HN. by rewrite parseCookies_run. Qed.

(** ** Session identifiers *)

(** The cookie [setCookie] hands out, as the browser sends it back. *)
Definition sessionCookie (id : Z) : text := authCookie ++ T "=" ++ to_string id.

Lemma semicolon_not_digits n : (0 ≤ n)%Z → ";"%char ∉ to_string n.
Proof.
  intros Hn Hin. pose proof (to_string_digits n Hn) as HF. rewrite Forall_forall in HF.
  specialize (HF _ Hin). done.
Qed.

Lemma getSessionID_cookie req id :
  (0 ≤ id < 2 ^ 64)%Z → getHeader req (T "cookie") = sessionCookie id → getSessionID req = Some id.
Proof.
  intros Hid Hh. unfold getSessionID, getCookies. rewrite Hh.
  assert (sessionCookie id = cookieHeader [(authCookie, to_string id)]) as -> by done.
  rewrite parseCookies_run.
  - simpl. rewrite bool_decide_false by apply insert_non_empty.
    unfold cookie_get. rewrite lookup_insert_eq.
    rewrite bool_decide_false by apply to_string_nonempty. simpl.
    rewrite <- (app_nil_r (to_string id)). by apply from_chars_uint_to_string.
  - constructor; [|constructor]. split; [|by apply semicolon_not_digits; lia].
    split_and!; [done|by_decision|by_decision|]. intros c n' [= <- _]. done.
  - simpl. apply NoDup_singleton.
Qed.

Lemma getSessionID_range req id : getSessionID req = Some id → (0 ≤ id < 2 ^ 64)%Z.
Proof. unfold getSessionID. case_match; [done|]. apply from_chars_uint_range. Qed.

(** ** Authorisation *)

Lemma verify_Some s req l :
  verify s req l = true ↔
  ∃ id ses, getSessionID req = Some id ∧ s !! id = Some ses ∧ (l ≤ authLevel_of ses)%Z.
Proof.
  unfold verify. destruct (getSessionID req) as [id|]; [|naive_solver].
  destruct (s !! id) as [ses|] eqn:E; rewrite ?Z.leb_le; naive_solver.
Qed.

Lemma verify_mono s req l l' : (l' ≤ l)%Z → verify s req l = true → verify s req l' = true.
Proof.
  rewrite !verify_Some. intros Hl (id & ses & ? & ? & ?). exists id, ses. split_and!; [done..|lia].
Qed.

Lemma verify_session s req l : verify s req l = true → is_Some (getSessionID req).
Proof. intros (id & ses & -> & _)%verify_Some. eauto. Qed.

Lemma verify_user s req l : verify s req l = true → is_Some (getSessionUser s req).
Proof. intros (id & ses & E & Hs & _)%verify_Some. unfold getSessionUser. rewrite E, Hs. eauto. Qed.

Lemma getSessionUser_session s req u : getSessionUser s req = Some u → is_Some (getSessionID req).
Proof. unfold getSessionUser. by destruct (getSessionID req). Qed.

Lemma isSessionUser_session s req u : isSessionUser s req u = true → is_Some (getSessionID req).
Proof.
  unfold isSessionUser. destruct (getSessionUser s req) eqn:E; [|done].
  intros _. by eapply getSessionUser_session.
Qed.

Lemma isSessionUserFromID_session s req u :
  isSessionUserFromID s req u = true → is_Some (getSessionID req).
Proof.
  unfold isSessionUserFromID. destruct (getSessionUser s req) eqn:E; [|done].
  intros _. by eapply getSessionUser_session.
Qed.

(** The routes that let in the owner or a session of level [l]. *)
Definition owner_or (s : gmap Z session) (req : HttpRequest) (owner : bool) (l : Z) : Prop :=
  owner = true ∨ verify s req l = true.

Lemma owner_or_intro s req o l : negb o && negb (verify s req l) = false → owner_or s req o l.
Proof. unfold owner_or. destruct o, (verify s req l); auto. Qed.

Lemma owner_or_session s req o l :
  negb o && negb (verify s req l) = false → (o = true → is_Some (getSessionID req)) →
  is_Some (getSessionID req).
Proof. intros [Ho|Hv]%owner_or_intro Hs; [by apply Hs|by eapply verify_session]. Qed.

(** ** The password transformation *)

Lemma complement_involutive c : complement (complement c) = c.
Proof. destruct c as [[] [] [] [] [] [] [] []]; reflexivity. Qed.
Lemma complement_ne c : complement c ≠ c.
Proof. destruct c as [[] ? ? ? ? ? ? ?]; done. Qed.

(** [hash] hides nothing: applying it again gives the password back. *)
Theorem hash_involutive v : hash (hash v) = v.
Proof.
  induction v as [|c v IH]; [done|].
  change (complement (complement c) :: hash (hash v) = c :: v). by rewrite complement_involutive, IH.
Qed.

(** a stored plain password never equals the transformed one it is compared
    with. *)
Lemma hash_ne v : v ≠ [] → hash v ≠ v.
Proof. destruct v as [|c v]; [done|]. intros _ [= Hc _]. by apply (complement_ne c). Qed.

(** ** Drawing a session identifier *)

Section authenticator_facts.
Context `{Database}.

Lemma drawLoop_spec fuel s w :
  match drawLoop fuel s w with
  | (Ok val, w') => s !! val = None ∧ (∃ n, (n < fuel)%nat ∧ val = w_random w n) ∧
                    w_db w' = w_db w ∧ w_sessions w' = w_sessions w ∧ w_trace w' = w_trace w
  | (Raise e, w') => e = OutOfFuel ∧ (∀ n, (n < fuel)%nat → is_Some (s !! w_random w n)) ∧
                     w_db w' = w_db w ∧ w_sessions w' = w_sessions w ∧ w_trace w' = w_trace w
  end.
Proof.
  revert w. induction fuel as [|fuel IH]; intros w; simpl.
  { split_and!; [done|lia|done..]. }
  destruct (s !! w_random w 0%nat) as [ses|] eqn:E.
  - set (w1 := {| w_db := _ |}). specialize (IH w1).
    destruct (drawLoop fuel s w1) as [[val|e] w'].
    + destruct IH as (Hv & (n & Hn & ->) & ?). split_and!; [done| |naive_solver..].
      exists (S n). split; [lia|done].
    + destruct IH as (-> & Hv & ?). split_and!; [done| |naive_solver..].
      intros [|n] Hn; [by eexists|]. apply (Hv n). lia.
  - split_and!; [done| |done..]. exists 0%nat. split; [lia|done].
Qed.

(** the loop that draws an identifier stops as soon as a drawn value is
    free, and returns a value no session uses. *)
Theorem drawLoop_fresh fuel s w n :
  (n < fuel)%nat → s !! w_random w n = None →
  ∃ val w', drawLoop fuel s w = (Ok val, w') ∧ s !! val = None ∧ w_sessions w' = w_sessions w.
Proof.
  intros Hn Hfree. pose proof (drawLoop_spec fuel s w) as Hd.
  destruct (drawLoop fuel s w) as [[val|e] w'].
  - naive_solver.
  - destruct Hd as (_ & Hall & _). destruct (Hall n Hn). congruence.
Qed.

(** ** Logging in *)

(** What a successful login rests on: one row from the database for the given
    name and transformed password, whose cells read as the session's user and
    level. *)
Definition login_matches (b : queryBase) (w : world) (ses : session) : Prop :=
  ∃ username password d code r idText permText perm,
    elements b !! T "username" = Some username ∧
    elements b !! T "password" = Some password ∧
    db_query (w_db w) sql_login [(T ":USR", username); (T ":PWD", hash password)] = Ok (d, (code, r)) ∧
    isOK code = true ∧ rowCount r = Ok 1%nat ∧
    get r 0 0 = Ok idText ∧ from_chars_uint 64 idText = Some (userID ses) ∧
    get r 0 1 = Ok permText ∧ from_chars_uint 32 permText = Some perm ∧
    authLevel_of ses = int32 perm.

(** The same, as far as it can be read off what has been asked and answered. *)
Definition backed (tr : list event) (ses : session) : Prop :=
  ∃ username password code r idText permText perm,
    EvQuery sql_login [(T ":USR", username); (T ":PWD", hash password)] code r ∈ tr ∧
    isOK code = true ∧ rowCount r = Ok 1%nat ∧
    get r 0 0 = Ok idText ∧ from_chars_uint 64 idText = Some (userID ses) ∧
    get r 0 1 = Ok permText ∧ from_chars_uint 32 permText = Some perm ∧
    authLevel_of ses = int32 perm.

Lemma backed_mono tr evs ses : backed tr ses → backed (tr ++ evs) ses.
Proof.
  intros (u & p & code & r & idText & permText & perm & Hin & Hrest).
  exists u, p, code, r, idText, permText, perm. split; [|done]. apply elem_of_app. by left.
Qed.

(** The session store after the session named by the request is dropped. *)
Definition released (req : HttpRequest) (s : gmap Z session) : gmap Z session :=
  match getSessionID req with Some ID => delete ID s | None => s end.

Lemma release_run req w :
  ∃ w', release req w = (Ok (hasSession req), w') ∧ w_db w' = w_db w ∧
        w_sessions w' = released req (w_sessions w) ∧ w_random w' = w_random w.
Proof.
  unfold release, hasSession, released. destruct (getSessionID req) as [ID|].
  - eexists. split; [reflexivity|]. done.
  - exists w. done.
Qed.

Lemma release_if_session req w :
  ∃ x w', (if hasSession req then release req else mret false) w = (Ok x, w') ∧ w_db w' = w_db w ∧
        w_sessions w' = released req (w_sessions w) ∧ w_random w' = w_random w.
Proof.
  destruct (hasSession req) eqn:E.
  - destruct (release_run req w) as (w' & -> & ?). eauto.
  - exists false, w. split_and!; [done|done| |done]. unfold hasSession, released in *.
    by destruct (getSessionID req).
Qed.

(** Every run of [request] either grants nothing, and then at most drops the
    request's own session, or adds one session under an unused identifier. *)
Lemma request_cases fuel req b w :
  let '(o, w') := request fuel req b w in
  (o ≠ Ok true ∧ (w_sessions w' = w_sessions w ∨ w_sessions w' = released req (w_sessions w))) ∨
  (o = Ok true ∧ ∃ val ses n, val = w_random w n ∧
     released req (w_sessions w) !! val = None ∧
     w_sessions w' = <[val := ses]> (released req (w_sessions w)) ∧ login_matches b w ses ∧
     backed (w_trace w') ses).
Proof.
  unfold request. destruct (containsAll b _ _) eqn:Ec; simpl; [|left; by auto].
  rewrite bind_eq. destruct (release_if_session req w) as (x & w1 & -> & Hdb & Hs & Hr).
  do 2 (run_step; [|left; by auto]). rename a into username, a0 into password.
  rewrite bind_eq. unfold dbQuery.
  destruct (db_query (w_db w1) sql_login _) as [[d [code r]]|e] eqn:Eq; [|left; by auto].
  rewrite bind_eq. unfold failedOrEmpty, orM at 1. rewrite bind_eq. unfold mret at 1, M_ret at 1.
  destruct (isOK code) eqn:Eok; simpl; [|left; by auto].
  rewrite bind_eq. unfold lift at 1.
  destruct (rowCount r) as [rows|e] eqn:Erow; simpl; [|left; by auto].
  case_bool_decide; simpl; [left; by auto|].
  rewrite !bind_eq. unfold lift at 1. rewrite bind_eq. unfold lift at 1.
  destruct (assert_ _) as [[]|] eqn:Ea; [|left; by auto].
  assert (rows = 1%nat) as -> by (unfold assert_ in Ea; by case_bool_decide).
  rewrite bind_eq. simpl. set (w2 := {| w_db := d |}). rewrite bind_eq.
  pose proof (drawLoop_spec fuel (w_sessions w1) w2) as Hd.
  destruct (drawLoop fuel (w_sessions w1) w2) as [[val|e] w3];
    [|left; split; [done|]; right; destruct Hd as (_ & _ & _ & Hd & _); rewrite Hd; done].
  destruct Hd as (Hfree & (n & _ & Hval) & _ & Hs3 & Ht3). simpl in Hs3, Hval, Ht3.
  run_step; [|left; rewrite Hs3; by auto]. rename a into idText.
  destruct (from_chars_uint 64 idText) as [user|] eqn:Eu; [|left; rewrite Hs3; by auto].
  run_step; [|left; rewrite Hs3; by auto]. rename a into permText.
  destruct (from_chars_uint 32 permText) as [perm|] eqn:Ep; [|left; rewrite Hs3; by auto].
  right. split; [done|].
  exists val, {| authLevel_of := int32 perm; userID := user |}, n. simpl.
  rewrite Hs3, Hval, Hs, Hr in *. split_and!; [done|congruence|done| |]; cycle 1.
  { exists username, password, code, r, idText, permText, perm. rewrite Ht3. split_and!; [|done..].
    rewrite !elem_of_app. left. left. right. apply list_elem_of_singleton. done. }
  unfold getElement, at_ in *. rewrite Hdb in Eq.
  exists username, password, d, code, r, idText, permText, perm.
  destruct (elements b !! T "username") eqn:Eun, (elements b !! T "password") eqn:Epw; simplify_eq.
  split_and!; done.
Qed.

(** C16: a session appears only through a login the database confirmed, under an
    identifier no other session has, with the level and user the database
    returned; all other sessions but the request's own are left as they were. *)
Theorem request_sound fuel req b w o w' :
  request fuel req b w = (o, w') →
  (∀ id ses, getSessionID req ≠ Some id → w_sessions w !! id = Some ses →
             w_sessions w' !! id = Some ses) ∧
  (∀ id ses, w_sessions w' !! id = Some ses → w_sessions w !! id = Some ses ∨
             (o = Ok true ∧ login_matches b w ses ∧ ∃ n, id = w_random w n)).
Proof.
  intros Hreq. pose proof (request_cases fuel req b w) as Hc. rewrite Hreq in Hc.
  assert (Hrel : ∀ id ses, released req (w_sessions w) !! id = Some ses → w_sessions w !! id = Some ses).
  { unfold released. intros id ses. destruct (getSessionID req) as [ID|]; [|done].
    intros Hl. apply lookup_delete_Some in Hl. naive_solver. }
  assert (Hkeep : ∀ id ses, getSessionID req ≠ Some id → w_sessions w !! id = Some ses →
                  released req (w_sessions w) !! id = Some ses).
  { unfold released. intros id ses Hne Hl. destruct (getSessionID req) as [ID|]; [|done].
    rewrite lookup_delete_ne; [done|congruence]. }
  destruct Hc as [(Ho & [Hs|Hs])|(Ho & val & ses0 & n & Hval & Hfree & Hs & Hm & _)]; rewrite Hs.
  - split; [done|auto].
  - split; auto.
  - split.
    + intros id ses Hne Hl. rewrite lookup_insert_ne; [by auto|].
      intros ->. rewrite (Hkeep id ses Hne Hl) in Hfree. done.
    + intros id ses Hl. destruct (decide (id = val)) as [->|Hne].
      * rewrite lookup_insert_eq in Hl. simplify_eq. right. eauto.
      * rewrite lookup_insert_ne in Hl by done. auto.
Qed.

Lemma containsAll_login b u p :
  elements b !! T "username" = Some u → u ≠ [] → elements b !! T "password" = Some p → p ≠ [] →
  containsAll b [T "username"; T "password"] false = true.
Proof.
  intros Hu Hun Hp Hpn. apply containsAll_true.
  repeat constructor; apply hasElement_true; eauto.
Qed.

(** A login the database confirms succeeds as soon as a drawn identifier is free. *)
Lemma request_grants fuel req b w ses n :
  login_matches b w ses →
  containsAll b [T "username"; T "password"] false = true →
  (n < fuel)%nat → released req (w_sessions w) !! w_random w n = None →
  ∃ m w', request fuel req b w = (Ok true, w') ∧
    w_sessions w' = <[w_random w m := ses]> (released req (w_sessions w)) ∧
    EvHeader (T "Set-Cookie") (sessionCookie (w_random w m)) ∈ w_trace w'.
Proof.
  intros (u & p & d & code & r & idText & permText & perm & Hu & Hp & Hq & Hok & Hrow &
          Hid & Huser & Hperm & Hlevel & Hl) Hc Hn Hfree.
  unfold request. rewrite Hc. cbn [negb].
  rewrite bind_eq. destruct (release_if_session req w) as (x & w1 & -> & Hdb & Hs & Hr).
  assert (getElement b (T "username") = Ok u) by (unfold getElement; by rewrite Hu).
  assert (getElement b (T "password") = Ok p) by (unfold getElement; by rewrite Hp).
  rewrite <- Hdb in Hq. do 3 run_known.
  run_known. change (bool_decide (1%nat = 0%nat)) with false. cbn iota. do 3 run_known.
  rewrite bind_eq.
  set (w2 := {| w_db := d |}).
  pose proof (drawLoop_spec fuel (w_sessions w2) w2) as Hd.
  destruct (drawLoop fuel (w_sessions w2) w2) as [[val|e] w3].
  - destruct Hd as (Hv & (m & _ & Hval) & _ & Hs3 & _). exists m.
    run_known. rewrite Huser. run_known. rewrite Hlevel.
    eexists. split; [reflexivity|]. simpl in *. rewrite Hr in Hval. subst val. split.
    + rewrite Hs3, Hs. destruct ses; simpl in *. by subst.
    + rewrite !elem_of_app. left. right. by left.
  - destruct Hd as (_ & Hall & _). destruct (Hall n Hn) as [ses' Hses]. simpl in Hses.
    rewrite Hr, Hs in Hses. congruence.
Qed.

(** C15: the cookie a successful login sets, sent back, is accepted at exactly
    the level the database returned, and for the user it returned. *)
Theorem login_verify fuel req b w ses n req' :
  login_matches b w ses →
  containsAll b [T "username"; T "password"] false = true →
  (n < fuel)%nat → released req (w_sessions w) !! w_random w n = None →
  (∀ m, 1 ≤ w_random w m < 2 ^ 64)%Z →
  ∃ cookie w', request fuel req b w = (Ok true, w') ∧
    EvHeader (T "Set-Cookie") cookie ∈ w_trace w' ∧
    (getHeader req' (T "cookie") = cookie →
     getSessionUser (w_sessions w') req' = Some (userID ses) ∧
     ∀ l, verify (w_sessions w') req' l = (l <=? authLevel_of ses)%Z).
Proof.
  intros Hm Hc Hn Hfree Hrng.
  destruct (request_grants fuel req b w ses n Hm Hc Hn Hfree) as (m & w' & Hreq & Hs & Ht).
  exists (sessionCookie (w_random w m)), w'. split_and!; [done|done|]. intros Hh.
  assert (getSessionID req' = Some (w_random w m)) as Hid.
  { apply getSessionID_cookie; [|done]. specialize (Hrng m). lia. }
  unfold getSessionUser, verify. rewrite Hid, Hs, lookup_insert_eq. done.
Qed.

(** releasing ends the request's session for every later request that
    carries it, and touches no other session. *)
Theorem release_ends_session req w :
  ∃ w', release req w = (Ok (hasSession req), w') ∧
    (∀ req' l, getSessionID req' = getSessionID req → verify (w_sessions w') req' l = false) ∧
    (∀ id, getSessionID req ≠ Some id → w_sessions w' !! id = w_sessions w !! id).
Proof.
  destruct (release_run req w) as (w' & Hrun & _ & Hs & _). exists w'. split; [done|].
  unfold verify, released in *. destruct (getSessionID req) as [ID|]; rewrite Hs.
  - split.
    + intros req' l ->. by rewrite lookup_delete_eq.
    + intros id Hne. rewrite lookup_delete_ne; [done|congruence].
  - split; [by intros req' l ->|done].
Qed.
End authenticator_facts.
