(* ===== verification/Routes.v ===== *)
(** What the route files share: the tests on form fields, the way the rows of a
    result become [responseWrapper]s, the shape SQLite gives its results, and
    the program-logic rules for all of these. *)

From S2P Require Import Prelude CharConv Query Response ResponseSpec Database Http Sql Auth.

(** The order in which a [std::unordered_map] built from an initializer list
    yields its entries is unspecified: some permutation of them. *)
Class UnorderedMap := {
  iteration : list (text * text) → list (text * text);
  iteration_perm : ∀ l, Permutation (iteration l) l;
}.

(** [w.add(k, result[row][col])] for every [(k, col)] in turn. *)
Fixpoint addCells (w : responseWrapper) (r : SQLResult) (row : nat) (keys : list (text * nat))
    : outcome responseWrapper :=
  match keys with
  | [] => Ok w
  | (k, col) :: keys' =>
      v ← get r row col;
      w ← add w k v false;
      addCells w r row keys'
  end.

(** [for (size_t i = ...; i < ...; i++) a = f(i, a);] over the indices [ixs]. *)
Fixpoint forRows {A} (ixs : list nat) (f : nat → A → outcome A) (a : A) : outcome A :=
  match ixs with
  | [] => Ok a
  | i :: ixs' => a' ← f i a; forRows ixs' f a'
  end.

(** The loop most routes end with: one object per row of [r], added to
    [response] under [key]. *)
Definition addRows (response : responseWrapper) (key : text) (r : SQLResult)
    (keys : list (text * nat)) (forced : bool) : outcome responseWrapper :=
  n ← rowCount r;
  forRows (seq 0 n) (λ i response,
    temp ← addCells emptyWrapper r i keys;
    addObject response key temp forced) response.

Section routes.
Context `{Database}.

(** [b.getElement(name).empty()]. *)
Definition fieldEmpty (b : queryBase) (name : text) : M bool :=
  v ← lift (getElement b name); mret (bool_decide (v = [])).

(** [result.rowCount() == 0]. *)
Definition noRows (r : SQLResult) : M bool :=
  n ← lift (rowCount r); mret (bool_decide (n = 0%nat)).

(** [b.hasElement(name) ? b.getElement(name) : otherwise]. *)
Definition elementOr (b : queryBase) (name otherwise : text) : M text :=
  if hasElement b name false then lift (getElement b name) else mret otherwise.

(** [res->tryEnd(response.toData(false))]. *)
Definition tryEndData (response : responseWrapper) : M unit :=
  d ← lift (toData response false); tryEnd d.

(** The loop where the body talks to the database and may have answered the
    request already ([None]), in which case the route returns. *)
Fixpoint forRowsM {A} (ixs : list nat) (f : nat → A → M (option A)) (a : A) : M (option A) :=
  match ixs with
  | [] => mret (Some a)
  | i :: ixs' =>
      o ← f i a;
      match o with
      | None => mret None
      | Some a' => forRowsM ixs' f a'
      end
  end.
End routes.

(** ** Rows *)

Definition cell (r : SQLResult) (row col : nat) : text :=
  default [] (data r !! (row * colCount r + col)%nat).

(** The object a row becomes. *)
Definition record_of (r : SQLResult) (row : nat) (keys : list (text * nat)) : responseWrapper :=
  RW ((λ k, (k.1, Strings [cell r row k.2])) <$> keys) (replicate (length keys) false).

(** A result of [n] columns and [rows] rows. *)
Definition shape (cols rows : nat) (r : SQLResult) : Prop :=
  colCount r = cols ∧ cols ≠ 0%nat ∧ length (data r) = (rows * cols)%nat.

Lemma shape_rowCount cols rows r : shape cols rows r → rowCount r = Ok rows.
Proof.
  intros (Hc & Hne & Hl). unfold rowCount. rewrite Hc, bool_decide_false, Hl by done.
  by rewrite Nat.div_mul.
Qed.

Lemma shape_get cols rows r i j :
  shape cols rows r → (i < rows)%nat → (j < cols)%nat → get r i j = Ok (cell r i j).
Proof.
  intros (Hc & _ & Hl) Hi Hj. unfold get, cell, index_. rewrite Hc.
  destruct (data r !! (i * cols + j)%nat) eqn:E; [done|].
  apply lookup_ge_None in E. nia.
Qed.

(** Keys that name each column at most once, within the width of the result. *)
Definition keys_fit (cols : nat) (keys : list (text * nat)) : bool :=
  bool_decide (NoDup keys.*1) && forallb (λ k, k.2 <? cols)%nat keys.

Lemma find_None els key : find_ els key = None ↔ key ∉ els.*1.
Proof.
  induction els as [|[k c] els IH]; simpl; [set_solver|].
  destruct (text_eqb k key) eqn:E.
  - apply text_eqb_eq in E as ->. set_solver.
  - rewrite IH. apply bool_decide_eq_false in E. set_solver.
Qed.

Lemma addCells_run cols rows r i keys els fs :
  shape cols rows r → (i < rows)%nat → keys_fit cols keys = true →
  (∀ k, k ∈ keys.*1 → k ∉ els.*1) →
  addCells (RW els fs) r i keys =
    Ok (RW (els ++ elements_of (record_of r i keys)) (fs ++ forcedArrays_of (record_of r i keys))).
Proof.
  intros Hs Hi. revert els fs. induction keys as [|[k col] keys IH]; intros els fs Hk Hnew.
  { simpl. by rewrite !app_nil_r. }
  unfold keys_fit in *. apply andb_true_iff in Hk as [HN Hc].
  apply bool_decide_eq_true in HN. rewrite fmap_cons, NoDup_cons in HN. destruct HN as [Hk HN].
  cbn [forallb snd] in Hc. apply andb_true_iff in Hc as [Hcol Hc]. apply Nat.ltb_lt in Hcol.
  cbn [addCells]. rewrite (shape_get _ _ _ _ _ Hs Hi Hcol). unfold mbind, outcome_bind, add, genericAdd.
  assert (find_ els k = None) as -> by (apply find_None, Hnew; set_solver).
  rewrite IH.
  - f_equal. f_equal; simpl; by rewrite <- app_assoc.
  - rewrite bool_decide_true by done. done.
  - intros k' Hk'. rewrite fmap_app. cbn in Hnew |- *. set_solver.
Qed.

Lemma addCells_record cols rows r i keys :
  shape cols rows r → (i < rows)%nat → keys_fit cols keys = true →
  addCells emptyWrapper r i keys = Ok (record_of r i keys).
Proof.
  intros Hs Hi Hk. unfold emptyWrapper.
  rewrite (addCells_run _ _ _ _ _ _ _ Hs Hi Hk) by (simpl; set_solver). done.
Qed.

Lemma record_wf r i keys : wf (record_of r i keys).
Proof.
  constructor; [by rewrite length_fmap, length_replicate|].
  apply Forall_fmap, Forall_true. intros k. by constructor.
Qed.

(** ** Kinds

    Whatever route builds it, a response holds objects under the keys below and
    strings under every other key; under this discipline [add] never fails. *)

Definition objectKeys : list text :=
  [T "Users"; T "Vehicles"; T "Suppliers"; T "Groups"; T "Parts"; T "parts";
   T "Unauthorised"; T "Open"; T "Closed"; T "warrantied"].
Definition isObjectKey (k : text) : bool := bool_decide (k ∈ objectKeys).

Definition kind_ok (k : text) (c : elementContainer) : Prop :=
  container_index c = if isObjectKey k then 1%nat else 0%nat.

Definition kinded (w : responseWrapper) : Prop :=
  wf w ∧ ∀ k c, search w k = Some c → kind_ok k c.

Lemma kinded_empty : kinded emptyWrapper.
Proof. split; [by constructor|done]. Qed.

Lemma kind_same k c v :
  kind_ok k c → isObjectKey k = (match v with AString _ => false | AObject _ => true end) →
  same_kind c v.
Proof. unfold kind_ok. intros Hc Hk. rewrite Hk in Hc. by destruct c, v. Qed.

(** [spec o P]: [o] is a value that satisfies [P]. *)
Definition spec {A} (o : outcome A) (P : A → Prop) : Prop := ∃ a, o = Ok a ∧ P a.

Lemma spec_bind {A B} (o : outcome A) (f : A → outcome B) P Q :
  spec o P → (∀ a, P a → spec (f a) Q) → spec (o ≫= f) Q.
Proof. intros (a & -> & Ha) Hf. by apply Hf. Qed.

Lemma spec_forRows {A} ixs (f : nat → A → outcome A) a (P : A → Prop) :
  P a → (∀ i a, i ∈ ixs → P a → spec (f i a) P) → spec (forRows ixs f a) P.
Proof.
  revert a. induction ixs as [|i ixs IH]; intros a Ha Hf; simpl; [by exists a|].
  eapply spec_bind; [apply Hf; [set_solver|done]|].
  intros a' Ha'. apply IH; [done|]. intros j b Hj. apply Hf. set_solver.
Qed.

(** The loop rule with the loop index in the invariant. *)
Lemma spec_forRows_seq {A} n k (f : nat → A → outcome A) a (P : nat → A → Prop) :
  P k a → (∀ i a, (k ≤ i ∧ i < k + n)%nat → P i a → spec (f i a) (P (S i))) →
  spec (forRows (seq k n) f a) (P (k + n)%nat).
Proof.
  revert k a. induction n as [|n IH]; intros k a Ha Hf; simpl.
  - rewrite Nat.add_0_r. by exists a.
  - eapply spec_bind; [apply Hf; [lia|done]|]. intros a' Ha'.
    rewrite <- Nat.add_succ_comm. apply IH; [done|]. intros i b Hi. apply Hf. lia.
Qed.

Lemma spec_genericAdd w k v forced :
  kinded w → addable_wf v →
  isObjectKey k = (match v with AString _ => false | AObject _ => true end) →
  spec (genericAdd w k v forced) kinded.
Proof.
  intros [Hw Hkinds] Hv Hk.
  destruct (genericAdd_ok w k v forced) as (w' & Ha).
  { intros c Hc. eapply kind_same; [by apply Hkinds|done]. }
  exists w'. split; [done|]. split; [by eapply genericAdd_wf|]. intros k' c' Hc'.
  destruct (decide (k' = k)) as [->|Hne].
  - destruct (search w k) as [c|] eqn:Es.
    + destruct (genericAdd_push w k v forced c Es) as (w1 & c1 & Ha1 & Hp & Hs1).
      { eapply kind_same; [by apply Hkinds|done]. }
      assert (w1 = w') as -> by congruence. assert (c' = c1) as -> by congruence.
      specialize (Hkinds _ _ Es). unfold kind_ok in *. rewrite <- Hkinds. by destruct c, v; simplify_eq/=.
    + destruct (genericAdd_fresh w k v forced Es) as (w1 & Ha1 & Hs1).
      assert (w1 = w') as -> by congruence. assert (c' = singleton_container v) as -> by congruence.
      unfold kind_ok. rewrite Hk. by destruct v.
  - apply Hkinds. by rewrite <- (genericAdd_other _ _ _ _ _ _ Ha).
Qed.

Lemma spec_add w k v forced : kinded w → isObjectKey k = false → spec (add w k v forced) kinded.
Proof. intros Hw Hk. by apply spec_genericAdd. Qed.

Lemma spec_addObject w k v forced :
  kinded w → kinded v → isObjectKey k = true → spec (addObject w k v forced) kinded.
Proof. intros Hw [Hv _] Hk. by apply spec_genericAdd. Qed.

(** Keys for strings, columns within the width of the result. *)
Definition keys_ok (cols : nat) (keys : list (text * nat)) : bool :=
  forallb (λ k, negb (isObjectKey k.1) && (k.2 <? cols)%nat) keys.

Lemma spec_addCells cols rows r i keys w :
  kinded w → shape cols rows r → (i < rows)%nat → keys_ok cols keys = true →
  spec (addCells w r i keys) kinded.
Proof.
  intros Hw Hs Hi. revert w Hw. induction keys as [|[k col] keys IH]; intros w Hw Hk; [by exists w|].
  cbn [keys_ok forallb fst snd] in Hk. rewrite !andb_true_iff, negb_true_iff, Nat.ltb_lt in Hk.
  destruct Hk as [[Hk Hcol] Hkeys]. cbn [addCells].
  rewrite (shape_get _ _ _ _ _ Hs Hi Hcol), bind_Ok.
  eapply spec_bind; [by apply spec_add|]. intros w' Hw'. by apply IH.
Qed.

(** When the row may not be there, reading a cell of it is all that can go wrong. *)
Lemma get_fault r i j e : get r i j = Raise e → e = UndefinedBehaviour.
Proof. unfold get, index_. case_match; congruence. Qed.

Lemma addCells_fault r i keys w :
  kinded w → forallb (λ k, negb (isObjectKey k.1)) keys = true →
  match addCells w r i keys with Ok w' => kinded w' | Raise e => e = UndefinedBehaviour end.
Proof.
  revert w. induction keys as [|[k col] keys IH]; intros w Hw Hk; [done|].
  cbn [forallb fst] in Hk. apply andb_true_iff in Hk as [Hk%negb_true_iff Hkeys]. cbn [addCells].
  destruct (get r i col) as [v|e] eqn:E; [|by apply get_fault in E]. rewrite bind_Ok.
  destruct (spec_add w k v false Hw Hk) as (w' & -> & Hw'). rewrite bind_Ok. by apply IH.
Qed.

Lemma spec_addRows cols rows r w key keys forced :
  kinded w → shape cols rows r → keys_ok cols keys = true → isObjectKey key = true →
  spec (addRows w key r keys forced) kinded.
Proof.
  intros Hw Hs Hk Hkey. unfold addRows. rewrite (shape_rowCount _ _ _ Hs), bind_Ok.
  apply spec_forRows; [done|]. intros i w' Hi%elem_of_seq Hw'.
  eapply spec_bind; [eapply spec_addCells; [apply kinded_empty|done|lia|done]|].
  intros temp Ht. by apply spec_addObject.
Qed.

Lemma spec_toData w : kinded w → is_ok (toData w false).
Proof. intros [Hw _]. rewrite toData_compact by done. by eexists. Qed.

(** What the loop builds, from scratch: the list of the rows' objects. *)
Lemma addRows_run cols rows r key keys forced :
  shape cols rows r → keys_fit cols keys = true → (rows ≠ 0)%nat →
  addRows emptyWrapper key r keys forced =
    Ok (RW [(key, Objects ((λ i, record_of r i keys) <$> seq 0 rows))] [forced]).
Proof.
  intros Hs Hk Hr. unfold addRows. rewrite (shape_rowCount _ _ _ Hs), bind_Ok.
  assert (∀ w, addObject emptyWrapper key w forced = Ok (RW [(key, Objects [w])] [forced]))
    as Hfirst by done.
  assert (∀ l w, addObject (RW [(key, Objects l)] [forced]) key w forced
                 = Ok (RW [(key, Objects (l ++ [w]))] [forced])) as Hnext.
  { intros l w. unfold addObject, genericAdd. cbn [find_ push_existing]. by rewrite text_eqb_refl. }
  assert (∀ n i l, (S i + n ≤ rows)%nat →
    forRows (seq (S i) n) (λ i response, temp ← addCells emptyWrapper r i keys;
       addObject response key temp forced) (RW [(key, Objects l)] [forced])
    = Ok (RW [(key, Objects (l ++ ((λ i, record_of r i keys) <$> seq (S i) n)))] [forced])) as Hloop.
  { intros n. induction n as [|n IH]; intros i l Hn; [by rewrite app_nil_r|].
    cbn [seq forRows]. rewrite (addCells_record _ _ _ _ _ Hs) by (done || lia).
    rewrite bind_Ok, Hnext, bind_Ok, IH by lia. by rewrite fmap_cons, <- app_assoc. }
  destruct rows as [|rows]; [done|]. cbn [seq forRows].
  rewrite (addCells_record _ _ _ _ _ Hs) by (done || lia).
  rewrite bind_Ok, Hfirst, bind_Ok, Hloop by lia. done.
Qed.

(** ** Running a route on known inputs *)

Section runs.
Context `{Database}.

Lemma getElement_run b name v : elements b !! name = Some v → getElement b name = Ok v.
Proof. unfold getElement. by intros ->. Qed.

Lemma noRows_run r w n : rowCount r = Ok n → noRows r w = (Ok (bool_decide (n = 0%nat)), w).
Proof. unfold noRows. by intros E; rewrite bind_eq; unfold lift; rewrite E. Qed.

Lemma logSession_run req rest w ID line w' :
  getSessionID req = Some ID → rest w = (Ok line, w') →
  logSession req rest w =
    log (T "Session (" ++ to_string ID ++ T ") " ++ line ++ [NEWLINE]) w'.
Proof.
  intros HID Hrest. unfold logSession. rewrite bind_eq. unfold lift. rewrite HID. cbn [value].
  by rewrite bind_eq, Hrest.
Qed.

Lemma elementOr_run b name d w v :
  elements b !! name = Some v → v ≠ [] → elementOr b name d w = (Ok v, w).
Proof.
  intros Hv Hne. unfold elementOr, hasElement, getElement. rewrite Hv. simpl.
  by rewrite bool_decide_false.
Qed.

Lemma hasElement_some b name v e :
  elements b !! name = Some v → v ≠ [] → hasElement b name e = true.
Proof. intros Hv Hne. apply hasElement_true. eauto. Qed.
End runs.

(** What a run has asked of the database, in order, answered or not. *)
Definition queries (evs : list event) : list (text * params) := omap asked evs.

(** Run the first command of a route. *)
Ltac run1 :=
  first
  [ erewrite bind_ok by (apply lift_run; first [eassumption | apply getElement_run; eassumption | reflexivity])
  | erewrite bind_ok by (apply dbQuery_run; eassumption)
  | erewrite bind_ok by (eapply noRows_run; eassumption)
  | erewrite bind_ok by (eapply elementOr_run; eassumption)
  | erewrite bind_ok by reflexivity ]; cbn beta iota.
