(* ===== verification/RouteLogic.v ===== *)
(** Reasoning about whole routes: the contract a route is checked against, the
    shape SQLite gives the result of a SELECT, and the tactic that runs a route
    symbolically under that contract. *)

From S2P Require Import Prelude CharConv Query Response ResponseSpec Database Http Sql Auth Routes.

(** ** The statements of a route *)

(** Every parameter that is bound occurs in the statement. *)
Definition named (SQL : text) (ps : params) : bool :=
  forallb (λ kv, bool_decide (is_Some (find_sub kv.1 SQL))) ps.

Definition listed (l : list text) (SQL : text) (ps : params) : Prop :=
  SQL ∈ l ∧ named SQL ps = true.

(** ** The results of a SELECT *)

(** The number of expressions between SELECT and FROM: one more than the commas
    outside parentheses. *)
Fixpoint count_columns (depth : nat) (s : text) : nat :=
  match s with
  | [] => 1
  | c :: s' =>
      if is_prefix (T " FROM ") s && bool_decide (depth = 0%nat) then 1
      else if bool_decide (c = "("%char) then count_columns (S depth) s'
      else if bool_decide (c = ")"%char) then count_columns (pred depth) s'
      else if bool_decide (c = ","%char) && bool_decide (depth = 0%nat)
           then S (count_columns depth s')
      else count_columns depth s'
  end.

(** The width of the program's own SELECT statements; of any other text nothing
    is known. *)
Definition select_arity (SQL : text) : option nat :=
  if bool_decide (SQL ∈ program_selects) then Some (count_columns 0 (drop (length (T "SELECT ")) SQL))
  else None.

(** The one statement that selects plain expressions, from no table: it yields
    exactly one row. *)
Definition one_row (SQL : text) : bool := text_eqb SQL sql_warrantyDate.

(** What SQLite documents of a completed SELECT. *)
Definition select_shape (SQL : text) (code : SQLCode) (r : SQLResult) : Prop :=
  isOK code = true → ∀ cols, select_arity SQL = Some cols →
  ∃ rows, shape cols rows r ∧ (one_row SQL = true → rows = 1%nat).

(** ** The contract of a route *)

(** What a route is entitled to: the level its session must have, the fixed
    statements it issues, and the statement it builds from form fields: the text
    around the assignments, the relations they are built from and the one
    parameter. *)
Record policy := {
  level : option Z;
  fixed : list text;
  update : option ((text → text) * list (text * text) * text);
}.

Definition builds `{UnorderedMap} (p : policy) (b : queryBase) (SQL : text) (ps : params) : Prop :=
  ∃ f relations key val, update p = Some (f, relations, key) ∧
    SQL = f (join (T ",") (omap (assignment b) (iteration relations))) ∧ ps = [(key, val)].

Definition allowed `{UnorderedMap} (p : policy) (s : gmap Z session) (req : HttpRequest) (b : queryBase)
    (SQL : text) (ps : params) : Prop :=
  (∀ l, level p = Some l → verify s req l = true) ∧ (listed (fixed p) SQL ps ∨ builds p b SQL ps).

Definition on_query (P : text → params → Prop) (ev : event) : Prop :=
  match ev with EvQuery SQL ps _ _ | EvLost SQL ps _ => P SQL ps | _ => True end.

(** [may]: the statements the route may issue; [faulty]: the faults it may end
    in; [told]: what is assumed of the database besides the shape of results. *)
Definition route_contract (may : text → params → Prop) (faulty : fault → Prop)
    (told : text → params → SQLCode → SQLResult → Prop) : contract :=
  {| c_fault := faulty; c_event := on_query may;
     c_reply SQL ps code r := select_shape SQL code r ∧ told SQL ps code r |}.

Definition no_fault (_ : fault) : Prop := False.
Definition anything (_ : text) (_ : params) (_ : SQLCode) (_ : SQLResult) : Prop := True.

(** The response is ended exactly once. *)
Definition ends_once (_ : unit) (n : nat) : Prop := n = 1%nat.
(** A loop that ends the response iff it leaves the route. *)
Definition ends_if_none {A} (P : A → Prop) (o : option A) (n : nat) : Prop :=
  match o with None => n = 1%nat | Some a => n = 0%nat ∧ P a end.

Lemma select_shape_rows SQL code r cols :
  select_shape SQL code r → isOK code = true → select_arity SQL = Some cols →
  ∃ rows, shape cols rows r ∧ (one_row SQL = true → rows = 1%nat).
Proof. intros Hs Hok. by apply Hs. Qed.

Section rules.
Context `{Database} {C : contract} {s : gmap Z session}.

Lemma wp_is_ok {A} (o : outcome A) a (Q : A → nat → Prop) :
  o = Ok a → Q a 0%nat → wp C s (lift o) Q.
Proof. intros ->. apply wp_ret. Qed.

Lemma wp_spec {A} (o : outcome A) P (Q : A → nat → Prop) :
  spec o P → (∀ a, P a → Q a 0%nat) → wp C s (lift o) Q.
Proof. intros (a & -> & Ha) HQ. by apply wp_ret, HQ. Qed.

Lemma wp_getElement b name e (Q : text → nat → Prop) :
  hasElement b name e = true → (∀ v, elements b !! name = Some v → Q v 0%nat) →
  wp C s (lift (getElement b name)) Q.
Proof.
  intros (v & Hv & _)%hasElement_true HQ. unfold getElement. rewrite Hv. by apply wp_ret, HQ.
Qed.

Lemma wp_sessionID req (Q : Z → nat → Prop) :
  is_Some (getSessionID req) → (∀ id, getSessionID req = Some id → Q id 0%nat) →
  wp C s (lift (value (getSessionID req))) Q.
Proof. intros [id Hid] HQ. rewrite Hid. by apply wp_ret, HQ. Qed.

Lemma wp_sessionUser req (Q : Z → nat → Prop) :
  is_Some (getSessionUser s req) → (∀ u, getSessionUser s req = Some u → Q u 0%nat) →
  wp C s (lift (value (getSessionUser s req))) Q.
Proof. intros [u Hu] HQ. rewrite Hu. by apply wp_ret, HQ. Qed.

Lemma wp_fault {A} (o : outcome A) (Q : A → nat → Prop) :
  (∀ e, o = Raise e → c_fault C e) → (∀ a, o = Ok a → Q a 0%nat) → wp C s (lift o) Q.
Proof. intros He HQ. by apply wp_lift. Qed.

Lemma wp_getElement_fault b name (Q : text → nat → Prop) :
  c_fault C OutOfRange → (∀ v, elements b !! name = Some v → Q v 0%nat) →
  wp C s (lift (getElement b name)) Q.
Proof.
  intros He HQ. unfold getElement. destruct (elements b !! name) as [v|].
  - by apply wp_ret, HQ.
  - apply wp_fault; [by intros e [= <-]|done].
Qed.

Lemma wp_get_fault r i j (Q : text → nat → Prop) :
  c_fault C UndefinedBehaviour → (∀ v, get r i j = Ok v → Q v 0%nat) →
  wp C s (lift (get r i j)) Q.
Proof. intros He HQ. by apply wp_fault; [intros e ->%get_fault|]. Qed.

Lemma wp_addCells_fault r i keys w (Q : responseWrapper → nat → Prop) :
  c_fault C UndefinedBehaviour → kinded w → forallb (λ k, negb (isObjectKey k.1)) keys = true →
  (∀ w', kinded w' → Q w' 0%nat) → wp C s (lift (addCells w r i keys)) Q.
Proof.
  intros He Hw Hk HQ. pose proof (addCells_fault r i keys w Hw Hk) as Ha.
  apply wp_fault; intros x E; rewrite E in Ha; [by subst|by apply HQ].
Qed.

(** The loop rule: [P] holds of the accumulator, and the response is untouched
    until the body leaves the loop. *)
Lemma wp_forRowsM {A} ixs (f : nat → A → M (option A)) a (P : A → Prop) (Q : option A → nat → Prop) :
  P a → (∀ i a, i ∈ ixs → P a → wp C s (f i a) (ends_if_none P)) →
  (∀ o n, ends_if_none P o n → Q o n) →
  wp C s (forRowsM ixs f a) Q.
Proof.
  revert a. induction ixs as [|i ixs IH]; intros a Ha Hf HQ; simpl.
  { apply wp_ret, HQ. by split. }
  apply wp_bind. eapply wp_mono; [apply Hf; [set_solver|done]|].
  intros [a'|] n Hn; simpl in Hn.
  - destruct Hn as [-> Ha']. apply IH; [done| |intros ? ? ?; by apply HQ]. intros j b Hj. apply Hf. set_solver.
  - apply wp_ret, HQ. simpl. lia.
Qed.
End rules.

(** ** Facts about fields *)

Lemma containsAll_cons b n l e :
  containsAll b (n :: l) e = true ↔ hasElement b n e = true ∧ containsAll b l e = true.
Proof. cbn [containsAll]. destruct (hasElement b n e); simpl; naive_solver. Qed.

(** Reduce the tests on fields among the hypotheses to facts on single fields. *)
Ltac known_fields :=
  repeat match goal with
  | H : negb _ = false |- _ => apply negb_false_iff in H
  | H : negb _ = true |- _ => apply negb_true_iff in H
  | H : containsAll _ (_ :: _) _ = true |- _ => apply containsAll_cons in H as [? H]
  | H : containsAll _ [] _ = true |- _ => clear H
  | H : (_ && _) = true |- _ => apply andb_true_iff in H as [? ?]
  | H : (_ || _) = false |- _ => apply orb_false_iff in H as [? ?]
  | H : bool_decide _ = false |- _ => apply bool_decide_eq_false in H
  | H : bool_decide _ = true |- _ => apply bool_decide_eq_true in H
  | H : (if ?b then Some _ else None) = None |- _ =>
      let E := fresh "E" in destruct b eqn:E; [discriminate H|clear H]
  end.

(** The shape of the results known to be good. *)
Ltac known_shapes :=
  repeat match goal with
  | H : select_shape ?SQL ?code ?r, E : isOK ?code = true |- _ =>
      let rows := fresh "rows" in let Hs := fresh "Hs" in let Hf := fresh "Hfrom" in
      destruct (select_shape_rows SQL code r _ H E ltac:(vm_compute; reflexivity)) as (rows & Hs & Hf);
      first [ specialize (Hf ltac:(vm_compute; reflexivity)); subst rows | clear Hf ]; clear H
  end.

Ltac has_session :=
  first [ eassumption
        | by eauto
        | eapply verify_session; eassumption
        | eapply isSessionUser_session; eassumption
        | eapply isSessionUserFromID_session; eassumption
        | eapply getSessionUser_session; eassumption
        | eapply owner_or_session; [eassumption|];
          first [apply isSessionUser_session | apply isSessionUserFromID_session] ].

(** An index below the number of rows. *)
Ltac in_range :=
  repeat match goal with H : _ ∈ seq 0 _ |- _ => apply elem_of_seq in H end; simpl; lia.

Ltac is_kinded := first [eassumption | apply kinded_empty].

(** A statement the contract allows. *)
Ltac issue :=
  cbn [c_event route_contract on_query]; split;
  [ intros ? [= <-]; eassumption
  | first [ left; split; [solve [one_of]|vm_compute; reflexivity]
          | right; by repeat econstructor ] ].

(** Run a [lift]ed computation that cannot fail. *)
Ltac route_lift :=
  lazymatch goal with
  | |- wp _ _ (lift (getElement _ _)) _ => first [ eapply wp_getElement; [eassumption|intros ? ?]
            | apply wp_getElement_fault; [reflexivity|intros ? ?] ]
  | |- wp _ _ (lift (value (getSessionID _))) _ => apply wp_sessionID; [has_session|intros ? ?]
  | |- wp _ _ (lift (value (getSessionUser _ _))) _ =>
      apply wp_sessionUser; [eapply verify_user; eassumption|intros ? ?]
  | |- wp _ _ (lift (rowCount _)) _ => eapply wp_is_ok; [eapply shape_rowCount; eassumption|]
  | |- wp _ _ (lift (get _ _ _)) _ =>
      first [ eapply wp_is_ok; [eapply shape_get; [eassumption|in_range|in_range]|]
            | apply wp_get_fault; [reflexivity|intros ? ?] ]
  | |- wp _ _ (lift (addCells _ _ _ _)) _ =>
      first [ eapply wp_spec;
                [eapply spec_addCells; [is_kinded|eassumption|in_range|vm_compute; reflexivity]|intros ? ?]
            | apply wp_addCells_fault; [reflexivity|is_kinded|vm_compute; reflexivity|intros ? ?] ]
  | |- wp _ _ (lift (addRows _ _ _ _ _)) _ =>
      eapply wp_spec;
        [eapply spec_addRows; [is_kinded|eassumption|vm_compute; reflexivity..]|intros ? ?]
  | |- wp _ _ (lift (add _ _ _ _)) _ =>
      eapply wp_spec; [apply spec_add; [is_kinded|vm_compute; reflexivity]|intros ? ?]
  | |- wp _ _ (lift (addObject _ _ _ _)) _ =>
      eapply wp_spec; [apply spec_addObject; [is_kinded|is_kinded|vm_compute; reflexivity]|intros ? ?]
  | |- wp _ _ (lift (toData _ false)) _ =>
      let d := fresh "d" in let Hd := fresh "Hd" in
      edestruct spec_toData as [d Hd]; [|eapply wp_is_ok; [exact Hd|]]; [is_kinded|]
  | |- wp _ _ (lift (generateUpdateStatement _ _)) _ =>
      eapply wp_is_ok; [apply generateUpdateStatement_run|]
  | |- wp _ _ (lift (Ok _)) _ => apply wp_lift_ok
  end.

Ltac head_of m := lazymatch m with ?f _ => head_of f | ?h => h end.

Ltac forget_anything := try match goal with H : anything _ _ _ _ |- _ => clear H end.

(** Statements that depend on whether a field is there. *)
Ltac known_flag :=
  repeat match goal with
  | E : hasElement ?b ?n ?e = _ |- wp _ _ (dbQuery (?f (hasElement ?b ?n ?e)) _) _ => rewrite E
  end.

(** Rules for the parts of routes that have a lemma of their own. *)
Ltac route_hook := fail.

(** One step of a route. *)
Ltac route_step :=
  first [route_hook | lazymatch goal with
  | |- wp _ _ (mbind _ _) _ => apply wp_bind
  | |- wp _ _ (mret _) _ => apply wp_ret
  | |- wp _ _ (lift _) _ => route_lift
  | |- wp _ _ (dbQuery _ _) _ => known_flag; apply wp_dbQuery; [intros ?; solve [issue]|];
      intros ? ? [? ?]; forget_anything; split; [solve [issue]|]
  | |- wp _ _ getSessions _ => apply wp_getSessions
  | |- wp _ _ (emit _) _ => apply wp_emit; [exact I|]; cbn [ends_response]
  | |- wp _ _ (if ?b then _ else _) _ => let E := fresh "E" in destruct b eqn:E; try discriminate; known_fields; known_shapes
  | |- wp _ _ (match ?x with _ => _ end) _ => let E := fresh "E" in destruct x eqn:E; known_fields
  | |- wp _ _ (forRowsM _ _ _) _ =>
      apply (wp_forRowsM _ _ _ kinded);
        [is_kinded|intros ? ? ? ?|intros [?|] ? Hn; cbn in Hn; [destruct Hn as [-> ?]|subst]]
  | |- wp _ _ ?m _ => let h := head_of m in unfold h
  end]; cbv beta iota.

(** Run a whole route; what is left are the leaves that need an argument. *)
Ltac route :=
  lazymatch goal with |- wp _ _ ?m _ => let h := head_of m in unfold h end;
  repeat route_step; first [reflexivity | by split | idtac].
