(* ===== verification/RouteAuth.v ===== *)
(** Server/include/WebRoutes/Auth.h: logging in, registering, logging out.

    [fuel] bounds the draws of a session identifier (see [Auth.drawLoop]). *)

From S2P Require Import Prelude CharConv Query Response Database Http Sql Auth Routes.

Section routeAuth.
Context `{Database}.

Definition authenticate (fuel : nat) (req : HttpRequest) (b q : queryBase) : M unit :=
  bad ← orM (mret (negb (containsAll b [T "username"; T "password"] false)))
            (orM (fieldEmpty b (T "username")) (fieldEmpty b (T "password")));
  if (bad : bool) then reply BADREQUEST else
  granted ← request fuel req b;
  _ ← (if negb granted then writeStatus UNAUTHORISED else mret tt);
  end_.

Definition registerUser (fuel : nat) (req : HttpRequest) (b q : queryBase) : M unit :=
  if negb (containsAll b [T "username"; T "password"] false) then reply BADREQUEST else
  username ← lift (getElement b (T "username"));
  password ← lift (getElement b (T "password"));
  '(status, _) ← dbQuery sql_registerUser [(T ":USR", username); (T ":PAS", password)];
  _ ← (if negb (isOK status) then writeStatus INTERNALERROR
       else username ← lift (getElement b (T "username"));
            log (T "Created new client (" ++ quoted username ++ T ")." ++ [NEWLINE]));
  authenticate fuel req b q.

Definition deauthenticate (req : HttpRequest) : M unit :=
  r ← release req;
  _ ← (if negb r then writeStatus CONFLICT else mret tt);
  end_.

Definition checkSession (req : HttpRequest) : M unit :=
  if hasSession req then
    _ ← writeStatus OK;
    sessions ← getSessions;
    level ← lift (value (getSessionAuthLevel sessions req));
    wrap ← lift (add emptyWrapper (T "Permissions") (to_string level) false);
    d ← lift (toData wrap false);
    endWith d
  else
    _ ← release req;
    reply UNAUTHORISED.
End routeAuth.
