(* ===== verification/RouteUser.v ===== *)
(** Server/include/WebRoutes/User.h: the accounts. *)

From S2P Require Import Prelude CharConv Query Response Database Http Sql Auth Routes.

(** The columns a vehicle's object takes from a row, in the three forms the
    routes use. *)
Definition vehicleKeys : list (text * nat) :=
  [(T "ID", 0); (T "Plate", 1); (T "Make", 2); (T "Model", 3); (T "Year", 4); (T "Colour", 5)]%nat.
Definition userKeys : list (text * nat) :=
  [(T "ID", 0); (T "Username", 1); (T "Permissions", 2)]%nat.
Definition foundVehicleKeys : list (text * nat) :=
  [(T "Vehicle plate", 0); (T "Vehicle Make", 1); (T "Vehicle Model", 2); (T "Vehicle Year", 3);
   (T "Vehicle Colour", 4)]%nat.

Section routeUser.
Context `{Database, UnorderedMap}.

Definition createUser (req : HttpRequest) (b q : queryBase) : M unit :=
  bad ← orM (mret (negb (containsAll b [T "username"; T "password"; T "permission"] false)))
       (orM (fieldEmpty b (T "username"))
       (orM (fieldEmpty b (T "password")) (fieldEmpty b (T "permission"))));
  if (bad : bool) then reply BADREQUEST else
  str ← lift (getElement b (T "permission"));
  match from_chars_uint 32 str with
  | None => reply BADREQUEST
  | Some requestedPermLevel =>
      sessions ← getSessions;
      if negb (verify sessions req employee) || negb (verify sessions req (int32 requestedPermLevel))
      then reply FORBIDDEN else
      username ← lift (getElement b (T "username"));
      password ← lift (getElement b (T "password"));
      permission ← lift (getElement b (T "permission"));
      '(status, _) ← dbQuery sql_createUser
        [(T ":USR", username); (T ":PAS", password); (T ":PER", permission)];
      _ ← (if negb (isOK status) then writeStatus INTERNALERROR
           else logSession req (
             username ← lift (getElement b (T "username"));
             mret (T "created new user (" ++ quoted username ++ T ").")));
      end_
  end.

Definition getLocalUserData (req : HttpRequest) (b q : queryBase) : M unit :=
  sessions ← getSessions;
  match getSessionUser sessions req with
  | None => reply UNAUTHORISED
  | Some user =>
      '(userStatus, userResult) ← dbQuery sql_localUser [(T ":USR", to_string user)];
      if negb (isOK userStatus) then reply INTERNALERROR else
      '(vehStatus, vehResult) ← dbQuery sql_localVehicles [(T ":USR", to_string user)];
      if negb (isOK vehStatus) then reply INTERNALERROR else
      response ← lift (addCells emptyWrapper userResult 0 userKeys);
      response ← lift (addRows response (T "Vehicles") vehResult vehicleKeys true);
      _ ← logSession req (
        name ← lift (get userResult 0 1);
        mret (T "accessed user data for (" ++ quoted name ++ T ")."));
      tryEndData response
  end.

Definition searchUsers (req : HttpRequest) (b q : queryBase) : M unit :=
  if negb (hasElement q (T "username") true) then reply BADREQUEST else
  sessions ← getSessions;
  if negb (verify sessions req employee) then reply FORBIDDEN else
  _ ← logSession req (
    username ← lift (getElement q (T "username"));
    mret (T "searched for user (" ++ quoted username ++ T ")."));
  username ← lift (getElement q (T "username"));
  '(status, result) ← dbQuery sql_searchUsers [(T ":USR", generateLIKEArgument username)];
  if negb (isOK status) then reply INTERNALERROR else
  n ← lift (rowCount result);
  if negb (bool_decide (n = 0%nat)) then
    response ← forRowsM (seq 0 n) (λ i response,
      id ← lift (get result i 0);
      '(vehStatus, vehResult) ← dbQuery sql_searchUserVehicles [(T ":USR", id)];
      if negb (isOK vehStatus) then _ ← reply INTERNALERROR; mret None else
      temp ← lift (addCells emptyWrapper result i userKeys);
      temp ← lift (addRows temp (T "Vehicles") vehResult foundVehicleKeys true);
      response ← lift (addObject response (T "Users") temp false);
      mret (Some response)) emptyWrapper;
    match response with
    | None => mret tt
    | Some response => tryEndData response
    end
  else reply NOTFOUND.

Definition selectUser (req : HttpRequest) (b q : queryBase) : M unit :=
  if negb (hasElement q (T "ID") false) then reply BADREQUEST else
  sessions ← getSessions;
  if negb (verify sessions req employee) then reply FORBIDDEN else
  _ ← logSession req (
    ID ← lift (getElement q (T "ID"));
    mret (T "selected user (" ++ quoted ID ++ T ")."));
  ID ← lift (getElement q (T "ID"));
  '(status, result) ← dbQuery sql_selectUser [(T ":ID", ID)];
  if negb (isOK status) then reply INTERNALERROR else
  none ← noRows result;
  if negb none then
    id ← lift (get result 0 0);
    '(vehStatus, vehResult) ← dbQuery sql_selectUserVehicles [(T ":USR", id)];
    if negb (isOK vehStatus) then reply INTERNALERROR else
    response ← lift (addCells emptyWrapper result 0 userKeys);
    response ← lift (addRows response (T "Vehicles") vehResult vehicleKeys true);
    tryEndData response
  else reply NOTFOUND.

Definition deleteUser (req : HttpRequest) (b q : queryBase) : M unit :=
  if negb (hasElement b (T "ID") false) then reply BADREQUEST else
  sessions ← getSessions;
  if negb (verify sessions req employee) then reply FORBIDDEN else
  ID ← lift (getElement b (T "ID"));
  '(pstatus, presult) ← dbQuery sql_userPermissions [(T ":ID", ID)];
  if negb (isOK pstatus) then reply INTERNALERROR else
  none ← noRows presult;
  if (none : bool) then reply OK else
  perm ← lift (get presult 0 0);
  match from_chars_uint 32 perm with
  | None => reply INTERNALERROR
  | Some deletedPermissions =>
      if negb (verify sessions req (int32 deletedPermissions)) then reply FORBIDDEN else
      ID ← lift (getElement b (T "ID"));
      '(status, _) ← dbQuery sql_deleteUser [(T ":ID", ID)];
      if negb (isOK status) then reply INTERNALERROR else
      _ ← logSession req (
        ID ← lift (getElement b (T "ID"));
        mret (T "deleted user (" ++ quoted ID ++ T ")."));
      end_
  end.

(** The check on the "permission" field: [Some code] when the route answers
    [code] and returns. *)
Definition permissionRefused (req : HttpRequest) (b : queryBase) : M (option text) :=
  if hasElement b (T "permission") false then
    str ← lift (getElement b (T "permission"));
    match from_chars_uint 32 str with
    | None => mret (Some BADREQUEST)
    | Some requestedPermLevel =>
        sessions ← getSessions;
        mret (if negb (verify sessions req (int32 requestedPermLevel)) then Some FORBIDDEN else None)
    end
  else mret None.

Definition userRelations : list (text * text) :=
  [(T "username", T "USERNAME"); (T "password", T "PASSWORD"); (T "permissions", T "PERMISSIONS")].

Definition updateUser (req : HttpRequest) (b q : queryBase) : M unit :=
  if negb (hasElement b (T "ID") false) then reply BADREQUEST else
  sessions ← getSessions;
  if negb (verify sessions req employee) then reply FORBIDDEN else
  refused ← permissionRefused req b;
  match refused with
  | Some code => reply code
  | None =>
  ID ← lift (getElement b (T "ID"));
  '(pstatus, presult) ← dbQuery sql_userPermissions [(T ":ID", ID)];
  if negb (isOK pstatus) then reply INTERNALERROR else
  none ← noRows presult;
  if (none : bool) then reply BADREQUEST else
  perm ← lift (get presult 0 0);
  match from_chars_uint 32 perm with
  | None => reply INTERNALERROR
  | Some modifiedPermissions =>
      if negb (verify sessions req (int32 modifiedPermissions)) then reply FORBIDDEN else
      updateStatement ← lift (generateUpdateStatement b (iteration userRelations));
      if bool_decide (updateStatement = []) then reply OK else
      ID ← lift (getElement b (T "ID"));
      '(status, _) ← dbQuery (sql_updateUser updateStatement) [(T ":ID", ID)];
      _ ← (if negb (isOK status) then writeStatus INTERNALERROR else mret tt);
      _ ← logSession req (
        ID ← lift (getElement b (T "ID"));
        mret (T "updated user (" ++ quoted ID ++ T ")."));
      end_
  end
  end.
End routeUser.
