(* ===== verification/RouteParts.v ===== *)
(** Server/include/WebRoutes/Parts.h: suppliers, part groups, parts. *)

From S2P Require Import Prelude CharConv Query Response Database Http Sql Auth Routes.

Definition supplierKeys : list (text * nat) :=
  [(T "ID", 0); (T "Name", 1); (T "Phone", 2); (T "Email", 3)]%nat.
Definition groupKeys : list (text * nat) := [(T "ID", 0); (T "Name", 1)]%nat.
Definition partKeys : list (text * nat) :=
  [(T "ID", 0); (T "Name", 1); (T "Price", 2); (T "Quantity", 3); (T "Supplier", 4);
   (T "GroupID", 5)]%nat.

Definition supplierRelations : list (text * text) :=
  [(T "rename", T "NAME"); (T "phone", T "PHONE"); (T "email", T "EMAIL")].
Definition partRelations : list (text * text) :=
  [(T "name", T "NAME"); (T "quantity", T "QUANTITY"); (T "supplier", T "SUPPLIER");
   (T "price", T "PRICE"); (T "group", T "SIMILAR")].

Section routeParts.
Context `{Database, UnorderedMap}.

(** ** Suppliers *)

Definition createSupplier (req : HttpRequest) (b q : queryBase) : M unit :=
  bad ← orM (mret (negb (hasElement b (T "name") false))) (fieldEmpty b (T "name"));
  if (bad : bool) then reply BADREQUEST else
  sessions ← getSessions;
  if negb (verify sessions req manager) then reply FORBIDDEN else
  name ← lift (getElement b (T "name"));
  phone ← elementOr b (T "phone") (T "NULL");
  email ← elementOr b (T "email") (T "NULL");
  '(status, _) ← dbQuery sql_createSupplier
    [(T ":NAM", name); (T ":PHO", phone); (T ":EMA", email)];
  _ ← (if negb (isOK status) then writeStatus INTERNALERROR
       else logSession req (
         name ← lift (getElement b (T "name"));
         mret (T "created new supplier (" ++ quoted name ++ T ").")));
  end_.

Definition updateSupplier (req : HttpRequest) (b q : queryBase) : M unit :=
  bad ← orM (mret (negb (hasElement b (T "name") false)))
            (andM (mret (hasElement b (T "rename") false)) (fieldEmpty b (T "rename")));
  if (bad : bool) then reply BADREQUEST else
  sessions ← getSessions;
  if negb (verify sessions req manager) then reply FORBIDDEN else
  updateStatement ← lift (generateUpdateStatement b (iteration supplierRelations));
  if bool_decide (updateStatement = []) then reply OK else
  name ← lift (getElement b (T "name"));
  '(status, _) ← dbQuery (sql_updateSupplier updateStatement) [(T ":NAM", name)];
  _ ← (if negb (isOK status) then writeStatus INTERNALERROR
       else logSession req (
         name ← lift (getElement b (T "name"));
         mret (T "updated supplier (" ++ quoted name ++ T ").")));
  end_.

Definition searchSuppliers (req : HttpRequest) (b q : queryBase) : M unit :=
  if negb (hasElement q (T "searchterm") true) then reply BADREQUEST else
  sessions ← getSessions;
  if negb (verify sessions req employee) then reply FORBIDDEN else
  _ ← logSession req (
    term ← lift (getElement q (T "searchterm"));
    mret (T "searched for supplier with keyword " ++ quoted term ++ T "."));
  term ← lift (getElement q (T "searchterm"));
  '(status, result) ← dbQuery sql_searchSuppliers [(T ":VAL", generateLIKEArgument term)];
  if negb (isOK status) then reply INTERNALERROR else
  none ← noRows result;
  if negb none then
    response ← lift (addRows emptyWrapper (T "Suppliers") result supplierKeys false);
    tryEndData response
  else reply NOTFOUND.

Definition selectSupplier (req : HttpRequest) (b q : queryBase) : M unit :=
  if negb (hasElement q (T "ID") false) then reply BADREQUEST else
  sessions ← getSessions;
  if negb (verify sessions req employee) then reply FORBIDDEN else
  _ ← logSession req (
    ID ← lift (getElement q (T "ID"));
    mret (T "selected supplier (" ++ quoted ID ++ T ")."));
  ID ← lift (getElement q (T "ID"));
  '(status, result) ← dbQuery sql_selectSupplier [(T ":ID", ID)];
  if negb (isOK status) then reply INTERNALERROR else
  none ← noRows result;
  if negb none then
    response ← lift (addCells emptyWrapper result 0 supplierKeys);
    tryEndData response
  else reply NOTFOUND.

(** ** Part groups *)

Definition createPartGroup (req : HttpRequest) (b q : queryBase) : M unit :=
  bad ← orM (mret (negb (hasElement b (T "name") false))) (fieldEmpty b (T "name"));
  if (bad : bool) then reply BADREQUEST else
  sessions ← getSessions;
  if negb (verify sessions req manager) then reply FORBIDDEN else
  name ← lift (getElement b (T "name"));
  '(status, _) ← dbQuery sql_createPartGroup [(T ":NAM", name)];
  _ ← (if negb (isOK status) then writeStatus INTERNALERROR
       else logSession req (
         name ← lift (getElement b (T "name"));
         mret (T "created new part group (" ++ quoted name ++ T ").")));
  end_.

Definition updatePartGroup (req : HttpRequest) (b q : queryBase) : M unit :=
  bad ← orM (mret (negb (containsAll b [T "name"; T "rename"] false))) (fieldEmpty b (T "rename"));
  if (bad : bool) then reply BADREQUEST else
  sessions ← getSessions;
  if negb (verify sessions req manager) then reply FORBIDDEN else
  name ← lift (getElement b (T "name"));
  rename ← lift (getElement b (T "rename"));
  '(status, _) ← dbQuery sql_updatePartGroup [(T ":NAM", name); (T ":RNM", rename)];
  _ ← (if negb (isOK status) then writeStatus INTERNALERROR
       else logSession req (
         name ← lift (getElement b (T "name"));
         rename ← lift (getElement b (T "rename"));
         mret (T "updated part group (" ++ quoted name ++ T "/" ++ quoted rename ++ T ").")));
  end_.

Definition searchPartGroups (req : HttpRequest) (b q : queryBase) : M unit :=
  if negb (hasElement q (T "name") true) then reply BADREQUEST else
  sessions ← getSessions;
  if negb (verify sessions req employee) then reply FORBIDDEN else
  name ← lift (getElement q (T "name"));
  '(status, result) ← dbQuery sql_searchPartGroups [(T ":NAM", generateLIKEArgument name)];
  if negb (isOK status) then reply INTERNALERROR else
  none ← noRows result;
  if negb none then
    response ← lift (addRows emptyWrapper (T "Groups") result groupKeys true);
    _ ← logSession req (
      name ← lift (getElement q (T "name"));
      mret (T "searched part groups for " ++ name ++ T "."));
    tryEndData response
  else reply NOTFOUND.

Definition selectPartGroup (req : HttpRequest) (b q : queryBase) : M unit :=
  if negb (hasElement q (T "ID") false) then reply BADREQUEST else
  sessions ← getSessions;
  if negb (verify sessions req employee) then reply FORBIDDEN else
  ID ← lift (getElement q (T "ID"));
  '(status, result) ← dbQuery sql_selectPartGroup [(T ":ID", ID)];
  if negb (isOK status) then reply INTERNALERROR else
  _ ← logSession req (
    ID ← lift (getElement q (T "ID"));
    mret (T "selected group " ++ ID ++ T "."));
  none ← noRows result;
  if negb none then
    response ← lift (addCells emptyWrapper result 0 groupKeys);
    tryEndData response
  else reply NOTFOUND.

(** ** Parts *)

Definition createPart (req : HttpRequest) (b q : queryBase) : M unit :=
  bad ← orM (mret (negb (containsAll b [T "name"; T "quantity"; T "supplier"; T "price"] false)))
       (orM (fieldEmpty b (T "name"))
       (orM (fieldEmpty b (T "quantity"))
       (orM (fieldEmpty b (T "supplier")) (fieldEmpty b (T "price")))));
  if (bad : bool) then reply BADREQUEST else
  sessions ← getSessions;
  if negb (verify sessions req manager) then reply FORBIDDEN else
  let groupID := T "NULL" in
  failed ← (if hasElement b (T "group") false then
              group ← lift (getElement b (T "group"));
              '(groupstatus, groupresult) ← dbQuery sql_groupByName [(T ":GRP", group)];
              orM (mret (negb (isOK groupstatus)))
                  (n ← lift (rowCount groupresult); mret (negb (bool_decide (n = 1%nat))))
            else mret false);
  if (failed : bool) then reply INTERNALERROR else
  name ← lift (getElement b (T "name"));
  quantity ← lift (getElement b (T "quantity"));
  supplier ← lift (getElement b (T "supplier"));
  price ← lift (getElement b (T "price"));
  '(status, _) ← dbQuery sql_createPart
    [(T ":NAM", name); (T ":QUA", quantity); (T ":SUP", supplier); (T ":PRI", price);
     (T ":SIM", groupID)];
  _ ← (if negb (isOK status) then writeStatus INTERNALERROR
       else logSession req (
         name ← lift (getElement b (T "name"));
         mret (T "created new part (" ++ quoted name ++ T ").")));
  end_.

Definition updatePart (req : HttpRequest) (b q : queryBase) : M unit :=
  bad ← orM (mret (negb (hasElement b (T "ID") false)))
            (andM (mret (hasElement b (T "rename") false)) (fieldEmpty b (T "rename")));
  if (bad : bool) then reply BADREQUEST else
  sessions ← getSessions;
  if negb (verify sessions req manager) then reply FORBIDDEN else
  updateStatement ← lift (generateUpdateStatement b (iteration partRelations));
  if bool_decide (updateStatement = []) then reply OK else
  ID ← lift (getElement b (T "ID"));
  '(status, _) ← dbQuery (sql_updatePart updateStatement) [(T ":ID", ID)];
  _ ← (if negb (isOK status) then writeStatus INTERNALERROR
       else logSession req (
         ID ← lift (getElement b (T "ID"));
         mret (T "updated part (" ++ quoted ID ++ T ").")));
  end_.

Definition searchParts (req : HttpRequest) (b q : queryBase) : M unit :=
  if negb (hasElement q (T "name") true) && negb (hasElement q (T "group") true)
  then reply BADREQUEST else
  sessions ← getSessions;
  if negb (verify sessions req employee) then reply FORBIDDEN else
  byName ← (if hasElement q (T "name") true
            then name ← lift (getElement q (T "name"));
                 mret [(T ":NAM", generateLIKEArgument name)]
            else mret []);
  byGroup ← (if hasElement q (T "group") true
             then group ← lift (getElement q (T "group")); mret [(T ":ID", group)]
             else mret []);
  '(status, result) ← dbQuery
    (sql_searchParts (hasElement q (T "name") true) (hasElement q (T "group") true))
    (byName ++ byGroup);
  if negb (isOK status) then reply INTERNALERROR else
  response ← lift (addRows emptyWrapper (T "Parts") result partKeys true);
  _ ← logSession req (
    term ← (if hasElement q (T "name") true then lift (getElement q (T "name"))
            else lift (getElement q (T "group")));
    mret (T "searched parts for " ++ term ++ T "."));
  tryEndData response.

Definition selectPart (req : HttpRequest) (b q : queryBase) : M unit :=
  if negb (hasElement q (T "ID") false) then reply BADREQUEST else
  sessions ← getSessions;
  if negb (verify sessions req employee) then reply FORBIDDEN else
  ID ← lift (getElement q (T "ID"));
  '(status, result) ← dbQuery sql_selectPart [(T ":ID", ID)];
  if negb (isOK status) then reply INTERNALERROR else
  _ ← logSession req (
    ID ← lift (getElement q (T "ID"));
    mret (T "selected part " ++ ID ++ T "."));
  none ← noRows result;
  if negb none then
    response ← lift (addCells emptyWrapper result 0 partKeys);
    tryEndData response
  else reply NOTFOUND.
End routeParts.
