(* ===== verification/RouteVehicle.v ===== *)
(** Server/include/WebRoutes/Vehicle.h: the customers' vehicles. *)

From S2P Require Import Prelude CharConv Query Response Database Http Sql Auth Routes RouteUser.

Definition vehicleRelations : list (text * text) :=
  [(T "plate", T "PLATE"); (T "colour", T "COLOUR")].

Section routeVehicle.
Context `{Database, UnorderedMap}.

Definition createVehicle (req : HttpRequest) (b q : queryBase) : M unit :=
  if negb (containsAll b [T "plate"; T "make"; T "model"; T "owner"; T "year"; T "colour"] false)
  then reply BADREQUEST else
  sessions ← getSessions;
  denied ← andM (mret (negb (verify sessions req manager)))
                (owner ← lift (getElement b (T "owner"));
                 mret (negb (isSessionUser sessions req owner)));
  if (denied : bool) then reply FORBIDDEN else
  make ← lift (getElement b (T "make"));
  model ← lift (getElement b (T "model"));
  '(vStatus, _) ← dbQuery sql_addSharedVehicle [(T ":MAK", make); (T ":MOD", model)];
  if negb (isOK vStatus) then reply INTERNALERROR else
  plate ← lift (getElement b (T "plate"));
  make ← lift (getElement b (T "make"));
  model ← lift (getElement b (T "model"));
  owner ← lift (getElement b (T "owner"));
  year ← lift (getElement b (T "year"));
  colour ← lift (getElement b (T "colour"));
  '(status, _) ← dbQuery sql_createVehicle
    [(T ":PLT", plate); (T ":MAK", make); (T ":MOD", model); (T ":OWN", owner); (T ":YEA", year);
     (T ":COL", colour)];
  _ ← (if negb (isOK status) then writeStatus INTERNALERROR
       else logSession req (
         owner ← lift (getElement b (T "owner"));
         mret (T "added new vehicle for (" ++ quoted owner ++ T ").")));
  end_.

Definition updateVehicle (req : HttpRequest) (b q : queryBase) : M unit :=
  if negb (hasElement b (T "ID") false) then reply BADREQUEST else
  ID ← lift (getElement b (T "ID"));
  '(status, result) ← dbQuery sql_vehicleOwner [(T ":ID", ID)];
  owner ← lift (get result 0 0);
  sessions ← getSessions;
  if negb (isSessionUserFromID sessions req owner) && negb (verify sessions req manager)
  then reply FORBIDDEN else
  updateStatement ← lift (generateUpdateStatement b (iteration vehicleRelations));
  if bool_decide (updateStatement = []) then reply OK else
  ID ← lift (getElement b (T "ID"));
  '(status, _) ← dbQuery (sql_updateVehicle updateStatement) [(T ":ID", ID)];
  _ ← (if negb (isOK status) then writeStatus INTERNALERROR else mret tt);
  _ ← logSession req (
    ID ← lift (getElement b (T "ID"));
    mret (T "updated vehicle (" ++ quoted ID ++ T ")."));
  end_.

Definition deleteVehicle (req : HttpRequest) (b q : queryBase) : M unit :=
  if negb (hasElement b (T "ID") false) then reply BADREQUEST else
  ID ← lift (getElement b (T "ID"));
  '(status, result) ← dbQuery sql_vehicleOwner [(T ":ID", ID)];
  owner ← lift (get result 0 0);
  sessions ← getSessions;
  if negb (isSessionUserFromID sessions req owner) && negb (verify sessions req manager)
  then reply FORBIDDEN else
  ID ← lift (getElement b (T "ID"));
  '(status, _) ← dbQuery sql_deleteVehicle [(T ":ID", ID)];
  if negb (isOK status) then reply INTERNALERROR else
  _ ← logSession req (
    ID ← lift (getElement b (T "ID"));
    mret (T "deleted vehicle (" ++ quoted ID ++ T ")."));
  end_.

(** The two lines after the [return] of the source are never reached. *)
Definition selectVehicle (req : HttpRequest) (b q : queryBase) : M unit :=
  if negb (hasElement q (T "ID") false) then reply BADREQUEST else
  ID ← lift (getElement q (T "ID"));
  '(status, result) ← dbQuery sql_vehicleOwner [(T ":ID", ID)];
  owner ← lift (get result 0 0);
  sessions ← getSessions;
  if negb (isSessionUser sessions req owner) && negb (verify sessions req manager)
  then reply FORBIDDEN else
  ID ← lift (getElement q (T "ID"));
  '(vehStatus, vehResult) ← dbQuery sql_selectVehicle [(T ":ID", ID)];
  if negb (isOK vehStatus) then reply INTERNALERROR else
  none ← noRows vehResult;
  if negb none then
    response ← lift (addCells emptyWrapper vehResult 0 vehicleKeys);
    ID ← lift (getElement q (T "ID"));
    response ← lift (add response (T "Owner") ID false);
    tryEndData response
  else reply NOTFOUND.
End routeVehicle.
