(* ===== verification/Double.v ===== *)
(** The [double] arithmetic of the service routes, on the binary64 format of the
    Standard Library's [SpecFloat]: [std::from_chars] into a [double],
    [std::to_string] of one, and [getPartPrice]
    (Server/include/WebRoutes/Services.h).

    [SpecFloat] has a single NaN, so its sign, which [std::to_string] would
    print, is not modelled. *)

From Stdlib Require Import SpecFloat.
From S2P Require Import Prelude CharConv.

Abbreviation double := spec_float.

Definition prec64 : Z := 53.
Definition emax64 : Z := 1024.

Definition double_add (a b : double) : double := SFadd prec64 emax64 a b.
Definition double_mul (a b : double) : double := SFmul prec64 emax64 a b.
Definition double_zero : double := S754_zero false.

(** The conversion of an integer, rounded to nearest, ties to even. *)
Definition double_of_Z (z : Z) : double := binary_normalize prec64 emax64 z 0 false.

(** The double nearest to [(-1)^neg * m * 10^e]. *)
Definition double_of_decimal (neg : bool) (m : Z) (e : Z) : double :=
  if (m <=? 0)%Z then S754_zero neg
  else if (0 <=? e)%Z
  then binary_normalize prec64 emax64 ((if neg then -1 else 1) * (m * 10 ^ e))%Z 0 neg
  else let '(q, e', l) := SFdiv_core_binary prec64 emax64 m 0 (10 ^ (- e)) 0 in
       binary_round_aux prec64 emax64 neg q e' l.

(** ** Reading *)

(** The exponent part at the front of [s], if there is one; without digits
    the "e" does not belong to the number. *)
Definition read_exponent (s : text) : Z :=
  match s with
  | c :: s' =>
      if bool_decide (c = "e"%char ∨ c = "E"%char) then
        let '(neg, s'') := match s' with
                           | "-"%char :: s'' => (true, s'')
                           | "+"%char :: s'' => (false, s'')
                           | _ => (false, s')
                           end in
        let v := digits_value (take_digits s'') in
        if neg then (- v)%Z else v
      else 0%Z
  | [] => 0%Z
  end.

Definition to_lower (c : ascii) : ascii :=
  let n := nat_of_ascii c in
  if bool_decide (65 ≤ n ∧ n ≤ 90)%nat then ascii_of_nat (n + 32) else c.

(** [std::from_chars(first, last, double&)] in the general format.  A value too
    large for a double, or too small to be told from 0, is [result_out_of_range];
    it and [invalid_argument] are [None]. *)
Definition from_chars_double (s : text) : option double :=
  let '(neg, s) := match s with
                   | "-"%char :: s' => (true, s')
                   | _ => (false, s)
                   end in
  let ip := take_digits s in
  let after := drop (length ip) s in
  let '(fp, rest) := match after with
                     | "."%char :: s' => let fp := take_digits s' in (fp, drop (length fp) s')
                     | _ => ([], after)
                     end in
  if bool_decide (ip = []) && bool_decide (fp = []) then
    if is_prefix (T "inf") (to_lower <$> s) then Some (S754_infinity neg)
    else if is_prefix (T "nan") (to_lower <$> s) then Some S754_nan
    else None
  else
    let m := digits_value (ip ++ fp) in
    let e := (read_exponent rest - Z.of_nat (length fp))%Z in
    match double_of_decimal neg m e with
    | S754_infinity _ => None
    | S754_zero b => if (m =? 0)%Z then Some (S754_zero b) else None
    | d => Some d
    end.

(** ** Writing *)

(** [num / den] to the nearest integer, ties to even. *)
Definition div_half_even (num den : Z) : Z :=
  let q := (num / den)%Z in
  let r := (num mod den)%Z in
  match (2 * r ?= den)%Z with
  | Lt => q
  | Gt => q + 1
  | Eq => if Z.even q then q else q + 1
  end%Z.

(** [std::to_string(double)], i.e. "%f": six digits after the point. *)
Definition to_string_double (d : double) : text :=
  let sign (neg : bool) : text := if neg then T "-" else [] in
  let fixed (neg : bool) (n : Z) : text :=
    let frac := to_string (n mod 10 ^ 6) in
    sign neg ++ to_string (n / 10 ^ 6) ++ T "." ++ replicate (6 - length frac) "0"%char ++ frac in
  match d with
  | S754_zero neg => fixed neg 0%Z
  | S754_infinity neg => sign neg ++ T "inf"
  | S754_nan => T "nan"
  | S754_finite neg m e =>
      fixed neg (if (0 <=? e)%Z then Zpos m * 2 ^ e * 10 ^ 6
                 else div_half_even (Zpos m * 10 ^ 6) (2 ^ (- e)))%Z
  end.

(** ** Services.h, [getPartPrice] *)

Definition getPartPrice (price quantity : text) : option double :=
  match from_chars_double price, from_chars_uint 64 quantity with
  | Some partPrice, Some partQuantity => Some (double_mul partPrice (double_of_Z partQuantity))
  | _, _ => None
  end.

Example read_tenth : from_chars_double (T "0.1") = Some (S754_finite false 7205759403792794 (-56)).
Proof. reflexivity. Qed.
Example read_exponent_form : from_chars_double (T "12.5e-1x") = from_chars_double (T "1.25").
Proof. reflexivity. Qed.
Example read_out_of_range :
  from_chars_double (T "1e400") = None ∧ from_chars_double (T "1e-400") = None.
Proof. split; reflexivity. Qed.
Example price_of_three :
  to_string_double <$> getPartPrice (T "19.99") (T "3") = Some (T "59.970000").
Proof. reflexivity. Qed.
Example print_half : to_string_double (double_add (double_of_Z 2) (S754_finite false 1 (-7))) = T "2.007812".
Proof. reflexivity. Qed.
