(* ===== verification/DoubleFacts.v ===== *)
(** The arithmetic of [Double] on whole numbers: below 2^53 nothing is rounded, so
    reading, multiplying, adding and writing them is integer arithmetic.  The
    database declares prices and quantities as integers (Server/sqlcrt.txt). *)

From Stdlib Require Import SpecFloat.
From S2P Require Import Prelude CharConv Double.

#[local] Open Scope Z_scope.

(** A whole number that a [double] can hold. *)
Definition whole_range (z : Z) : Prop := 0 ≤ z < 2 ^ 53.

(** The [double] that holds it: 53 bits, the highest of them set. *)
Definition whole (z : Z) : double :=
  match z with
  | Zpos _ => S754_finite false (Z.to_pos (z * 2 ^ (52 - Z.log2 z))) (Z.log2 z - 52)
  | _ => double_zero
  end.

(** ** Shifting out zeros *)

Lemma Zdigits2_log2 z : 0 < z → Zdigits2 z = Z.log2 z + 1.
Proof.
  destruct z as [|p|p]; [lia| |lia]. intros _. unfold Zdigits2.
  assert (digits2_pos p = Pos.size p) as -> by (induction p; simpl; congruence).
  destruct p; simpl; lia.
Qed.

Lemma shr_1_even z : shr_1 {| shr_m := 2 * z; shr_r := false; shr_s := false |}
  = {| shr_m := z; shr_r := false; shr_s := false |}.
Proof. by destruct z. Qed.

Lemma shr_pow2 n z : SpecFloat.iter_pos shr_1 n {| shr_m := z * 2 ^ Zpos n; shr_r := false; shr_s := false |}
  = {| shr_m := z; shr_r := false; shr_s := false |}.
Proof.
  revert z. induction n as [n IH|n IH|]; intros z; cbn [SpecFloat.iter_pos].
  - replace (z * 2 ^ Zpos n~1) with (2 * (z * 2 ^ Zpos n * 2 ^ Zpos n)).
    { by rewrite shr_1_even, !IH. }
    replace (Zpos n~1) with (Zpos n + Zpos n + 1) by lia. rewrite !Z.pow_add_r by lia. ring.
  - replace (z * 2 ^ Zpos n~0) with (z * 2 ^ Zpos n * 2 ^ Zpos n).
    { by rewrite !IH. }
    replace (Zpos n~0) with (Zpos n + Zpos n) by lia. rewrite Z.pow_add_r by lia. ring.
  - replace (z * 2 ^ 1) with (2 * z) by (rewrite Z.pow_1_r; lia). apply shr_1_even.
Qed.

Lemma shr_shift z e n : 0 ≤ n →
  shr {| shr_m := z * 2 ^ n; shr_r := false; shr_s := false |} e n
  = ({| shr_m := z; shr_r := false; shr_s := false |}, e + n).
Proof.
  intros Hn. destruct n as [|n|]; [|simpl; by rewrite shr_pow2|lia].
  simpl. by rewrite Z.mul_1_r, Z.add_0_r.
Qed.

Lemma log2_shift z n : 0 < z → 0 ≤ n → Z.log2 (z * 2 ^ n) = Z.log2 z + n.
Proof. intros. rewrite <- Z.shiftl_mul_pow2 by done. by apply Z.log2_shiftl. Qed.

Lemma log2_whole z : 0 < z → whole_range z → 0 ≤ Z.log2 z ≤ 52.
Proof.
  intros Hz [_ H]. split; [apply Z.log2_nonneg|]. apply Z.log2_lt_pow2 in H; lia.
Qed.

(** A number that needs no more than 53 bits is not rounded. *)
Lemma round_whole z e : 0 < z → whole_range z → e ≤ Z.log2 z - 52 →
  binary_round_aux prec64 emax64 false (z * 2 ^ (- e)) e loc_Exact = whole z.
Proof.
  intros Hz Hr He. pose proof (log2_whole z Hz Hr) as Hl. set (t := Z.log2 z - 52) in *.
  assert (∀ e, e ≤ t → fexp prec64 emax64 (Zdigits2 (z * 2 ^ (- e)) + e) = t) as Hf.
  { intros e' He'. rewrite Zdigits2_log2 by (apply Z.mul_pos_pos; [lia|apply Z.pow_pos_nonneg; lia]).
    rewrite log2_shift by lia. unfold fexp, emin, prec64, emax64. lia. }
  assert (z * 2 ^ (- e) = z * 2 ^ (- t) * 2 ^ (t - e)) as Em.
  { rewrite <- Z.mul_assoc, <- Z.pow_add_r by lia. do 2 f_equal. lia. }
  unfold binary_round_aux, shr_fexp. rewrite Hf by lia. cbn [shr_record_of_loc].
  rewrite Em, shr_shift by lia. cbn [shr_m loc_of_shr_record round_nearest_even].
  replace (e + (t - e)) with t by lia. rewrite Hf, Z.sub_diag by lia. cbn [shr shr_m].
  assert (0 < z * 2 ^ (- t)) as Hp by (apply Z.mul_pos_pos; [lia|apply Z.pow_pos_nonneg; lia]).
  unfold whole. destruct z as [|p|p]; [lia| |lia].
  replace (52 - Z.log2 (Zpos p)) with (- t) by lia. destruct (Zpos p * 2 ^ (- t)) eqn:E; [lia| |lia].
  destruct (Z.leb_spec t (emax64 - prec64)); [done|]. unfold emax64, prec64 in *. lia.
Qed.

(** ** Arithmetic *)

Lemma whole_pos z : 0 < z → whole_range z →
  ∃ m, whole z = S754_finite false m (Z.log2 z - 52) ∧ Zpos m = z * 2 ^ (52 - Z.log2 z).
Proof.
  intros Hz Hr. pose proof (log2_whole z Hz Hr). destruct z as [|p|p]; [lia| |lia].
  eexists. split; [done|]. rewrite Z2Pos.id; [done|].
  apply Z.mul_pos_pos; [lia|apply Z.pow_pos_nonneg; lia].
Qed.

Lemma shl_align_fst m e e' : e' ≤ e → Zpos (fst (shl_align m e e')) = Zpos m * 2 ^ (e - e').
Proof.
  intros He. unfold shl_align. destruct (e' - e) as [|n|n] eqn:E; [| lia|]; simpl.
  - replace (e - e') with 0 by lia. lia.
  - replace (e - e') with (Zpos n) by lia. clear.
    revert m. induction n as [|n IH] using Pos.peano_ind; intros m; [simpl; lia|].
    rewrite Pos.iter_succ, Pos2Z.inj_succ, Z.pow_succ_r by lia.
    change (Zpos (Pos.iter xO m n)~0) with (2 * Zpos (Pos.iter xO m n)). rewrite IH. ring.
Qed.

Lemma round_scaled m z e : 0 < z → whole_range z → Zpos m = z * 2 ^ (- e) → e ≤ Z.log2 z - 52 →
  binary_round prec64 emax64 false m e = whole z.
Proof.
  intros Hz Hr Em He. pose proof (log2_whole z Hz Hr). unfold binary_round, shl_align.
  change (Zpos (digits2_pos m)) with (Zdigits2 (Zpos m)).
  rewrite Zdigits2_log2, Em, log2_shift by lia.
  assert (fexp prec64 emax64 (Z.log2 z + - e + 1 + e) - e = Z.log2 z - 52 - e) as ->
    by (unfold fexp, emin, prec64, emax64; lia).
  destruct (Z.log2 z - 52 - e) eqn:E; [| |lia]; rewrite Em; by apply round_whole.
Qed.

Lemma double_of_Z_whole z : whole_range z → double_of_Z z = whole z.
Proof.
  intros Hr. unfold double_of_Z. destruct z as [|p|p]; [done| |destruct Hr; lia]. cbn [binary_normalize].
  assert (0 < Zpos p) as Hz by lia. pose proof (log2_whole _ Hz Hr) as Hl.
  unfold binary_round. change (Zpos (digits2_pos p)) with (Zdigits2 (Zpos p)).
  rewrite Zdigits2_log2 by lia. unfold shl_align.
  assert (fexp prec64 emax64 (Z.log2 (Zpos p) + 1 + 0) - 0 = Z.log2 (Zpos p) - 52) as E
    by (unfold fexp, emin, prec64, emax64; lia).
  rewrite E. destruct (Z.log2 (Zpos p) - 52) as [|n|n] eqn:En; [| lia|].
  - rewrite <- (round_whole (Zpos p) 0) by (lia || done). by rewrite Z.opp_0, Z.mul_1_r.
  - rewrite Z.sub_0_r in E. rewrite E, <- (round_whole (Zpos p) (Zneg n)) by (lia || done). f_equal.
    pose proof (shl_align_fst p 0 (Zneg n) ltac:(lia)) as Es. unfold shl_align in Es. simpl in Es.
    by rewrite Es.
Qed.

Lemma double_mul_whole a b : whole_range a → whole_range b → whole_range (a * b) →
  double_mul (whole a) (whole b) = whole (a * b).
Proof.
  intros Ha Hb Hab. destruct (Z.eq_dec a 0) as [->|Ha0].
  { destruct b as [|p|p]; [done..|destruct Hb; lia]. }
  destruct (Z.eq_dec b 0) as [->|Hb0].
  { rewrite Z.mul_0_r. destruct a as [|p|p]; [done..|destruct Ha; lia]. }
  assert (0 < a ∧ 0 < b) as [Hpa Hpb] by (destruct Ha, Hb; lia).
  assert (0 < a * b) as Hpab by nia.
  destruct (whole_pos a Hpa Ha) as (ma & -> & Ea), (whole_pos b Hpb Hb) as (mb & -> & Eb).
  pose proof (log2_whole _ Hpa Ha). pose proof (log2_whole _ Hpb Hb). pose proof (log2_whole _ Hpab Hab).
  pose proof (Z.log2_mul_below a b ltac:(lia) ltac:(lia)).
  unfold double_mul, SFmul. cbn [xorb]. rewrite Pos2Z.inj_mul, Ea, Eb.
  rewrite <- (round_whole (a * b) (Z.log2 a - 52 + (Z.log2 b - 52))) by (lia || done). f_equal.
  replace (- (Z.log2 a - 52 + (Z.log2 b - 52))) with ((52 - Z.log2 a) + (52 - Z.log2 b)) by lia.
  rewrite Z.pow_add_r by lia. ring.
Qed.

Lemma double_add_whole a b : whole_range a → whole_range b → whole_range (a + b) →
  double_add (whole a) (whole b) = whole (a + b).
Proof.
  intros Ha Hb Hab. destruct (Z.eq_dec a 0) as [->|Ha0].
  { destruct b as [|p|p]; [done..|destruct Hb; lia]. }
  destruct (Z.eq_dec b 0) as [->|Hb0].
  { rewrite Z.add_0_r. destruct a as [|p|p]; [done..|destruct Ha; lia]. }
  assert (0 < a ∧ 0 < b) as [Hpa Hpb] by (destruct Ha, Hb; lia).
  destruct (whole_pos a Hpa Ha) as (ma & -> & Ea), (whole_pos b Hpb Hb) as (mb & -> & Eb).
  pose proof (log2_whole _ Hpa Ha). pose proof (log2_whole _ Hpb Hb).
  pose proof (Z.log2_le_mono a (a + b) ltac:(lia)). pose proof (Z.log2_le_mono b (a + b) ltac:(lia)).
  unfold double_add, SFadd. set (ez := Z.min _ _). cbn [cond_Zopp].
  rewrite !shl_align_fst, Ea, Eb by lia.
  assert (∀ x, 0 ≤ Z.log2 x → x * 2 ^ (52 - Z.log2 x) * 2 ^ (Z.log2 x - 52 - ez) = x * 2 ^ (- ez) ∨ Z.log2 x > 52
    ∨ Z.log2 x - 52 < ez) as Hx.
  { intros x Hx. destruct (Z.le_gt_cases (Z.log2 x) 52); [|lia].
    destruct (Z.le_gt_cases ez (Z.log2 x - 52)); [|lia]. left.
    rewrite <- Z.mul_assoc, <- Z.pow_add_r by lia. do 2 f_equal. lia. }
  destruct (Hx a) as [->|[?|?]]; [lia| |lia..]. destruct (Hx b) as [->|[?|?]]; [lia| |lia..].
  rewrite <- Z.mul_add_distr_r.
  assert (0 < (a + b) * 2 ^ (- ez)) as Hp by (apply Z.mul_pos_pos; [lia|apply Z.pow_pos_nonneg; lia]).
  destruct ((a + b) * 2 ^ (- ez)) as [|m|m] eqn:E; [lia| |lia]. cbn [binary_normalize].
  apply round_scaled; lia || done.
Qed.

(** ** Reading and writing *)

Lemma not_digit_minus s : Forall (λ c, is_digit c = true) s → ∀ s', s ≠ "-"%char :: s'.
Proof. intros H s' ->. by apply Forall_cons in H as [H _]. Qed.

Lemma from_chars_double_whole z : whole_range z → from_chars_double (to_string z) = Some (whole z).
Proof.
  intros Hr. assert (0 ≤ z) as Hz by (destruct Hr; lia).
  pose proof (to_string_digits z Hz) as Hd. pose proof (to_string_nonempty z) as Hne.
  assert (digits_value (to_string z) = z) as Hv.
  { rewrite to_string_nonneg by done. by apply dec_uint_spec. }
  revert Hd Hne Hv. generalize (to_string z). intros s Hd Hne Hv.
  pose proof (take_digits_app s [] Hd ltac:(done)) as Et. rewrite app_nil_r in Et.
  unfold from_chars_double.
  assert ((match s with "-"%char :: s' => (true, s') | _ => (false, s) end) = (false, s)) as ->.
  { destruct s as [|c s]; [done|]. pose proof (not_digit_minus _ Hd s) as Hc.
    by destruct c as [[] [] [] [] [] [] [] []]. }
  rewrite Et, drop_all, app_nil_r. rewrite bool_decide_false by done. cbn [andb length].
  rewrite Hv. change (read_exponent [] - Z.of_nat 0) with 0.
  assert (double_of_decimal false z 0 = whole z) as ->.
  { unfold double_of_decimal. destruct (Z.leb_spec z 0) as [Hle|Hlt].
    - assert (z = 0) as -> by lia. done.
    - change (0 <=? 0) with true. cbv iota. rewrite Z.pow_0_r, Z.mul_1_r, Z.mul_1_l. by apply double_of_Z_whole. }
  destruct z as [|p|p]; [done..|lia].
Qed.

Lemma div_half_even_exact n d : 0 < d → div_half_even (n * d) d = n.
Proof.
  intros Hd. unfold div_half_even. rewrite Z.div_mul, Z.mod_mul by lia.
  destruct (Z.compare_spec (2 * 0) d); lia.
Qed.

Lemma to_string_double_whole z : whole_range z → to_string_double (whole z) = to_string z ++ T ".000000".
Proof.
  intros Hr. assert (∀ n, n = z * 10 ^ 6 →
    to_string (n / 10 ^ 6) ++ T "." ++ replicate (6 - length (to_string (n mod 10 ^ 6))) "0"%char ++
    to_string (n mod 10 ^ 6) = to_string z ++ T ".000000") as Hfixed.
  { intros n ->. rewrite Z.div_mul, Z.mod_mul by lia. reflexivity. }
  destruct (Z.eq_dec z 0) as [->|Hne]; [by apply Hfixed|].
  assert (0 < z) as Hz by (destruct Hr; lia). destruct (whole_pos z Hz Hr) as (m & -> & Em).
  pose proof (log2_whole z Hz Hr) as Hl. unfold to_string_double. cbn [app]. apply Hfixed.
  destruct (Z.leb_spec 0 (Z.log2 z - 52)) as [H0|H0]; rewrite Em.
  - assert (Z.log2 z = 52) as -> by lia. change (2 ^ (52 - 52)) with 1. lia.
  - replace (- (Z.log2 z - 52)) with (52 - Z.log2 z) by lia.
    replace (z * 2 ^ (52 - Z.log2 z) * 10 ^ 6) with (z * 10 ^ 6 * 2 ^ (52 - Z.log2 z)) by ring.
    apply div_half_even_exact, Z.pow_pos_nonneg; lia.
Qed.

(** ** [getPartPrice] *)

Lemma getPartPrice_whole price quantity :
  whole_range price → whole_range quantity → whole_range (price * quantity) →
  getPartPrice (to_string price) (to_string quantity) = Some (whole (price * quantity)).
Proof.
  intros Hp Hq Hpq. unfold getPartPrice. rewrite from_chars_double_whole by done.
  pose proof (from_chars_uint_to_string 64 quantity [] ltac:(destruct Hq; lia) ltac:(done)) as E.
  rewrite app_nil_r in E. rewrite E. by rewrite double_of_Z_whole, double_mul_whole.
Qed.
