(* ===== verification/RouteServices.v ===== *)
(** Server/include/WebRoutes/Services.h: service requests, the parts used in
    them, and the views of them. *)

From S2P Require Import Prelude CharConv Query Response Database Http Sql Auth Routes Double.

Definition serviceRelations : list (text * text) :=
  [(T "notes", T "NOTES"); (T "hours", T "LABOUR")].

Definition unauthorisedKeys : list (text * nat) :=
  [(T "service", 0); (T "vehicle", 1); (T "owner", 2); (T "request", 3); (T "requested", 4)]%nat.
Definition openKeys : list (text * nat) :=
  unauthorisedKeys ++
  [(T "labour", 5); (T "notes", 6); (T "authoriser", 7); (T "quote", 8)]%nat.
Definition closedKeys : list (text * nat) :=
  openKeys ++ [(T "completed", 9); (T "completer", 10); (T "paid", 11)]%nat.
Definition entryPartKeys : list (text * nat) :=
  [(T "entry", 0); (T "name", 1); (T "ID", 2); (T "quantity", 3); (T "price", 4)]%nat.
Definition pricedPartKeys : list (text * nat) :=
  [(T "name", 0); (T "ID", 1); (T "quantity", 2); (T "price", 3)]%nat.
Definition activeKeys : list (text * nat) :=
  [(T "labour", 0); (T "notes", 1); (T "authoriser", 2); (T "quote", 3)]%nat.
Definition completionKeys : list (text * nat) :=
  [(T "completer", 0); (T "completed", 1); (T "paid", 2)]%nat.
Definition warrantiedKeys : list (text * nat) :=
  [(T "name", 0); (T "ID", 1); (T "quantity", 2)]%nat.
Definition entryKeys : list (text * nat) :=
  [(T "entry", 0); (T "serviceID", 1); (T "partID", 2); (T "quantity", 3)]%nat.

Section routeServices.
Context `{Database, UnorderedMap}.

(** ** Requests and their life cycle *)

(** Whether a session below manager may not ask for a service of the vehicle;
    [Some code] when the route answers [code] and returns. *)
Definition requestRefused (req : HttpRequest) (b : queryBase) : M (option text) :=
  sessions ← getSessions;
  if negb (verify sessions req manager) then
    VID ← lift (getElement b (T "VID"));
    '(status, result) ← dbQuery sql_requestOwner [(T ":VID", VID)];
    if negb (isOK status) then mret (Some INTERNALERROR) else
    owner ← lift (get result 0 0);
    mret (if negb (isSessionUserFromID sessions req owner) then Some FORBIDDEN else None)
  else mret None.

Definition createRequest (req : HttpRequest) (b q : queryBase) : M unit :=
  if negb (containsAll b [T "VID"; T "request"] false) then reply BADREQUEST else
  refused ← requestRefused req b;
  match refused with
  | Some code => reply code
  | None =>
  VID ← lift (getElement b (T "VID"));
  request ← lift (getElement b (T "request"));
  '(sStatus, _) ← dbQuery sql_createRequest [(T ":ID", VID); (T ":REQ", request)];
  if negb (isOK sStatus) then reply INTERNALERROR else
  '(status, _) ← dbQuery sql_createUnauthorised [];
  _ ← (if negb (isOK status) then writeStatus INTERNALERROR
       else logSession req (mret (T "requested a new service.")));
  end_
  end.

Definition authoriseRequest (req : HttpRequest) (b q : queryBase) : M unit :=
  if negb (hasElement b (T "ID") false) && negb (hasElement b (T "quote") false)
  then reply BADREQUEST else
  sessions ← getSessions;
  if negb (verify sessions req manager) then reply FORBIDDEN else
  ID ← lift (getElement b (T "ID"));
  '(sStatus, sResult) ← dbQuery sql_findUnauthorised [(T ":ID", ID)];
  if negb (isOK sStatus) then reply INTERNALERROR else
  n ← lift (rowCount sResult);
  if negb (bool_decide (n = 1%nat)) then reply NOTFOUND else
  ID ← lift (getElement b (T "ID"));
  '(dStatus, _) ← dbQuery sql_deleteUnauthorised [(T ":ID", ID)];
  if negb (isOK dStatus) then reply INTERNALERROR else
  user ← lift (value (getSessionUser sessions req));
  let user := to_string user in
  ID ← lift (getElement b (T "ID"));
  notes ← elementOr b (T "notes") [];
  quote ← lift (getElement b (T "quote"));
  '(status, _) ← dbQuery sql_createActive
    [(T ":ID", ID); (T ":NOT", notes); (T ":UID", user); (T ":QOT", quote)];
  if negb (isOK status) then reply INTERNALERROR else
  '(oStatus, _) ← dbQuery sql_createOpen [];
  _ ← (if negb (isOK oStatus) then writeStatus INTERNALERROR
       else logSession req (mret (T "authorised a service as " ++ quoted user ++ T ".")));
  end_.

Definition updateService (req : HttpRequest) (b q : queryBase) : M unit :=
  if negb (hasElement b (T "ID") false) then reply BADREQUEST else
  sessions ← getSessions;
  if negb (verify sessions req employee) then reply FORBIDDEN else
  updateStatement ← lift (generateUpdateStatement b (iteration serviceRelations));
  if bool_decide (updateStatement = []) then reply OK else
  ID ← lift (getElement b (T "ID"));
  '(status, _) ← dbQuery (sql_updateService updateStatement) [(T ":ID", ID)];
  _ ← (if negb (isOK status) then writeStatus INTERNALERROR
       else logSession req (mret (T "updated a service.")));
  end_.

Definition closeService (req : HttpRequest) (b q : queryBase) : M unit :=
  if negb (hasElement b (T "ID") false) then reply BADREQUEST else
  sessions ← getSessions;
  if negb (verify sessions req manager) then reply FORBIDDEN else
  user ← lift (value (getSessionUser sessions req));
  ID ← lift (getElement b (T "ID"));
  paid ← lift (getElement b (T "paid"));
  '(sStatus, _) ← dbQuery sql_createClosed
    [(T ":ID", ID); (T ":USR", to_string user); (T ":PAD", paid)];
  if negb (isOK sStatus) then reply INTERNALERROR else
  ID ← lift (getElement b (T "ID"));
  '(dStatus, _) ← dbQuery sql_deleteOpen [(T ":ID", ID)];
  if negb (isOK dStatus) then reply INTERNALERROR else
  _ ← logSession req (mret (T "closed a service."));
  end_.

Definition reopenService (req : HttpRequest) (b q : queryBase) : M unit :=
  if negb (hasElement b (T "ID") false) then reply BADREQUEST else
  sessions ← getSessions;
  if negb (verify sessions req manager) then reply FORBIDDEN else
  _ ← lift (value (getSessionUser sessions req));
  ID ← lift (getElement b (T "ID"));
  '(dStatus, _) ← dbQuery sql_deleteClosed [(T ":ID", ID)];
  if negb (isOK dStatus) then reply INTERNALERROR else
  ID ← lift (getElement b (T "ID"));
  '(sStatus, _) ← dbQuery sql_reopen [(T ":ID", ID)];
  if negb (isOK sStatus) then reply INTERNALERROR else
  _ ← logSession req (mret (T "reopened a service."));
  end_.

(** ** Parts of a service *)

Definition addPartToService (req : HttpRequest) (b q : queryBase) : M unit :=
  if negb (containsAll b [T "serviceID"; T "partID"] false) then reply BADREQUEST else
  sessions ← getSessions;
  if negb (verify sessions req employee) then reply FORBIDDEN else
  badQuantity ← (if hasElement b (T "quantity") false then
                   val ← lift (getElement b (T "quantity"));
                   mret (match from_chars_uint 64 val with
                         | None => true
                         | Some quantity => (quantity <=? 0)%Z
                         end)
                 else mret false);
  if (badQuantity : bool) then reply BADREQUEST else
  partID ← lift (getElement b (T "partID"));
  serviceID ← lift (getElement b (T "serviceID"));
  '(searchStatus, searchResult) ← dbQuery sql_findServicePart
    [(T ":PRT", partID); (T ":SID", serviceID)];
  if negb (isOK searchStatus) then reply INTERNALERROR else
  none ← noRows searchResult;
  if negb none then
    entry ← lift (get searchResult 0 0);
    quantity ← elementOr b (T "quantity") (T "1");
    '(status, _) ← dbQuery sql_increaseQuantity [(T ":ID", entry); (T ":QNT", quantity)];
    _ ← (if negb (isOK status) then writeStatus INTERNALERROR
         else logSession req (mret (T "added existing parts to a service.")));
    end_
  else
    partID ← lift (getElement b (T "partID"));
    quantity ← elementOr b (T "quantity") (T "1");
    serviceID ← lift (getElement b (T "serviceID"));
    '(status, _) ← dbQuery sql_addServicePart
      [(T ":PRT", partID); (T ":QNT", quantity); (T ":SRV", serviceID)];
    if negb (isOK status) then reply INTERNALERROR else
    _ ← logSession req (mret (T "added new parts to a service."));
    end_.

Definition removePartFromService (req : HttpRequest) (b q : queryBase) : M unit :=
  if negb (hasElement b (T "entry") false) then reply BADREQUEST else
  sessions ← getSessions;
  if negb (verify sessions req employee) then reply FORBIDDEN else
  entry ← lift (getElement b (T "entry"));
  '(searchStatus, searchResult) ← dbQuery sql_entryQuantity [(T ":ID", entry)];
  if negb (isOK searchStatus) then reply INTERNALERROR else
  none ← noRows searchResult;
  if (none : bool) then reply NOTFOUND else
  stored ← lift (get searchResult 0 0);
  match from_chars_uint 64 stored with
  | None => reply INTERNALERROR
  | Some currentQuantity =>
      removed ← (if hasElement b (T "quantity") false
                 then val ← lift (getElement b (T "quantity")); mret (from_chars_uint 64 val)
                 else mret (Some 1%Z));
      match removed with
      | None => reply BADREQUEST
      | Some removedQuantity =>
          if (removedQuantity <=? 0)%Z then reply BADREQUEST else
          if (currentQuantity <=? removedQuantity)%Z then
            entry ← lift (getElement b (T "entry"));
            '(status, _) ← dbQuery sql_deleteEntry [(T ":ID", entry)];
            _ ← (if negb (isOK status) then writeStatus INTERNALERROR
                 else logSession req (mret (T "removed a set of existing parts from a service.")));
            end_
          else
            quantity ← elementOr b (T "quantity") (T "1");
            entry ← lift (getElement b (T "entry"));
            '(status, _) ← dbQuery sql_decreaseQuantity [(T ":QNT", quantity); (T ":ID", entry)];
            _ ← (if negb (isOK status) then writeStatus INTERNALERROR
                 else logSession req (mret (T "removed some existing parts from a service.")));
            end_
      end
  end.
End routeServices.
