(* ===== verification/RouteServiceViews.v ===== *)
(** Server/include/WebRoutes/Services.h, the views: searching services, showing
    one service, showing one used part. *)

From S2P Require Import Prelude CharConv Query Response Database Http Sql Auth Routes Double RouteServices.

Section routeServiceViews.
Context `{Database}.

(** [!UID.has_value() || std::to_string(UID.value()) != other]. *)
Definition notTheUser (UID : option Z) (other : M text) : M bool :=
  match UID with
  | None => mret true
  | Some u => v ← other; mret (negb (text_eqb (to_string u) v))
  end.

(** The loop over the parts of a service: an object per part under "parts",
    and the sum of their prices, which is added as "total" after the loop.
    [None]: a price could not be read and the request has been answered. *)
Definition addParts (temp : responseWrapper) (r : SQLResult) (keys : list (text * nat))
    (priceCol quantityCol : nat) : M (option responseWrapper) :=
  n ← lift (rowCount r);
  sum ← forRowsM (seq 0 n) (λ i acc,
    let '(temp, totalPrice) := acc in
    temp2 ← lift (addCells emptyWrapper r i keys);
    price ← lift (get r i priceCol);
    quantity ← lift (get r i quantityCol);
    match getPartPrice price quantity with
    | None => _ ← reply INTERNALERROR; mret None
    | Some price =>
        temp ← lift (addObject temp (T "parts") temp2 true);
        mret (Some (temp, double_add totalPrice price))
    end) (temp, double_zero);
  match sum with
  | None => mret None
  | Some (temp, totalPrice) =>
      temp ← lift (add temp (T "total") (to_string_double totalPrice) false);
      mret (Some temp)
  end.

(** One of the three lists of [searchServices]; [None] when answered. *)
Definition searchUnauthorised (q : queryBase) (userID : params) (response : responseWrapper)
    : M (option responseWrapper) :=
  if hasElement q (T "unauthorised") true then
    '(status, result) ← dbQuery (sql_searchUnauthorised (hasElement q (T "UID") false)) userID;
    if negb (isOK status) then _ ← reply INTERNALERROR; mret None else
    response ← lift (addRows response (T "Unauthorised") result unauthorisedKeys true);
    mret (Some response)
  else mret (Some response).

Definition searchOpen (q : queryBase) (userID : params) (response : responseWrapper)
    : M (option responseWrapper) :=
  if hasElement q (T "open") true then
    '(status, result) ← dbQuery (sql_searchOpen (hasElement q (T "UID") false)) userID;
    if negb (isOK status) then _ ← reply INTERNALERROR; mret None else
    n ← lift (rowCount result);
    forRowsM (seq 0 n) (λ i response,
      temp ← lift (addCells emptyWrapper result i openKeys);
      service ← lift (get result i 9);
      '(partStatus, partResult) ← dbQuery sql_openParts [(T ":ID", service)];
      if negb (isOK partStatus) then _ ← reply INTERNALERROR; mret None else
      temp ← addParts temp partResult entryPartKeys 4 3;
      match temp with
      | None => mret None
      | Some temp =>
          response ← lift (addObject response (T "Open") temp true);
          mret (Some response)
      end) response
  else mret (Some response).

Definition searchClosed (q : queryBase) (userID : params) (response : responseWrapper)
    : M (option responseWrapper) :=
  if hasElement q (T "closed") true then
    '(status, result) ← dbQuery (sql_searchClosed (hasElement q (T "UID") false)) userID;
    if negb (isOK status) then _ ← reply INTERNALERROR; mret None else
    n ← lift (rowCount result);
    forRowsM (seq 0 n) (λ i response,
      temp ← lift (addCells emptyWrapper result i closedKeys);
      service ← lift (get result i 0);
      '(partStatus, partResult) ← dbQuery sql_closedParts [(T ":ID", service)];
      if negb (isOK partStatus) then _ ← reply INTERNALERROR; mret None else
      temp ← addParts temp partResult pricedPartKeys 3 2;
      match temp with
      | None => mret None
      | Some temp =>
          response ← lift (addObject response (T "Closed") temp true);
          mret (Some response)
      end) response
  else mret (Some response).

(** The access rule of [searchServices] and [selectServicePart]: a session
    below employee must name itself in "UID". *)
Definition viewRefused (req : HttpRequest) (q : queryBase) : M bool :=
  sessions ← getSessions;
  if negb (verify sessions req employee)
  then notTheUser (getSessionUser sessions req) (lift (getElement q (T "UID")))
  else mret false.

Definition searchServices (req : HttpRequest) (b q : queryBase) : M unit :=
  if negb (containsAny q [T "unauthorised"; T "open"; T "closed"] true) then reply BADREQUEST else
  refused ← viewRefused req q;
  if (refused : bool) then reply FORBIDDEN else
  if negb (hasSession req) then reply UNAUTHORISED else
  userID ← (if hasElement q (T "UID") false
            then UID ← lift (getElement q (T "UID")); mret [(T ":ID", UID)]
            else mret []);
  response ← searchUnauthorised q userID emptyWrapper;
  match response with
  | None => mret tt
  | Some response =>
      response ← searchOpen q userID response;
      match response with
      | None => mret tt
      | Some response =>
          response ← searchClosed q userID response;
          match response with
          | None => mret tt
          | Some response => tryEndData response
          end
      end
  end.

(** ** One service *)

(** The owner check for sessions below employee. *)
Definition serviceRefused (req : HttpRequest) (q : queryBase) : M (option text) :=
  sessions ← getSessions;
  if negb (verify sessions req employee) then
    ID ← lift (getElement q (T "ID"));
    '(status, result) ← dbQuery sql_serviceOwner [(T ":ID", ID)];
    failed ← failedOrEmpty status result;
    if (failed : bool) then mret (Some INTERNALERROR) else
    refused ← notTheUser (getSessionUser sessions req) (lift (get result 0 0));
    mret (if (refused : bool) then Some FORBIDDEN else None)
  else mret None.

(** The active data and the parts; [None] when answered. *)
Definition selectActive (q : queryBase) (response : responseWrapper) : M (option responseWrapper) :=
  ID ← lift (getElement q (T "ID"));
  '(status, result) ← dbQuery sql_selectActive [(T ":ID", ID)];
  failed ← failedOrEmpty status result;
  if (failed : bool) then _ ← reply INTERNALERROR; mret None else
  response ← lift (addCells response result 0 activeKeys);
  ID ← lift (getElement q (T "ID"));
  '(status, result) ← dbQuery sql_selectParts [(T ":ID", ID)];
  if negb (isOK status) then _ ← reply INTERNALERROR; mret None else
  addParts response result pricedPartKeys 3 2.

(** The completion and the warrantied parts of a closed service. *)
Definition selectClosed (q : queryBase) (response : responseWrapper) : M unit :=
  ID ← lift (getElement q (T "ID"));
  '(status, result) ← dbQuery sql_selectClosed [(T ":ID", ID)];
  failed ← failedOrEmpty status result;
  if (failed : bool) then reply INTERNALERROR else
  response ← lift (addCells response result 0 completionKeys);
  completed ← lift (get result 0 1);
  '(lds, ldr) ← dbQuery sql_warrantyDate [(T ":DAT", completed)];
  if negb (isOK lds) then reply INTERNALERROR else
  ID ← lift (getElement q (T "ID"));
  low ← lift (get ldr 0 0);
  high ← lift (get result 0 1);
  '(partStatus, partResult) ← dbQuery sql_warrantiedParts
    [(T ":ID", ID); (T ":LOWDATE", low); (T ":HIGHDATE", high)];
  if negb (isOK partStatus) then reply INTERNALERROR else
  response ← lift (addRows response (T "warrantied") partResult warrantiedKeys true);
  tryEndData response.

Definition selectService (req : HttpRequest) (b q : queryBase) : M unit :=
  if negb (hasElement q (T "ID") false) then reply BADREQUEST else
  if negb (hasSession req) then reply UNAUTHORISED else
  refused ← serviceRefused req q;
  match refused with
  | Some code => reply code
  | None =>
  ID ← lift (getElement q (T "ID"));
  '(status, result) ← dbQuery sql_selectShared [(T ":ID", ID)];
  if negb (isOK status) then reply INTERNALERROR else
  none ← noRows result;
  if (none : bool) then reply NOTFOUND else
  response ← lift (addCells emptyWrapper result 0 unauthorisedKeys);
  ID ← lift (getElement q (T "ID"));
  '(status, result) ← dbQuery sql_selectUnauthorised [(T ":ID", ID)];
  if negb (isOK status) then reply INTERNALERROR else
  none ← noRows result;
  if negb none then
    response ← lift (add response (T "status") (T "unauthorised") false);
    tryEndData response
  else
  response ← selectActive q response;
  match response with
  | None => mret tt
  | Some response =>
      ID ← lift (getElement q (T "ID"));
      '(status, result) ← dbQuery sql_selectOpen [(T ":ID", ID)];
      if negb (isOK status) then reply INTERNALERROR else
      none ← noRows result;
      if negb none then
        response ← lift (add response (T "status") (T "authorised") false);
        tryEndData response
      else selectClosed q response
  end
  end.

Definition selectServicePart (req : HttpRequest) (b q : queryBase) : M unit :=
  if negb (hasElement q (T "entry") false) then reply BADREQUEST else
  refused ← viewRefused req q;
  if (refused : bool) then reply FORBIDDEN else
  if negb (hasSession req) then reply UNAUTHORISED else
  entry ← lift (getElement q (T "entry"));
  '(status, result) ← dbQuery sql_selectEntry [(T ":ID", entry)];
  if negb (isOK status) then reply INTERNALERROR else
  none ← noRows result;
  if (none : bool) then reply NOTFOUND else
  response ← lift (addCells emptyWrapper result 0 entryKeys);
  tryEndData response.
End routeServiceViews.
