(* ===== verification/Policy.v ===== *)
(** The access table of the routes that work on data: which session level each
    one needs, which statements it may issue, and what can make it crash.
    [net] ties these routes to their addresses; what the table promises is
    proved, route by route, in the [..Facts] files. *)

From S2P Require Import Prelude CharConv Query Response Database Http Sql Auth Routes RouteLogic.
From S2P Require Import RouteUser RouteParts RouteVehicle RouteServices RouteServiceViews.

Inductive route :=
  | R_createUser | R_getLocalUserData | R_searchUsers | R_selectUser | R_deleteUser | R_updateUser
  | R_createSupplier | R_updateSupplier | R_searchSuppliers | R_selectSupplier
  | R_createPartGroup | R_updatePartGroup | R_searchPartGroups | R_selectPartGroup
  | R_createPart | R_updatePart | R_searchParts | R_selectPart
  | R_createVehicle | R_updateVehicle | R_deleteVehicle | R_selectVehicle
  | R_createRequest | R_authoriseRequest | R_updateService | R_closeService | R_reopenService
  | R_addPartToService | R_removePartFromService
  | R_searchServices | R_selectService | R_selectServicePart.

Definition handler `{Database, UnorderedMap} (r : route)
    : HttpRequest → queryBase → queryBase → M unit :=
  match r with
  | R_createUser => createUser
  | R_getLocalUserData => getLocalUserData
  | R_searchUsers => searchUsers
  | R_selectUser => selectUser
  | R_deleteUser => deleteUser
  | R_updateUser => updateUser
  | R_createSupplier => createSupplier
  | R_updateSupplier => updateSupplier
  | R_searchSuppliers => searchSuppliers
  | R_selectSupplier => selectSupplier
  | R_createPartGroup => createPartGroup
  | R_updatePartGroup => updatePartGroup
  | R_searchPartGroups => searchPartGroups
  | R_selectPartGroup => selectPartGroup
  | R_createPart => createPart
  | R_updatePart => updatePart
  | R_searchParts => searchParts
  | R_selectPart => selectPart
  | R_createVehicle => createVehicle
  | R_updateVehicle => updateVehicle
  | R_deleteVehicle => deleteVehicle
  | R_selectVehicle => selectVehicle
  | R_createRequest => createRequest
  | R_authoriseRequest => authoriseRequest
  | R_updateService => updateService
  | R_closeService => closeService
  | R_reopenService => reopenService
  | R_addPartToService => addPartToService
  | R_removePartFromService => removePartFromService
  | R_searchServices => searchServices
  | R_selectService => selectService
  | R_selectServicePart => selectServicePart
  end.

Definition at_level (l : Z) (sqls : list text) : policy :=
  {| level := Some l; fixed := sqls; update := None |}.
(** The session's level does not decide: the route compares users. *)
Definition by_owner (sqls : list text) : policy :=
  {| level := None; fixed := sqls; update := None |}.
Definition building (p : policy) (f : text → text) (relations : list (text * text)) (key : text) : policy :=
  {| level := level p; fixed := fixed p; update := Some (f, relations, key) |}.

Definition policy_of (r : route) : policy :=
  match r with
  | R_createUser => at_level employee [sql_createUser]
  | R_getLocalUserData => by_owner [sql_localUser; sql_localVehicles]
  | R_searchUsers => at_level employee [sql_searchUsers; sql_searchUserVehicles]
  | R_selectUser => at_level employee [sql_selectUser; sql_selectUserVehicles]
  | R_deleteUser => at_level employee [sql_userPermissions; sql_deleteUser]
  | R_updateUser =>
      building (at_level employee [sql_userPermissions]) sql_updateUser userRelations (T ":ID")
  | R_createSupplier => at_level manager [sql_createSupplier]
  | R_updateSupplier => building (at_level manager []) sql_updateSupplier supplierRelations (T ":NAM")
  | R_searchSuppliers => at_level employee [sql_searchSuppliers]
  | R_selectSupplier => at_level employee [sql_selectSupplier]
  | R_createPartGroup => at_level manager [sql_createPartGroup]
  | R_updatePartGroup => at_level manager [sql_updatePartGroup]
  | R_searchPartGroups => at_level employee [sql_searchPartGroups]
  | R_selectPartGroup => at_level employee [sql_selectPartGroup]
  | R_createPart => at_level manager [sql_groupByName; sql_createPart]
  | R_updatePart => building (at_level manager []) sql_updatePart partRelations (T ":ID")
  | R_searchParts => at_level employee
      [sql_searchParts true true; sql_searchParts true false; sql_searchParts false true]
  | R_selectPart => at_level employee [sql_selectPart]
  | R_createVehicle => by_owner [sql_addSharedVehicle; sql_createVehicle]
  | R_updateVehicle =>
      building (by_owner [sql_vehicleOwner]) sql_updateVehicle vehicleRelations (T ":ID")
  | R_deleteVehicle => by_owner [sql_vehicleOwner; sql_deleteVehicle]
  | R_selectVehicle => by_owner [sql_vehicleOwner; sql_selectVehicle]
  | R_createRequest => by_owner [sql_requestOwner; sql_createRequest; sql_createUnauthorised]
  | R_authoriseRequest => at_level manager
      [sql_findUnauthorised; sql_deleteUnauthorised; sql_createActive; sql_createOpen]
  | R_updateService =>
      building (at_level employee []) sql_updateService serviceRelations (T ":ID")
  | R_closeService => at_level manager [sql_createClosed; sql_deleteOpen]
  | R_reopenService => at_level manager [sql_deleteClosed; sql_reopen]
  | R_addPartToService => at_level employee
      [sql_findServicePart; sql_increaseQuantity; sql_addServicePart]
  | R_removePartFromService => at_level employee
      [sql_entryQuantity; sql_deleteEntry; sql_decreaseQuantity]
  | R_searchServices => by_owner
      [sql_searchUnauthorised true; sql_searchUnauthorised false; sql_searchOpen true;
       sql_searchOpen false; sql_searchClosed true; sql_searchClosed false;
       sql_openParts; sql_closedParts]
  | R_selectService => by_owner
      [sql_serviceOwner; sql_selectShared; sql_selectUnauthorised; sql_selectActive; sql_selectParts;
       sql_selectOpen; sql_selectClosed; sql_warrantyDate; sql_warrantiedParts]
  | R_selectServicePart => by_owner [sql_selectEntry]
  end.

(** The faults a route can end in: a row or a form field it reads without
    having checked that it is there. *)
Definition fault_of (r : route) : option fault :=
  match r with
  | R_getLocalUserData | R_updateVehicle | R_deleteVehicle | R_selectVehicle | R_createRequest =>
      Some UndefinedBehaviour
  | R_authoriseRequest | R_closeService | R_searchServices | R_selectServicePart => Some OutOfRange
  | _ => None
  end.

Definition contract_of `{UnorderedMap} (r : route) (s : gmap Z session) (req : HttpRequest)
    (b : queryBase) : contract :=
  route_contract (allowed (policy_of r) s req b) (λ e, fault_of r = Some e) anything.

(** The owner's identifier is bound exactly when the statement has it. *)
Definition narrowing (q : queryBase) (userID : params) : Prop :=
  match userID with
  | [] => hasElement q (T "UID") false = false
  | [(k, _)] => k = T ":ID" ∧ hasElement q (T "UID") false = true
  | _ => False
  end.

Ltac narrowed :=
  lazymatch goal with
  | HN : narrowing _ ?u |- _ =>
      destruct u as [|[? ?] [|? ?]]; simpl in HN; [|destruct HN as [-> HN]|destruct HN]
  end.
