(* ===== verification/RouteLax.v ===== *)
(** What every data route does whatever the database answers, even if the
    results have no sensible shape: it issues only the statements of its entry
    in [Policy], at the level the entry asks for, it leaves the session store
    alone, and if it returns at all it has ended the response exactly once. *)

From S2P Require Import Prelude CharConv Query Response Database Http Sql Auth Routes RouteLogic.
From S2P Require Import Double RouteUser RouteParts RouteVehicle RouteServices RouteServiceViews Policy.

Definition any_fault (_ : fault) : Prop := True.
Definition any_reply (_ : text) (_ : params) (_ : SQLCode) (_ : SQLResult) : Prop := True.

Definition lax_contract (may : text → params → Prop) : contract :=
  {| c_fault := any_fault; c_event := on_query may; c_reply := any_reply |}.

Lemma lax_answers `{Database} may : answers (lax_contract may).
Proof. done. Qed.

Definition lax_of `{UnorderedMap} (r : route) (s : gmap Z session) (req : HttpRequest) (b : queryBase)
    : contract := lax_contract (allowed (policy_of r) s req b).

Definition unit_or_done {A} (o : option A) (n : nat) : Prop := ends_if_none (λ _, True) o n.

Ltac lax_lift :=
  lazymatch goal with
  | |- wp _ _ (lift (generateUpdateStatement _ _)) _ =>
      eapply wp_is_ok; [apply generateUpdateStatement_run|]
  | |- wp _ _ (lift (getElement _ _)) _ => apply wp_getElement_fault; [exact I|intros ? ?]
  | |- _ => apply wp_fault; [intros ? ?; exact I|intros ? ?]
  end.

Ltac lax_hook := fail.

Ltac lax_step :=
  first [lax_hook | lazymatch goal with
  | |- wp _ _ (mbind _ _) _ => apply wp_bind
  | |- wp _ _ (mret _) _ => apply wp_ret
  | |- wp _ _ (lift _) _ => lax_lift
  | |- wp _ _ (dbQuery _ _) _ => known_flag; apply wp_dbQuery;
      [intros ?; try solve [issue]|intros ? ? _; split; [try solve [issue]|]]
  | |- wp _ _ getSessions _ => apply wp_getSessions
  | |- wp _ _ (emit _) _ => apply wp_emit; [exact I|]; cbn [ends_response]
  | |- wp _ _ (if ?b then _ else _) _ =>
      let E := fresh "E" in destruct b eqn:E; try discriminate; known_fields
  | |- wp _ _ (match ?x with _ => _ end) _ => let E := fresh "E" in destruct x eqn:E; known_fields
  | |- wp _ _ (forRowsM _ _ _) _ =>
      apply (wp_forRowsM _ _ _ (λ _, True));
        [done|intros ? ? ? ?|intros [?|] ? Hn; cbn in Hn; [destruct Hn as [-> ?]|subst]]
  | |- wp _ _ ?m _ => let h := head_of m in unfold h
  end]; cbv beta iota.

Ltac lax :=
  lazymatch goal with |- wp _ _ ?m _ => let h := head_of m in unfold h end;
  repeat lax_step; first [reflexivity | by split | idtac].

Ltac lax_leave := intros HQ; lax; apply HQ; first [reflexivity | by split].

(** ** The lists of [searchServices] *)

Section lists.
Context `{Database, UnorderedMap}.
Context (s : gmap Z session) (req : HttpRequest) (b q : queryBase).
Context (Q : option responseWrapper → nat → Prop).

Lemma searchUnauthorised_lax userID response :
  narrowing q userID → (∀ o n, unit_or_done o n → Q o n) →
  wp (lax_of R_searchServices s req b) s (searchUnauthorised q userID response) Q.
Proof. intros HN. narrowed; lax_leave. Qed.

Lemma searchOpen_lax userID response :
  narrowing q userID → (∀ o n, unit_or_done o n → Q o n) →
  wp (lax_of R_searchServices s req b) s (searchOpen q userID response) Q.
Proof. intros HN. narrowed; lax_leave. Qed.

Lemma searchClosed_lax userID response :
  narrowing q userID → (∀ o n, unit_or_done o n → Q o n) →
  wp (lax_of R_searchServices s req b) s (searchClosed q userID response) Q.
Proof. intros HN. narrowed; lax_leave. Qed.
End lists.

Ltac lax_hook ::=
  lazymatch goal with
  | |- wp _ _ (searchUnauthorised _ _ _) _ => apply searchUnauthorised_lax
  | |- wp _ _ (searchOpen _ _ _) _ => apply searchOpen_lax
  | |- wp _ _ (searchClosed _ _ _) _ => apply searchClosed_lax
  end; [by try split|intros [?|] ? Hn; cbn in Hn; [destruct Hn as [-> ?]|subst]].

(** ** The routes *)

Lemma handler_lax `{Database, UnorderedMap} s req b q r :
  wp (lax_of r s req b) s (handler r req b q) ends_once.
Proof. destruct r; cbn [handler]; lax. Qed.
