(* ===== verification/RouteFacts.v ===== *)
(** Every data route keeps to its entry in the access table of [Policy]: run
    symbolically, it issues only the statements it is entitled to, fails only as
    the table says, and otherwise ends the response exactly once. *)

From S2P Require Import Prelude CharConv Query Response ResponseSpec Database Http Sql Auth Routes RouteLogic.
From S2P Require Import Double RouteUser RouteParts RouteVehicle RouteServices RouteServiceViews Policy.

Section parts.
Context `{Database} {C : contract} {s : gmap Z session}.

(** The loop over the parts of a service. *)
Lemma addParts_wp temp r keys pc qc cols rows (Q : option responseWrapper → nat → Prop) :
  (∀ ev, (∀ SQL ps code r, ev ≠ EvQuery SQL ps code r) → (∀ SQL ps e, ev ≠ EvLost SQL ps e) → c_event C ev) →
  kinded temp → shape cols rows r → keys_ok cols keys = true → (pc < cols)%nat → (qc < cols)%nat →
  (∀ o n, ends_if_none kinded o n → Q o n) →
  wp C s (addParts temp r keys pc qc) Q.
Proof.
  intros Hev Ht Hs Hk Hp Hq HQ. unfold addParts. apply wp_bind.
  eapply wp_is_ok; [by eapply shape_rowCount|]. apply wp_bind.
  apply (wp_forRowsM _ _ _ (λ acc, kinded acc.1)); [done| |].
  - intros i [w total] Hi%elem_of_seq Hw. apply wp_bind.
    eapply wp_spec; [eapply spec_addCells; [apply kinded_empty|done|lia|done]|]. intros temp2 Ht2.
    apply wp_bind. eapply wp_is_ok; [eapply shape_get; [done|lia|done]|].
    apply wp_bind. eapply wp_is_ok; [eapply shape_get; [done|lia|done]|].
    destruct (getPartPrice _ _) as [price|].
    + apply wp_bind. eapply wp_spec; [by apply spec_addObject|]. intros w' Hw'. by apply wp_ret.
    + apply wp_bind. unfold reply. apply wp_bind.
      apply wp_emit; [by apply Hev|]. apply wp_emit; [by apply Hev|]. by apply wp_ret.
  - intros [[w total]|] n Hn; simpl in Hn.
    + destruct Hn as [-> Hw]. apply wp_bind. eapply wp_spec; [by apply spec_add|].
      intros w' Hw'. apply wp_ret, HQ. by split.
    + subst. apply wp_ret, HQ. done.
Qed.
End parts.

Ltac parts_hook :=
  lazymatch goal with
  | |- wp _ _ (addParts _ _ _ _ _) _ =>
      eapply addParts_wp;
        [ intros [] ? ?; try exact I; exfalso; naive_solver | is_kinded | eassumption
        | vm_compute; reflexivity | in_range | in_range
        | intros [?|] ? Hn; cbn in Hn; [destruct Hn as [-> ?]|subst] ]
  end.
Ltac route_hook ::= parts_hook.

(** ** The three lists of [searchServices] *)

(** Leave a part of a route with what its lemma promises. *)
Ltac leave :=
  try match goal with
      | HQ : ∀ o n, ends_if_none kinded o n → _ |- _ => apply HQ
      end; first [reflexivity | by split].

Section lists.
Context `{Database, UnorderedMap}.
Context (s : gmap Z session) (req : HttpRequest) (b q : queryBase).

Lemma searchUnauthorised_wp userID response Q :
  narrowing q userID → kinded response → (∀ o n, ends_if_none kinded o n → Q o n) →
  wp (contract_of R_searchServices s req b) s (searchUnauthorised q userID response) Q.
Proof. intros HN Hr HQ. narrowed; route; leave. Qed.

Lemma searchOpen_wp userID response Q :
  narrowing q userID → kinded response → (∀ o n, ends_if_none kinded o n → Q o n) →
  wp (contract_of R_searchServices s req b) s (searchOpen q userID response) Q.
Proof. intros HN Hr HQ. narrowed; route; leave. Qed.

Lemma searchClosed_wp userID response Q :
  narrowing q userID → kinded response → (∀ o n, ends_if_none kinded o n → Q o n) →
  wp (contract_of R_searchServices s req b) s (searchClosed q userID response) Q.
Proof. intros HN Hr HQ. narrowed; route; leave. Qed.
End lists.

Ltac list_hook :=
  lazymatch goal with
  | |- wp _ _ (searchUnauthorised _ _ _) _ => eapply searchUnauthorised_wp
  | |- wp _ _ (searchOpen _ _ _) _ => eapply searchOpen_wp
  | |- wp _ _ (searchClosed _ _ _) _ => eapply searchClosed_wp
  end; [by try split|is_kinded|intros [?|] ? Hn; cbn in Hn; [destruct Hn as [-> ?]|subst]].
Ltac route_hook ::= first [parts_hook | list_hook].

(** ** The routes *)

Lemma handler_wp `{Database, UnorderedMap} s req b q r :
  wp (contract_of r s req b) s (handler r req b q) ends_once.
Proof. destruct r; cbn [handler]; route. Qed.
