(* ===== verification/RouteTheorems.v ===== *)
(** What the access table of [Policy] comes to: the theorems on all data routes
    at once, and the database instances they are stated for. *)

From S2P Require Import Prelude CharConv Query Response Database Http Sql Auth Routes RouteLogic.
From S2P Require Import Policy RouteLax RouteFacts.

Definition is_query (ev : event) : bool := bool_decide (is_Some (asked ev)).

(** ** An empty database *)

(** It accepts every statement and has no rows: a SELECT gives an empty result
    of its width, one from no table a single row. *)
Definition empty_reply (SQL : text) : SQLResult :=
  {| colCount := default 0%nat (select_arity SQL);
     data := if one_row SQL then replicate (default 0%nat (select_arity SQL)) [] else [];
     colNames := [] |}.

Definition emptyDatabase : Database :=
  {| db_state := unit; db_query d SQL ps := Ok (d, (SQLITE_OK, empty_reply SQL)) |}.

Lemma count_columns_pos depth s : count_columns depth s ≠ 0%nat.
Proof. revert depth. induction s; intros depth; simpl; repeat case_match; done. Qed.

Lemma select_arity_pos SQL cols : select_arity SQL = Some cols → cols ≠ 0%nat.
Proof. unfold select_arity. case_match; [|done]. intros [= <-]. apply count_columns_pos. Qed.

Lemma empty_shape SQL code : select_shape SQL code (empty_reply SQL).
Proof.
  intros _ cols Hc. pose proof (select_arity_pos _ _ Hc). unfold empty_reply, shape. rewrite Hc.
  destruct (one_row SQL); cbn [colCount data default].
  - exists 1%nat. split_and!; [done..| |done]. rewrite length_replicate. cbn. lia.
  - exists 0%nat. by split_and!.
Qed.

(** ** SQLite gives its results the shape the routes rely on *)

(** What SQLite documents about columns: a prepared SELECT has as many as it
    names, binding a parameter does not change them, and a SELECT of plain
    expressions that runs to completion has exactly one row. *)
Class SQLiteColumns `{SQLite} := {
  prepared_columns : ∀ c SQL st cols, sqlite3_prepare_v2 c SQL = Some st →
    select_arity SQL = Some cols → sqlite3_column_count st = cols;
  bound_columns : ∀ st i v, sqlite3_column_count (sqlite3_bind_text st i v) = sqlite3_column_count st;
  plain_row : ∀ c SQL st ps st' rows code c', sqlite3_prepare_v2 c SQL = Some st →
    one_row SQL = true → bindAll st ps = Some st' →
    yields (sqlite3_column_count st') c st' rows code c' →
    (code = SQLITE_DONE ∨ code = SQLITE_OK) → length rows = 1%nat;
}.

Section sqlite.
Context `{SQLiteFacts} `{!SQLiteColumns}.

Lemma bindAll_columns st ps st' :
  bindAll st ps = Some st' → sqlite3_column_count st' = sqlite3_column_count st.
Proof.
  revert st. induction ps as [|[k v] ps IH]; intros st Hb; simpl in Hb; [congruence|].
  case_match; [|done]. apply IH in Hb. by rewrite Hb, bound_columns.
Qed.

Lemma sqlite_select_shape h SQL ps h' code r :
  db_query h SQL ps = Ok (h', (code, r)) → select_shape SQL code r.
Proof.
  intros Hq Hok cols Hc. cbn in Hq.
  assert (query h SQL ps = Ok (h', code, r)) as Hrun.
  { destruct (query h SQL ps) as [[[? ?] ?]|]; simpl in *; simplify_eq; done. }
  clear Hq. unfold query, prepare in Hrun.
  destruct (assert_ _); [|done]. rewrite bind_Ok in Hrun.
  destruct (sqlite3_prepare_v2 (conn h) SQL) as [st|] eqn:Hp; [|by simplify_eq].
  destruct (bindAll st ps) as [st'|] eqn:Hb; [|by simplify_eq].
  pose proof (bindAll_columns _ _ _ Hb) as Hcols. rewrite (prepared_columns _ _ _ _ Hp Hc) in Hcols.
  match type of Hrun with execute ?h1 ?st1 ?r1 = _ =>
    destruct (execute_cases h1 st1 r1) as [(rows & status & c' & Hy)|[_ E]]; [|congruence];
    rewrite (execute_yields h1 st1 r1 _ _ _ Hy) in Hrun end.
  cbn [conn colCount data] in Hy, Hrun. rewrite Hcols in Hy, Hrun. simplify_eq. exists (length rows). split.
  - unfold shape. cbn [colCount data]. split_and!; [done|by eapply select_arity_pos|].
    apply length_concat_rows. by eapply yields_lengths.
  - intros Hf. eapply (plain_row (conn h) SQL st ps st' rows status c'); [done..|].
    destruct (Z.eqb_spec status SQLITE_DONE); [by left|]. right.
    unfold isOK in Hok. by apply Z.eqb_eq.
Qed.

(** C8: the database wrapper implements what the routes assume of their
    database: every completed SELECT has the columns it names, and one from no
    table has one row. *)
Theorem sqlite_answers r sessions req b `{UnorderedMap} :
  answers (contract_of r sessions req b).
Proof. intros h SQL ps h' code res Hq. split; [by eapply sqlite_select_shape|done]. Qed.
End sqlite.

(** ** All data routes *)

Section routes.
Context `{Database, UnorderedMap}.

Lemma handler_run r req b q w :
  ∃ evs, w_trace (handler r req b q w).2 = w_trace w ++ evs ∧
    w_sessions (handler r req b q w).2 = w_sessions w ∧
    Forall (on_query (allowed (policy_of r) (w_sessions w) req b)) evs ∧
    (∀ a, (handler r req b q w).1 = Ok a → count_ends evs = 1%nat).
Proof.
  destruct (handler_lax (w_sessions w) req b q r (lax_answers _) w eq_refl)
    as (evs & Ht & Hs & HF & Ho).
  exists evs. split_and!; [done..|]. intros a Ha. by rewrite Ha in Ho.
Qed.

(** C2: a route that needs a level runs no statement at all for a request whose
    session does not have it, or that has no session. *)
Theorem route_guarded r l req b q w :
  level (policy_of r) = Some l → verify (w_sessions w) req l = false →
  ∃ evs, w_trace (handler r req b q w).2 = w_trace w ++ evs ∧
    Forall (λ ev, is_query ev = false) evs.
Proof.
  intros Hl Hv. destruct (handler_run r req b q w) as (evs & Ht & _ & HF & _).
  exists evs. split; [done|]. eapply Forall_impl; [done|]. intros [] Hev; try done.
  all: destruct Hev as [Hlev _]; specialize (Hlev l Hl); congruence.
Qed.

(** C3: whatever the request and whatever the database answers, if it does, the text of
    every statement a route runs is one of the few fixed ones listed for it,
    with only parameters that occur in it, or the one update statement built
    from the form by [generateUpdateStatement]. *)
Theorem route_statements r req b q w :
  ∃ evs, w_trace (handler r req b q w).2 = w_trace w ++ evs ∧
    ∀ ev SQL ps, ev ∈ evs → asked ev = Some (SQL, ps) →
      (SQL ∈ fixed (policy_of r) ∧ named SQL ps = true) ∨
      ∃ f relations key val updateStatement,
        update (policy_of r) = Some (f, relations, key) ∧
        generateUpdateStatement b (iteration relations) = Ok updateStatement ∧
        SQL = f updateStatement ∧ ps = [(key, val)].
Proof.
  destruct (handler_run r req b q w) as (evs & Ht & _ & HF & _). exists evs. split; [done|].
  intros ev SQL ps Hin Ha. rewrite Forall_forall in HF. specialize (HF _ Hin).
  assert (allowed (policy_of r) (w_sessions w) req b SQL ps) as [_ [Hst|Hb]]; [by destruct ev; simplify_eq/=|by left|].
  destruct Hb as (f & rels & key & val & Hu & HS & Hps). right.
  exists f, rels, key, val, (join (T ",") (omap (assignment b) (iteration rels))).
  split_and!; [done|apply generateUpdateStatement_run|done|done].
Qed.

(** C7: on a database whose results have the shape SQLite documents, a route
    either returns, having ended the response exactly once, or hits the one
    fault listed for it, a row or form field it reads unchecked, or stops in a query
    that faults itself or has no end. *)
Theorem route_completes r req b q w :
  answers (contract_of r (w_sessions w) req b) →
  (∃ evs, (handler r req b q w).1 = Ok tt ∧
     w_trace (handler r req b q w).2 = w_trace w ++ evs ∧ count_ends evs = 1%nat) ∨
  (∃ e, (handler r req b q w).1 = Raise e ∧ fault_of r = Some e) ∨
  (∃ e evs, (handler r req b q w).1 = Raise e ∧ w_trace (handler r req b q w).2 = w_trace w ++ evs ∧ lost evs e).
Proof.
  intros Ha. destruct (handler_wp (w_sessions w) req b q r Ha w eq_refl) as (evs & Ht & _ & _ & Ho).
  destruct ((handler r req b q w).1) as [[]|e]; [left; eauto|right]. destruct Ho as [?|?]; [left|right]; eauto.
Qed.
End routes.
