(* ===== verification/Trace.v ===== *)
(** Reasoning about what a program writes and asks, whatever happens to the
    sessions: the logic used for the routes that log in and out, and for the
    server as a whole. *)

From S2P Require Import Prelude CharConv Query Response Database Http Sql Auth Routes RouteLogic RouteAuth.

(** [emits m Q]: every run of [m] extends the trace by some events [evs] with
    [Q o evs], where [o] is the result, [None] after a fault. *)
Definition emits `{Database} {A} (m : M A) (Q : option A → list event → Prop) : Prop :=
  ∀ w, ∃ evs, w_trace (m w).2 = w_trace w ++ evs ∧
    Q (match (m w).1 with Ok a => Some a | Raise _ => None end) evs.

Section rules.
Context `{Database}.

Lemma emits_mono {A} (m : M A) (Q Q' : option A → list event → Prop) :
  emits m Q → (∀ o evs, Q o evs → Q' o evs) → emits m Q'.
Proof. intros Hm HQ w. destruct (Hm w) as (evs & ? & ?). exists evs. auto. Qed.

Lemma emits_silent {A} (m : M A) (Q : option A → list event → Prop) :
  (∀ w, w_trace (m w).2 = w_trace w) → (∀ o, Q o []) → emits m Q.
Proof. intros Hm HQ w. exists []. rewrite app_nil_r, Hm. auto. Qed.

Lemma emits_ret {A} (a : A) (Q : option A → list event → Prop) : Q (Some a) [] → emits (mret a) Q.
Proof. intros HQ w. exists []. rewrite app_nil_r. split; [done|apply HQ]. Qed.

Lemma emits_bind {A B} (m : M A) (f : A → M B) (Q : option B → list event → Prop) :
  emits m (λ o evs, match o with
                    | Some a => emits (f a) (λ o' evs', Q o' (evs ++ evs'))
                    | None => Q None evs
                    end) → emits (m ≫= f) Q.
Proof.
  intros Hm w. destruct (Hm w) as (evs & Ht & HQ). rewrite bind_eq.
  destruct (m w) as [[a|e] w1]; simpl in *.
  - destruct (HQ w1) as (evs' & Ht' & HQ'). exists (evs ++ evs').
    rewrite Ht', Ht, app_assoc. done.
  - by exists evs.
Qed.

Lemma emits_lift {A} (o : outcome A) (Q : option A → list event → Prop) :
  (∀ a, o = Ok a → Q (Some a) []) → (∀ e, o = Raise e → Q None []) → emits (lift o) Q.
Proof. intros HQ HN w. exists []. rewrite app_nil_r. split; [done|]. simpl. destruct o; eauto. Qed.

Lemma emits_emit ev (Q : option unit → list event → Prop) : Q (Some tt) [ev] → emits (emit ev) Q.
Proof. intros HQ w. exists [ev]. split; [done|exact HQ]. Qed.

Lemma emits_getSessions (Q : option (gmap Z session) → list event → Prop) :
  (∀ s, Q (Some s) []) → emits getSessions Q.
Proof. intros HQ w. exists []. rewrite app_nil_r. split; [done|apply HQ]. Qed.

Lemma emits_putSessions s (Q : option unit → list event → Prop) :
  Q (Some tt) [] → emits (putSessions s) Q.
Proof. intros HQ w. exists []. rewrite app_nil_r. split; [done|apply HQ]. Qed.

Lemma emits_dbQuery SQL ps (Q : option (SQLCode * SQLResult) → list event → Prop) :
  (∀ e, Q None [EvLost SQL ps e]) →
  (∀ code r, Q (Some (code, r)) [EvQuery SQL ps code r]) → emits (dbQuery SQL ps) Q.
Proof.
  intros HN HQ w. unfold dbQuery. destruct (db_query (w_db w) SQL ps) as [[d [code r]]|e].
  - exists [EvQuery SQL ps code r]. split; [done|apply HQ].
  - exists [EvLost SQL ps e]. split; [done|apply HN].
Qed.

Lemma emits_drawLoop fuel s (Q : option Z → list event → Prop) :
  (∀ o, Q o []) → emits (drawLoop fuel s) Q.
Proof.
  intros HQ. apply emits_silent; [|done]. intros w. pose proof (drawLoop_spec fuel s w) as Hd.
  destruct (drawLoop fuel s w) as [[] w']; naive_solver.
Qed.

End rules.

Ltac emits_step :=
  lazymatch goal with
  | |- emits (mbind _ _) _ => apply emits_bind
  | |- emits (mret _) _ => apply emits_ret
  | |- emits (lift _) _ => apply emits_lift; [intros ? ?|intros ? ?]
  | |- emits getSessions _ => apply emits_getSessions; intros ?
  | |- emits (putSessions _) _ => apply emits_putSessions
  | |- emits (dbQuery _ _) _ => apply emits_dbQuery; [intros ?|intros ? ?]
  | |- emits (emit _) _ => apply emits_emit
  | |- emits (drawLoop _ _) _ => apply emits_drawLoop; intros [?|]
  | |- emits (if ?b then _ else _) _ => let E := fresh "E" in destruct b eqn:E
  | |- emits (match ?x with _ => _ end) _ => let E := fresh "E" in destruct x eqn:E
  | |- emits ?m _ => let h := head_of m in unfold h
  end; cbv beta iota.

(** ** The routes that log in and out *)

Definition once_if_done (o : option unit) (evs : list event) : Prop :=
  is_Some o → count_ends evs = 1%nat.

Section authRoutes.
Context `{Database}.

Ltac auth_route :=
  repeat emits_step; unfold once_if_done; first [reflexivity | by intros [? ?]].

Lemma authenticate_ends fuel req b q : emits (authenticate fuel req b q) once_if_done.
Proof. auth_route. Qed.

Lemma emits_request fuel req b : emits (request fuel req b) (λ _ evs, count_ends evs = 0%nat).
Proof. auth_route. Qed.

Lemma emits_release req : emits (release req) (λ _ evs, count_ends evs = 0%nat).
Proof. auth_route. Qed.

Lemma registerUser_ends fuel req b q : emits (registerUser fuel req b q) once_if_done.
Proof. auth_route. Qed.

Lemma deauthenticate_ends req : emits (deauthenticate req) once_if_done.
Proof. auth_route. Qed.

Lemma checkSession_ends req : emits (checkSession req) once_if_done.
Proof. auth_route. Qed.
End authRoutes.
