(* ===== verification/Net.v ===== *)
(** Server/src/Network.cpp: the table that ties each address to its route, the
    routes defined in place there, and the server as a transition system over
    the requests it receives. *)

From S2P Require Import Prelude CharConv Query Response Database Http Sql Auth Routes RouteLogic.
From S2P Require Import RouteAuth Policy.

(** ** "/debug/displayTables" *)

Section debug.
Context `{Database}.

(** A [for] loop whose body may write. *)
Fixpoint loopM {A} (ixs : list nat) (f : nat → A → M A) (a : A) : M A :=
  match ixs with
  | [] => mret a
  | i :: ixs' => a' ← f i a; loopM ixs' f a'
  end.

(** The widest cell of each column. *)
Definition columnSizes (result : SQLResult) : outcome (list nat) :=
  rows ← rowCount result;
  forRows (seq 0 rows) (λ r sizes,
    forRows (seq 0 (columnCount result)) (λ c sizes,
      v ← get result r c;
      sz ← index_ sizes c;
      Ok (if (sz <? length v)%nat then <[c := length v]> sizes else sizes)) sizes)
    (replicate (columnCount result) 0%nat).

Definition padded (v : text) (size : nat) : text := v ++ replicate (size - length v) " "%char.

(** The line of column names, which may still widen a column. *)
Definition headerLine (result : SQLResult) (sizes : list nat) : M (list nat) :=
  loopM (seq 0 (columnCount result)) (λ c sizes,
    name ← lift (getColName result c);
    sz ← lift (index_ sizes c);
    let sizes := if (sz <? length name)%nat then <[c := length name]> sizes else sizes in
    sz ← lift (index_ sizes c);
    _ ← log (padded name sz ++ T "|");
    mret sizes) sizes.

Definition rowLine (result : SQLResult) (sizes : list nat) (row : nat) : M unit :=
  _ ← log (T "|");
  _ ← loopM (seq 0 (columnCount result)) (λ col _,
    v ← lift (get result row col);
    sz ← lift (index_ sizes col);
    log (padded v sz ++ T "|")) tt;
  log [NEWLINE].

Definition displayTable (name : text) : M unit :=
  _ ← log (name ++ T ":");
  '(code, result) ← dbQuery (T "SELECT * FROM " ++ name) [];
  if negb (isOK code) then log (T "Error displaying table rows." ++ [NEWLINE]) else
  empty ← orM (mret (bool_decide (columnCount result = 0%nat))) (noRows result);
  if (empty : bool) then log (T " empty." ++ [NEWLINE]) else
  _ ← log [NEWLINE];
  sizes ← lift (columnSizes result);
  _ ← log (T "|");
  sizes ← headerLine result sizes;
  _ ← log [NEWLINE];
  rows ← lift (rowCount result);
  loopM (seq 0 rows) (λ row _, rowLine result sizes row) tt.

Definition displayTables (req : HttpRequest) : M unit :=
  _ ← log (T "Displaying tables:" ++ [NEWLINE]);
  '(tableCode, tables) ← dbQuery sql_tables [];
  _ ← (if negb (isOK tableCode) then log (T "Error accessing database metadata." ++ [NEWLINE])
       else n ← lift (rowCount tables);
            loopM (seq 0 n) (λ x _, name ← lift (get tables x 0); displayTable name) tt);
  end_.

(** "/ping" and the default. *)
Definition ping (req : HttpRequest) : M unit :=
  _ ← (if hasSession req then
         ID ← lift (value (getSessionID req));
         log (T "Session (" ++ to_string ID ++ T ") pinged server." ++ [NEWLINE])
       else log (T "Unknown user pinged server." ++ [NEWLINE]));
  end_.

Definition badAddress (req : HttpRequest) : M unit :=
  _ ← writeStatus BADREQUEST;
  endWith (T "Bad request.").
End debug.

(** ** The table of [net] *)

Inductive entry :=
  | E_authenticate | E_registerUser | E_deauthenticate | E_checkSession
  | E_route (r : route)
  | E_displayTables | E_ping | E_default.

(** uWebSockets hands a request to the handler registered for its method and
    path, else to the one registered for any method, else to the wildcard. *)
Definition table : list (text * text * entry) :=
  [ (T "post", T "/request", E_authenticate);
    (T "post", T "/register", E_registerUser);
    (T "get", T "/release", E_deauthenticate);
    (T "get", T "/checkSession", E_checkSession);
    (T "post", T "/user/create", E_route R_createUser);
    (T "get", T "/user/me", E_route R_getLocalUserData);
    (T "get", T "/user/search", E_route R_searchUsers);
    (T "get", T "/user/select", E_route R_selectUser);
    (T "post", T "/user/delete", E_route R_deleteUser);
    (T "post", T "/user/update", E_route R_updateUser);
    (T "post", T "/part/supplier/create", E_route R_createSupplier);
    (T "post", T "/part/supplier/update", E_route R_updateSupplier);
    (T "get", T "/part/supplier/search", E_route R_searchSuppliers);
    (T "get", T "/part/supplier/select", E_route R_selectSupplier);
    (T "post", T "/part/group/create", E_route R_createPartGroup);
    (T "post", T "/part/group/update", E_route R_updatePartGroup);
    (T "get", T "/part/group/search", E_route R_searchPartGroups);
    (T "get", T "/part/group/select", E_route R_selectPartGroup);
    (T "post", T "/part/create", E_route R_createPart);
    (T "post", T "/part/update", E_route R_updatePart);
    (T "get", T "/part/search", E_route R_searchParts);
    (T "get", T "/part/select", E_route R_selectPart);
    (T "post", T "/vehicle/create", E_route R_createVehicle);
    (T "post", T "/vehicle/update", E_route R_updateVehicle);
    (T "post", T "/vehicle/delete", E_route R_deleteVehicle);
    (T "get", T "/vehicle/select", E_route R_selectVehicle);
    (T "post", T "/service/create", E_route R_createRequest);
    (T "post", T "/service/authorise", E_route R_authoriseRequest);
    (T "post", T "/service/update", E_route R_updateService);
    (T "post", T "/service/close", E_route R_closeService);
    (T "post", T "/service/part/add", E_route R_addPartToService);
    (T "post", T "/service/part/remove", E_route R_removePartFromService);
    (T "get", T "/service/part/select", E_route R_selectServicePart);
    (T "get", T "/service/search", E_route R_searchServices);
    (T "get", T "/service/select", E_route R_selectService);
    (T "get", T "/debug/displayTables", E_displayTables) ].

Definition dispatch (method url : text) : entry :=
  match list_find (λ e, e.1.1 = method ∧ e.1.2 = url) table with
  | Some (_, e) => e.2
  | None => if bool_decide (url = T "/ping") then E_ping else E_default
  end.

(** The pieces of a body as uWebSockets delivers them: exactly the last one is
    marked so. *)
Definition body_pieces (req : HttpRequest) (chunks : list (text * bool)) : Prop :=
  contentLength req = 0%Z ∨ ∃ ds d, chunks = ((λ d, (d, false)) <$> ds) ++ [(d, true)].

Section server.
Context `{Database, Curl, UnorderedMap}.

(** One request, with the pieces of its body that follow. *)
Definition serve (fuel : nat) (req : HttpRequest) (chunks : list (text * bool)) : M unit :=
  match dispatch (getMethod req) (getUrl req) with
  | E_authenticate => callWrapper (authenticate fuel) req chunks
  | E_registerUser => callWrapper (registerUser fuel) req chunks
  | E_deauthenticate => deauthenticate req
  | E_checkSession => checkSession req
  | E_route r => callWrapper (handler r) req chunks
  | E_displayTables => displayTables req
  | E_ping => ping req
  | E_default => badAddress req
  end.

(** The server between requests.  Every login seeds a new generator from
    [std::random_device], so each request may see fresh draws, from the range
    of [dist]. *)
Definition reseed (w : world) (random : nat → Z) : world :=
  {| w_db := w_db w; w_sessions := w_sessions w; w_random := random; w_trace := w_trace w |}.

Definition draws_ok (random : nat → Z) : Prop := ∀ n, (1 ≤ random n < 2 ^ 64)%Z.

Inductive reachable : world → Prop :=
  | reach_start d random :
      reachable {| w_db := d; w_sessions := ∅; w_random := random; w_trace := [] |}
  | reach_serve w random fuel req chunks w' :
      reachable w → draws_ok random → body_pieces req chunks →
      serve fuel req chunks (reseed w random) = (Ok tt, w') → reachable w'.
End server.

