(* ===== verification/NetFacts.v ===== *)
(** The server as a whole: which address leads where, that every request is
    answered once, and where sessions come from. *)

From S2P Require Import Prelude CharConv Query Response Database Http Sql Auth Routes RouteLogic.
From S2P Require Import RouteAuth Policy RouteLax RouteTheorems Trace Net.

(** ** Addresses *)

#[global] Instance route_eq_dec : EqDecision route.
Proof. solve_decision. Defined.
#[global] Instance entry_eq_dec : EqDecision entry.
Proof. solve_decision. Defined.

Lemma dispatch_in_table m u r : dispatch m u = E_route r → E_route r ∈ table.*2.
Proof.
  unfold dispatch. destruct (list_find _ table) as [[i [mu e]]|] eqn:E; [|by case_bool_decide].
  intros <-. apply list_find_Some in E as (E & _ & _).
  apply list_elem_of_fmap. exists (mu, e). split; [done|]. by eapply list_elem_of_lookup_2.
Qed.

Definition address (r : route) : text * text :=
  match list_find (λ e, e.2 = E_route r) table with
  | Some (_, e) => e.1
  | None => ([], [])
  end.

(** every data route but [reopenService] has an address; [reopenService] has
    none and never runs. *)
Theorem dispatch_routes r : (∃ m u, dispatch m u = E_route r) ↔ r ≠ R_reopenService.
Proof.
  split.
  - intros (m & u & Hd) ->. apply dispatch_in_table in Hd.
    assert (E_route R_reopenService ∉ table.*2) as Hno by by_decision. done.
  - intros Hr. exists (address r).1, (address r).2. destruct r; first [done | by_decision].
Qed.

(** ** The routes defined in [net] *)

Section lax_net.
Context `{Database} {s : gmap Z session}.

Lemma wp_loopM C {A} ixs (f : nat → A → M A) a (Q : A → nat → Prop) :
  (∀ i a, wp C s (f i a) (λ _ n, n = 0%nat)) → (∀ a, Q a 0%nat) → wp C s (loopM ixs f a) Q.
Proof.
  intros Hf HQ. revert a. induction ixs as [|i ixs IH]; intros a; simpl; [by apply wp_ret|].
  apply wp_bind. eapply wp_mono; [apply Hf|]. intros a' n ->. apply IH.
Qed.

Definition any_event (_ : event) : Prop := True.
Definition top_contract : contract :=
  {| c_fault := any_fault; c_event := any_event; c_reply := any_reply |}.

Ltac net_step :=
  first [ apply wp_loopM; [intros ? ?|intros ?]
        | lazymatch goal with
          | |- wp _ _ (dbQuery _ _) _ => apply wp_dbQuery; [intros ?; exact I|]; intros ? ? _; split; [exact I|]
          | |- wp _ _ (displayTable _) _ => unfold displayTable
          | |- wp _ _ (headerLine _ _) _ => unfold headerLine
          | |- wp _ _ (rowLine _ _ _) _ => unfold rowLine
          end
        | lax_step ]; cbv beta iota zeta.

Lemma displayTables_wp req : wp top_contract s (displayTables req) ends_once.
Proof. unfold displayTables. repeat net_step; first [reflexivity | done]. Qed.
Lemma ping_wp req : wp top_contract s (ping req) ends_once.
Proof. unfold ping. repeat net_step; first [reflexivity | done]. Qed.
Lemma badAddress_wp req : wp top_contract s (badAddress req) ends_once.
Proof. unfold badAddress. repeat net_step; first [reflexivity | done]. Qed.

Lemma top_run (m : M unit) w :
  wp top_contract (w_sessions w) m ends_once →
  ∃ evs, w_trace (m w).2 = w_trace w ++ evs ∧ w_sessions (m w).2 = w_sessions w ∧
    (∀ a, (m w).1 = Ok a → count_ends evs = 1%nat).
Proof.
  intros Hm. destruct (Hm (λ _ _ _ _ _ _ _, I) w eq_refl) as (evs & Ht & Hs & _ & Ho).
  exists evs. split_and!; [done..|]. intros a Ha. by rewrite Ha in Ho.
Qed.
End lax_net.

(** ** One request *)

Section server.
Context `{Database, Curl, UnorderedMap}.

Lemma callWrapper_once (callback : HttpRequest → queryBase → queryBase → M unit) req chunks w :
  body_pieces req chunks →
  ∃ b, callWrapper callback req chunks w = callback req b (mkQuery (getQuery req)) w.
Proof.
  intros [Hzero|(ds & d & ->)]; unfold callWrapper.
  - rewrite Hzero. by exists emptyQuery.
  - destruct (contentLength req =? 0)%Z; [by exists emptyQuery|].
    eexists. apply onData_pieces.
Qed.

(** C14: every request that is handled to the end is answered exactly once,
    wherever its address leads. *)
Theorem serve_answers_once fuel req chunks w w' :
  body_pieces req chunks → serve fuel req chunks w = (Ok tt, w') →
  ∃ evs, w_trace w' = w_trace w ++ evs ∧ count_ends evs = 1%nat.
Proof.
  intros Hb Hrun. unfold serve in Hrun.
  assert (∀ (m : M unit), emits m once_if_done → m w = (Ok tt, w') →
    ∃ evs, w_trace w' = w_trace w ++ evs ∧ count_ends evs = 1%nat) as Hemits.
  { intros m Hm Hr. destruct (Hm w) as (evs & Ht & Ho). rewrite Hr in Ht, Ho. simpl in *. eauto. }
  assert (∀ (m : M unit), wp top_contract (w_sessions w) m ends_once → m w = (Ok tt, w') →
    ∃ evs, w_trace w' = w_trace w ++ evs ∧ count_ends evs = 1%nat) as Htop.
  { intros m Hm Hr. destruct (top_run m w Hm) as (evs & Ht & _ & Ho). rewrite Hr in Ht, Ho. eauto. }
  destruct (dispatch _ _) as [| | | |r| | |].
  - destruct (callWrapper_once (authenticate fuel) req chunks w Hb) as [b Hc].
    rewrite Hc in Hrun. eapply Hemits; [apply authenticate_ends|done].
  - destruct (callWrapper_once (registerUser fuel) req chunks w Hb) as [b Hc].
    rewrite Hc in Hrun. eapply Hemits; [apply registerUser_ends|done].
  - eapply Hemits; [apply deauthenticate_ends|done].
  - eapply Hemits; [apply checkSession_ends|done].
  - destruct (callWrapper_once (handler r) req chunks w Hb) as [b Hc]. rewrite Hc in Hrun.
    destruct (handler_run r req b (mkQuery (getQuery req)) w) as (evs & Ht & _ & _ & Ho).
    rewrite Hrun in Ht, Ho. eauto.
  - eapply Htop; [apply displayTables_wp|done].
  - eapply Htop; [apply ping_wp|done].
  - eapply Htop; [apply badAddress_wp|done].
Qed.
End server.

(** ** Sessions *)

Section sessions.
Context `{Database, Curl, UnorderedMap}.

(** What one request may do to the sessions: keep or drop them, or add one
    under a drawn identifier that a login query of the trace backs. *)
Definition sessions_step (w w' : world) : Prop :=
  (∃ evs, w_trace w' = w_trace w ++ evs) ∧
  ∀ id ses, w_sessions w' !! id = Some ses →
    w_sessions w !! id = Some ses ∨ (backed (w_trace w') ses ∧ ∃ n, id = w_random w n).

Lemma sessions_step_same w w' evs :
  w_trace w' = w_trace w ++ evs → w_sessions w' = w_sessions w → sessions_step w w'.
Proof. intros Ht Hs. split; [eauto|]. rewrite Hs. auto. Qed.

(** [sound m]: every run of [m] is such a step. *)
Definition sound {A} (m : M A) : Prop := ∀ w, sessions_step w (m w).2.

(** Programs that leave sessions and draws alone. *)
Definition calm {A} (m : M A) : Prop := ∀ w,
  (∃ evs, w_trace (m w).2 = w_trace w ++ evs) ∧ w_sessions (m w).2 = w_sessions w ∧
  w_random (m w).2 = w_random w.

Lemma calm_ret {A} (a : A) : calm (mret a).
Proof. intros w. split_and!; [exists []; by rewrite app_nil_r|done..]. Qed.
Lemma calm_lift {A} (o : outcome A) : calm (lift o).
Proof. intros w. split_and!; [exists []; by rewrite app_nil_r|done..]. Qed.
Lemma calm_emit ev : calm (emit ev).
Proof. intros w. split_and!; [by exists [ev]|done..]. Qed.
Lemma calm_dbQuery SQL ps : calm (dbQuery SQL ps).
Proof.
  intros w. unfold dbQuery. destruct (db_query _ _ _) as [[d [code r]]|e].
  all: split_and!; [by eexists|done..].
Qed.
Lemma calm_bind {A B} (m : M A) (f : A → M B) : calm m → (∀ a, calm (f a)) → calm (m ≫= f).
Proof.
  intros Hm Hf w. destruct (Hm w) as ((evs & Ht) & Hs & Hr). rewrite bind_eq.
  destruct (m w) as [[a|e] w1]; simpl in *; [|by eauto].
  destruct (Hf a w1) as ((evs' & Ht') & Hs' & Hr').
  split_and!; [|congruence..]. exists (evs ++ evs'). by rewrite Ht', Ht, app_assoc.
Qed.

Lemma sessions_step_trans_l w w1 w' :
  (∃ evs, w_trace w1 = w_trace w ++ evs) → w_sessions w1 = w_sessions w →
  w_random w1 = w_random w → sessions_step w1 w' → sessions_step w w'.
Proof.
  intros (evs & Ht) Hs Hr ((evs' & Ht') & Hstep). split.
  - exists (evs ++ evs'). by rewrite Ht', Ht, app_assoc.
  - by rewrite <- Hs, <- Hr.
Qed.

Lemma sessions_step_trans_r w w1 w' :
  sessions_step w w1 → (∃ evs, w_trace w' = w_trace w1 ++ evs) → w_sessions w' = w_sessions w1 →
  sessions_step w w'.
Proof.
  intros ((evs & Ht) & Hstep) (evs' & Ht') Hs. split.
  - exists (evs ++ evs'). by rewrite Ht', Ht, app_assoc.
  - rewrite Hs. intros id ses Hl. destruct (Hstep _ _ Hl) as [|[Hb Hn]]; [by left|right].
    split; [|done]. rewrite Ht'. by apply backed_mono.
Qed.

Lemma calm_sound {A B} (m : M A) (f : A → M B) : calm m → (∀ a, sound (f a)) → sound (m ≫= f).
Proof.
  intros Hm Hf w. destruct (Hm w) as (Ht & Hs & Hr). rewrite bind_eq.
  destruct (m w) as [[a|e] w1]; simpl in *.
  - eapply sessions_step_trans_l; [done..|]. apply (Hf a w1).
  - destruct Ht as [evs Ht]. by eapply sessions_step_same.
Qed.

Lemma sound_calm {A B} (m : M A) (f : A → M B) : sound m → (∀ a, calm (f a)) → sound (m ≫= f).
Proof.
  intros Hm Hf w. specialize (Hm w). rewrite bind_eq.
  destruct (m w) as [[a|e] w1]; simpl in *; [|done].
  destruct (Hf a w1) as (Ht & Hs & _). by eapply sessions_step_trans_r.
Qed.

Lemma calm_is_sound {A} (m : M A) : calm m → sound m.
Proof. intros Hm w. destruct (Hm w) as ((evs & Ht) & Hs & _). by eapply sessions_step_same. Qed.

Lemma request_sound_step fuel req b : sound (request fuel req b).
Proof.
  intros w. split.
  - pose proof (λ w, emits_request fuel req b w) as He. destruct (He w) as (evs & Ht & _). eauto.
  - pose proof (request_cases fuel req b w) as Hc.
    destruct (request fuel req b w) as [o w']. simpl. intros id ses.
    assert (∀ ses, released req (w_sessions w) !! id = Some ses → w_sessions w !! id = Some ses) as Hrel.
    { unfold released. intros ses'. destruct (getSessionID req); [|done].
      intros Hl. by apply lookup_delete_Some in Hl as [_ Hl]. }
    destruct Hc as [(_ & [Hs|Hs])|(_ & val & ses0 & n & Hval & _ & Hs & _ & Hb)]; rewrite Hs; auto.
    intros Hl. apply lookup_insert_Some in Hl as [[<- <-]|[_ Hl]]; eauto.
Qed.

(** ** Every entry of the table is such a step *)

Lemma calm_getSessions : calm getSessions.
Proof. intros w. split_and!; [exists []; by rewrite app_nil_r|done..]. Qed.

Ltac calm :=
  repeat first
    [ apply calm_ret | apply calm_lift | apply calm_emit | apply calm_dbQuery
    | apply calm_getSessions | apply calm_bind; [|intros ?]
    | lazymatch goal with
      | |- calm (if ?b then _ else _) => destruct b
      | |- calm (match ?x with _ => _ end) => destruct x
      | |- calm ?m => let h := head_of m in unfold h
      end ].

Lemma authenticate_sound fuel req b q : sound (authenticate fuel req b q).
Proof.
  unfold authenticate. apply calm_sound; [calm|intros [|]]; [apply calm_is_sound; calm|].
  apply sound_calm; [apply request_sound_step|intros ?; calm].
Qed.

Lemma registerUser_sound fuel req b q : sound (registerUser fuel req b q).
Proof.
  unfold registerUser. destruct (negb _); [apply calm_is_sound; calm|].
  repeat (apply calm_sound; [calm|intros ?]). case_match.
  apply calm_sound; [calm|intros ?]. apply authenticate_sound.
Qed.

Lemma release_sound req : sound (release req).
Proof.
  intros w. destruct (release_run req w) as (w' & Hrun & _ & Hs & _). split.
  - destruct (emits_release req w) as (evs & Ht & _). eauto.
  - rewrite Hrun. simpl. rewrite Hs. unfold released. intros id ses Hl. left.
    destruct (getSessionID req); [|done]. by apply lookup_delete_Some in Hl as [_ Hl].
Qed.

Lemma deauthenticate_sound req : sound (deauthenticate req).
Proof. unfold deauthenticate. apply sound_calm; [apply release_sound|intros ?; calm]. Qed.

Lemma checkSession_sound req : sound (checkSession req).
Proof.
  unfold checkSession. destruct (hasSession req); [apply calm_is_sound; calm|].
  apply sound_calm; [apply release_sound|intros ?; calm].
Qed.

Lemma top_sound (m : M unit) : (∀ s, wp top_contract s m ends_once) → sound m.
Proof.
  intros Hm w. destruct (top_run m w (Hm _)) as (evs & Ht & Hs & _). by eapply sessions_step_same.
Qed.

Lemma serve_sound fuel req chunks w :
  body_pieces req chunks → sessions_step w (serve fuel req chunks w).2.
Proof.
  intros Hb. unfold serve. destruct (dispatch _ _) as [| | | |r| | |].
  - destruct (callWrapper_once (authenticate fuel) req chunks w Hb) as [b ->].
    apply authenticate_sound.
  - destruct (callWrapper_once (registerUser fuel) req chunks w Hb) as [b ->].
    apply registerUser_sound.
  - apply deauthenticate_sound.
  - apply checkSession_sound.
  - destruct (callWrapper_once (handler r) req chunks w Hb) as [b ->].
    destruct (handler_run r req b (mkQuery (getQuery req)) w) as (evs & Ht & Hs & _).
    by eapply sessions_step_same.
  - apply top_sound. intros s. apply displayTables_wp.
  - apply top_sound. intros s. apply ping_wp.
  - apply top_sound. intros s. apply badAddress_wp.
Qed.

Lemma reachable_origin w id ses :
  reachable w → w_sessions w !! id = Some ses →
  (1 ≤ id < 2 ^ 64)%Z ∧ backed (w_trace w) ses.
Proof.
  intros Hr. revert id ses.
  induction Hr as [d random|w random fuel req chunks w' Hr IH Hd Hb Hs]; intros id ses Hl; [done|].
  destruct (serve_sound fuel req chunks (reseed w random) Hb) as [(evs & Ht) Hstep].
  rewrite Hs in Ht, Hstep. cbn [snd reseed w_trace w_sessions w_random] in *.
  destruct (Hstep id ses Hl) as [Hold|[Hback [n ->]]]; [|by split; [apply Hd|]].
  destruct (IH _ _ Hold) as [Hid Hback]. split; [done|]. rewrite Ht. by apply backed_mono.
Qed.

(** C10: no statement of a route that needs a level without a login behind it: if such
    a request makes the server ask the database anything, answered or not, it names a session of
    that level or a higher one, and an earlier login query of the trace, answered
    with a single row, has that session's user and level. *)
Theorem statements_by_login fuel req chunks w random r l o w' evs ev SQL ps :
  reachable w → body_pieces req chunks →
  dispatch (getMethod req) (getUrl req) = E_route r → level (policy_of r) = Some l →
  serve fuel req chunks (reseed w random) = (o, w') → w_trace w' = w_trace w ++ evs →
  ev ∈ evs → asked ev = Some (SQL, ps) →
  ∃ id ses, getSessionID req = Some id ∧ w_sessions w !! id = Some ses ∧ (l ≤ authLevel_of ses)%Z ∧
    backed (w_trace w) ses.
Proof.
  intros Hr Hb Hd Hl Hs Ht Hin Ha. unfold serve in Hs. rewrite Hd in Hs.
  destruct (callWrapper_once (handler r) req chunks (reseed w random) Hb) as [b Hc]. rewrite Hc in Hs.
  destruct (handler_run r req b (mkQuery (getQuery req)) (reseed w random)) as (evs' & Ht' & _ & HF & _).
  rewrite Hs in Ht'. cbn [snd reseed w_trace] in Ht'. rewrite Ht in Ht'. apply app_inv_head in Ht' as <-.
  rewrite Forall_forall in HF. 
  assert (allowed (policy_of r) (w_sessions w) req b SQL ps) as [Hlev _]
    by (specialize (HF _ Hin); by destruct ev; simplify_eq/=).
  pose proof (Hlev l Hl) as Hv. apply verify_Some in Hv as (id & ses & Hid & Hses & Hle).
  exists id, ses. split_and!; [done..|]. by eapply reachable_origin.
Qed.

(** C1: in every state the server can get into, every session has a nonzero
    64-bit identifier, and was created by a login: the database confirmed a
    name and transformed password with a single row, and the session has the
    user and the level of that row. *)
Theorem session_origin w id ses :
  reachable w → w_sessions w !! id = Some ses →
  (1 ≤ id < 2 ^ 64)%Z ∧ backed (w_trace w) ses.
Proof. apply reachable_origin. Qed.
End sessions.

(** ** The widths of "/debug/displayTables" *)

Definition width (sizes : list nat) (j : nat) : nat := default 0%nat (sizes !! j).

(** Every cell of the first [i] rows, and of the first [c] columns of row [i],
    is within its width. *)
Definition covers (r : SQLResult) (cols i c : nat) (sizes : list nat) : Prop :=
  length sizes = cols ∧
  (∀ i' j, (i' < i)%nat → (j < cols)%nat → (length (cell r i' j) ≤ width sizes j)%nat) ∧
  (∀ j, (j < c)%nat → (length (cell r i j) ≤ width sizes j)%nat).

Lemma width_insert sizes c n j :
  (c < length sizes)%nat → width (<[c := n]> sizes) j = if decide (j = c) then n else width sizes j.
Proof.
  intros Hc. unfold width. destruct (decide (j = c)) as [->|Hne].
  - by rewrite list_lookup_insert_eq.
  - by rewrite list_lookup_insert_ne.
Qed.

Lemma covers_step r cols rows i c sizes :
  shape cols rows r → (i < rows)%nat → (c < cols)%nat → covers r cols i c sizes →
  spec (v ← get r i c; sz ← index_ sizes c;
        Ok (if (sz <? length v)%nat then <[c := length v]> sizes else sizes)) (covers r cols i (S c)).
Proof.
  intros Hs Hi Hc (Hl & Hrows & Hcols). rewrite (shape_get _ _ _ _ _ Hs Hi Hc), bind_Ok.
  destruct (lookup_lt_is_Some_2 sizes c) as [sz Hsz]; [lia|].
  assert (index_ sizes c = Ok sz) as -> by (unfold index_; by rewrite Hsz).
  rewrite bind_Ok. eexists. split; [done|].
  assert (width sizes c = sz) as Hw by (unfold width; by rewrite Hsz).
  destruct (Nat.ltb_spec sz (length (cell r i c))) as [Hlt|Hge].
  - split; [by rewrite length_insert|]. split.
    + intros i' j Hi' Hj. specialize (Hrows i' j Hi' Hj). rewrite width_insert by lia.
      destruct (decide (j = c)) as [->|]; lia.
    + intros j Hj. rewrite width_insert by lia. destruct (decide (j = c)) as [->|]; [done|].
      apply Hcols. lia.
  - split_and!; [done|done|]. intros j Hj. destruct (decide (j = c)) as [->|]; [lia|]. apply Hcols. lia.
Qed.

(** the widths computed for a table fit every cell of it, so no row is
    misaligned. *)
Theorem columnSizes_fit cols rows r :
  shape cols rows r →
  ∃ sizes, columnSizes r = Ok sizes ∧ length sizes = cols ∧
    ∀ i j, (i < rows)%nat → (j < cols)%nat → (length (cell r i j) ≤ width sizes j)%nat.
Proof.
  intros Hs. unfold columnSizes. rewrite (shape_rowCount _ _ _ Hs), bind_Ok.
  assert (columnCount r = cols) as -> by apply Hs.
  destruct (spec_forRows_seq rows 0 (λ r' sizes, forRows (seq 0 cols) (λ c sizes,
        v ← get r r' c; sz ← index_ sizes c;
        Ok (if (sz <? length v)%nat then <[c := length v]> sizes else sizes)) sizes)
      (replicate cols 0%nat) (λ i, covers r cols i 0)) as (sizes & Hrun & Hc).
  - split_and!; [by rewrite length_replicate|lia|lia].
  - intros i sizes [_ Hi] Hc.
    destruct (spec_forRows_seq cols 0 (λ c sizes, v ← get r i c; sz ← index_ sizes c;
        Ok (if (sz <? length v)%nat then <[c := length v]> sizes else sizes)) sizes
        (covers r cols i)) as (sizes' & Hrun' & Hl & Hrows & Hcols); [done| |].
    + intros c sizes' [_ Hlt] Hcov. by eapply covers_step.
    + exists sizes'. split; [done|]. split_and!; [done| |lia]. intros i' j Hi' Hj.
      destruct (decide (i' = i)) as [->|]; [by apply Hcols|]. apply Hrows; lia.
  - exists sizes. destruct Hc as (Hl & Hrows & _). by split_and!.
Qed.
