(* ===== verification/Frames.v ===== *)
(** What every run of the server does to its world, step by step.

    A relation between worlds that holds of the smallest steps ([Framed]) holds of
    every route, and of every request ([serve_framed]).  Two uses: the names of the
    headers hold no colon, so that an HTTP client reads each line as the header it
    was; and the database is, at any time, what the statements of the trace make
    of the one the server began with. *)

From S2P Require Import Prelude CharConv Query Response Database Http Sql Auth Routes RouteLogic.
From S2P Require Import RouteAuth RouteUser RouteParts RouteVehicle RouteServices RouteServiceViews Policy Trace Net.

(** The events the program writes itself: all but the statements. *)
Definition written (ev : event) : Prop :=
  match ev with EvHeader name _ => ":"%char ∉ name | EvQuery _ _ _ _ | EvLost _ _ _ => False | _ => True end.

Class Framed `{Database} (R : world → world → Prop) := {
  framed_refl w : R w w;
  framed_trans w1 w2 w3 : R w1 w2 → R w2 w3 → R w1 w3;
  framed_emit ev w : written ev → R w (emit ev w).2;
  framed_query SQL ps w : R w (dbQuery SQL ps w).2;
  framed_sessions s w : R w (putSessions s w).2;
  framed_draw w random : R w {| w_db := w_db w; w_sessions := w_sessions w; w_random := random; w_trace := w_trace w |};
}.

Section framed.
Context `{Framed}.

Definition framed {A} (m : M A) : Prop := ∀ w, R w (m w).2.

Lemma framed_id {A} (m : M A) : (∀ w, (m w).2 = w) → framed m.
Proof. intros Hm w. rewrite Hm. apply framed_refl. Qed.
Lemma framed_bind {A B} (m : M A) (f : A → M B) : framed m → (∀ a, framed (f a)) → framed (m ≫= f).
Proof.
  intros Hm Hf w. pose proof (Hm w) as Hw. rewrite bind_eq.
  destruct (m w) as [[a|e] w1]; [|done]. eapply framed_trans; [exact Hw|apply Hf].
Qed.
Lemma framed_drawLoop fuel s : framed (drawLoop fuel s).
Proof.
  intros w. pose proof (drawLoop_spec fuel s w) as Hd. destruct (drawLoop fuel s w) as [o w'].
  assert (∃ random, w' = {| w_db := w_db w; w_sessions := w_sessions w; w_random := random; w_trace := w_trace w |})
    as [random ->]; [|apply framed_draw].
  destruct w', o; naive_solver.
Qed.
Lemma framed_forRowsM {A} ixs (f : nat → A → M (option A)) a : (∀ i a, framed (f i a)) → framed (forRowsM ixs f a).
Proof.
  intros Hf. revert a. induction ixs as [|i ixs IH]; intros a; simpl; [by apply framed_id|].
  apply framed_bind; [done|]. intros [a'|]; [apply IH|by apply framed_id].
Qed.
Lemma framed_loopM {A} ixs (f : nat → A → M A) a : (∀ i a, framed (f i a)) → framed (loopM ixs f a).
Proof.
  intros Hf. revert a. induction ixs as [|i ixs IH]; intros a; simpl; [by apply framed_id|].
  apply framed_bind; [done|]. intros a'. apply IH.
Qed.

Ltac framed_step :=
  match goal with
  | |- framed (mbind _ _) => apply framed_bind; [|intros ?]
  | |- framed (emit _) => intros ?; apply framed_emit; first [exact I | by_decision]
  | |- framed (dbQuery _ _) => intros ?; apply framed_query
  | |- framed (putSessions _) => intros ?; apply framed_sessions
  | |- framed (mret _) => by apply framed_id
  | |- framed (lift _) => by apply framed_id
  | |- framed getSessions => by apply framed_id
  | |- framed (drawLoop _ _) => apply framed_drawLoop
  | |- framed (forRowsM _ _ _) => apply framed_forRowsM; intros ? ?
  | |- framed (loopM _ _ _) => apply framed_loopM; intros ? ?
  | |- framed (if ?b then _ else _) => destruct b
  | |- framed (match ?x with _ => _ end) => destruct x
  | |- framed ?m => let h := head_of m in unfold h
  end; cbv beta iota.
Ltac framed := repeat framed_step.

Lemma authenticate_framed fuel req b q : framed (authenticate fuel req b q).
Proof. framed. Qed.
Lemma registerUser_framed fuel req b q : framed (registerUser fuel req b q).
Proof. framed. Qed.
Lemma handler_framed `{UnorderedMap} r req b q : framed (handler r req b q).
Proof. destruct r; framed. Qed.

Lemma onData_framed `{Curl} f req q buffer chunks :
  (∀ req b q, framed (f req b q)) → framed (onData f req q buffer chunks).
Proof.
  intros Hf. revert buffer. induction chunks as [|[data last] chunks IH]; intros buffer; simpl.
  - by apply framed_id.
  - apply framed_bind; [destruct last; [apply Hf|by apply framed_id]|]. intros _. apply IH.
Qed.

Lemma serve_framed `{Curl, UnorderedMap} fuel req chunks : framed (serve fuel req chunks).
Proof.
  assert (∀ f, (∀ req b q, framed (f req b q)) → framed (callWrapper f req chunks)) as Hwrap.
  { intros f Hf. unfold callWrapper. destruct (_ =? _)%Z; [apply Hf|by apply onData_framed]. }
  unfold serve. destruct (dispatch _ _); try apply Hwrap; intros;
    first [apply authenticate_framed | apply registerUser_framed | apply handler_framed | framed].
Qed.
End framed.

(** ** Headers *)

Definition plain_header (ev : event) : Prop :=
  match ev with EvHeader name _ => ":"%char ∉ name | _ => True end.
Definition plain_step `{Database} (w w' : world) : Prop :=
  ∃ evs, w_trace w' = w_trace w ++ evs ∧ Forall plain_header evs.

#[export] Instance plain_framed `{Database} : Framed plain_step.
Proof.
  split.
  - intros w. exists []. by rewrite app_nil_r.
  - intros w1 w2 w3 (e1 & E1 & H1) (e2 & E2 & H2).
    exists (e1 ++ e2). rewrite E2, E1, app_assoc. split; [done|by apply Forall_app].
  - intros ev w Hev. exists [ev]. split; [done|]. apply Forall_singleton. by destruct ev.
  - intros SQL ps w. unfold dbQuery. destruct (db_query _ _ _) as [[d [code r]]|e].
    all: eexists [_]; split; [reflexivity|]; by apply Forall_singleton.
  - intros s w. exists []. by rewrite app_nil_r.
  - intros w random. exists []. by rewrite app_nil_r.
Qed.

Lemma serve_plain `{Database, Curl, UnorderedMap} fuel req chunks w :
  ∃ evs, w_trace (serve fuel req chunks w).2 = w_trace w ++ evs ∧ Forall plain_header evs.
Proof. apply (serve_framed (R := plain_step) fuel req chunks w). Qed.

(** ** The database *)

#[export] Instance SQLResult_eq_dec : EqDecision SQLResult.
Proof. solve_decision. Defined.
#[export] Instance SQLCode_eq_dec : EqDecision SQLCode := Z.eq_dec.

(** The statements of a trace, put to the database one after the other; [None] when
    it answers one of them differently, or answers one that had no result. *)
Fixpoint replay `{Database} (d : db_state) (evs : list event) : option db_state :=
  match evs with
  | [] => Some d
  | EvQuery SQL ps code r :: evs' =>
      match db_query d SQL ps with
      | Ok (d', answer) => if decide (answer = (code, r)) then replay d' evs' else None
      | Raise _ => None
      end
  | EvLost SQL ps e :: evs' =>
      match db_query d SQL ps with
      | Ok _ => None
      | Raise e' => if decide (e' = e) then replay d evs' else None
      end
  | _ :: evs' => replay d evs'
  end.

Lemma replay_app `{Database} d evs evs' : replay d (evs ++ evs') = replay d evs ≫= λ d', replay d' evs'.
Proof.
  revert d. induction evs as [|ev evs IH]; intros d; [done|]. destruct ev; simpl; auto.
  all: destruct (db_query d SQL ps) as [[d' answer]|e']; [|]; try case_decide; auto.
Qed.

Definition replayed `{Database} (w w' : world) : Prop :=
  ∃ evs, w_trace w' = w_trace w ++ evs ∧ replay (w_db w) evs = Some (w_db w').

#[export] Instance replayed_framed `{Database} : Framed replayed.
Proof.
  split.
  - intros w. exists []. by rewrite app_nil_r.
  - intros w1 w2 w3 (e1 & E1 & H1) (e2 & E2 & H2).
    exists (e1 ++ e2). rewrite E2, E1, app_assoc, replay_app, H1. done.
  - intros ev w Hev. exists [ev]. split; [done|]. by destruct ev.
  - intros SQL ps w. unfold dbQuery. destruct (db_query _ _ _) as [[d [code r]]|e] eqn:E.
    + exists [EvQuery SQL ps code r]. split; [reflexivity|]. simpl. rewrite E. by rewrite decide_True.
    + exists [EvLost SQL ps e]. split; [reflexivity|]. simpl. rewrite E. by rewrite decide_True.
  - intros s w. exists []. by rewrite app_nil_r.
  - intros w random. exists []. by rewrite app_nil_r.
Qed.

(** The state of the database is the effect of the statements on record and of
    nothing else: whatever a request does, faults included, putting the statements
    it has added to the trace to the database as it was gives the answers on
    record and the database as it is. *)
Theorem serve_replays `{Database, Curl, UnorderedMap} fuel req chunks w random o w' :
  serve fuel req chunks (reseed w random) = (o, w') →
  ∃ evs, w_trace w' = w_trace w ++ evs ∧ replay (w_db w) evs = Some (w_db w').
Proof.
  intros E. pose proof (serve_framed (R := replayed) fuel req chunks (reseed w random)) as Hr.
  rewrite E in Hr. exact Hr.
Qed.
