(* ===== verification/Security.v ===== *)
(** Who may do what: the checks of the single routes beyond the level of the
    session, the ones that hold and the ones that fail. *)

From S2P Require Import Prelude CharConv Query Response Database Http Sql Auth Routes RouteLogic.
From S2P Require Import Double RouteAuth RouteUser RouteParts RouteVehicle RouteServices RouteServiceViews.
From S2P Require Import Policy RouteLax Trace.

(** Every statement the run of [m] from [w] issues satisfies [may]. *)
Definition asks_only `{Database} {A} (m : M A) (w : world) (may : text → params → Prop) : Prop :=
  ∃ evs, w_trace (m w).2 = w_trace w ++ evs ∧
    ∀ ev SQL ps, ev ∈ evs → asked ev = Some (SQL, ps) → may SQL ps.

Lemma asks_only_intro `{Database} {A} (m : M A) w may Q :
  wp (lax_contract may) (w_sessions w) m Q → asks_only m w may.
Proof.
  intros Hwp. destruct (Hwp (lax_answers _) w eq_refl) as (evs & Ht & _ & HF & _).
  exists evs. split; [done|]. intros ev SQL ps Hin Ha. rewrite Forall_forall in HF.
  specialize (HF _ Hin). by destruct ev; simplify_eq/=.
Qed.

(** Run a route for its statements only, leaving those to prove. *)
Ltac statements := eapply (asks_only_intro _ _ _ (λ _ _, True)); lax; try exact I; cbn.

(** A body or query string with the given field. *)
Definition field (b : queryBase) (name v : text) : Prop := elements b !! name = Some v.

(** ** Accounts *)

Section accounts.
Context `{Database, UnorderedMap}.

(** C19: nobody creates an account above himself: the level a login would read
    from the permissions handed to the database is at most the level of the
    session that created it, also where the cast to [int] wraps around. *)
Theorem createUser_no_escalation req b q w :
  asks_only (createUser req b q) w (λ SQL ps,
    SQL = sql_createUser ∧
    ∃ per l id ses, (T ":PER", per) ∈ ps ∧ from_chars_uint 32 per = Some l ∧
      getSessionID req = Some id ∧ w_sessions w !! id = Some ses ∧
      (int32 l ≤ authLevel_of ses ∧ employee ≤ authLevel_of ses)%Z).
Proof.
  statements; simplify_eq; (split; [done|]).
  all: repeat match goal with
  | E : verify _ _ _ = true |- _ => apply verify_Some in E as (? & ? & ? & ? & ?)
  end.
  all: simplify_eq; do 4 eexists; (split_and!; [|eassumption..]).
  all: do 2 apply list_elem_of_further; apply list_elem_of_here.
Qed.
End accounts.

(** ** Owners *)

Section owners.
Context `{Database, UnorderedMap}.

Definition entitled (w : world) (req : HttpRequest) (owner : text) (l : Z) : Prop :=
  isSessionUser (w_sessions w) req owner = true ∨ verify (w_sessions w) req l = true.

(** a vehicle is registered only for the user of the session itself, unless
    a manager does it. *)
Theorem createVehicle_owner req b q w :
  asks_only (createVehicle req b q) w (λ SQL ps,
    ∃ owner, field b (T "owner") owner ∧ entitled w req owner manager ∧
      (SQL = sql_createVehicle → (T ":OWN", owner) ∈ ps)).
Proof.
  unfold entitled. statements;
    (match goal with
     | Hf : hasElement b (T "owner") false = true |- _ =>
         apply hasElement_true in Hf as (owner & Hown & _)
     end);
    simplify_eq; exists owner; (split_and!; [done|auto|]); try (by intros [=]).
  all: intros _; do 3 apply list_elem_of_further; apply list_elem_of_here.
Qed.

End owners.

(** ** The parts of the services found *)

(** [SQL] is not [partsSQL], or it is bound to the cell in the column [col] of a
    row of a result that the search [searchSQL] has returned before. *)
Definition parts_of (partsSQL : text) (searchSQL : bool → text) (col : nat)
    (before : list event) (SQL : text) (ps : params) : Prop :=
  SQL = partsSQL → ∃ own ps0 code r n i id,
    EvQuery (searchSQL own) ps0 code r ∈ before ∧ isOK code = true ∧
    rowCount r = Ok n ∧ (i < n)%nat ∧ get r i col = Ok id ∧ ps = [(T ":ID", id)].

Definition of_found (before : list event) (SQL : text) (ps : params) : Prop :=
  parts_of sql_openParts sql_searchOpen 9 before SQL ps ∧
  parts_of sql_closedParts sql_searchClosed 0 before SQL ps.

Lemma of_found_mono h h' SQL ps : h ⊆ h' → of_found h SQL ps → of_found h' SQL ps.
Proof.
  intros Hh [H1 H2]. split; intros HS; [destruct (H1 HS) as (own & ps0 & code & r & n & i & id & ? & ?)
    |destruct (H2 HS) as (own & ps0 & code & r & n & i & id & ? & ?)];
    exists own, ps0, code, r, n, i, id; auto.
Qed.

(** Every statement of [evs], which come after [h], is bound that way. *)
Fixpoint tied (h evs : list event) : Prop :=
  match evs with
  | [] => True
  | ev :: evs' => (∀ SQL ps, asked ev = Some (SQL, ps) → of_found h SQL ps) ∧ tied (h ++ [ev]) evs'
  end.

Lemma tied_mono h h' evs : h ⊆ h' → tied h evs → tied h' evs.
Proof.
  revert h h'. induction evs as [|ev evs IH]; intros h h' Hh; simpl; [done|]. intros [H1 H2].
  split; [by eauto using of_found_mono|]. apply (IH (h ++ [ev])); [|done]. set_solver.
Qed.
Lemma tied_app h l1 l2 : tied h l1 → tied (h ++ l1) l2 → tied h (l1 ++ l2).
Proof.
  revert h. induction l1 as [|ev l1 IH]; intros h; simpl; [by rewrite app_nil_r|].
  intros [H1 H2] H3. split; [done|]. apply IH; [done|]. by rewrite <- app_assoc.
Qed.
Lemma tied_split h pre ev post SQL ps :
  tied h (pre ++ ev :: post) → asked ev = Some (SQL, ps) → of_found (h ++ pre) SQL ps.
Proof.
  revert h. induction pre as [|ev' pre IH]; intros h; simpl.
  - rewrite app_nil_r. intros [Hev _]. apply Hev.
  - intros [_ Ht] Ha. rewrite cons_middle, app_assoc. by apply IH.
Qed.

Section tied.
Context `{Database}.

Definition ties {A} (h : list event) (m : M A) : Prop := emits m (λ _ evs, tied h evs).

Lemma ties_silent {A} h (m : M A) : (∀ w, w_trace (m w).2 = w_trace w) → ties h m.
Proof. intros Hm. by apply emits_silent. Qed.
Lemma ties_emit h ev : asked ev = None → ties h (emit ev).
Proof. intros Ha. apply emits_emit. split; [by rewrite Ha|done]. Qed.
Lemma ties_bind {A B} h (m : M A) (f : A → M B) : ties h m → (∀ a, ties h (f a)) → ties h (m ≫= f).
Proof.
  intros Hm Hf. apply emits_bind. eapply emits_mono; [exact Hm|]. intros [a|] evs Ht; [|exact Ht].
  eapply emits_mono; [apply Hf|]. intros o evs' Ht'. apply tied_app; [done|].
  eapply tied_mono; [|exact Ht']. set_solver.
Qed.
Lemma ties_lift {A B} h (o : outcome A) (f : A → M B) :
  (∀ a, o = Ok a → ties h (f a)) → ties h (lift o ≫= f).
Proof. intros Hf. apply emits_bind, emits_lift; [|done]. intros a Ho. simpl. by apply Hf. Qed.
Lemma ties_query {B} h SQL ps (f : SQLCode * SQLResult → M B) :
  of_found h SQL ps → (∀ code r, ties (h ++ [EvQuery SQL ps code r]) (f (code, r))) →
  ties h (dbQuery SQL ps ≫= f).
Proof.
  intros Hs Hf. apply emits_bind, emits_dbQuery.
  - intros e. split; [|done]. by intros ? ? [= <- <-].
  - intros code r. eapply emits_mono; [apply Hf|]. intros o evs Ht.
    split; [|done]. by intros ? ? [= <- <-].
Qed.
Lemma ties_forRowsM {A} h ixs (f : nat → A → M (option A)) a :
  (∀ i a, i ∈ ixs → ties h (f i a)) → ties h (forRowsM ixs f a).
Proof.
  revert a. induction ixs as [|i ixs IH]; intros a Hf; simpl; [by apply ties_silent|].
  apply ties_bind; [apply Hf, list_elem_of_here|].
  intros [a'|]; [|by apply ties_silent]. apply IH. intros j a'' Hj. by apply Hf, list_elem_of_further.
Qed.
End tied.

Ltac ties_step :=
  match goal with
  | |- ties _ (lift _ ≫= _) => apply ties_lift; intros ? ?
  | |- ties _ (dbQuery _ _ ≫= _) => apply ties_query; [|intros ? ?]
  | |- ties _ (mbind _ _) => apply ties_bind; [|intros ?]
  | |- ties _ (emit _) => by apply ties_emit
  | |- ties _ (mret _) => by apply ties_silent
  | |- ties _ (lift _) => by apply ties_silent
  | |- ties _ getSessions => by apply ties_silent
  | |- ties _ (forRowsM (seq 0 _) _ _) =>
      apply ties_forRowsM; intros ? ? ?%elem_of_seq
  | |- ties _ (if ?b then _ else _) => let E := fresh "E" in destruct b eqn:E
  | |- ties _ (match ?x with _ => _ end) => let E := fresh "E" in destruct x eqn:E
  | |- ties _ ?m => let h := head_of m in unfold h
  end; cbv beta iota.

(** The searches themselves are not lookups of parts. *)
Lemma search_of_found h SQL ps : SQL ≠ sql_openParts → SQL ≠ sql_closedParts → of_found h SQL ps.
Proof. intros H1 H2. by split; intros HS. Qed.

Lemma searchServices_ties `{Database} req b q : ties [] (searchServices req b q).
Proof.
  repeat ties_step.
  all: try (apply search_of_found; destruct (hasElement q (T "UID") false); by_decision).
  all: split; intros HS; try (exfalso; revert HS; by_decision).
  all: repeat match goal with E : negb _ = false |- _ => apply negb_false_iff in E end.
  all: do 7 eexists; (split; [apply elem_of_app; right; apply list_elem_of_here|]).
  all: split_and!; [eassumption|eassumption| |eassumption|reflexivity].
  all: lia.
Qed.

(** What a session below employee may ask when the statements of [before] have been
    answered: the three searches narrowed to its own user, and the parts of a
    service that the search of that kind, narrowed so, has found before. *)
Definition found_own (u : Z) (searchSQL : bool → text) (col : nat) (before : list event)
    (ps : params) : Prop :=
  ∃ code r n i id,
    EvQuery (searchSQL true) [(T ":ID", to_string u)] code r ∈ before ∧ isOK code = true ∧
    rowCount r = Ok n ∧ (i < n)%nat ∧ get r i col = Ok id ∧ ps = [(T ":ID", id)].

Definition own_services `{Database} (w : world) (req : HttpRequest) (before : list event)
    (SQL : text) (ps : params) : Prop :=
  ∃ u, getSessionUser (w_sessions w) req = Some u ∧
    ((SQL ∈ [sql_searchUnauthorised true; sql_searchOpen true; sql_searchClosed true] ∧
      ps = [(T ":ID", to_string u)]) ∨
     (SQL = sql_openParts ∧ found_own u sql_searchOpen 9 before ps) ∨
     (SQL = sql_closedParts ∧ found_own u sql_searchClosed 0 before ps)).

Section own.
Context `{Database, UnorderedMap}.

(** The statements by themselves: the searches are narrowed to the session's user. *)
Definition narrowed (w : world) (req : HttpRequest) (SQL : text) (ps : params) : Prop :=
  ∃ u, getSessionUser (w_sessions w) req = Some u ∧
    (SQL ∈ [sql_openParts; sql_closedParts] ∨
     (SQL ∈ [sql_searchUnauthorised true; sql_searchOpen true; sql_searchClosed true] ∧
      ps = [(T ":ID", to_string u)])).

Lemma searchServices_narrowed req b q w :
  verify (w_sessions w) req employee = false →
  asks_only (searchServices req b q) w (narrowed w req).
Proof.
  intros Hv. statements; try congruence; simplify_eq.
  all: match goal with E : text_eqb _ _ = true |- _ => apply text_eqb_eq in E as <- end.
  all: eexists; split; [eassumption|].
  all: first [left; one_of | right; split; [one_of|done] | exfalso].
  all: match goal with
       | Hu : elements _ !! _ = Some (to_string _), Hn : hasElement _ _ false = false |- _ =>
           by rewrite (hasElement_some _ _ _ _ Hu (to_string_nonempty _)) in Hn
       end.
Qed.

(** A search among the statements is the narrowed one, for the session's user. *)
Lemma narrowed_search w req u searchSQL own ps :
  searchSQL = sql_searchOpen ∨ searchSQL = sql_searchClosed →
  getSessionUser (w_sessions w) req = Some u → narrowed w req (searchSQL own) ps →
  searchSQL own = searchSQL true ∧ ps = [(T ":ID", to_string u)].
Proof.
  intros Hs Hu (u' & Hu' & Hcase). rewrite Hu in Hu'. injection Hu' as <-.
  destruct Hcase as [Hin|[Hin ->]].
  - exfalso. revert Hin. destruct Hs as [-> | ->], own; by_decision.
  - split; [|done]. destruct own; [done|]. exfalso. revert Hin. destruct Hs as [-> | ->]; by_decision.
Qed.

(** C24: a session below employee is shown only its own services: every search it
    causes is the narrowed one, for its own identifier, and the parts it asks
    for are those of a service, column 9 of an open or column 0 of a closed
    one, in a row that such a search of the same request has returned before. *)
Theorem searchServices_own req b q w :
  verify (w_sessions w) req employee = false →
  ∃ evs, w_trace (searchServices req b q w).2 = w_trace w ++ evs ∧
    ∀ before ev after SQL ps, evs = before ++ ev :: after → asked ev = Some (SQL, ps) →
      own_services w req before SQL ps.
Proof.
  intros Hv. destruct (searchServices_narrowed req b q w Hv) as (evs & Ht & Hn).
  destruct (searchServices_ties req b q w) as (evs' & Ht' & Htied).
  rewrite Ht in Ht'. apply app_inv_head in Ht' as <-.
  exists evs. split; [done|]. intros before ev after SQL ps -> Ha.
  destruct (tied_split [] _ _ _ _ _ Htied Ha) as [Hopen Hclosed]. cbn in Hopen, Hclosed.
  destruct (Hn ev SQL ps) as (u & Hu & Hcase); [set_solver|done|]. exists u. split; [done|].
  destruct Hcase as [Hparts|Hsearch]; [right|by left].
  assert (∀ searchSQL own ps0 code r, searchSQL = sql_searchOpen ∨ searchSQL = sql_searchClosed →
    EvQuery (searchSQL own) ps0 code r ∈ before →
    EvQuery (searchSQL true) [(T ":ID", to_string u)] code r ∈ before) as Hmine.
  { intros searchSQL own ps0 code r Hs Hin.
    destruct (narrowed_search w req u searchSQL own ps0) as [<- <-]; [done..| |done].
    apply (Hn (EvQuery (searchSQL own) ps0 code r)); [set_solver|done]. }
  assert (SQL = sql_openParts ∨ SQL = sql_closedParts) as [-> | ->] by set_solver; [left|right].
  - split; [done|]. destruct Hopen as (own & ps0 & code & r & n & i & id & Hin & ?); [done|].
    exists code, r, n, i, id. split; [|done]. eapply Hmine; [by auto|done].
  - split; [done|]. destruct Hclosed as (own & ps0 & code & r & n & i & id & Hin & ?); [done|].
    exists code, r, n, i, id. split; [|done]. eapply Hmine; [by auto|done].
Qed.
End own.

Section quantities.
Context `{Database, UnorderedMap}.

(** the quantity added to a service is a number and at least 1. *)
Theorem addPart_positive req b q w :
  asks_only (addPartToService req b q) w (λ SQL ps, Forall (λ kv,
    kv.1 = T ":QNT" → ∃ n, from_chars_uint 64 kv.2 = Some n ∧ (1 ≤ n)%Z) ps).
Proof.
  statements; simplify_eq.
  all: repeat (apply Forall_cons; split; [cbn [fst snd]; intros Hk|]); try by constructor.
  all: first [by vm_compute in Hk | by exists 1%Z | clear Hk].
  all: repeat case_match; simplify_eq/=; eexists; (split; [done|]); lia.
Qed.
End quantities.

(** ** Runs on known answers *)

Section runs.
Context `{Database, UnorderedMap}.

(** C36: only the owner, or a manager, gets past the owner check of the vehicle
    routes: for anyone else the lookup of the owner is the only statement, and
    the answer is 403. *)
Theorem vehicle_denied r req b q w id d code res owner :
  r = R_updateVehicle ∨ r = R_deleteVehicle →
  field b (T "ID") id → id ≠ [] →
  db_query (w_db w) sql_vehicleOwner [(T ":ID", id)] = Ok (d, (code, res)) →
  get res 0 0 = Ok owner →
  isSessionUserFromID (w_sessions w) req owner = false →
  verify (w_sessions w) req manager = false →
  ∃ w', handler r req b q w = (Ok tt, w') ∧
    w_trace w' = w_trace w ++ [EvQuery sql_vehicleOwner [(T ":ID", id)] code res;
                               EvStatus FORBIDDEN; EvEnd []].
Proof.
  intros Hr Hid Hne Hq Hg Ho Hv. unfold field in Hid.
  pose proof (hasElement_some _ _ _ false Hid Hne) as Hhas.
  destruct Hr as [-> | ->]; cbn [handler];
    unfold updateVehicle, deleteVehicle; rewrite Hhas; cbn [negb];
    do 4 run1; cbn [w_sessions w_db]; rewrite Ho, Hv; cbn [negb andb];
    (eexists; split; [reflexivity|]); cbn; by rewrite <- !app_assoc.
Qed.

(** C37: an employee cannot delete an account above his own level: the lookup of
    the account's level is the only statement, and the answer is 403. *)
Theorem deleteUser_superior req b q w id d code res per l :
  field b (T "ID") id → id ≠ [] →
  verify (w_sessions w) req employee = true →
  db_query (w_db w) sql_userPermissions [(T ":ID", id)] = Ok (d, (code, res)) → isOK code = true →
  shape 1 1 res → get res 0 0 = Ok per → from_chars_uint 32 per = Some l →
  verify (w_sessions w) req (int32 l) = false →
  ∃ w', deleteUser req b q w = (Ok tt, w') ∧
    w_trace w' = w_trace w ++ [EvQuery sql_userPermissions [(T ":ID", id)] code res;
                               EvStatus FORBIDDEN; EvEnd []].
Proof.
  intros Hid Hne Hemp Hq Hok Hs Hg Hl Hv. unfold field in Hid. apply shape_rowCount in Hs.
  unfold deleteUser. rewrite (hasElement_some _ _ _ false Hid Hne). cbn [negb].
  run1. rewrite Hemp. cbn [negb]. do 2 run1. rewrite Hok. cbn [negb].
  run1. change (bool_decide (1%nat = 0%nat)) with false. cbn iota. run1. rewrite Hl. cbn [w_sessions]. rewrite Hv.
  eexists. split; [reflexivity|]. cbn. by rewrite <- !app_assoc.
Qed.

(** C20: [updateUser] checks the level asked for in the field "permission", but
    writes the one in the field "permissions": a session that may edit an
    account at all gives it any level, its own account included. *)
Theorem updateUser_unchecked req b q w id per level d code res d2 code2 res2 l :
  elements b = {[ T "ID" := id; T "permissions" := level ]} → id ≠ [] → level ≠ [] →
  verify (w_sessions w) req employee = true →
  db_query (w_db w) sql_userPermissions [(T ":ID", id)] = Ok (d, (code, res)) → isOK code = true →
  shape 1 1 res → get res 0 0 = Ok per → from_chars_uint 32 per = Some l →
  verify (w_sessions w) req (int32 l) = true →
  let SQL := sql_updateUser (T "PERMISSIONS = " ++ quoted level) in
  db_query d SQL [(T ":ID", id)] = Ok (d2, (code2, res2)) →
  ∃ w' rest, updateUser req b q w = (Ok tt, w') ∧ w_trace w' = w_trace w ++ rest ∧
    queries rest = [(sql_userPermissions, [(T ":ID", id)]); (SQL, [(T ":ID", id)])].
Proof.
  intros Hb Hne Hnl Hemp Hq Hok Hs Hg Hl Hv SQL Hq2. apply shape_rowCount in Hs.
  assert (field b (T "ID") id) as Hid by (unfold field; by rewrite Hb).
  assert (hasElement b (T "permission") false = false) as Hperm by (unfold hasElement; by rewrite Hb).
  assert (generateUpdateStatement b (iteration userRelations) = Ok (T "PERMISSIONS = " ++ quoted level))
    as Hup.
  { rewrite generateUpdateStatement_run. f_equal.
    assert (omap (assignment b) userRelations = [T "PERMISSIONS = " ++ quoted level]) as Hu.
    { assert (assignment b (T "username", T "USERNAME") = None) as E1
        by (unfold assignment; by rewrite Hb).
      assert (assignment b (T "password", T "PASSWORD") = None) as E2
        by (unfold assignment; by rewrite Hb).
      assert (assignment b (T "permissions", T "PERMISSIONS") =
              Some (T "PERMISSIONS = " ++ quoted level)) as E3.
      { unfold assignment. rewrite Hb. cbn [fst snd].
        assert (({[T "ID" := id; T "permissions" := level]} : gmap text text) !! T "permissions"
                = Some level) as -> by done.
        cbn [mbind option_bind]. by rewrite bool_decide_false. }
      unfold userRelations. cbn [omap list_omap]. by rewrite E1, E2, E3. }
    assert (omap (assignment b) (iteration userRelations) = [T "PERMISSIONS = " ++ quoted level]) as ->;
      [|done].
    apply Permutation_singleton_r. rewrite <- Hu. apply omap_Permutation, iteration_perm. }
  destruct (verify_session _ _ _ Hemp) as [ses Hses]. unfold field in Hid.
  unfold updateUser. rewrite (hasElement_some _ _ _ false Hid Hne). cbn [negb].
  run1. rewrite Hemp. cbn [negb]. unfold permissionRefused. rewrite Hperm.
  do 3 run1. rewrite Hok. cbn [negb]. run1.
  change (bool_decide (1%nat = 0%nat)) with false. cbn iota. run1. rewrite Hl. cbn [w_sessions].
  rewrite Hv. cbn [negb].
  run1. rewrite bool_decide_false by done. do 2 run1.
  destruct (isOK code2); cbn [negb]; run1.
  all: erewrite bind_ok; [|eapply logSession_run; [done|]; rewrite bind_eq;
         unfold lift; rewrite (getElement_run _ _ _ Hid); reflexivity].
  all: do 2 eexists; split; [reflexivity|]; cbn; split; [by rewrite <- !app_assoc|reflexivity].
Qed.
End runs.
