(* ===== verification/Behaviour.v ===== *)
(** What single routes do on their main paths: which statements they send in
    which order, and what they answer. *)

From S2P Require Import Prelude CharConv Query Response ResponseSpec Database Http Sql Auth Routes RouteLogic.
From S2P Require Import RouteAuth RouteUser RouteParts RouteVehicle RouteServices Trace Security.

(** ** Logging in and out *)

Section accounts.
Context `{Database}.

(** C38: registering stores the password as it was typed but logs in with its
    transform, which differs: the account just made does not match.  (Only a
    first statement that never comes back keeps the second from being asked.) *)
Theorem registerUser_mismatch fuel req b q username password :
  field b (T "username") username → field b (T "password") password →
  username ≠ [] → password ≠ [] →
  emits (registerUser fuel req b q) (λ _ evs,
    queries evs = [(sql_registerUser, [(T ":USR", username); (T ":PAS", password)]);
                   (sql_login, [(T ":USR", username); (T ":PWD", hash password)])] ∨
    ∃ e, evs = [EvLost sql_registerUser [(T ":USR", username); (T ":PAS", password)] e]) ∧
  hash password ≠ password.
Proof.
  intros Hu Hp Hun Hpn. split; [|by apply hash_ne]. unfold field in *.
  assert (containsAll b [T "username"; T "password"] false = true) as Hall
    by by eapply containsAll_login.
  apply getElement_run in Hu, Hp.
  unfold registerUser, authenticate, request. rewrite Hall, Hu, Hp. cbn [negb].
  repeat (emits_step; simplify_eq).
  all: repeat match goal with
       | E : bool_decide _ = true |- _ => apply bool_decide_eq_true in E
       | H1 : getElement ?m ?n = Ok ?x, H2 : getElement ?m ?n = Ok ?y |- _ =>
           assert (x = y) as -> by congruence; clear H1
       end.
  all: first [left; reflexivity | congruence | right; by eexists].
Qed.

(** A client whose session the server no longer knows (its cookie survived
    a restart, say) gets no answer from [checkSession]: the server faults, with
    the status 200 already written. *)
Theorem checkSession_stale req w id :
  getSessionID req = Some id → w_sessions w !! id = None →
  ∃ w', checkSession req w = (Raise BadOptionalAccess, w') ∧
    w_trace w' = w_trace w ++ [EvStatus OK].
Proof.
  intros Hid Hno. unfold checkSession, hasSession. rewrite Hid. do 2 run1.
  cbn [w_sessions]. unfold getSessionAuthLevel. rewrite Hid, Hno. cbn [fmap option_fmap option_map].
  eexists. by split.
Qed.
End accounts.

(** ** Services *)

Section services.
Context `{Database}.

(** C25: taking parts off a service: as long as fewer are taken than recorded
    the entry is decreased, which leaves at least one; otherwise the entry is
    removed.  The quantity never goes below zero. *)
Theorem removePart_quantity req b q w entry d code res stored current amount n d2 code2 res2 :
  field b (T "entry") entry → entry ≠ [] → verify (w_sessions w) req employee = true →
  db_query (w_db w) sql_entryQuantity [(T ":ID", entry)] = Ok (d, (code, res)) → isOK code = true →
  shape 1 1 res → get res 0 0 = Ok stored → from_chars_uint 64 stored = Some current →
  field b (T "quantity") amount → amount ≠ [] → from_chars_uint 64 amount = Some n → (0 < n)%Z →
  let change := if (current <=? n)%Z then (sql_deleteEntry, [(T ":ID", entry)])
                else (sql_decreaseQuantity, [(T ":QNT", amount); (T ":ID", entry)]) in
  db_query d change.1 change.2 = Ok (d2, (code2, res2)) →
  ∃ w' rest, removePartFromService req b q w = (Ok tt, w') ∧ w_trace w' = w_trace w ++ rest ∧
    queries rest = [(sql_entryQuantity, [(T ":ID", entry)]); change].
Proof.
  intros He Hne Hemp Hq Hok Hs Hg Hcur Ha Han Hn Hpos change Hq2. unfold field in *.
  apply shape_rowCount in Hs. destruct (verify_session _ _ _ Hemp) as [ses Hses].
  unfold removePartFromService. rewrite (hasElement_some _ _ _ false He Hne). cbn [negb].
  run1. rewrite Hemp. cbn [negb]. do 2 run1. rewrite Hok. cbn [negb]. run1.
  change (bool_decide (1%nat = 0%nat)) with false. cbn iota. run1. rewrite Hcur.
  rewrite (hasElement_some _ _ _ false Ha Han).
  erewrite bind_ok; [|rewrite bind_eq; unfold lift; rewrite (getElement_run _ _ _ Ha); reflexivity].
  rewrite Hn. destruct (Z.leb_spec n 0); [lia|]. subst change.
  destruct (current <=? n)%Z; cbn [fst snd] in *.
  all: repeat run1; destruct (isOK code2); cbn [negb];
         first [run1 | erewrite bind_ok; [|eapply logSession_run; [done|reflexivity]]].
  all: do 2 eexists; split; [reflexivity|]; cbn; split; [by rewrite <- !app_assoc|reflexivity].
Qed.

(** C26: authorising a request moves it: it is looked up among the unauthorised
    ones, and only if it is there, once, it leaves them, enters the active
    services under the manager's own name, and is opened, in this order. *)
Theorem authorise_moves req b q w id quote u d code res rows d2 code2 res2 d3 code3 res3 d4 code4 res4 :
  field b (T "ID") id → id ≠ [] → field b (T "quote") quote → elements b !! T "notes" = None →
  verify (w_sessions w) req manager = true → getSessionUser (w_sessions w) req = Some u →
  db_query (w_db w) sql_findUnauthorised [(T ":ID", id)] = Ok (d, (code, res)) → isOK code = true →
  shape 1 rows res →
  db_query d sql_deleteUnauthorised [(T ":ID", id)] = Ok (d2, (code2, res2)) → isOK code2 = true →
  let active := [(T ":ID", id); (T ":NOT", []); (T ":UID", to_string u); (T ":QOT", quote)] in
  db_query d2 sql_createActive active = Ok (d3, (code3, res3)) → isOK code3 = true →
  db_query d3 sql_createOpen [] = Ok (d4, (code4, res4)) →
  ∃ w' rest, authoriseRequest req b q w = (Ok tt, w') ∧ w_trace w' = w_trace w ++ rest ∧
    if bool_decide (rows = 1%nat)
    then queries rest = [(sql_findUnauthorised, [(T ":ID", id)]);
                         (sql_deleteUnauthorised, [(T ":ID", id)]);
                         (sql_createActive, active); (sql_createOpen, [])]
    else rest = [EvQuery sql_findUnauthorised [(T ":ID", id)] code res;
                 EvStatus NOTFOUND; EvEnd []].
Proof.
  intros Hid Hne Hqt Hnotes Hmgr Hu Hq Hok Hs Hq2 Hok2 active Hq3 Hok3 Hq4. unfold field in *.
  apply shape_rowCount in Hs. destruct (verify_session _ _ _ Hmgr) as [ses Hses].
  unfold authoriseRequest. rewrite (hasElement_some _ _ _ false Hid Hne). cbn [negb andb].
  run1. rewrite Hmgr. cbn [negb]. do 2 run1. rewrite Hok. cbn [negb]. run1.
  case_bool_decide; cbn [negb].
  - do 2 run1. rewrite Hok2. cbn [negb]. cbn [w_sessions].
    erewrite bind_ok by (apply lift_run; by rewrite Hu). run1.
    erewrite bind_ok by (unfold elementOr, hasElement; by rewrite Hnotes).
    do 2 run1. rewrite Hok3. cbn [negb]. run1. destruct (isOK code4); cbn [negb];
      first [run1 | erewrite bind_ok; [|eapply logSession_run; [done|reflexivity]]].
    all: do 2 eexists; split; [reflexivity|]; cbn; split; [by rewrite <- !app_assoc|reflexivity].
  - do 2 eexists. split; [reflexivity|]. cbn. split; [by rewrite <- !app_assoc|reflexivity].
Qed.
End services.

(** ** What a search answers *)

(** Texts the wire format can carry. *)
Definition rows_clean (r : SQLResult) : Prop := Forall value_clean (data r).

Lemma cell_clean r i j : rows_clean r → value_clean (cell r i j).
Proof.
  intros Hr. unfold cell. destruct (data r !! _) eqn:E; simpl; [|constructor].
  unfold rows_clean in Hr. rewrite Forall_forall in Hr. apply Hr. by eapply list_elem_of_lookup_2.
Qed.

Lemma record_clean r i keys :
  rows_clean r → Forall (λ k, key_clean k.1) keys → clean (record_of r i keys).
Proof.
  intros Hr Hk. constructor. apply Forall_fmap.
  eapply Forall_impl; [exact Hk|]. intros [k c] Hkc. split; [exact Hkc|].
  constructor. constructor; [by apply cell_clean|constructor].
Qed.

Lemma record_normalise r i keys : normalise (record_of r i keys) = record_of r i keys.
Proof.
  unfold record_of. cbn [normalise]. f_equal.
  - rewrite <- list_fmap_compose. by apply list_fmap_ext.
  - induction keys as [|k keys IH]; [done|]. cbn. by f_equal.
Qed.

(** The response a search builds is read back as the list of its rows. *)
Lemma rows_read_back key keys r rows forced :
  rows_clean r → key_clean key → Forall (λ k, key_clean k.1) keys → rows ≠ 0%nat →
  let w := RW [(key, Objects ((λ i, record_of r i keys) <$> seq 0 rows))] [forced] in
  (Z.of_nat (length (compact w)) < 2 ^ 64)%Z →
  toData w false = Ok (compact w) ∧
  fromData (compact w) = Ok (Some
    (RW [(key, Objects ((λ i, record_of r i keys) <$> seq 0 rows))] [(1 <? rows)%nat || forced])).
Proof.
  intros Hr Hkey Hkeys Hn w Hl.
  assert (wf w) as Hw.
  { constructor; [done|]. repeat constructor; [by destruct rows|].
    apply Forall_fmap, Forall_true. intros i. apply record_wf. }
  split; [by apply toData_compact|]. rewrite fromData_compact; [|done| |done].
  - do 2 f_equal. subst w. cbn [normalise fmap list_fmap zip_with fst snd container_size]. f_equal.
    + do 2 f_equal. rewrite <- list_fmap_compose. f_equal. apply list_fmap_ext. intros i x _.
      apply record_normalise.
    + rewrite length_fmap, length_seq. do 2 f_equal.
      destruct (Nat.ltb_spec 1 rows); case_bool_decide; (done || lia).
  - constructor. repeat constructor; [done|]. apply Forall_fmap, Forall_true. intros i.
    by apply record_clean.
Qed.

Section search.
Context `{Database}.

Lemma searchSuppliers_read req b q w term d code res rows :
  field q (T "searchterm") term → verify (w_sessions w) req employee = true →
  db_query (w_db w) sql_searchSuppliers [(T ":VAL", generateLIKEArgument term)] = Ok (d, (code, res)) →
  isOK code = true → shape 4 rows res → rows ≠ 0%nat → rows_clean res →
  let suppliers := Objects ((λ i, record_of res i supplierKeys) <$> seq 0 rows) in
  (Z.of_nat (length (compact (RW [(T "Suppliers", suppliers)] [false]))) < 2 ^ 64)%Z →
  ∃ w' line answer, searchSuppliers req b q w = (Ok tt, w') ∧
    w_trace w' = w_trace w ++
      [EvLog line; EvQuery sql_searchSuppliers [(T ":VAL", generateLIKEArgument term)] code res;
       EvTryEnd answer] ∧
    fromData answer = Ok (Some (RW [(T "Suppliers", suppliers)] [(1 <? rows)%nat])).
Proof.
  intros Ht Hemp Hq Hok Hs Hrows Hclean suppliers Hlen. unfold field in Ht.
  destruct (verify_session _ _ _ Hemp) as [ses Hses].
  pose proof (shape_rowCount _ _ _ Hs) as Hcount.
  destruct (rows_read_back (T "Suppliers") supplierKeys res rows false) as [Hdata Hread];
    [done|by_decision|by_decision|done|done|].
  assert (hasElement q (T "searchterm") true = true) as Hhas by (apply hasElement_true; eauto).
  unfold searchSuppliers. rewrite Hhas. cbn [negb]. run1. rewrite Hemp. cbn [negb].
  erewrite bind_ok; [|eapply logSession_run; [done|]; rewrite bind_eq; unfold lift;
    rewrite (getElement_run _ _ _ Ht); reflexivity].
  do 2 run1. rewrite Hok. cbn [negb]. run1. rewrite bool_decide_false by done. cbn [negb].
  erewrite bind_ok by (apply lift_run; eapply addRows_run; [exact Hs|vm_compute; reflexivity|exact Hrows]).
  unfold tryEndData. erewrite bind_ok by (apply lift_run; exact Hdata).
  rewrite orb_false_r in Hread. do 3 eexists. split; [reflexivity|].
  split; [cbn [w_trace snd]; by rewrite <- !app_assoc|exact Hread].
Qed.

(** The answer of a supplier search, read by the client's own parser, is
    the list of the rows the database returned, in their order, each with its
    four cells under their names. *)
Theorem searchSuppliers_answer req b q w term d code res rows :
  field q (T "searchterm") term → verify (w_sessions w) req employee = true →
  db_query (w_db w) sql_searchSuppliers [(T ":VAL", generateLIKEArgument term)] = Ok (d, (code, res)) →
  isOK code = true → shape 4 rows res → rows ≠ 0%nat → rows_clean res →
  let suppliers := Objects ((λ i, record_of res i supplierKeys) <$> seq 0 rows) in
  (Z.of_nat (length (compact (RW [(T "Suppliers", suppliers)] [false]))) < 2 ^ 64)%Z →
  ∃ w' line answer, searchSuppliers req b q w = (Ok tt, w') ∧
    w_trace w' = w_trace w ++
      [EvLog line; EvQuery sql_searchSuppliers [(T ":VAL", generateLIKEArgument term)] code res;
       EvTryEnd answer] ∧
    fromData answer = Ok (Some (RW [(T "Suppliers", suppliers)] [(1 <? rows)%nat])).
Proof. apply searchSuppliers_read. Qed.
End search.
