(* ===== verification/ViewFacts.v ===== *)
(** What the views of one service answer: the parts of a service with the exact
    total of their prices, and the whole answer of [selectService] for a service
    that has been authorised. *)

From S2P Require Import Prelude CharConv Query Response ResponseSpec Database Http Sql Auth Routes RouteLogic.
From S2P Require Import Double DoubleFacts RouteServices RouteServiceViews Security Behaviour.

(** ** The parts of a service *)

(** The sum of [f] over the first [n] numbers. *)
Fixpoint sum_to (f : nat → Z) (n : nat) : Z :=
  match n with O => 0%Z | S n' => (sum_to f n' + f n')%Z end.

Lemma sum_to_nonneg f n : (∀ i, (i < n)%nat → (0 ≤ f i)%Z) → (0 ≤ sum_to f n)%Z.
Proof.
  induction n as [|n IH]; intros Hf; simpl; [lia|].
  pose proof (IH (λ i Hi, Hf i ltac:(lia))). pose proof (Hf n ltac:(lia)). lia.
Qed.

Lemma sum_to_le f n m : (n ≤ m)%nat → (∀ i, (i < m)%nat → (0 ≤ f i)%Z) → (sum_to f n ≤ sum_to f m)%Z.
Proof.
  induction 1 as [|m _ IH]; intros Hf; [lia|]. simpl.
  pose proof (IH (λ i Hi, Hf i ltac:(lia))). pose proof (Hf m ltac:(lia)). lia.
Qed.

(** A result whose prices and quantities are the whole numbers [price] and
    [quantity], as the columns of the tables are declared. *)
Record priced (r : SQLResult) (rows priceCol quantityCol : nat) (price quantity : nat → Z) : Prop := {
  priced_price : ∀ i, (i < rows)%nat → cell r i priceCol = to_string (price i) ∧ whole_range (price i);
  priced_quantity : ∀ i, (i < rows)%nat → cell r i quantityCol = to_string (quantity i) ∧ whole_range (quantity i);
  priced_sum : (sum_to (λ i, price i * quantity i) rows < 2 ^ 53)%Z;
}.

(** What a service's parts are shown as: nothing without a part. *)
Definition parts_field (r : SQLResult) (keys : list (text * nat)) (n : nat) : list (text * elementContainer) :=
  match n with O => [] | _ => [(T "parts", Objects ((λ i, record_of r i keys) <$> seq 0 n))] end.
Definition parts_forced (n : nat) : list bool := match n with O => [] | _ => [true] end.
Definition total_field (t : Z) : text * elementContainer := (T "total", Strings [to_string t ++ T ".000000"]).

Lemma addObject_parts els fs r keys n :
  T "parts" ∉ els.*1 →
  addObject (RW (els ++ parts_field r keys n) (fs ++ parts_forced n)) (T "parts") (record_of r n keys) true
  = Ok (RW (els ++ parts_field r keys (S n)) (fs ++ parts_forced (S n))).
Proof.
  intros Hnew. apply find_None in Hnew. unfold addObject, genericAdd. destruct n as [|n].
  { simpl. rewrite !app_nil_r, Hnew. done. }
  rewrite find_app, Hnew. cbn [parts_field find_]. rewrite text_eqb_refl.
  assert (∀ l, push_existing (els ++ [(T "parts", Objects l)]) (T "parts") (AObject (record_of r (S n) keys))
    = Ok (els ++ [(T "parts", Objects (l ++ [record_of r (S n) keys]))])) as Hpush.
  { intros l. clear -Hnew. induction els as [|[k c] els IH]; simpl in *.
    - by rewrite text_eqb_refl.
    - destruct (text_eqb k (T "parts")); [done|]. by rewrite IH. }
  rewrite Hpush, bind_Ok. cbn [parts_forced].
  replace ((λ i, record_of r i keys) <$> seq 0 (S (S n)))
    with (((λ i, record_of r i keys) <$> seq 0 (S n)) ++ [record_of r (S n) keys]); [done|].
  rewrite (seq_S (S n)), fmap_app. done.
Qed.

(** ** The wire form of a view *)

(** Fields with one text each. *)
Definition fields (kvs : list (text * text)) : list (text * elementContainer) :=
  (λ kv, (kv.1, Strings [kv.2])) <$> kvs.
Definition row_texts (r : SQLResult) (keys : list (text * nat)) : list (text * text) :=
  (λ k, (k.1, cell r 0 k.2)) <$> keys.

(** Single fields, the parts, single fields. *)
Definition view (before : list (text * text)) (r : SQLResult) (keys : list (text * nat)) (n : nat)
    (after : list (text * text)) : responseWrapper :=
  RW (fields before ++ parts_field r keys n ++ fields after)
     (replicate (length before) false ++ parts_forced n ++ replicate (length after) false).

Lemma view_wf before r keys n after : wf (view before r keys n after).
Proof.
  assert (∀ kvs, Forall (λ kc, wf_container kc.2) (fields kvs)) as Hfields.
  { intros kvs. apply Forall_fmap, Forall_true. intros kv. by constructor. }
  constructor.
  - unfold fields. rewrite !length_app, !length_fmap, !length_replicate. by destruct n.
  - rewrite !Forall_app. split_and!; [done| |done]. destruct n; constructor; [|done].
    constructor; [done|]. apply Forall_fmap, Forall_true. intros i. apply record_wf.
Qed.

Lemma view_clean before r keys n after :
  Forall (λ kv, key_clean kv.1 ∧ value_clean kv.2) (before ++ after) →
  rows_clean r → Forall (λ k, key_clean k.1) keys → clean (view before r keys n after).
Proof.
  intros [Hb Ha]%Forall_app Hr Hk.
  assert (∀ kvs, Forall (λ kv, key_clean kv.1 ∧ value_clean kv.2) kvs →
    Forall (λ kc, key_clean kc.1 ∧ texts_ok_container key_clean value_clean kc.2) (fields kvs)) as Hfields.
  { intros kvs Hkvs. apply Forall_fmap. eapply Forall_impl; [exact Hkvs|]. intros kv [? ?].
    split; [done|]. constructor. by repeat constructor. }
  constructor. rewrite !Forall_app. split_and!; [by apply Hfields| |by apply Hfields].
  destruct n; constructor; [|constructor]. split; [by_decision|]. constructor.
  apply Forall_fmap, Forall_true. intros i. by apply record_clean.
Qed.

Lemma view_normalise before r keys n after :
  normalise (view before r keys n after) = view before r keys n after.
Proof.
  assert (∀ kvs, zip_with (λ (kc : text * elementContainer) f, bool_decide (1 < container_size kc.2)%nat || f)
    (fields kvs) (replicate (length kvs) false) = replicate (length kvs) false) as Hforced.
  { induction kvs as [|kv kvs IH]; [done|]. cbn. by f_equal. }
  assert (∀ kvs, length (fields kvs) = length (replicate (length kvs) false)) as Hlen.
  { intros kvs. unfold fields. by rewrite length_fmap, length_replicate. }
  unfold view. cbn [normalise]. f_equal.
  - rewrite !fmap_app. f_equal; [|f_equal].
    + unfold fields. rewrite <- list_fmap_compose. by apply list_fmap_ext.
    + destruct n; [done|]. cbn [parts_field fmap list_fmap fst snd]. do 3 f_equal.
      rewrite <- list_fmap_compose. apply list_fmap_ext. intros ? i _. apply record_normalise.
    + unfold fields. rewrite <- list_fmap_compose. by apply list_fmap_ext.
  - rewrite !zip_with_app by (done || by destruct n). rewrite !Hforced. do 2 f_equal.
    destruct n; [done|]. cbn. by rewrite orb_true_r.
Qed.

(** A view is printed and read back as it is. *)
Lemma view_reads_back before r keys n after :
  Forall (λ kv, key_clean kv.1 ∧ value_clean kv.2) (before ++ after) →
  rows_clean r → Forall (λ k, key_clean k.1) keys →
  (Z.of_nat (length (compact (view before r keys n after))) < 2 ^ 64)%Z →
  toData (view before r keys n after) false = Ok (compact (view before r keys n after)) ∧
  fromData (compact (view before r keys n after)) = Ok (Some (view before r keys n after)).
Proof.
  intros Hkv Hr Hk Hl. pose proof (view_wf before r keys n after) as Hw.
  split; [by apply toData_compact|].
  rewrite fromData_compact by (done || by apply view_clean). by rewrite view_normalise.
Qed.

Section views.
Context `{Database}.

(** One object per part, in their order, and the exact sum of price times
    quantity over all of them. *)
Lemma addParts_run cols rows r keys priceCol quantityCol price quantity els fs w :
  shape cols rows r → keys_fit cols keys = true → (priceCol < cols)%nat → (quantityCol < cols)%nat →
  priced r rows priceCol quantityCol price quantity → T "parts" ∉ els.*1 → T "total" ∉ els.*1 →
  addParts (RW els fs) r keys priceCol quantityCol w =
    (Ok (Some (RW (els ++ parts_field r keys rows ++ [total_field (sum_to (λ i, price i * quantity i)%Z rows)])
                  (fs ++ parts_forced rows ++ [false]))), w).
Proof.
  intros Hs Hk Hp Hq [Hprice Hquantity Hsum] Hparts Htotal.
  set (cost i := (price i * quantity i)%Z) in *.
  assert (∀ i, (i < rows)%nat → (0 ≤ cost i)%Z) as Hcost.
  { intros i Hi. destruct (Hprice i Hi) as [_ [? _]], (Hquantity i Hi) as [_ [? _]]. unfold cost. nia. }
  assert (∀ n, (n ≤ rows)%nat → whole_range (sum_to cost n)) as Hrange.
  { intros n Hn. split; [apply sum_to_nonneg; intros i Hi; apply Hcost; lia|].
    pose proof (sum_to_le cost n rows Hn Hcost). lia. }
  assert (∀ i, (i < rows)%nat → whole_range (price i) ∧ whole_range (quantity i) ∧ whole_range (cost i)) as Hone.
  { intros i Hi. split_and!; [by apply Hprice|by apply Hquantity|].
    pose proof (Hrange (S i) ltac:(lia)) as [_ Hb]. pose proof (Hrange i ltac:(lia)) as [Ha _].
    pose proof (Hcost i Hi). simpl in Hb. split; lia. }
  unfold addParts. erewrite bind_ok by (apply lift_run; by eapply shape_rowCount).
  match goal with |- (forRowsM _ ?f _ ≫= _) _ = _ => set (body := f) end.
  assert (∀ n k, (k + n = rows)%nat →
    forRowsM (seq k n) body (RW (els ++ parts_field r keys k) (fs ++ parts_forced k), whole (sum_to cost k)) w
    = (Ok (Some (RW (els ++ parts_field r keys rows) (fs ++ parts_forced rows), whole (sum_to cost rows))), w)) as Hloop.
  { intros n. induction n as [|n IH]; intros k Hkn; [by assert (k = rows) as -> by lia|].
    cbn [seq forRowsM]. assert (k < rows)%nat as Hlt by lia.
    destruct (Hone k Hlt) as (? & ? & ?). destruct (Hprice k Hlt) as [Ep _], (Hquantity k Hlt) as [Eq _].
    assert (body k (RW (els ++ parts_field r keys k) (fs ++ parts_forced k), whole (sum_to cost k)) w
      = (Ok (Some (RW (els ++ parts_field r keys (S k)) (fs ++ parts_forced (S k)), whole (sum_to cost (S k)))), w)) as Hbody.
    { unfold body. erewrite bind_ok by (apply lift_run; by eapply addCells_record).
      erewrite bind_ok by (apply lift_run; by eapply shape_get).
      erewrite bind_ok by (apply lift_run; by eapply shape_get).
      rewrite Ep, Eq, getPartPrice_whole by done.
      erewrite bind_ok by (apply lift_run; by apply addObject_parts).
      rewrite double_add_whole; [done|apply Hrange; lia|done|exact (Hrange (S k) Hlt)]. }
    erewrite bind_ok by exact Hbody. cbv iota. apply IH. lia. }
  specialize (Hloop rows 0%nat ltac:(lia)). cbn [parts_field parts_forced sum_to] in Hloop.
  rewrite !app_nil_r in Hloop. change (whole 0) with double_zero in Hloop.
  erewrite bind_ok by exact Hloop. cbv iota beta.
  erewrite bind_ok; [reflexivity|]. apply lift_run. unfold add, genericAdd.
  assert (find_ (els ++ parts_field r keys rows) (T "total") = None) as ->.
  { apply find_None. rewrite fmap_app, not_elem_of_app. split; [done|]. destruct rows; simpl; [set_solver|].
    rewrite list_elem_of_singleton. discriminate || (vm_compute; discriminate). }
  rewrite to_string_double_whole by (apply Hrange; lia). by rewrite <- !app_assoc.
Qed.

Lemma add_fresh els fs k v :
  k ∉ els.*1 → add (RW els fs) k v false = Ok (RW (els ++ [(k, Strings [v])]) (fs ++ [false])).
Proof. intros Hk. unfold add, genericAdd. apply find_None in Hk. by rewrite Hk. Qed.

Lemma fields_names kvs : (fields kvs).*1 = kvs.*1.
Proof. unfold fields. rewrite <- list_fmap_compose. by apply list_fmap_ext. Qed.

Lemma parts_names r keys n k : k ∈ (parts_field r keys n).*1 → k = T "parts".
Proof. destruct n; simpl; set_solver. Qed.

(** The fields of an authorised service before and behind its parts. *)
Definition service_fields (shared active : SQLResult) : list (text * text) :=
  row_texts shared unauthorisedKeys ++ row_texts active activeKeys.
Definition service_end (total : Z) : list (text * text) :=
  [(T "total", to_string total ++ T ".000000"); (T "status", T "authorised")].
Definition service_view (shared active parts : SQLResult) (n : nat) (total : Z) : responseWrapper :=
  view (service_fields shared active) parts pricedPartKeys n (service_end total).

Lemma service_fields_clean shared active total :
  rows_clean shared → rows_clean active → (0 ≤ total)%Z →
  Forall (λ kv, key_clean kv.1 ∧ value_clean kv.2) (service_fields shared active ++ service_end total).
Proof.
  intros Hs Ha Ht.
  assert (∀ r keys, rows_clean r → Forall (λ k, key_clean k.1) keys →
    Forall (λ kv, key_clean kv.1 ∧ value_clean kv.2) (row_texts r keys)) as Hrow.
  { intros r keys Hr Hk. apply Forall_fmap. eapply Forall_impl; [exact Hk|].
    intros k Hkk. split; [done|by apply cell_clean]. }
  unfold service_fields, service_end. rewrite !Forall_app. split_and!.
  - apply Hrow; [done|by_decision].
  - apply Hrow; [done|by_decision].
  - repeat constructor; cbn [fst snd]; try by_decision. apply Forall_app. split; [|by_decision].
    eapply Forall_impl; [by apply to_string_digits|]. intros c Hc Hin.
    assert (∀ c, c ∈ T "{}[]," → is_digit c = false) as Hd by (apply Forall_forall; by_decision).
    apply Hd in Hin. congruence.
Qed.

Lemma service_fields_names shared active :
  (fields (service_fields shared active)).*1 = (unauthorisedKeys ++ activeKeys).*1.
Proof. rewrite fields_names. unfold service_fields, row_texts. by rewrite !fmap_app, <- !list_fmap_compose. Qed.

(** The common fields of a service, as [selectService] collects them. *)
Lemma shared_run shared n :
  shape 5 (S n) shared →
  addCells emptyWrapper shared 0 unauthorisedKeys
  = Ok (RW (fields (row_texts shared unauthorisedKeys)) (replicate 5 false)).
Proof. intros Hs. by rewrite (addCells_record _ _ _ _ _ Hs) by (done || lia). Qed.

Lemma active_run shared active n :
  shape 4 (S n) active →
  addCells (RW (fields (row_texts shared unauthorisedKeys)) (replicate 5 false)) active 0 activeKeys
  = Ok (RW (fields (service_fields shared active)) (replicate 9 false)).
Proof.
  intros Hs. rewrite (addCells_run _ _ _ _ _ _ _ Hs); [|lia|done|].
  - unfold service_fields, fields. by rewrite fmap_app.
  - rewrite fields_names. unfold row_texts. rewrite <- list_fmap_compose. apply Forall_forall. by_decision.
Qed.

(** C21: What an employee sees of a service that has been authorised and is not closed
    is one answer, which the client's parser reads back: the fields of the two
    rows, one object per part, and as "total" the exact sum of price times
    quantity over the parts.  This is for rows the format between the two servers
    can carry, no cell shown holding a brace, a bracket or a comma ([rows_clean]),
    and for prices and quantities that are whole numbers from 0 in plain decimal,
    with a sum below 2^53 ([priced]). *)
Theorem selectService_authorised req b q w id d1 c1 shared n1 d2 c2 unauth d3 c3 active n3
    d4 c4 parts n price quantity d5 c5 open n5 :
  field q (T "ID") id → id ≠ [] → verify (w_sessions w) req employee = true →
  let args := [(T ":ID", id)] in
  db_query (w_db w) sql_selectShared args = Ok (d1, (c1, shared)) → isOK c1 = true → shape 5 (S n1) shared →
  db_query d1 sql_selectUnauthorised args = Ok (d2, (c2, unauth)) → isOK c2 = true → shape 1 0 unauth →
  db_query d2 sql_selectActive args = Ok (d3, (c3, active)) → isOK c3 = true → shape 4 (S n3) active →
  db_query d3 sql_selectParts args = Ok (d4, (c4, parts)) → isOK c4 = true → shape 4 n parts →
  db_query d4 sql_selectOpen args = Ok (d5, (c5, open)) → isOK c5 = true → shape 1 (S n5) open →
  priced parts n 3 2 price quantity →
  rows_clean shared → rows_clean active → rows_clean parts →
  let seen := service_view shared active parts n (sum_to (λ i, price i * quantity i)%Z n) in
  (Z.of_nat (length (compact seen)) < 2 ^ 64)%Z →
  ∃ w' answer, selectService req b q w = (Ok tt, w') ∧
    w_trace w' = w_trace w ++
      [EvQuery sql_selectShared args c1 shared; EvQuery sql_selectUnauthorised args c2 unauth;
       EvQuery sql_selectActive args c3 active; EvQuery sql_selectParts args c4 parts;
       EvQuery sql_selectOpen args c5 open; EvTryEnd answer] ∧
    fromData answer = Ok (Some seen).
Proof.
  intros Hid Hne Hemp args Q1 O1 S1 Q2 O2 S2 Q3 O3 S3 Q4 O4 S4 Q5 O5 S5 Hpriced C1 C3 C4 seen Hlen.
  unfold field in Hid. destruct (verify_session _ _ _ Hemp) as [ses Hses].
  pose proof (shape_rowCount _ _ _ S1) as R1. pose proof (shape_rowCount _ _ _ S2) as R2.
  pose proof (shape_rowCount _ _ _ S3) as R3. pose proof (shape_rowCount _ _ _ S5) as R5.
  destruct (view_reads_back (service_fields shared active) parts pricedPartKeys n
    (service_end (sum_to (λ i, price i * quantity i)%Z n))) as [Hdata Hread]; [|done|by_decision|done|].
  { apply service_fields_clean; [done..|]. apply sum_to_nonneg. intros i Hi.
    destruct (priced_price _ _ _ _ _ _ Hpriced i Hi) as [_ [? _]].
    destruct (priced_quantity _ _ _ _ _ _ Hpriced i Hi) as [_ [? _]]. nia. }
  unfold selectService. rewrite (hasElement_some _ _ _ false Hid Hne). cbn [negb].
  unfold hasSession. rewrite Hses. cbn [negb].
  erewrite bind_ok by (unfold serviceRefused; rewrite bind_eq; unfold getSessions; rewrite Hemp; reflexivity). cbn beta iota.
  do 2 run1. rewrite O1. cbn [negb]. run1. rewrite bool_decide_false by done. cbn iota.
  erewrite bind_ok by (apply lift_run; by eapply shared_run). cbn beta iota.
  do 2 run1. rewrite O2. cbn [negb]. run1. rewrite bool_decide_true by done. cbn [negb].
  erewrite bind_ok.
  2: { unfold selectActive. do 2 run1. erewrite bind_ok by (eapply failedOrEmpty_run; eassumption).
       cbn beta. rewrite bool_decide_false by done. cbn iota.
       erewrite bind_ok by (apply lift_run; by eapply active_run). cbn beta iota.
       do 2 run1. rewrite O4. cbn [negb]. eapply addParts_run; eauto;
         rewrite service_fields_names; by_decision. }
  cbn beta iota. do 2 run1. rewrite O5. cbn [negb]. run1. rewrite bool_decide_false by done. cbn [negb].
  erewrite bind_ok.
  2: { apply lift_run. apply add_fresh. rewrite !fmap_app, !not_elem_of_app, service_fields_names. split_and!.
       - by_decision.
       - by intros Hin%parts_names.
       - by_decision. }
  cbn beta iota. rewrite <- !app_assoc. unfold tryEndData.
  erewrite bind_ok by (apply lift_run; exact Hdata).
  do 2 eexists. split; [reflexivity|]. split; [cbn [w_trace snd]; by rewrite <- !app_assoc|exact Hread].
Qed.
End views.
