(* ===== verification/Htmt.v ===== *)
(** Translator/src/Source.cpp, the template language of the web pages: HTML with
    [<HTMT:tag>], [<HTMTCODE:n>] and [<HTMTCOND:c>] blocks and [<HTMTVAL:x>] and
    [<HTMTQUERY:x>] insertions, its parser ([tagSearch],
    [translationCondition::parse], [translation::parse]) and its interpreter
    ([translationCondition::check], [translation::apply],
    [translationValue::apply]).

    An iterator or view of the source is modelled by the rest of the text it
    stands for.  Forming the address of the end of a text is no fault; moving
    past it is. *)

From S2P Require Import Prelude CharConv Query Response Effects.

(** [it += n]. *)
Definition advance (n : nat) (it : text) : outcome text :=
  if (n <=? length it)%nat then Ok (drop n it) else Raise UndefinedBehaviour.

(** ** [tagSearch] *)

(** [*it == pattern.front() && strncmp(it, pattern, min(pattern.size(), end - it)) == 0]:
    near the end of the text a beginning of the pattern is enough. *)
Definition tagMatches (pattern it : text) : bool :=
  let n := Nat.min (length pattern) (length it) in
  bool_decide (head it = head pattern) && bool_decide (take n it = take n pattern).

(** The [for] loop; [skip] characters are passed over first ([it += prefix.size()]
    and the [++it] of the loop). *)
Fixpoint tagLoop (prefix postfix : text) (skip : nat) (depth : Z) (it : text) : outcome text :=
  match it with
  | [] => if bool_decide (skip = 0%nat) then Ok [] else Raise UndefinedBehaviour
  | _ :: it' =>
      match skip with
      | S skip' => tagLoop prefix postfix skip' depth it'
      | O =>
          if tagMatches prefix it
          then tagLoop prefix postfix (length prefix) (uwrap 64 (depth + 1)) it'
          else if tagMatches postfix it then
            if (depth =? 0)%Z then advance (length postfix) it
            else tagLoop prefix postfix 0 (uwrap 64 (depth - 1)) it'
          else tagLoop prefix postfix 0 depth it'
      end
  end.

Definition tagSearch (it prefix postfix : text) : outcome text :=
  let n := Nat.min (length prefix) (length it) in
  _ ← assert_ (bool_decide (take n it = take n prefix));
  tagLoop prefix postfix 0 (2 ^ 64 - 1) it.

(** ** Conditions *)

Inductive condition := equal | notEqual | always.
Record subCondition := { action : condition; constant : text; variable : text }.
Inductive conjunction := and_ | or_.
Record translationCondition := {
  conditions : list subCondition;
  conjunctions : list conjunction;
}.

Definition isEqual (c : subCondition) (data : responseWrapper) : bool :=
  match search data (variable c) with
  | None => false
  | Some (Objects _) => false
  | Some (Strings l) =>
      match l with
      | [v] => text_eqb v (constant c)
      | _ => false
      end
  end.

Definition checkSub (c : subCondition) (data : responseWrapper) : bool :=
  match action c with
  | always => true
  | equal => isEqual c data
  | notEqual => negb (isEqual c data)
  end.

Definition applyConjunction (left : bool) (val : conjunction) (right : bool) : bool :=
  match val with
  | and_ => left && right
  | or_ => left || right
  end.

(** The loop of [check] from the [i]-th condition on; [cs] are the conditions left. *)
Fixpoint checkLoop (conjs : list conjunction) (data : responseWrapper) (i : nat)
    (cs : list subCondition) (currentState : bool) : outcome bool :=
  match cs with
  | [] => Ok currentState
  | c :: cs' =>
      conj ← index_ conjs (i - 1);
      checkLoop conjs data (S i) cs' (applyConjunction currentState conj (checkSub c data))
  end.

Definition check (c : translationCondition) (data : responseWrapper) : outcome bool :=
  match conditions c with
  | [] => Ok true
  | c0 :: cs => checkLoop (conjunctions c) data 1 cs (checkSub c0 data)
  end.

Definition parseSubCondition (source : text) : subCondition :=
  let split (type : condition) (div : nat) :=
    {| action := type; variable := take div source; constant := drop (S div) source |} in
  match find_sub (T "=") source with
  | Some div => split equal div
  | None =>
      match find_sub (T "!") source with
      | Some div => split notEqual div
      | None => {| action := always; constant := []; variable := [] |}
      end
  end.

(** The first divisor, by its position: [temp < div], with no position the largest. *)
Definition firstDivisor (source : text) : option (nat * conjunction) :=
  match find_sub (T "&") source, find_sub (T "|") source with
  | None, None => None
  | Some i, None => Some (i, and_)
  | None, Some j => Some (j, or_)
  | Some i, Some j => if (j <? i)%nat then Some (j, or_) else Some (i, and_)
  end.

(** The [while] loop of [translationCondition::parse] from [left] on. *)
Fixpoint conditionLoop (fuel : nat) (left : text) (conds : list subCondition)
    (conjs : list conjunction) : outcome (list subCondition * list conjunction) :=
  match fuel with
  | O => Raise OutOfFuel
  | S fuel' =>
      match firstDivisor left with
      | Some (div, type) =>
          conditionLoop fuel' (drop (S div) left) (conds ++ [parseSubCondition (take div left)])
            (conjs ++ [type])
      | None => Ok (conds ++ [parseSubCondition left], conjs)
      end
  end.

Definition parseCondition (source : text) : outcome translationCondition :=
  '(conds, conjs) ← conditionLoop (S (length source)) source [] [];
  _ ← assert_ (bool_decide (length conds = S (length conjs)));
  Ok {| conditions := conds; conjunctions := conjs |}.

(** ** Templates *)

Inductive matchType := M_always | M_tag | M_code | M_condition.

(** [std::variant<std::string, long, translationCondition> tag]. *)
Inductive tagValue :=
  | TagName (name : text)
  | TagCode (code : Z)
  | TagCondition (c : translationCondition).

(** [class translation] is declared ahead of [translationValue], which it
    contains; here it is a parameter until it is defined. *)
Inductive valueWith (translation : Type) :=
  | V_access (name : text)
  | V_HTML (html : text)
  | V_query (name : text)
  | V_translation (t : translation).
Arguments V_access {translation} name.
Arguments V_HTML {translation} html.
Arguments V_query {translation} name.
Arguments V_translation {translation} t.

Inductive translation :=
  | Translation (match_type : matchType) (tag : tagValue) (values : list (valueWith translation)).

Definition translationValue : Type := valueWith translation.

(** ** [parseSubHTML] *)

(** The insertion found first, with the length of its tag. *)
Definition firstTag (left : text) : option (nat * nat * (text → translationValue)) :=
  let HTMTVAL := T "<HTMTVAL" in
  let HTMTQUERY := T "<HTMTQUERY" in
  match find_sub HTMTVAL left, find_sub HTMTQUERY left with
  | None, None => None
  | Some i, None => Some (i, length HTMTVAL, V_access)
  | None, Some j => Some (j, length HTMTQUERY, V_query)
  | Some i, Some j => if (j <? i)%nat then Some (j, length HTMTQUERY, V_query)
                      else Some (i, length HTMTVAL, V_access)
  end.

Definition asHTML (html : text) : list translationValue :=
  match html with [] => [] | _ => [V_HTML html] end.

(** The [while (left != HTML.cend())] loop; [values] is [obj.values]. *)
Fixpoint subHTMLLoop (fuel : nat) (left : text) (values : list translationValue)
    : outcome (list translationValue) :=
  match fuel with
  | O => Raise OutOfFuel
  | S fuel' =>
      match left with
      | [] => Ok values
      | _ =>
          match firstTag left with
          | None => Ok (values ++ asHTML left)
          | Some (fpos, tagSize, make) =>
              let values := values ++ asHTML (take fpos left) in
              nameStart ← advance (tagSize + 1) (drop fpos left);
              let '(contents, nameEnd) := span_to ">"%char nameStart in
              subHTMLLoop fuel' (skip1 nameEnd) (values ++ [make contents])
          end
      end
  end.

Definition parseSubHTML (HTML : text) (values : list translationValue)
    : outcome (list translationValue) :=
  subHTMLLoop (S (length HTML)) HTML values.

(** ** [translation::parse] *)

(** [std::stol], as far as the callers look: white space, a sign, digits.
    [long] has 32 bits on the platform of the program, whose compiler takes
    [and] and [or] for names. *)
Definition longBits : Z := 32.

Fixpoint skip_space (s : text) : text :=
  match s with
  | c :: s' => if isspace c then skip_space s' else s
  | [] => []
  end.

Definition stol (s : text) : outcome Z :=
  let '(neg, s) := match skip_space s with
                   | "-"%char :: s' => (true, s')
                   | "+"%char :: s' => (false, s')
                   | s' => (false, s')
                   end in
  let ds := take_digits s in
  let v := if neg then (- digits_value ds)%Z else digits_value ds in
  if bool_decide (ds = []) then Raise InvalidArgument
  else if (- 2 ^ (longBits - 1) <=? v)%Z && (v <? 2 ^ (longBits - 1))%Z then Ok v
  else Raise OutOfRange.

Definition tagOpens : list text := [T "<HTMT:"; T "<HTMTCODE:"; T "<HTMTCOND:"].
Definition tagCloses : list text := [T "</HTMT>"; T "</HTMTCODE>"; T "</HTMTCOND>"].

Definition findNextSet (source : text) (strings : list text) : list (option nat) :=
  (λ s, find_sub s source) <$> strings.

(** [std::min_element], its index and value; no position ([npos]) is the largest. *)
Definition pos_lt (a b : option nat) : bool :=
  match a, b with
  | Some i, Some j => (i <? j)%nat
  | Some _, None => true
  | None, _ => false
  end.
Fixpoint minLoop (l : list (option nat)) (i : nat) (best : nat * option nat) : nat * option nat :=
  match l with
  | [] => best
  | x :: l' => minLoop l' (S i) (if pos_lt x (snd best) then (i, x) else best)
  end.
Definition min_element (l : list (option nat)) : nat * option nat :=
  match l with [] => (0%nat, None) | x :: l' => minLoop l' 1 (0%nat, x) end.

(** [static_cast<matchType>(tagIndex + 1)]. *)
Definition matchType_of (tagIndex : nat) : matchType :=
  match tagIndex with 0 => M_tag | 1 => M_code | _ => M_condition end%nat.

(** The [switch] that fills in the tag of a block. *)
Definition tagOf (type : matchType) (tagContents fromContents : text)
    : outcome (matchType * tagValue) :=
  match type with
  | M_code => n ← stol fromContents; Ok (M_code, TagCode n)
  | M_condition => c ← parseCondition tagContents; Ok (M_condition, TagCondition c)
  | _ => if bool_decide (tagContents = []) then Ok (M_always, TagName [])
         else Ok (type, TagName tagContents)
  end.

(** The [while] loop of [parse] over [source]; [values] is [ret.values].  The
    block's contents run from behind the ['>'] of its opening tag to
    [tagCloses[i].size()] characters before [end]; the length is computed in
    [size_t]. *)
Fixpoint parseLoop (fuel : nat) (source : text) (values : list translationValue)
    : outcome (list translationValue) :=
  match fuel with
  | O => Raise OutOfFuel
  | S fuel' =>
      let '(tagIndex, min) := min_element (findNextSet source tagOpens) in
      match min with
      | None => parseSubHTML source values
      | Some n =>
          tagOpen ← index_ tagOpens tagIndex;
          tagClosing ← index_ tagCloses tagIndex;
          values ← (if bool_decide (n = 0%nat) then Ok values else parseSubHTML (take n source) values);
          let block := drop n source in
          let fromContents := drop (length tagOpen) block in
          let '(tagContents, tagClose) := span_to ">"%char fromContents in
          end_ ← tagSearch block tagOpen tagClosing;
          after ← advance 1 tagClose;
          let size := uwrap 64 (Z.of_nat (length after) - Z.of_nat (length end_)
                                - Z.of_nat (length tagClosing)) in
          if (Z.of_nat (length after) <? size)%Z then Raise UndefinedBehaviour else
          inner ← parseLoop fuel' (take (Z.to_nat size) after) [];
          '(match_type, tag) ← tagOf (matchType_of tagIndex) tagContents fromContents;
          parseLoop fuel' end_ (values ++ [V_translation (Translation match_type tag inner)])
      end
  end.

Definition parse (source : text) : outcome translation :=
  values ← parseLoop (S (length source)) source [];
  Ok (Translation M_always (TagName []) values).

(** ** [apply] *)

(** The text built so far and the lines written to the console. *)
Record page := { contents : text; warnings : list text }.

Definition append (s : text) : ST page unit :=
  modifyS (λ p, {| contents := contents p ++ s; warnings := warnings p |}).
Definition warn (line : text) : ST page unit :=
  modifyS (λ p, {| contents := contents p; warnings := warnings p ++ [line] |}).

(** [std::get<stringContainer>], [std::get<objectContainer>]. *)
Definition get_strings (c : elementContainer) : outcome (list text) :=
  match c with Strings l => Ok l | Objects _ => Raise BadVariantAccess end.
Definition get_objects (c : elementContainer) : outcome (list responseWrapper) :=
  match c with Objects l => Ok l | Strings _ => Raise BadVariantAccess end.
Definition get_name (t : tagValue) : outcome text :=
  match t with TagName n => Ok n | _ => Raise BadVariantAccess end.

Definition matches (match_type : matchType) (tag : tagValue) (data : responseWrapper) (httpCode : Z)
    : outcome bool :=
  match match_type with
  | M_code => match tag with TagCode n => Ok (httpCode =? n)%Z | _ => Raise BadVariantAccess end
  | M_condition => match tag with TagCondition c => check c data | _ => Raise BadVariantAccess end
  | _ => Ok true
  end.

(** [translationValue::apply], given [translation::apply]. *)
Definition applyValueWith (apply : translation → ST page unit) (v : translationValue)
    (data : responseWrapper) (q : queryBase) : ST page unit :=
  match v with
  | V_access name =>
      match search data name with
      | None => warn (T "Warning: Value " ++ [QUOTE] ++ name ++ [QUOTE] ++
                      T " was not present in reponse." ++ [NEWLINE])
      | Some c =>
          values ← liftS (get_strings c);
          _ ← liftS (assert_ (bool_decide (length values = 1%nat)));
          v ← liftS (index_ values 0);
          append v
      end
  | V_HTML html => append html
  | V_translation t => apply t
  | V_query name =>
      if hasElement q name false then
        v ← liftS (getElement q name);
        append v
      else warn (T "Warning: Query element " ++ name ++ T " was not present in request." ++ [NEWLINE])
  end.

Fixpoint apply (t : translation) (data : responseWrapper) (httpCode : Z) (q : queryBase) {struct t}
    : ST page unit :=
  let applyValue (v : translationValue) (data : responseWrapper) :=
    applyValueWith (λ t, apply t data httpCode q) v data q in
  match t with
  | Translation match_type tag values =>
      match match_type with
      | M_always => forEach (λ i, applyValue i data) values
      | _ =>
          ok ← liftS (matches match_type tag data httpCode);
          if negb ok then mret tt else
          match match_type with
          | M_tag =>
              name ← liftS (get_name tag);
              match search data name with
              | None => mret tt
              | Some c =>
                  _ ← liftS (assert_ (bool_decide (container_index c = 1%nat)));
                  objects ← liftS (get_objects c);
                  forEach (λ i, forEach (λ u, applyValue u i) values) objects
              end
          | _ => forEach (λ i, applyValue i data) values
          end
      end
  end.

Definition applyValue (v : translationValue) (data : responseWrapper) (httpCode : Z) (q : queryBase)
    : ST page unit :=
  applyValueWith (λ t, apply t data httpCode q) v data q.

(** The overload that returns the text; what is left of the warnings. *)
Definition applied (t : translation) (data : responseWrapper) (httpCode : Z) (q : queryBase)
    : outcome text * list text :=
  match apply t data httpCode q {| contents := []; warnings := [] |} with
  | (Ok _, p) => (Ok (contents p), warnings p)
  | (Raise e, p) => (Raise e, warnings p)
  end.

(** A page of the program, cut short. *)
Example page_example :
  (t ← parse (T "<b><HTMTCODE:200>Hi <HTMTVAL:Name>:<HTMT:Parts><HTMTCOND:GroupID!NULL>[<HTMTVAL:ID>]</HTMTCOND></HTMT></HTMTCODE></b>");
  fst (applied t (RW [(T "Name", Strings [T "ann"]);
                      (T "Parts", Objects [RW [(T "ID", Strings [T "1"]); (T "GroupID", Strings [T "2"])] [false; false];
                                           RW [(T "ID", Strings [T "3"]); (T "GroupID", Strings [T "NULL"])] [false; false]])]
                     [false; true]) 200 emptyQuery))
  = Ok (T "<b>Hi ann:[1]</b>").
Proof. reflexivity. Qed.
