(* ===== verification/HtmtRender.v ===== *)
(** What a template means, as a function of the data: the reference the
    interpreter of [Htmt] is compared with. *)

From S2P Require Import Prelude CharConv Query Response Effects Htmt HtmtTotal.

(** ** Induction over templates *)

Section induction.
Context (P : translationValue → Prop).
Context (Haccess : ∀ name, P (V_access name)) (HHTML : ∀ html, P (V_HTML html)).
Context (Hquery : ∀ name, P (V_query name)).
Context (Hblock : ∀ m tag values, Forall P values → P (V_translation (Translation m tag values))).

Definition value_cases (block : ∀ t, P (V_translation t)) (v : translationValue) : P v :=
  match v with
  | V_access name => Haccess name
  | V_HTML html => HHTML html
  | V_query name => Hquery name
  | V_translation t => block t
  end.

Fixpoint translation_induction (t : translation) : P (V_translation t) :=
  match t with
  | Translation m tag values =>
      Hblock m tag values
        ((fix go (vs : list translationValue) : Forall P vs :=
            match vs with
            | [] => Forall_nil_2 _
            | v :: vs' => Forall_cons_2 _ _ _ (value_cases translation_induction v) (go vs')
            end) values)
  end.

Definition value_induction : ∀ v, P v := value_cases translation_induction.
End induction.

(** ** The reference *)

(** Conditions are read from left to right; neither conjunction binds tighter. *)
Definition holds (c : translationCondition) (data : responseWrapper) : bool :=
  match conditions c with
  | [] => true
  | c0 :: cs =>
      foldl (λ acc jc, applyConjunction acc jc.1 (checkSub jc.2 data)) (checkSub c0 data)
        (zip (conjunctions c) cs)
  end.

(** The objects a block is repeated for, [None] when the data under its tag is
    not a list of objects. *)
Definition subjects (m : matchType) (tag : tagValue) (data : responseWrapper) (code : Z)
    : option (list responseWrapper) :=
  match m, tag with
  | M_always, _ => Some [data]
  | M_tag, TagName name =>
      match search data name with
      | None => Some []
      | Some (Objects l) => Some l
      | Some (Strings _) => None
      end
  | M_code, TagCode n => Some (if (code =? n)%Z then [data] else [])
  | M_condition, TagCondition c => Some (if holds c data then [data] else [])
  | _, _ => None
  end.

(** Whether the data has the shape the template asks for, where it asks. *)
Definition fitsWith (fitsBlock : translation → responseWrapper → bool) (v : translationValue)
    (data : responseWrapper) : bool :=
  match v with
  | V_access name =>
      match search data name with
      | None | Some (Strings [_]) => true
      | _ => false
      end
  | V_HTML _ | V_query _ => true
  | V_translation t => fitsBlock t data
  end.

Fixpoint fitsBlock (code : Z) (t : translation) (data : responseWrapper) {struct t} : bool :=
  match t with
  | Translation m tag values =>
      match subjects m tag data code with
      | None => false
      | Some l => forallb (λ d, forallb (λ v, fitsWith (fitsBlock code) v d) values) l
      end
  end.

Definition fits (code : Z) (v : translationValue) (data : responseWrapper) : bool :=
  fitsWith (fitsBlock code) v data.

(** The text of a template: absent values leave nothing behind. *)
Definition renderWith (renderBlock : translation → responseWrapper → text) (q : queryBase)
    (v : translationValue) (data : responseWrapper) : text :=
  match v with
  | V_access name =>
      match search data name with
      | Some (Strings [s]) => s
      | _ => []
      end
  | V_HTML html => html
  | V_query name => if hasElement q name false then default [] (elements q !! name) else []
  | V_translation t => renderBlock t data
  end.

Fixpoint renderBlock (code : Z) (q : queryBase) (t : translation) (data : responseWrapper) {struct t}
    : text :=
  match t with
  | Translation m tag values =>
      default [] (subjects m tag data code) ≫= λ d, values ≫= λ v, renderWith (renderBlock code q) q v d
  end.

Definition render (code : Z) (q : queryBase) (v : translationValue) (data : responseWrapper) : text :=
  renderWith (renderBlock code q) q v data.

(** A run that appends [s], whatever it warns of. *)
Definition writes (m : ST page unit) (s : text) : Prop := ∀ p, ∃ ws,
  m p = (Ok tt, {| contents := contents p ++ s; warnings := warnings p ++ ws |}).

(** A run stopped by data of the wrong shape. *)
Definition stops (m : ST page unit) : Prop := ∀ p, ∃ e p',
  m p = (Raise e, p') ∧ (e = AssertFailed ∨ e = BadVariantAccess).

Definition behaves (ok : bool) (m : ST page unit) (s : text) : Prop :=
  if ok then writes m s else stops m.

Lemma writes_nil : writes (mret tt) [].
Proof. intros p. exists []. rewrite !app_nil_r. by destruct p. Qed.

Lemma writes_append s : writes (append s) s.
Proof. intros p. exists []. by rewrite app_nil_r. Qed.

Lemma writes_warn l : writes (warn l) [].
Proof. intros p. exists [l]. by rewrite app_nil_r. Qed.

Lemma writes_bind m1 m2 s1 s2 : writes m1 s1 → writes m2 s2 → writes (_ ← m1; m2) (s1 ++ s2).
Proof.
  intros H1 H2 p. destruct (H1 p) as [ws1 E1].
  rewrite (bindS_ok _ _ _ _ _ E1). destruct (H2 {| contents := contents p ++ s1; warnings := warnings p ++ ws1 |}) as [ws2 ->].
  exists (ws1 ++ ws2). simpl. by rewrite !app_assoc.
Qed.

Lemma stops_bind_l m1 m2 : stops m1 → stops (_ ← m1; m2).
Proof. intros H p. destruct (H p) as (e & p' & E & He). exists e, p'. by rewrite bindS_eq, E. Qed.

Lemma stops_bind_r m1 m2 s : writes m1 s → stops m2 → stops (_ ← m1; m2).
Proof. intros H1 H2 p. destruct (H1 p) as [ws E]. rewrite (bindS_ok _ _ _ _ _ E). apply H2. Qed.

(** A loop behaves as its body does on each element. *)
Lemma forEach_behaves {A} (f : A → ST page unit) (ok : A → bool) (g : A → text) l :
  Forall (λ a, behaves (ok a) (f a) (g a)) l → behaves (forallb ok l) (forEach f l) (l ≫= g).
Proof.
  induction 1 as [|a l Ha _ IH]; [apply writes_nil|]. simpl.
  unfold behaves in *. destruct (ok a); simpl; [|by apply stops_bind_l].
  destruct (forallb ok l); [by apply writes_bind|by eapply stops_bind_r].
Qed.

Lemma checkLoop_holds conjs data i cs acc :
  length cs = length (drop (i - 1) conjs) → (1 ≤ i)%nat →
  checkLoop conjs data i cs acc
  = Ok (foldl (λ acc jc, applyConjunction acc jc.1 (checkSub jc.2 data)) acc (zip (drop (i - 1) conjs) cs)).
Proof.
  revert i acc. induction cs as [|c cs IH]; intros i acc Hl Hi; simpl.
  { by destruct (drop _ _). }
  destruct (drop (i - 1) conjs) as [|j js] eqn:E; [done|]. simpl in *.
  assert (conjs !! (i - 1)%nat = Some j) as Hj.
  { replace (i - 1)%nat with (i - 1 + 0)%nat by lia. rewrite <- lookup_drop, E. done. }
  assert (drop (S i - 1) conjs = js) as Hjs.
  { replace (S i - 1)%nat with (S (i - 1)) by lia.
    by rewrite (drop_S _ _ _ Hj) in E; simplify_eq. }
  unfold index_. rewrite Hj. simpl. rewrite IH; rewrite ?Hjs; by (lia || done).
Qed.

Lemma check_holds c data : typed_condition c → check c data = Ok (holds c data).
Proof.
  unfold typed_condition, check, holds. destruct (conditions c) as [|c0 cs]; [done|].
  simpl. intros Hl. rewrite checkLoop_holds; rewrite ?drop_0; by (lia || done).
Qed.

Lemma matches_once m tag data code :
  typed_tag m tag → m = M_code ∨ m = M_condition →
  ∃ b : bool, subjects m tag data code = Some (if b then [data] else []) ∧
    matches m tag data code = Ok b.
Proof.
  intros Ht [->| ->]; destruct tag as [n|n|c]; try done; simpl; eexists; (split; [done|]).
  - done.
  - by apply check_holds.
Qed.

Lemma fits_block code m tag values data :
  fits code (V_translation (Translation m tag values)) data
  = match subjects m tag data code with
    | None => false
    | Some l => forallb (λ d, forallb (λ v, fits code v d) values) l
    end.
Proof. done. Qed.

Lemma render_block code q m tag values data :
  render code q (V_translation (Translation m tag values)) data
  = default [] (subjects m tag data code) ≫= λ d, values ≫= λ v, render code q v d.
Proof. done. Qed.

Lemma apply_once m tag values data code q (b : bool) :
  m ≠ M_tag → matches m tag data code = Ok b →
  apply (Translation m tag values) data code q
  = if b then forEach (λ i, applyValue i data code q) values else mret tt.
Proof.
  destruct m; simpl; intros Hm E; [by injection E as <-|done|rewrite E; by destruct b..].
Qed.

Lemma apply_behaves code q v data :
  typed v → behaves (fits code v data) (applyValue v data code q) (render code q v data).
Proof.
  revert data. induction v as [name|html|name|m tag values IH] using value_induction;
    intros data Hv; [unfold behaves, fits, render, applyValue; simpl..|].
  - destruct (search data name) as [[[|s [|s' l]]|l]|]; simpl; try (intros p; by eauto 10).
    + apply writes_append.
    + apply writes_warn.
  - apply writes_append.
  - unfold hasElement. destruct (elements q !! name) as [v|] eqn:E; [|apply writes_warn].
    simpl. case_bool_decide; simpl; [apply writes_warn|].
    unfold getElement. rewrite E. apply writes_append.
  - inversion Hv as [| | |? ? ? Ht Hvs]; subst. clear Hv.
    assert (∀ d, behaves (forallb (λ v, fits code v d) values)
                   (forEach (λ i, applyValue i d code q) values)
                   (values ≫= λ v, render code q v d)) as Hbody.
    { intros d. apply forEach_behaves. rewrite Forall_forall in *. auto. }
    assert (∀ b : bool, behaves (forallb (λ d, forallb (λ v, fits code v d) values) (if b then [data] else []))
                   (if b then forEach (λ i, applyValue i data code q) values else mret tt)
                   ((if b then [data] else []) ≫= λ d, values ≫= λ v, render code q v d)) as Honce.
    { intros []; simpl; [|apply writes_nil]. rewrite andb_true_r, app_nil_r. apply Hbody. }
    rewrite fits_block, render_block.
    change (applyValue (V_translation (Translation m tag values)) data code q)
      with (apply (Translation m tag values) data code q).
    destruct m.
    + apply (Honce true).
    + destruct tag as [name| |]; try done. cbn [subjects].
      match goal with |- behaves ?b _ ?t => change (behaves b (
        match search data name with
        | None => mret tt
        | Some c =>
            _ ← liftS (assert_ (bool_decide (container_index c = 1%nat)));
            objects ← liftS (get_objects c);
            forEach (λ i, forEach (λ u, applyValue u i code q) values) objects
        end) t) end.
      destruct (search data name) as [[l|l]|].
      * intros p. by eauto 10.
      * apply forEach_behaves, Forall_true, Hbody.
      * apply writes_nil.
    + destruct (matches_once M_code tag data code Ht) as (b & -> & Hm); [by left|].
      rewrite (apply_once _ _ _ _ _ _ b) by done. exact (Honce b).
    + destruct (matches_once M_condition tag data code Ht) as (b & -> & Hm); [by right|].
      rewrite (apply_once _ _ _ _ _ _ b) by done. exact (Honce b).
Qed.

(** C13: Interpreting a page is the plain function [render] of the data, on exactly
    the data that has the shape the page asks for; on all other data it stops
    with a failed assertion or a bad variant access, never otherwise. *)
Theorem applied_render source t data code q :
  parse source = Ok t →
  if fits code (V_translation t) data
  then (applied t data code q).1 = Ok (render code q (V_translation t) data)
  else ∃ e, (applied t data code q).1 = Raise e ∧ (e = AssertFailed ∨ e = BadVariantAccess).
Proof.
  intros Hp. pose proof (parse_ends source) as Ht. rewrite Hp in Ht.
  pose proof (apply_behaves code q (V_translation t) data Ht) as H.
  unfold behaves, applied in *. change (applyValue (V_translation t)) with (apply t) in H.
  destruct (fits _ _ _); destruct (H {| contents := []; warnings := [] |}) as (? & Hr).
  - by rewrite Hr.
  - destruct Hr as (p' & -> & He). eauto.
Qed.
