(* ===== verification/HtmtPrint.v ===== *)
(** Templates as they are written: the source text of a template, and the
    templates whose text is read back as they are. *)

From S2P Require Import Prelude CharConv Query Response Effects Htmt HtmtTotal HtmtRender.

Notation LT := "<"%char (only parsing).
Notation GT := ">"%char (only parsing).

(** ** The source text *)

Definition openOf (m : matchType) : text :=
  match m with
  | M_always | M_tag => T "<HTMT:"
  | M_code => T "<HTMTCODE:"
  | M_condition => T "<HTMTCOND:"
  end.
Definition closeOf (m : matchType) : text :=
  match m with
  | M_always | M_tag => T "</HTMT>"
  | M_code => T "</HTMTCODE>"
  | M_condition => T "</HTMTCOND>"
  end.

Definition printSub (c : subCondition) : text :=
  match action c with
  | equal => variable c ++ T "=" ++ constant c
  | notEqual => variable c ++ T "!" ++ constant c
  | always => []
  end.
Definition printConjunction (j : conjunction) : ascii :=
  match j with and_ => "&"%char | or_ => "|"%char end.

Fixpoint printRest (conjs : list conjunction) (cs : list subCondition) : text :=
  match conjs, cs with
  | j :: conjs', c :: cs' => printConjunction j :: printSub c ++ printRest conjs' cs'
  | _, _ => []
  end.
Definition printCondition (c : translationCondition) : text :=
  match conditions c with
  | [] => []
  | c0 :: cs => printSub c0 ++ printRest (conjunctions c) cs
  end.

Definition tagText (tag : tagValue) : text :=
  match tag with
  | TagName n => n
  | TagCode c => to_string c
  | TagCondition c => printCondition c
  end.

Definition printWith (printBlock : translation → text) (v : translationValue) : text :=
  match v with
  | V_access name => T "<HTMTVAL:" ++ name ++ T ">"
  | V_HTML html => html
  | V_query name => T "<HTMTQUERY:" ++ name ++ T ">"
  | V_translation t => printBlock t
  end.

Fixpoint printBlock (t : translation) : text :=
  match t with
  | Translation m tag values =>
      openOf m ++ tagText tag ++ T ">" ++ (values ≫= printWith printBlock) ++ closeOf m
  end.

Definition print (v : translationValue) : text := printWith printBlock v.

(** ** Writable templates *)

Definition avoids (cs : list ascii) (s : text) : Prop := Forall (λ c, c ∉ s) cs.

(** [variable] and [constant] must not hold what separates them from the rest. *)
Definition sub_ok (c : subCondition) : Prop :=
  match action c with
  | equal => avoids (T "&|=<>") (variable c) ∧ avoids (T "&|<>") (constant c)
  | notEqual => avoids (T "&|=!<>") (variable c) ∧ avoids (T "&|=<>") (constant c)
  | always => variable c = [] ∧ constant c = []
  end.

Definition tag_ok (m : matchType) (tag : tagValue) : Prop :=
  match m, tag with
  | M_always, TagName [] => True
  | M_tag, TagName n => n ≠ [] ∧ avoids (T "<>") n
  | M_code, TagCode c => (- 2 ^ (longBits - 1) ≤ c < 2 ^ (longBits - 1))%Z
  | M_condition, TagCondition c => typed_condition c ∧ Forall sub_ok (conditions c)
  | _, _ => False
  end.

(** HTML between the tags holds no tag of its own. *)
Definition html_ok (html : text) : Prop :=
  html ≠ [] ∧ find_sub (T "<HTMT") html = None ∧ find_sub (T "</HTMT") html = None.

(** Two stretches of HTML next to each other would be read as one. *)
Fixpoint separate (vs : list translationValue) : Prop :=
  match vs with
  | V_HTML _ :: (V_HTML _ :: _) => False
  | _ :: vs' => separate vs'
  | [] => True
  end.

Inductive writable : translationValue → Prop :=
  | writable_access name : avoids (T "<>") name → writable (V_access name)
  | writable_HTML html : html_ok html → writable (V_HTML html)
  | writable_query name : avoids (T "<>") name → writable (V_query name)
  | writable_block m tag values :
      tag_ok m tag → Forall writable values → separate values →
      writable (V_translation (Translation m tag values)).

(** ** Searching for tags *)

(** Every tag begins with ["<"] and has no other one, which is what the lemmas
    below use of the pattern. *)
Definition tag_like (pat : text) : Prop := ∃ p, pat = LT :: p ∧ LT ∉ p ∧ p ≠ [].

#[global] Instance avoids_dec cs s : Decision (avoids cs s).
Proof. unfold avoids. apply _. Defined.

Lemma tag_like_dec pat p : pat = LT :: p → bool_decide (LT ∉ p) && negb (bool_decide (p = [])) = true → tag_like pat.
Proof.
  intros -> H. apply andb_true_iff in H as [H1 H2]. exists p.
  rewrite bool_decide_eq_true in H1. rewrite negb_true_iff, bool_decide_eq_false in H2. done.
Qed.

Ltac tag_like :=
  match goal with
  | |- tag_like ?pat =>
      let l := eval vm_compute in (tail pat) in
      apply (tag_like_dec pat l); vm_compute; reflexivity
  end.

Lemma is_prefix_boundary p a b :
  LT ∉ p → b = [] ∨ head b = Some LT → is_prefix p (a ++ b) = is_prefix p a.
Proof.
  revert a. induction p as [|x p IH]; intros a Hp Hb; [by destruct (a ++ b), a|].
  destruct a as [|y a]; simpl.
  - destruct Hb as [->|Hb]; [done|]. destruct b; simplify_eq/=.
    rewrite bool_decide_false; [done|]. set_solver.
  - rewrite IH by set_solver. done.
Qed.

Lemma find_sub_boundary pat a b :
  tag_like pat → b = [] ∨ head b = Some LT → find_sub pat a = None →
  find_sub pat (a ++ b) = Nat.add (length a) <$> find_sub pat b.
Proof.
  intros (p & -> & Hp & Hne) Hb. induction a as [|x a IH]; intros Hf.
  { simpl. by destruct (find_sub _ b). }
  simpl app. cbn [find_sub] in *. cbn [is_prefix] in *.
  rewrite is_prefix_boundary by done.
  destruct (bool_decide _ && _); [done|]. apply fmap_None in Hf. rewrite IH by done.
  by destruct (find_sub _ b).
Qed.

Lemma find_sub_skip pat s b :
  tag_like pat → LT ∉ s → find_sub pat (s ++ b) = Nat.add (length s) <$> find_sub pat b.
Proof.
  intros (p & -> & Hp & Hne). induction s as [|x s IH]; intros Hs.
  { simpl. by destruct (find_sub _ b). }
  simpl app. cbn [find_sub is_prefix]. rewrite bool_decide_false by set_solver. simpl.
  rewrite IH by set_solver. by destruct (find_sub _ b).
Qed.

Lemma find_sub_absent pat s : tag_like pat → LT ∉ s → find_sub pat s = None.
Proof.
  intros Hp Hs. rewrite <- (app_nil_r s), find_sub_skip by done.
  destruct Hp as (p & -> & _). done.
Qed.

(** A longer pattern is found no earlier. *)
Lemma find_sub_longer p q s : find_sub p s = None → find_sub (p ++ q) s = None.
Proof.
  induction s as [|x s IH]; simpl.
  - destruct (is_prefix p []) eqn:E; [done|]. intros _.
    destruct (is_prefix (p ++ q) []) eqn:E'; [|done].
    destruct p; [done|]. done.
  - destruct (is_prefix p (x :: s)) eqn:E; [done|]. intros H%fmap_None.
    destruct (is_prefix (p ++ q) (x :: s)) eqn:E'; [|by rewrite IH].
    apply is_prefix_spec in E' as [r E']. rewrite <- app_assoc in E'.
    rewrite E', is_prefix_app in E. done.
Qed.

Lemma html_no_tag pat rest html :
  html_ok html → pat = T "<HTMT" ++ rest ∨ pat = T "</HTMT" ++ rest → find_sub pat html = None.
Proof. intros (_ & H1 & H2) [->| ->]; by apply find_sub_longer. Qed.

(** ** Reading conditions and codes back *)

Lemma avoids_cons c cs s : avoids (c :: cs) s ↔ c ∉ s ∧ avoids cs s.
Proof. unfold avoids. by rewrite Forall_cons. Qed.

Lemma drop_past {A} (p : list A) c r : drop (S (length p)) (p ++ c :: r) = r.
Proof. induction p as [|x p IH]; [done|apply IH]. Qed.

Lemma find_char_none c s : c ∉ s → find_sub [c] s = None.
Proof.
  induction s as [|x s IH]; intros H; [done|]. cbn [find_sub is_prefix].
  rewrite bool_decide_false by set_solver. simpl. by rewrite IH by set_solver.
Qed.

Lemma find_char_app c s r : c ∉ s → find_sub [c] (s ++ c :: r) = Some (length s).
Proof.
  induction s as [|x s IH]; intros H; simpl app; cbn [find_sub is_prefix].
  - by rewrite bool_decide_true.
  - rewrite bool_decide_false by set_solver. simpl. by rewrite IH by set_solver.
Qed.

Ltac avoidance :=
  repeat match goal with
  | H : avoids [] _ |- _ => clear H
  | H : avoids _ _ |- _ => apply avoids_cons in H as [? H]
  end.

Ltac chars :=
  repeat match goal with
  | |- context [T ?s] => let l := eval vm_compute in (T s) in change (T s) with l
  | H : context [T ?s] |- _ => let l := eval vm_compute in (T s) in change (T s) with l in H
  end.

Lemma parse_printSub c : sub_ok c → parseSubCondition (printSub c) = c.
Proof.
  destruct c as [[] co va]; unfold sub_ok, printSub, parseSubCondition; chars; simpl.
  - intros [Hv _]. avoidance. rewrite find_char_app by done.
    by rewrite take_app_length, drop_past.
  - intros [Hv Hc]. avoidance.
    rewrite find_char_none by (rewrite !elem_of_app, elem_of_cons; intros [?|[|]]; done).
    rewrite find_char_app by done. f_equal; [by rewrite drop_past|].
    by rewrite take_app_length.
  - by intros [-> ->].
Qed.

Lemma printSub_avoids c : sub_ok c → avoids (T "&|<>") (printSub c).
Proof.
  destruct c as [[] co va]; unfold sub_ok, printSub; chars; simpl.
  - intros [Hv Hc]. avoidance. repeat constructor; rewrite elem_of_app, elem_of_cons; intros [|[|]]; done.
  - intros [Hv Hc]. avoidance. repeat constructor; rewrite elem_of_app, elem_of_cons; intros [|[|]]; done.
  - intros _. repeat constructor; set_solver.
Qed.

Lemma conditionLoop_print fuel c cs conjs conds0 conjs0 :
  length cs = length conjs → Forall sub_ok (c :: cs) →
  (length (printSub c ++ printRest conjs cs) < fuel)%nat →
  conditionLoop fuel (printSub c ++ printRest conjs cs) conds0 conjs0 =
  Ok (conds0 ++ c :: cs, conjs0 ++ conjs).
Proof.
  revert c cs conjs conds0 conjs0. induction fuel as [|fuel IH]; intros c cs conjs conds0 conjs0 Hl HF Hlen; [lia|].
  apply Forall_cons in HF as [Hc HF]. pose proof (printSub_avoids c Hc) as Ha. chars. avoidance.
  destruct conjs as [|j conjs], cs as [|c' cs]; try done.
  - cbn [conditionLoop printRest]. rewrite app_nil_r. unfold firstDivisor.
    chars. rewrite !find_char_none by done. by rewrite parse_printSub, app_nil_r.
  - cbn [printRest] in *.
    assert (firstDivisor (printSub c ++ printConjunction j :: printSub c' ++ printRest conjs cs)
            = Some (length (printSub c), j)) as E.
    { unfold firstDivisor. chars. destruct j; cbn [printConjunction].
      - rewrite find_char_app by done.
        match goal with |- context [find_sub ["|"%char] ?s] => destruct (find_sub ["|"%char] s) as [k|] eqn:Ek end; [|done].
        destruct (Nat.ltb_spec k (length (printSub c))) as [Hk|]; [|done].
        apply find_sub_Some in Ek as [r Hr]. rewrite drop_app_le in Hr by lia.
        destruct (drop k (printSub c)) as [|x d] eqn:Ed; [apply (f_equal length) in Ed; rewrite length_drop in Ed; simpl in Ed; lia|].
        simplify_eq/=. assert ("|"%char ∈ printSub c); [|done].
        rewrite <- (take_drop k (printSub c)), Ed. set_solver.
      - rewrite (find_char_app "|"%char) by done.
        match goal with |- context [find_sub ["&"%char] ?s] => destruct (find_sub ["&"%char] s) as [k|] eqn:Ek end; [|done].
        destruct (Nat.ltb_spec (length (printSub c)) k) as [Hk|Hk]; [done|].
        apply find_sub_Some in Ek as [r Hr].
        destruct (decide (k = length (printSub c))) as [->|].
        { by rewrite drop_app_length in Hr. }
        rewrite drop_app_le in Hr by lia.
        destruct (drop k (printSub c)) as [|x d] eqn:Ed; [apply (f_equal length) in Ed; rewrite length_drop in Ed; simpl in Ed; lia|].
        simplify_eq/=. assert ("&"%char ∈ printSub c); [|done].
        rewrite <- (take_drop k (printSub c)), Ed. set_solver. }
    cbn [conditionLoop]. rewrite E, take_app_length, drop_past.
    rewrite parse_printSub by done. rewrite length_app in Hlen. simpl in Hlen.
    rewrite IH; [|simpl in *; lia|done|lia]. by rewrite <- !app_assoc.
Qed.

Lemma parse_printCondition c :
  typed_condition c → Forall sub_ok (conditions c) → parseCondition (printCondition c) = Ok c.
Proof.
  destruct c as [[|c0 cs] conjs]; unfold typed_condition, printCondition; simpl; [done|].
  intros Hl HF. unfold parseCondition. rewrite conditionLoop_print by (done || lia || (simpl in *; lia)).
  simpl. rewrite bool_decide_true by (simpl in *; lia). done.
Qed.

Lemma printRest_avoids conjs cs : Forall sub_ok cs → avoids (T "<>") (printRest conjs cs).
Proof.
  intros HF. revert conjs. induction HF as [|c cs Hc _ IH]; intros [|j conjs];
    [chars; repeat constructor; apply not_elem_of_nil..|].
  cbn [printRest]. specialize (IH conjs). apply printSub_avoids in Hc. chars. avoidance.
  repeat constructor; rewrite elem_of_cons, elem_of_app; intros [|[|]]; try done; by destruct j.
Qed.

Lemma is_digit_isspace c : is_digit c = true → isspace c = false.
Proof. revert c. all_bytes. Qed.

Lemma stol_print c r :
  (- 2 ^ (longBits - 1) ≤ c < 2 ^ (longBits - 1))%Z → (∀ x r', r = x :: r' → is_digit x = false) →
  stol (to_string c ++ r) = Ok c.
Proof.
  intros Hc Hr.
  assert (∀ n (neg : bool), (0 ≤ n)%Z →
    (let ds := take_digits (dec_uint n ++ r) in (ds, digits_value ds)) = (dec_uint n, n)) as Hd.
  { intros n _ Hn. destruct (dec_uint_spec n Hn) as [HF Hv]. cbv zeta. by rewrite take_digits_app, Hv by done. }
  assert ((- 2 ^ (longBits - 1) <=? c)%Z && (c <? 2 ^ (longBits - 1))%Z = true) as Hb by lia.
  unfold stol, to_string. destruct (Z.ltb_spec c 0) as [Hneg|Hpos]; simpl app; cbn [skip_space].
  - rewrite (eq_refl : isspace "-" = false). cbv zeta iota beta.
    specialize (Hd (- c)%Z true ltac:(lia)). cbv zeta in Hd. injection Hd as H1 H2. rewrite H2, H1.
    rewrite bool_decide_false by apply dec_uint_nonempty. by rewrite Z.opp_involutive, Hb.
  - destruct (dec_uint_spec c Hpos) as [HF _].
    specialize (Hd c true Hpos). cbv zeta in Hd. injection Hd as H1 H2.
    pose proof (dec_uint_nonempty c) as Hne.
    destruct (dec_uint c) as [|x ds] eqn:Ed; [done|]. apply Forall_cons in HF as [Hx _].
    simpl app in *. cbn [skip_space]. rewrite (is_digit_isspace x Hx).
    assert ((match x :: ds ++ r with "-"%char :: s' => (true, s') | "+"%char :: s' => (false, s') | s' => (false, s') end)
             = (false, x :: ds ++ r)) as ->.
    { clear -Hx. revert Hx. generalize (ds ++ r). intros s. revert x.
      assert (∀ x, (is_digit x = true) → x ≠ "-"%char ∧ x ≠ "+"%char) as H by (intros x Hx; split; intros ->; done).
      intros x Hx. destruct (H x Hx). repeat case_match; simplify_eq; done. }
    cbv iota beta. rewrite H2, H1. rewrite bool_decide_false by done. by rewrite Hb.
Qed.
