(* ===== verification/HtmtRoundTrip.v ===== *)
(** Templates: what [print] writes is what [parse] reads. *)

From S2P Require Import Prelude CharConv Query Response Effects Htmt HtmtTotal HtmtRender HtmtPrint.

Definition prints (vs : list translationValue) : text := vs ≫= print.

(** Everything but HTML begins with ["<"]. *)
Definition is_HTML (v : translationValue) : bool := match v with V_HTML _ => true | _ => false end.
Definition is_block (v : translationValue) : bool := match v with V_translation _ => true | _ => false end.

Lemma print_head v : is_HTML v = false → head (print v) = Some LT.
Proof. destruct v as [| | |[[] tag values]]; done. Qed.

Lemma separate_tail v vs : separate (v :: vs) → separate vs.
Proof. destruct v, vs as [|[] vs]; done. Qed.

Lemma separate_next html vs b :
  separate (V_HTML html :: vs) → b = [] ∨ head b = Some LT →
  prints vs ++ b = [] ∨ head (prints vs ++ b) = Some LT.
Proof.
  destruct vs as [|v vs]; [done|]. intros Hs _. right.
  assert (is_HTML v = false) as Hv by (by destruct v).
  apply print_head in Hv. unfold prints. cbn [mbind list_bind].
  destruct (print v); [done|]. exact Hv.
Qed.

(** ** Openers behind a stretch without blocks *)

Lemma find_sub_insertion pat kind name b :
  pat ∈ tagOpens → kind = T "<HTMTVAL:" ∨ kind = T "<HTMTQUERY:" → avoids (T "<>") name →
  find_sub pat ((kind ++ name ++ T ">") ++ b) = (Nat.add (length (kind ++ name ++ T ">")) <$> find_sub pat b).
Proof.
  intros Hpat Hk Hn. chars. avoidance.
  assert (∃ k', kind = LT :: k' ∧ LT ∉ k' ∧ ∀ s, is_prefix pat (LT :: k' ++ s) = false) as (k' & -> & Hk' & Hp).
  { unfold tagOpens in Hpat. rewrite !elem_of_cons, elem_of_nil in Hpat. chars.
    destruct Hk as [->| ->]; eexists; (split; [reflexivity|]); (split; [by apply (bool_decide_unpack _); vm_compute|]);
      intros s; destruct Hpat as [->|[->|[->|[]]]]; vm_compute; reflexivity. }
  assert (tag_like pat) as Ht.
  { unfold tagOpens in Hpat. rewrite !elem_of_cons, elem_of_nil in Hpat.
    destruct Hpat as [->|[->|[->|[]]]]; tag_like. }
  simpl app. rewrite <- !app_assoc. cbn [find_sub]. rewrite Hp.
  rewrite (app_assoc k'), (app_assoc (k' ++ name)), find_sub_skip; [|done|].
  - cbn [length]. rewrite !app_assoc. by destruct (find_sub pat b).
  - rewrite !not_elem_of_app. split_and!; [done..|]. set_solver.
Qed.

Lemma opens_tag_like pat : pat ∈ tagOpens → tag_like pat ∧ ∃ rest, pat = T "<HTMT" ++ rest.
Proof.
  unfold tagOpens. rewrite !elem_of_cons, elem_of_nil.
  intros [->|[->|[->|[]]]]; (split; [tag_like|]);
    match goal with |- ∃ rest, ?p = _ => exists (drop 5 p); vm_compute; reflexivity end.
Qed.

Lemma find_sub_run pat run b :
  pat ∈ tagOpens → Forall writable run → separate run → Forall (λ v, is_block v = false) run →
  b = [] ∨ head b = Some LT →
  find_sub pat (prints run ++ b) = (Nat.add (length (prints run)) <$> find_sub pat b).
Proof.
  intros Hpat. induction run as [|v run IH]; intros Hw Hs Hb Hlt.
  { simpl. by destruct (find_sub pat b). }
  apply Forall_cons in Hw as [Hv Hw]. apply Forall_cons in Hb as [Hvb Hb].
  specialize (IH Hw (separate_tail _ _ Hs) Hb Hlt).
  assert (find_sub pat (print v ++ prints run ++ b) =
          (Nat.add (length (print v)) <$> find_sub pat (prints run ++ b))) as E.
  { destruct Hv as [name Hn|html Hh|name Hn|]; [| | |done].
    - apply find_sub_insertion; [done|by left|done].
    - destruct (opens_tag_like pat Hpat) as [Ht [rest Hr]].
      apply find_sub_boundary; [done|by eapply separate_next|]. eapply html_no_tag; [done|by left].
    - apply find_sub_insertion; [done|by right|done]. }
  unfold prints in *. cbn [mbind list_bind] in *. rewrite <- app_assoc, E, IH, length_app.
  destruct (find_sub pat b); [|done]. simpl. f_equal. lia.
Qed.

(** ** Reading a stretch without blocks *)

(** HTML that may be missing. *)
Definition html_part (html : text) : Prop := html = [] ∨ html_ok html.

Lemma find_sub_html_part pat rest html b :
  html_part html → pat = T "<HTMT" ++ rest → LT ∉ rest → b = [] ∨ head b = Some LT →
  find_sub pat (html ++ b) = (Nat.add (length html) <$> find_sub pat b).
Proof.
  intros [->|Hh] Hp Hr Hb; [by destruct (find_sub pat _)|].
  apply find_sub_boundary; [|done|].
  - exists (T "HTMT" ++ rest). split_and!; [done| |done]. rewrite not_elem_of_app. split; [|done].
    by apply (bool_decide_unpack _); vm_compute.
  - eapply html_no_tag; [done|by left].
Qed.

Lemma firstTag_html html b :
  html_part html → b = [] ∨ head b = Some LT →
  firstTag (html ++ b) = ((λ r, (length html + r.1.1, r.1.2, r.2))%nat <$> firstTag b).
Proof.
  intros Hh Hb. unfold firstTag.
  rewrite (find_sub_html_part (T "<HTMTVAL") (T "VAL") html b)
    by (done || by apply (bool_decide_unpack _); vm_compute).
  rewrite (find_sub_html_part (T "<HTMTQUERY") (T "QUERY") html b)
    by (done || by apply (bool_decide_unpack _); vm_compute).
  destruct (find_sub (T "<HTMTVAL") b) as [i|], (find_sub (T "<HTMTQUERY") b) as [j|]; try done.
  simpl. destruct (Nat.ltb_spec (length html + j) (length html + i)), (Nat.ltb_spec j i); (done || lia).
Qed.

Lemma find_sub_here pat s : find_sub pat (pat ++ s) = Some 0%nat.
Proof. pose proof (is_prefix_app pat s) as E. destruct (pat ++ s); simpl; by rewrite E. Qed.

Lemma find_sub_later pat s :
  is_prefix pat s = false → find_sub pat s = None ∨ ∃ n, find_sub pat s = Some (S n).
Proof.
  intros E. destruct s as [|c s]; cbn [find_sub]; rewrite E; [by left|].
  destruct (find_sub pat s); simpl; eauto.
Qed.

Lemma firstTag_access s : firstTag (T "<HTMTVAL:" ++ s) = Some (0%nat, 8%nat, V_access).
Proof.
  unfold firstTag. change (T "<HTMTVAL:") with (T "<HTMTVAL" ++ T ":"). rewrite <- app_assoc, find_sub_here.
  destruct (find_sub_later (T "<HTMTQUERY") (T "<HTMTVAL" ++ T ":" ++ s)) as [->|[n ->]]; done.
Qed.

Lemma firstTag_query s : firstTag (T "<HTMTQUERY:" ++ s) = Some (0%nat, 10%nat, V_query).
Proof.
  unfold firstTag. change (T "<HTMTQUERY:") with (T "<HTMTQUERY" ++ T ":"). rewrite <- app_assoc, find_sub_here.
  destruct (find_sub_later (T "<HTMTVAL") (T "<HTMTQUERY" ++ T ":" ++ s)) as [->|[n ->]]; done.
Qed.

Lemma advance_app (a b : text) : advance (length a) (a ++ b) = Ok b.
Proof.
  unfold advance. rewrite drop_app_length.
  destruct (Nat.leb_spec (length a) (length (a ++ b))) as [|H]; [done|]. rewrite length_app in H. lia.
Qed.

(** One round of the loop: the HTML before an insertion and the insertion. *)
Lemma subHTML_insertion fuel html name b values kind make :
  html_part html → GT ∉ name → head kind = Some LT →
  (∀ s, firstTag (kind ++ s) = Some (0%nat, (length kind - 1)%nat, make)) →
  subHTMLLoop (S fuel) (html ++ (kind ++ name ++ T ">") ++ b) values =
  subHTMLLoop fuel b (values ++ asHTML html ++ [make name]).
Proof.
  intros Hh Hn Hk Hf. destruct kind as [|k0 kind]; [done|]. simplify_eq/=.
  cbn [subHTMLLoop]. rewrite firstTag_html by (done || by right).
  rewrite <- app_assoc. specialize (Hf ((name ++ T ">") ++ b)). simpl app in Hf. rewrite Hf.
  destruct (html ++ _) as [|x l] eqn:E; [by destruct html|]. rewrite <- E. clear E.
  cbn [fmap option_fmap option_map fst snd]. rewrite Nat.add_0_r, take_app_length, drop_app_length.
  rewrite Nat.sub_0_r, Nat.add_1_r.
  pose proof (advance_app (LT :: kind) ((name ++ T ">") ++ b)) as Ha. cbn [app length] in Ha. rewrite Ha.
  rewrite <- (app_assoc name). chars.
  cbn [app mbind outcome_bind]. rewrite span_to_found by done.
  cbn [skip1 tail]. by rewrite <- app_assoc.
Qed.

Lemma subHTML_run fuel run values :
  Forall writable run → separate run → Forall (λ v, is_block v = false) run →
  (length (prints run) < fuel)%nat → subHTMLLoop fuel (prints run) values = Ok (values ++ run).
Proof.
  revert run values. induction fuel as [|fuel IH]; intros run values Hw Hs Hb Hl; [lia|].
  assert (∃ html run', run = asHTML html ++ run' ∧ html_part html ∧ match run' with V_HTML _ :: _ => False | _ => True end)
    as (html & run' & -> & Hh & Hnext).
  { destruct run as [|v run]; [exists [], []; by split_and!; try left|].
    destruct (is_HTML v) eqn:Ev; [|exists [], (v :: run); split_and!; [done|by left|by destruct v]].
    destruct v as [|html| |]; try done. exists html, run.
    apply Forall_cons in Hw as [Hw _]. inversion Hw as [|? Hh| |]; subst.
    split_and!; [by destruct html; [destruct Hh|]|by right|by destruct run as [|[] ?]]. }
  assert (prints (asHTML html ++ run') = html ++ prints run') as E.
  { unfold prints. rewrite bind_app. by destruct html; simpl; rewrite ?app_nil_r. }
  rewrite E in *. apply Forall_app in Hw as [_ Hw]. apply Forall_app in Hb as [_ Hb].
  assert (separate run') as Hs'.
  { destruct html; [done|]. by apply separate_tail in Hs. }
  destruct run' as [|v run']; simpl.
  { rewrite !app_nil_r. destruct html as [|c html]; [by rewrite app_nil_r|].
    assert (firstTag ((c :: html) ++ []) = None) as Hf by (by rewrite firstTag_html; [|done|by left]).
    rewrite app_nil_r in Hf. by rewrite Hf. }
  apply Forall_cons in Hw as [Hv Hw]. apply Forall_cons in Hb as [Hvb Hb].
  apply separate_tail in Hs'.
  change (prints (v :: run')) with (print v ++ prints run') in *. rewrite !length_app in Hl.
  assert (∃ kind name make, print v = kind ++ name ++ T ">" ∧ v = make name ∧ GT ∉ name ∧ head kind = Some LT ∧
    (∀ s, firstTag (kind ++ s) = Some (0%nat, (length kind - 1)%nat, make))) as (kind & name & make & Ev & -> & Hn & Hk & Hf).
  { destruct Hv as [name Hn|html' Hh'|name Hn|]; try done; chars; avoidance.
    - eexists _, name, V_access. split_and!; [reflexivity|done..|]. apply firstTag_access.
    - eexists _, name, V_query. split_and!; [reflexivity|done..|]. apply firstTag_query. }
  rewrite Ev in *. change (match html ++ (kind ++ name ++ T ">") ++ prints run' with
    | [] => Ok values | _ => _ end) with (subHTMLLoop (S fuel) (html ++ (kind ++ name ++ T ">") ++ prints run') values).
  rewrite (subHTML_insertion _ _ _ _ _ _ make) by done.
  rewrite IH; [by rewrite <- !app_assoc|done..|].
  rewrite !length_app in Hl. chars. simpl in Hl. lia.
Qed.

(** ** The end of a block *)

Lemma tagMatches_long pattern it :
  (length pattern ≤ length it)%nat → pattern ≠ [] → tagMatches pattern it = is_prefix pattern it.
Proof.
  intros Hl Hne. unfold tagMatches. rewrite Nat.min_l by done. rewrite (take_ge pattern) by done.
  apply eq_bool_prop_intro. rewrite !Is_true_true, andb_true_iff, !bool_decide_eq_true, is_prefix_spec. split.
  - intros [_ H]. exists (drop (length pattern) it). by rewrite <- H at 1; rewrite take_drop.
  - intros [r ->]. rewrite take_app_length. by destruct pattern.
Qed.

Lemma tagLoop_skip pre post s depth b :
  b ≠ [] → tagLoop pre post (length s) depth (s ++ b) = tagLoop pre post 0 depth b.
Proof. intros Hb. induction s as [|c s IH]; [done|]. exact IH. Qed.

Lemma tagLoop_at pre post depth it :
  it ≠ [] →
  tagLoop pre post 0 depth it =
  if tagMatches pre it then tagLoop pre post (length pre) (uwrap 64 (depth + 1)) (tail it)
  else if tagMatches post it then
    if (depth =? 0)%Z then advance (length post) it
    else tagLoop pre post 0 (uwrap 64 (depth - 1)) (tail it)
  else tagLoop pre post 0 depth (tail it).
Proof. by destruct it. Qed.

Section search.
Context (pre post : text).
Hypothesis Hpre : tag_like pre.
Hypothesis Hpost : tag_like post.

Lemma tagLoop_plain s depth b :
  LT ∉ s → tagLoop pre post 0 depth (s ++ b) = tagLoop pre post 0 depth b.
Proof.
  destruct Hpre as (p & -> & _). destruct Hpost as (q & -> & _).
  induction s as [|c s IH]; intros Hs; [done|]. cbn [app tagLoop].
  assert (∀ t, tagMatches (LT :: t) (c :: s ++ b) = false) as H.
  { intros t. unfold tagMatches. rewrite bool_decide_false; [done|]. intros [= ->]. set_solver. }
  rewrite !H. apply IH. set_solver.
Qed.

(** HTML without tags up to the next ["<"]. *)
Lemma tagLoop_html s depth b :
  (length pre ≤ length b)%nat → (length post ≤ length b)%nat → head b = Some LT →
  find_sub pre s = None → find_sub post s = None →
  tagLoop pre post 0 depth (s ++ b) = tagLoop pre post 0 depth b.
Proof.
  intros H1 H2 Hb. induction s as [|c s IH]; intros Hs1 Hs2; [done|].
  pose proof Hpre as (p & Ep & Hp & _). pose proof Hpost as (q & Eq & Hq & _).
  assert (∀ pat, pat = pre ∨ pat = post → find_sub pat (c :: s) = None →
    tagMatches pat (c :: s ++ b) = false ∧ find_sub pat s = None) as H.
  { intros pat Hpat Hf. cbn [find_sub] in Hf. destruct (is_prefix pat (c :: s)) eqn:E; [done|].
    apply fmap_None in Hf. split; [|done]. rewrite tagMatches_long.
    - destruct Hpat as [->| ->]; [rewrite Ep in E |- *|rewrite Eq in E |- *]; cbn [is_prefix] in *;
        rewrite is_prefix_boundary; auto.
    - simpl. rewrite length_app. destruct Hpat as [->| ->]; lia.
    - destruct Hpat as [->| ->]; rewrite ?Ep, ?Eq; done. }
  destruct (H pre) as [E1 ?]; [by left|done|]. destruct (H post) as [E2 ?]; [by right|done|].
  cbn [app tagLoop]. rewrite E1, E2. by apply IH.
Qed.

(** Some other tag. *)
Lemma tagLoop_other tag s depth b :
  head tag = Some LT → LT ∉ tail tag ++ s →
  (length pre ≤ length (tag ++ s ++ b))%nat → (length post ≤ length (tag ++ s ++ b))%nat →
  is_prefix pre (tag ++ s ++ b) = false → is_prefix post (tag ++ s ++ b) = false →
  tagLoop pre post 0 depth (tag ++ s ++ b) = tagLoop pre post 0 depth b.
Proof.
  intros Ht Hs H1 H2 E1 E2. destruct tag as [|c tag]; simplify_eq/=.
  rewrite !tagMatches_long, E1, E2; [|(by destruct Hpre as (? & -> & _)) || (by destruct Hpost as (? & -> & _)) || done..].
  rewrite app_assoc. by apply tagLoop_plain.
Qed.

Lemma tag_tail pat s : tag_like pat → LT ∉ tail pat ∧ tail (pat ++ s) = tail pat ++ s ∧
  length pat = S (length (tail pat)) ∧ pat ++ s ≠ [].
Proof. by intros (p & -> & Hp & _). Qed.

Lemma tagLoop_open s depth b :
  s ≠ [] → LT ∉ s → b ≠ [] →
  tagLoop pre post 0 depth (pre ++ s ++ b) = tagLoop pre post 0 (uwrap 64 (depth + 1)) b.
Proof.
  intros Hs HLT Hb. destruct (tag_tail pre (s ++ b) Hpre) as (Hp & Ht & Hl & Hne).
  rewrite tagLoop_at, tagMatches_long, is_prefix_app
    by (done || (rewrite length_app; lia) || (intros E; by rewrite E in Hl)).
  rewrite Ht, Hl. destruct s as [|c s]; [done|].
  change ((c :: s) ++ b) with ([c] ++ (s ++ b)). rewrite app_assoc.
  replace (S (length (tail pre))) with (length (tail pre ++ [c])) by (rewrite length_app; simpl; lia).
  rewrite tagLoop_skip by (by destruct s). apply tagLoop_plain. set_solver.
Qed.

Hypothesis Hdiffer : ∀ s, is_prefix pre (post ++ s) = false.
Hypothesis Hshorter : (length pre ≤ length post)%nat.

Lemma tagLoop_post depth b :
  tagLoop pre post 0 depth (post ++ b) =
  if (depth =? 0)%Z then Ok b else tagLoop pre post 0 (uwrap 64 (depth - 1)) b.
Proof.
  destruct (tag_tail post b Hpost) as (Hp & Ht & Hl & Hne).
  pose proof (tag_tail pre [] Hpre) as (_ & _ & Hl' & _).
  rewrite tagLoop_at, !tagMatches_long, Hdiffer, is_prefix_app, Ht
    by (done || (rewrite length_app; lia) || (intros E; by rewrite E in Hl) || (intros E; by rewrite E in Hl')).
  case_match; [apply advance_app|by apply tagLoop_plain].
Qed.
End search.

(** ** The tags of the three kinds of blocks *)

Lemma tags_tag_like m : tag_like (openOf m) ∧ tag_like (closeOf m).
Proof. split; destruct m; cbn [openOf closeOf]; tag_like. Qed.

Lemma open_close m m' s : is_prefix (openOf m) (closeOf m' ++ s) = false ∧ is_prefix (closeOf m) (openOf m' ++ s) = false.
Proof. by destruct m, m'. Qed.

Lemma open_shorter m : (length (openOf m) ≤ length (closeOf m))%nat.
Proof. destruct m; vm_compute; lia. Qed.

Lemma tags_compare m m' :
  (openOf m' = openOf m ∧ closeOf m' = closeOf m) ∨
  (∀ s, is_prefix (openOf m) (openOf m' ++ s) = false) ∧ (∀ s, is_prefix (closeOf m) (closeOf m' ++ s) = false).
Proof. destruct m, m'; (by left) || (by right). Qed.

Lemma insertion_tags m kind s :
  kind = T "<HTMTVAL:" ∨ kind = T "<HTMTQUERY:" →
  is_prefix (openOf m) (kind ++ s) = false ∧ is_prefix (closeOf m) (kind ++ s) = false ∧
  head kind = Some LT ∧ LT ∉ tail kind.
Proof.
  intros [->| ->]; (split_and!; [by destruct m..|done|by apply (bool_decide_unpack _); vm_compute]).
Qed.

Lemma html_tags m html : html_ok html → find_sub (openOf m) html = None ∧ find_sub (closeOf m) html = None.
Proof.
  intros (_ & H1 & H2). split; destruct m; cbn [openOf closeOf];
    match goal with |- find_sub ?p _ = _ => let l := eval vm_compute in (drop 5 p) in
      let l' := eval vm_compute in (drop 6 p) in
      (apply (find_sub_longer (T "<HTMT") l); exact H1) || (apply (find_sub_longer (T "</HTMT") l'); exact H2)
    end.
Qed.

Lemma not_elem_of_digits x ds : Forall (λ c, is_digit c = true) ds → is_digit x = false → x ∉ ds.
Proof. rewrite Forall_forall. intros H Hx Hin. apply H in Hin. by rewrite Hx in Hin. Qed.

Lemma tagText_avoids m tag : tag_ok m tag → LT ∉ tagText tag ∧ GT ∉ tagText tag.
Proof.
  destruct m, tag as [[|c n]|c|c]; try done; simpl.
  - intros _. split; apply not_elem_of_nil.
  - by intros [].
  - intros [_ H]. chars. avoidance. done.
  - intros _. unfold to_string. destruct (Z.ltb_spec c 0) as [H|H].
    + destruct (dec_uint_spec (- c)) as [HF _]; [lia|].
      split; apply not_elem_of_cons; (split; [done|]); by apply not_elem_of_digits.
    + destruct (dec_uint_spec c) as [HF _]; [lia|]. split; by apply not_elem_of_digits.
  - intros [_ H]. unfold printCondition. destruct (conditions c) as [|c0 cs]; [split; apply not_elem_of_nil|].
    apply Forall_cons in H as [H0 H]. apply printSub_avoids in H0.
    pose proof (printRest_avoids (conjunctions c) cs H) as Hr. chars. avoidance.
    split; rewrite not_elem_of_app; done.
Qed.

(** ** Blocks inside a block *)

Definition balanced (m : matchType) (s : text) (followed : Prop) : Prop :=
  ∀ depth b, (0 ≤ depth)%Z → (depth + Z.of_nat (length s) < 2 ^ 64)%Z →
  (length (closeOf m) ≤ length b)%nat → (followed → head b = Some LT) →
  tagLoop (openOf m) (closeOf m) 0 depth (s ++ b) = tagLoop (openOf m) (closeOf m) 0 depth b.

Lemma balanced_prints m vs :
  Forall (λ v, balanced m (print v) (is_HTML v = true)) vs → separate vs → balanced m (prints vs) True.
Proof.
  intros HF Hs depth b Hd Hl Hb Hlt. specialize (Hlt I). induction HF as [|v vs Hv _ IH]; [done|].
  change (prints (v :: vs)) with (print v ++ prints vs) in *. rewrite length_app in Hl.
  rewrite <- app_assoc, Hv; [apply IH; [by eapply separate_tail|lia]|done|lia|rewrite length_app; lia|].
  intros Hv'. destruct v; try done. destruct (separate_next _ _ b Hs) as [E|E]; [by right| |done].
  apply app_eq_nil in E as [_ ->]. done.
Qed.

(** The opening and the closing tag of a block around contents that are balanced. *)
Lemma balanced_block m m' tag inner :
  LT ∉ tag → balanced m inner True →
  balanced m (openOf m' ++ tag ++ T ">" ++ inner ++ closeOf m') False.
Proof.
  intros Htag Hi depth b Hd Hl Hb _. rewrite !length_app in Hl.
  destruct (tags_tag_like m) as [Ho Hc]. pose proof (open_shorter m) as Hsh.
  assert (LT ∉ tag ++ T ">") as Hp.
  { rewrite not_elem_of_app. split; [done|]. by apply (bool_decide_unpack _); vm_compute. }
  rewrite <- !app_assoc. rewrite (app_assoc tag).
  assert (1 ≤ length (openOf m'))%nat by (destruct m'; vm_compute; lia).
  destruct (tags_compare m m') as [[Eo Ec]|[Eo Ec]].
  - rewrite Eo, Ec in *. rewrite (tagLoop_open _ _ Ho Hc); try done.
    + rewrite uwrap_small by lia. rewrite Hi; [|lia..| |].
      * rewrite (tagLoop_post _ _ Ho Hc); [|apply open_close|done].
        destruct (Z.eqb_spec (depth + 1) 0); [lia|]. rewrite uwrap_small by lia. f_equal. lia.
      * rewrite length_app. lia.
      * by destruct m.
    + by destruct tag.
    + intros [_ [E _]%app_eq_nil]%app_eq_nil. by destruct m.
  - rewrite (tagLoop_other _ _ Ho Hc).
    + rewrite Hi; [|lia..| |].
      * pose proof (tagLoop_other _ _ Ho Hc (closeOf m') [] depth b) as E. simpl app in E. apply E.
        -- by destruct m'.
        -- rewrite app_nil_r. by destruct m'; apply (bool_decide_unpack _); vm_compute.
        -- rewrite length_app. lia.
        -- rewrite length_app. lia.
        -- apply open_close.
        -- apply Ec.
      * rewrite length_app. lia.
      * by destruct m'.
    + by destruct m'.
    + rewrite not_elem_of_app. split; [|done]. by destruct m'; apply (bool_decide_unpack _); vm_compute.
    + rewrite !length_app. lia.
    + rewrite !length_app. lia.
    + apply Eo.
    + apply open_close.
Qed.

Lemma balanced_value v : writable v → ∀ m, balanced m (print v) (is_HTML v = true).
Proof.
  assert (∀ m kind name, kind = T "<HTMTVAL:" ∨ kind = T "<HTMTQUERY:" → avoids (T "<>") name →
    balanced m (kind ++ name ++ T ">") False) as Hins.
  { intros m kind name Hk Hn depth b Hd Hl Hb _. destruct (tags_tag_like m) as [Ho Hc].
    pose proof (open_shorter m). rewrite <- app_assoc.
    destruct (insertion_tags m kind ((name ++ T ">") ++ b) Hk) as (H1 & H2 & H3 & H4).
    apply (tagLoop_other _ _ Ho Hc); try done; [|rewrite !length_app; lia..].
    rewrite !not_elem_of_app. chars. avoidance. split_and!; [done..|]. set_solver. }
  induction v as [name|html|name|m' tag values IH] using value_induction; intros Hv m; inversion Hv; subst.
  - intros depth b ????. apply (Hins m (T "<HTMTVAL:") name); auto.
  - intros depth b Hd Hl Hb Hlt. destruct (tags_tag_like m) as [Ho Hc]. pose proof (open_shorter m).
    destruct (html_tags m html) as [H1 H2]; [done|].
    apply (tagLoop_html _ _ Ho Hc); [lia|lia|by apply Hlt|done|done].
  - intros depth b ????. apply (Hins m (T "<HTMTQUERY:") name); auto.
  - intros depth b ????.
    match goal with H : tag_ok _ _ |- _ => destruct (tagText_avoids _ _ H) as [HLT _] end.
    apply (balanced_block m m' (tagText tag) (prints values)); [done| |done..].
    apply balanced_prints; [|done]. rewrite Forall_forall in *. auto.
Qed.

(** ** Reading a block back *)

Lemma tagSearch_block m tag inner b :
  LT ∉ tag → balanced m inner True → (Z.of_nat (length inner) < 2 ^ 64)%Z →
  tagSearch (openOf m ++ (tag ++ T ">") ++ inner ++ closeOf m ++ b) (openOf m) (closeOf m) = Ok b.
Proof.
  intros Htag Hi Hl. destruct (tags_tag_like m) as [Ho Hc]. pose proof (open_shorter m) as Hsh.
  unfold tagSearch. rewrite Nat.min_l by (rewrite length_app; lia).
  rewrite take_app_length, (take_ge (openOf m)), bool_decide_true by done.
  cbn [assert_ mbind outcome_bind]. rewrite (tagLoop_open _ _ Ho Hc).
  - replace (uwrap 64 (2 ^ 64 - 1 + 1)) with 0%Z by reflexivity. rewrite Hi; [|lia|lia| |].
    + rewrite (tagLoop_post _ _ Ho Hc); [done|apply open_close|done].
    + rewrite length_app. lia.
    + by destruct m.
  - by destruct tag.
  - rewrite not_elem_of_app. split; [done|]. by apply (bool_decide_unpack _); vm_compute.
  - intros [_ [E _]%app_eq_nil]%app_eq_nil. by destruct m.
Qed.

Definition indexOf (m : matchType) : nat :=
  match m with M_always | M_tag => 0 | M_code => 1 | M_condition => 2 end.

Lemma indexOf_tags m : tagOpens !! indexOf m = Some (openOf m) ∧ tagCloses !! indexOf m = Some (closeOf m).
Proof. by destruct m. Qed.

Lemma min_element_run m run s :
  Forall writable run → separate run → Forall (λ v, is_block v = false) run →
  min_element (findNextSet (prints run ++ openOf m ++ s) tagOpens) = (indexOf m, Some (length (prints run))).
Proof.
  intros Hw Hs Hb. unfold findNextSet.
  assert (∀ pat, pat ∈ tagOpens → find_sub pat (prints run ++ openOf m ++ s) =
    Nat.add (length (prints run)) <$> find_sub pat (openOf m ++ s)) as Hr.
  { intros pat Hpat. apply find_sub_run; try done. right. by destruct m. }
  unfold tagOpens in *. cbn [fmap list_fmap]. rewrite !Hr by set_solver. clear Hr.
  assert (∀ pat, is_prefix pat (openOf m ++ s) = false →
    find_sub pat (openOf m ++ s) = None ∨ ∃ n, find_sub pat (openOf m ++ s) = Some (S n)) as Hl
    by (intros pat; apply find_sub_later).
  pose proof (find_sub_here (openOf m) s) as Hown. generalize (length (prints run)). intros L.
  assert (∀ own a b, own = Some 0%nat → a = None ∨ (∃ n, a = Some (S n)) → b = None ∨ (∃ n, b = Some (S n)) →
    min_element [Nat.add L <$> own; Nat.add L <$> a; Nat.add L <$> b] = (0%nat, Some L) ∧
    min_element [Nat.add L <$> a; Nat.add L <$> own; Nat.add L <$> b] = (1%nat, Some L) ∧
    min_element [Nat.add L <$> a; Nat.add L <$> b; Nat.add L <$> own] = (2%nat, Some L)) as Hmin.
  { intros own a b -> Ha Hb'.
    destruct Ha as [->|[na ->]], Hb' as [->|[nb ->]]; unfold min_element; simpl;
      repeat match goal with |- context [(?x <? ?y)%nat] => destruct (Nat.ltb_spec x y); try lia; simpl end;
      rewrite ?Nat.add_0_r; done. }
  destruct m; cbn [openOf indexOf] in *; apply Hmin; try done; by apply Hl.
Qed.

Lemma tagOf_print m tag rest :
  tag_ok m tag → tagOf (matchType_of (indexOf m)) (tagText tag) (tagText tag ++ T ">" ++ rest) = Ok (m, tag).
Proof.
  destruct m, tag as [[|c n]|c|c]; try done; simpl.
  - by intros [].
  - intros Hc. rewrite stol_print; [done..|]. intros x r [= <- _]. done.
  - intros [Ht Hs]. by rewrite parse_printCondition.
Qed.

Lemma split_at_block vs :
  (Forall (λ v, is_block v = false) vs) ∨
  ∃ run m tag inner rest, vs = run ++ V_translation (Translation m tag inner) :: rest ∧
    Forall (λ v, is_block v = false) run.
Proof.
  induction vs as [|v vs IH]; [by left|]. destruct (is_block v) eqn:E.
  - destruct v as [| | |[m tag inner]]; try done. right. by eexists [], m, tag, inner, vs.
  - destruct IH as [IH|(run & m & tag & inner & rest & -> & IH)]; [left; by constructor|].
    right. exists (v :: run), m, tag, inner, rest. split; [done|by constructor].
Qed.

Lemma separate_app a b : separate (a ++ b) → separate a ∧ separate b.
Proof.
  induction a as [|v a IH]; [done|]. intros H. destruct (IH (separate_tail _ _ H)) as [Ha Hb]. split; [|done].
  destruct v, a as [|[] a]; done.
Qed.

Lemma parseLoop_prints fuel vs values :
  Forall writable vs → separate vs → (length (prints vs) < fuel)%nat →
  (Z.of_nat (length (prints vs)) < 2 ^ 64)%Z → parseLoop fuel (prints vs) values = Ok (values ++ vs).
Proof.
  revert vs values. induction fuel as [|fuel IH]; intros vs values Hw Hs Hl Hbound; [lia|].
  destruct (split_at_block vs) as [Hb|(run & m & tag & inner & rest & -> & Hb)].
  - cbn [parseLoop].
    assert (∀ pat, pat ∈ tagOpens → find_sub pat (prints vs) = None) as Hf.
    { intros pat Hpat. pose proof (find_sub_run pat vs [] Hpat Hw Hs Hb (or_introl eq_refl)) as E.
      rewrite app_nil_r in E. rewrite E. destruct (opens_tag_like pat Hpat) as [(p & -> & _) _]. done. }
    unfold findNextSet, tagOpens in *. cbn [fmap list_fmap]. rewrite !Hf by set_solver.
    apply subHTML_run; [done..|lia].
  - apply separate_app in Hs as [Hsr Hs]. apply separate_tail in Hs.
    apply Forall_app in Hw as [Hwr Hw]. apply Forall_cons in Hw as [Hwb Hw].
    inversion Hwb as [| | |? ? ? Ht Hwi Hsi]; subst.
    destruct (tagText_avoids _ _ Ht) as [HLT HGT].
    assert (prints (run ++ V_translation (Translation m tag inner) :: rest) =
      prints run ++ openOf m ++ (tagText tag ++ T ">") ++ prints inner ++ closeOf m ++ prints rest) as E.
    { unfold prints. rewrite bind_app. cbn [mbind list_bind print printWith printBlock]. by rewrite <- !app_assoc. }
    rewrite E in *. clear E. rewrite !length_app in Hl, Hbound. cbn [parseLoop].
    rewrite min_element_run by done. cbv iota beta.
    destruct (indexOf_tags m) as [E1 E2]. unfold index_. rewrite E1, E2. cbn [mbind outcome_bind].
    rewrite take_app_length, !drop_app_length. change (valueWith translation) with translationValue.
    assert ((if bool_decide (length (prints run) = 0)%nat then Ok values else parseSubHTML (prints run) values)
            = Ok (values ++ run)) as ->.
    { case_bool_decide as E0; [|apply subHTML_run; (done || lia)].
      pose proof (subHTML_run 1 run values Hwr Hsr Hb ltac:(lia)) as E.
      destruct (prints run); [exact E|done]. }
    rewrite tagSearch_block; [|done|apply balanced_prints; [|done]|lia].
    2: { eapply Forall_impl; [exact Hwi|]. intros v Hv. by apply balanced_value. }
    rewrite <- (app_assoc (tagText tag)). chars. cbn [app]. rewrite span_to_found by done.
    cbn [mbind outcome_bind]. pose proof (advance_app [GT]) as Ha. cbn [app length] in Ha.
    rewrite Ha. clear Ha. cbn [mbind outcome_bind].
    assert (uwrap 64 (Z.of_nat (length (prints inner ++ closeOf m ++ prints rest)) - Z.of_nat (length (prints rest))
              - Z.of_nat (length (closeOf m))) = Z.of_nat (length (prints inner))) as ->.
    { rewrite uwrap_small; rewrite !length_app; lia. }
    rewrite length_app. destruct (Z.ltb_spec (Z.of_nat (length (prints inner) + length (closeOf m ++ prints rest)))
      (Z.of_nat (length (prints inner)))); [lia|].
    rewrite Nat2Z.id, take_app_length. cbn [length app] in Hl.
    rewrite (IH inner []) by (done || lia). cbn [mbind outcome_bind app].
    pose proof (tagOf_print m tag (prints inner ++ closeOf m ++ prints rest) Ht) as Etag. chars. cbn [app] in Etag.
    rewrite Etag. cbn [mbind outcome_bind]. rewrite (IH rest) by (done || lia).
    by rewrite <- !app_assoc.
Qed.

(** C12: what [print] writes of a writable template is read back as it was:
    [translation::parse] builds the template it was written from, blocks nested
    in blocks of the same kind included.  Writable means that names and conditions
    hold none of the characters that delimit them, codes fit a [long], stretches of
    HTML are not empty and hold no tag of their own, and no two of them are adjacent
    ([writable], [separate]). *)
Theorem parse_prints vs :
  Forall writable vs → separate vs → (Z.of_nat (length (prints vs)) < 2 ^ 64)%Z →
  parse (prints vs) = Ok (Translation M_always (TagName []) vs).
Proof. intros Hw Hs Hl. unfold parse. by rewrite parseLoop_prints by (done || lia). Qed.
