(* ===== verification/Handles.v ===== *)
(** Translator/include/Curl.h: the wrapper around a curl handle
    ([curlwrapper]), the answer a transfer fills in ([APIResponse]) and the
    request object that owns both ([requestWrapper]).

    libcurl is not part of the repository.  Its handles are numbers, a handle is
    the record of the options set on it, and [Libcurl] says what a transfer
    answers.  The options that are pointers into an object ([CURLOPT_WRITEDATA],
    [CURLOPT_HEADERDATA]) are locations of the memory of objects, so that a
    transfer into an object that is gone is a fault. *)

From S2P Require Import Prelude Database Double Effects.

(** ** libcurl *)

Record request := {
  r_url : text;
  r_post : bool;
  r_cookie : option text;
  r_body : text;
}.

Record reply := {
  header_lines : list text;   (** one call of the header callback each *)
  body_chunks : list text;    (** one call of the write callback each *)
  code : Z;
  total_time : double;
}.

Class Libcurl := {
  easy_init_ok : nat → bool;                     (** whether the n-th handle can be had *)
  transfer : list request → request → reply;     (** given the transfers before *)
}.

(** The options of a handle.  [WRITEFUNCTION] and [HEADERFUNCTION] say whether the
    callback of the program is set. *)
Record curlHandle := {
  URL : option text;
  COOKIE : option text;
  isPost : bool;
  POSTFIELDS : option text;
  WRITEDATA : option nat;
  HEADERDATA : option nat;
  WRITEFUNCTION : bool;
  HEADERFUNCTION : bool;
  last_code : Z;
  last_time : double;
}.

Definition freshHandle : curlHandle :=
  {| URL := None; COOKIE := None; isPost := false; POSTFIELDS := None; WRITEDATA := None;
     HEADERDATA := None; WRITEFUNCTION := false; HEADERFUNCTION := false;
     last_code := 0; last_time := double_zero |}.

(** ** The objects of the program *)

Record APIResponse := {
  headers : list (text * text);
  response : text;
  response_code : Z;
  responseTime : double;
}.

Definition emptyAPIResponse : APIResponse :=
  {| headers := []; response := []; response_code := 0; responseTime := double_zero |}.

(** [curlwrapper]: its pointer. *)
Definition curlwrapper : Type := option nat.

Record requestWrapper := { w_response : APIResponse; w_curl : curlwrapper }.

Record heap := {
  handles : gmap nat curlHandle;         (** not yet cleaned up *)
  objects : gmap nat requestWrapper;     (** alive *)
  next : nat;                            (** handles asked for so far *)
  sent : list request;
}.

Definition emptyHeap : heap := {| handles := ∅; objects := ∅; next := 0; sent := [] |}.

Definition set_handles (f : gmap nat curlHandle → gmap nat curlHandle) (s : heap) : heap :=
  {| handles := f (handles s); objects := objects s; next := next s; sent := sent s |}.
Definition set_objects (f : gmap nat requestWrapper → gmap nat requestWrapper) (s : heap) : heap :=
  {| handles := handles s; objects := f (objects s); next := next s; sent := sent s |}.

Section curl.
Context `{Libcurl}.

(** A handle that is not live must not be used; an object that is not alive either. *)
Definition handle_at (h : nat) : ST heap curlHandle := λ s,
  match handles s !! h with Some c => (Ok c, s) | None => (Raise UndefinedBehaviour, s) end.
Definition object_at (l : nat) : ST heap requestWrapper := λ s,
  match objects s !! l with Some o => (Ok o, s) | None => (Raise UndefinedBehaviour, s) end.

Definition curl_easy_init : ST heap curlwrapper := λ s,
  let n := next s in
  (Ok (if easy_init_ok n then Some n else None),
   {| handles := if easy_init_ok n then <[n := freshHandle]> (handles s) else handles s;
      objects := objects s; next := S n; sent := sent s |}).

Definition curl_easy_cleanup (h : nat) : ST heap unit :=
  _ ← handle_at h;
  modifyS (set_handles (delete h)).

(** [curl_easy_setopt]; on a null handle it only returns an error. *)
Definition setopt (f : curlHandle → curlHandle) (object : curlwrapper) : ST heap unit :=
  match object with
  | None => mret tt
  | Some h => c ← handle_at h; modifyS (set_handles (insert h (f c)))
  end.

(** ** [curlwrapper] *)

Definition tidy (object : curlwrapper) : ST heap curlwrapper :=
  match object with
  | Some h => _ ← curl_easy_cleanup h; mret None
  | None => mret None
  end.

(** The move assignment; what the two pointers are afterwards. *)
Definition assign (this other : curlwrapper) : ST heap (curlwrapper * curlwrapper) :=
  _ ← tidy this;
  mret (other, None).

(** Assigned to itself, it is left without a handle. *)
Definition assignSelf (this : curlwrapper) : ST heap curlwrapper := tidy this.

(** ** [APIResponse] *)

Definition allowedHeaders : list text := [T "Set-Cookie"; T "cookie"].

(** [writeHeaders] on one header line; the data it adds.  The assertion that
    looks at the character behind the colon assigns to it. *)
Definition writeHeaders (buffer : text) : outcome (list (text * text)) :=
  let '(name, div) := span_to ":"%char buffer in
  if negb (bool_decide (name ∈ allowedHeaders)) then Ok [] else
  match div with
  | [] => Ok []
  | [_] => Raise UndefinedBehaviour
  | colon :: _ :: rest =>
      let buffer := name ++ colon :: " "%char :: rest in
      let n := length buffer in
      last ← index_ buffer (n - 1);
      last2 ← index_ buffer (n - 2);
      _ ← assert_ (bool_decide (last = NEWLINE) && bool_decide (last2 = "013"%char));
      if (n - 2 <? length name + 2)%nat then Raise LengthError
      else Ok [(name, take (n - 2 - (length name + 2)) rest)]
  end.

Definition set_WRITEDATA (l : nat) (c : curlHandle) : curlHandle :=
  {| URL := URL c; COOKIE := COOKIE c; isPost := isPost c; POSTFIELDS := POSTFIELDS c;
     WRITEDATA := Some l; HEADERDATA := Some l; WRITEFUNCTION := WRITEFUNCTION c;
     HEADERFUNCTION := true; last_code := last_code c; last_time := last_time c |}.

Definition set_object (l : nat) (f : requestWrapper → requestWrapper) : ST heap unit :=
  o ← object_at l;
  modifyS (set_objects (insert l (f o))).

Definition set_response (f : APIResponse → APIResponse) (o : requestWrapper) : requestWrapper :=
  {| w_response := f (w_response o); w_curl := w_curl o |}.
Definition set_curl (c : curlwrapper) (o : requestWrapper) : requestWrapper :=
  {| w_response := w_response o; w_curl := c |}.

(** [curl_easy_getinfo] of the code and the time into the response of [l]. *)
Definition getinfo (l : nat) (object : curlwrapper) : ST heap unit :=
  match object with
  | None => mret tt
  | Some h =>
      c ← handle_at h;
      set_object l (set_response (λ r, {| headers := headers r; response := response r;
                                          response_code := last_code c; responseTime := last_time c |}))
  end.

(** [APIResponse::bind], for the response of the object at [l]. *)
Definition bindResponse (l : nat) (object : curlwrapper) : ST heap unit :=
  _ ← setopt (set_WRITEDATA l) object;
  getinfo l object.

(** ** [requestWrapper] *)

Definition set_URL (u : text) (c : curlHandle) : curlHandle :=
  {| URL := Some (c_str u); COOKIE := COOKIE c; isPost := isPost c; POSTFIELDS := POSTFIELDS c;
     WRITEDATA := WRITEDATA c; HEADERDATA := HEADERDATA c; WRITEFUNCTION := WRITEFUNCTION c;
     HEADERFUNCTION := HEADERFUNCTION c; last_code := last_code c; last_time := last_time c |}.
Definition set_WRITEFUNCTION (c : curlHandle) : curlHandle :=
  {| URL := URL c; COOKIE := COOKIE c; isPost := isPost c; POSTFIELDS := POSTFIELDS c;
     WRITEDATA := WRITEDATA c; HEADERDATA := HEADERDATA c; WRITEFUNCTION := true;
     HEADERFUNCTION := HEADERFUNCTION c; last_code := last_code c; last_time := last_time c |}.
Definition set_COOKIE (v : text) (c : curlHandle) : curlHandle :=
  {| URL := URL c; COOKIE := Some (c_str v); isPost := isPost c; POSTFIELDS := POSTFIELDS c;
     WRITEDATA := WRITEDATA c; HEADERDATA := HEADERDATA c; WRITEFUNCTION := WRITEFUNCTION c;
     HEADERFUNCTION := HEADERFUNCTION c; last_code := last_code c; last_time := last_time c |}.
(** Setting the fields makes the request a POST; [CURLOPT_HTTPGET] a GET again. *)
Definition set_method (post : bool) (fields : option text) (c : curlHandle) : curlHandle :=
  {| URL := URL c; COOKIE := COOKIE c; isPost := post; POSTFIELDS := fields;
     WRITEDATA := WRITEDATA c; HEADERDATA := HEADERDATA c; WRITEFUNCTION := WRITEFUNCTION c;
     HEADERFUNCTION := HEADERFUNCTION c; last_code := last_code c; last_time := last_time c |}.
Definition set_last (r : reply) (c : curlHandle) : curlHandle :=
  {| URL := URL c; COOKIE := COOKIE c; isPost := isPost c; POSTFIELDS := POSTFIELDS c;
     WRITEDATA := WRITEDATA c; HEADERDATA := HEADERDATA c; WRITEFUNCTION := WRITEFUNCTION c;
     HEADERFUNCTION := HEADERFUNCTION c; last_code := code r; last_time := total_time r |}.

(** [dataWrite]. *)
Definition dataWrite (l : nat) (data : text) : ST heap unit :=
  set_object l (set_response (λ r, {| headers := headers r; response := response r ++ data;
                                      response_code := response_code r; responseTime := responseTime r |})).

Definition addHeaders (hs : list (text * text)) (o : requestWrapper) : requestWrapper :=
  set_response (λ r, {| headers := headers r ++ hs; response := response r;
                        response_code := response_code r; responseTime := responseTime r |}) o.

(** The callbacks on what they are given; libcurl's own are not modelled. *)
Definition onHeader (c : curlHandle) (line : text) : ST heap unit :=
  match HEADERFUNCTION c, HEADERDATA c with
  | true, Some l => hs ← liftS (writeHeaders line); set_object l (addHeaders hs)
  | _, _ => liftS (Raise UndefinedBehaviour)
  end.
Definition onBody (c : curlHandle) (data : text) : ST heap unit :=
  match WRITEFUNCTION c, WRITEDATA c with
  | true, Some l => dataWrite l data
  | _, _ => liftS (Raise UndefinedBehaviour)
  end.

(** [curl_easy_perform]; without a URL, as with a null handle, it only returns
    an error. *)
Definition curl_easy_perform (object : curlwrapper) : ST heap unit :=
  match object with
  | None => mret tt
  | Some h =>
      c ← handle_at h;
      match URL c with
      | None => mret tt
      | Some url =>
          s ← getS;
          let req := {| r_url := url; r_post := isPost c; r_cookie := COOKIE c;
                        r_body := if isPost c then default [] (POSTFIELDS c) else [] |} in
          let r := transfer (sent s) req in
          _ ← modifyS (λ s, {| handles := handles s; objects := objects s; next := next s;
                               sent := sent s ++ [req] |});
          _ ← forEach (onHeader c) (header_lines r);
          _ ← forEach (onBody c) (body_chunks r);
          setopt (set_last r) object
      end
  end.

(** [requestWrapper::bind]: a new handle for the response of [l]. *)
Definition bind (l : nat) (u : text) : ST heap curlwrapper :=
  curl ← curl_easy_init;
  match curl with
  | None => mret None
  | Some _ =>
      _ ← bindResponse l curl;
      _ ← setopt (set_URL u) curl;
      _ ← setopt set_WRITEFUNCTION curl;
      mret curl
  end.

(** An object at [l] whose members have been initialised: the default
    constructor of [curlwrapper] asks for a handle. *)
Definition initialise (l : nat) : ST heap unit :=
  curl ← curl_easy_init;
  modifyS (set_objects (insert l {| w_response := emptyAPIResponse; w_curl := curl |})).

(** [curl = std::move(temp)] for a temporary that holds [temp]; the temporary ends. *)
Definition take_curl (l : nat) (temp : curlwrapper) : ST heap unit :=
  o ← object_at l;
  '(curl, temp) ← assign (w_curl o) temp;
  _ ← set_object l (set_curl curl);
  _ ← tidy temp;
  mret tt.

(** [requestWrapper(URL)]. *)
Definition construct (l : nat) (u : text) : ST heap unit :=
  _ ← initialise l;
  curl ← bind l u;
  take_curl l curl.

(** [operator=(requestWrapper&&)]. *)
Definition moveAssign (l other : nat) : ST heap unit :=
  o ← object_at l;
  if bool_decide (l = other) then
    curl ← assignSelf (w_curl o);
    _ ← set_object l (set_curl curl);
    bindResponse l curl
  else
    p ← object_at other;
    '(curl, theirs) ← assign (w_curl o) (w_curl p);
    _ ← set_object l (set_curl curl);
    _ ← set_object other (set_curl theirs);
    bindResponse l curl.

(** [requestWrapper(requestWrapper&&)]. *)
Definition moveConstruct (l other : nat) : ST heap unit :=
  _ ← initialise l;
  moveAssign l other.

(** The destructor, which destroys the members. *)
Definition destroy (l : nat) : ST heap unit :=
  o ← object_at l;
  _ ← tidy (w_curl o);
  modifyS (set_objects (delete l)).

Definition withCurl (l : nat) (f : curlHandle → curlHandle) : ST heap unit :=
  o ← object_at l;
  setopt f (w_curl o).

Definition setCookies (l : nat) (values : text) : ST heap unit := withCurl l (set_COOKIE values).
Definition retarget (l : nat) (u : text) : ST heap unit := withCurl l (set_URL u).

Definition perform (l : nat) : ST heap unit :=
  o ← object_at l;
  _ ← curl_easy_perform (w_curl o);
  getinfo l (w_curl o).

Definition result (l : nat) : ST heap APIResponse := o ← object_at l; mret (w_response o).

Definition post (l : nat) (data : text) : ST heap APIResponse :=
  _ ← withCurl l (set_method true (Some data));
  _ ← perform l;
  result l.

Definition get (l : nat) : ST heap APIResponse :=
  _ ← withCurl l (set_method false None);
  _ ← perform l;
  result l.
End curl.
