(* ===== verification/HandleFacts.v ===== *)
(** The curl wrappers: every operation as an explicit change of the heap, and
    what the ownership they implement guarantees. *)

From S2P Require Import Prelude Database Double Effects Handles.

Section facts.
Context `{Libcurl}.

Definition bound_to (l : nat) (c : curlHandle) : Prop :=
  WRITEDATA c = Some l ∧ HEADERDATA c = Some l ∧ WRITEFUNCTION c = true ∧ HEADERFUNCTION c = true.

(** A wrapper that is alive owns its handle, alone, and the handle's pointers
    lead to the wrapper's own response (but for the wrapper [unbound], while it
    is being constructed); every handle not cleaned up has an owner. *)
Record owned_but (unbound : option nat) (s : heap) : Prop := {
  owned_live : ∀ l o h, objects s !! l = Some o → w_curl o = Some h →
    ∃ c, handles s !! h = Some c ∧ (unbound ≠ Some l → bound_to l c);
  owned_distinct : ∀ l l' o o' h, objects s !! l = Some o → objects s !! l' = Some o' →
    w_curl o = Some h → w_curl o' = Some h → l = l';
  owned_owner : ∀ h c, handles s !! h = Some c →
    (h < next s)%nat ∧ ∃ l o, objects s !! l = Some o ∧ w_curl o = Some h;
}.
Definition owned : heap → Prop := owned_but None.

Lemma owned_empty : owned emptyHeap.
Proof. split; intros *; simpl; by rewrite lookup_empty. Qed.

Lemma owned_fresh x s n : owned_but x s → (next s ≤ n)%nat → handles s !! n = None.
Proof.
  intros Ho Hn. destruct (handles s !! n) as [c|] eqn:E; [|done].
  apply (owned_owner x s Ho) in E as [? _]. lia.
Qed.

Lemma owned_pointer x s l o h :
  owned_but x s → objects s !! l = Some o → w_curl o = Some h → (h < next s)%nat.
Proof.
  intros Ho E Eh. destruct (owned_live x s Ho _ _ _ E Eh) as (c & Hc & _).
  by apply (owned_owner x s Ho) in Hc as [? _].
Qed.

(** ** The operations as changes of the heap *)

Definition opt_insert {A} (b : bool) (n : nat) (a : A) (m : gmap nat A) : gmap nat A :=
  if b then <[n := a]> m else m.
Definition opt_delete {A} (o : option nat) (m : gmap nat A) : gmap nat A :=
  match o with Some n => delete n m | None => m end.

Lemma then_ {A B} (m : ST heap A) (f : A → ST heap B) s a s1 r :
  m s = (Ok a, s1) → f a s1 = r → (m ≫= f) s = r.
Proof. intros E1 E2. by rewrite (bindS_ok _ _ _ _ _ E1). Qed.

Lemma handle_at_ok s h c : handles s !! h = Some c → handle_at h s = (Ok c, s).
Proof. unfold handle_at. by intros ->. Qed.
Lemma object_at_ok s l o : objects s !! l = Some o → object_at l s = (Ok o, s).
Proof. unfold object_at. by intros ->. Qed.

Lemma setopt_ok s h c f :
  handles s !! h = Some c → setopt f (Some h) s = (Ok tt, set_handles (insert h (f c)) s).
Proof. intros E. eapply then_; [by apply handle_at_ok|done]. Qed.

Lemma set_object_ok s l o f :
  objects s !! l = Some o → set_object l f s = (Ok tt, set_objects (insert l (f o)) s).
Proof. intros E. eapply then_; [by apply object_at_ok|done]. Qed.

Lemma set_handles_id s : set_handles (λ m, m) s = s.
Proof. by destruct s. Qed.

(** The pointer a wrapper holds is null or a handle that is live. *)
Definition live (s : heap) (object : curlwrapper) : Prop :=
  match object with None => True | Some h => is_Some (handles s !! h) end.

Lemma tidy_ok s object : live s object → tidy object s = (Ok None, set_handles (opt_delete object) s).
Proof.
  destruct object as [h|]; simpl; intros Hl; [|by rewrite set_handles_id].
  destruct Hl as [c Hc]. eapply then_; [eapply then_; [by apply handle_at_ok|done]|done].
Qed.

Lemma assign_ok s this other :
  live s this → assign this other s = (Ok (other, None), set_handles (opt_delete this) s).
Proof. intros Hl. eapply then_; [by apply tidy_ok|done]. Qed.

Lemma take_curl_ok s l o temp :
  objects s !! l = Some o → live s (w_curl o) →
  take_curl l temp s =
  (Ok tt, set_objects (insert l (set_curl temp o)) (set_handles (opt_delete (w_curl o)) s)).
Proof.
  intros Hl Hlive. eapply then_; [by apply object_at_ok|].
  eapply then_; [by apply assign_ok|]. cbv beta iota.
  eapply then_; [by apply set_object_ok|]. by eapply then_.
Qed.

(** The response of the object at [l] with the last code and time of a handle. *)
Definition with_info (c : curlHandle) : requestWrapper → requestWrapper :=
  set_response (λ r, {| headers := headers r; response := response r;
                        response_code := last_code c; responseTime := last_time c |}).

Lemma bindResponse_ok s l o h c :
  objects s !! l = Some o → handles s !! h = Some c →
  bindResponse l (Some h) s =
  (Ok tt, set_objects (insert l (with_info c o)) (set_handles (insert h (set_WRITEDATA l c)) s)).
Proof.
  intros Hl Hh. eapply then_; [by apply setopt_ok|].
  eapply then_; [apply handle_at_ok; apply lookup_insert_eq|].
  by apply set_object_ok.
Qed.

Definition boundHandle (l : nat) (u : text) : curlHandle :=
  set_WRITEFUNCTION (set_URL u (set_WRITEDATA l freshHandle)).

Lemma heap_eq s s' :
  handles s = handles s' → objects s = objects s' → next s = next s' → sent s = sent s' → s = s'.
Proof. destruct s, s'. simpl. by intros -> -> -> ->. Qed.

(** What [construct] leaves: a fresh object with a handle of its own, bound to it. *)
Definition constructed (l : nat) (u : text) (s : heap) : heap :=
  let n := S (next s) in
  {| handles := opt_insert (easy_init_ok n) n (boundHandle l u) (handles s);
     objects := <[l := {| w_response := emptyAPIResponse;
                          w_curl := if easy_init_ok n then Some n else None |}]> (objects s);
     next := S n; sent := sent s |}.

Lemma construct_eq l u s : owned s → construct l u s = (Ok tt, constructed l u s).
Proof.
  intros Ho. pose proof (owned_fresh _ s (next s) Ho ltac:(lia)) as F0.
  pose proof (owned_fresh _ s (S (next s)) Ho ltac:(lia)) as F1.
  eapply then_; [eapply then_; [reflexivity|reflexivity]|].
  set (s1 := set_objects _ _).
  assert (bind l u s1 = (Ok (if easy_init_ok (S (next s)) then Some (S (next s)) else None),
            {| handles := opt_insert (easy_init_ok (S (next s))) (S (next s)) (boundHandle l u) (handles s1);
               objects := objects s1; next := S (S (next s)); sent := sent s |})) as Hb.
  { eapply then_; [reflexivity|]. cbn [next s1 set_objects]. destruct (easy_init_ok (S (next s))); [|done].
    eapply then_; [eapply bindResponse_ok; apply lookup_insert_eq|].
    eapply then_; [eapply setopt_ok; apply lookup_insert_eq|].
    eapply then_; [eapply setopt_ok; apply lookup_insert_eq|].
    unfold mret, ST_ret. f_equal. apply heap_eq; try done.
    - simpl. by rewrite !insert_insert_eq.
    - simpl. by rewrite insert_insert_eq. }
  eapply then_; [exact Hb|]. erewrite take_curl_ok; [|apply lookup_insert_eq|].
  - unfold constructed. f_equal. apply heap_eq; try done; simpl; [|by rewrite insert_insert_eq].
    destruct (easy_init_ok (next s)), (easy_init_ok (S (next s))); simpl; try done.
    + rewrite delete_insert_ne by lia. by rewrite delete_insert_id.
    + by rewrite delete_insert_id.
  - destruct (easy_init_ok (next s)); [|done]. simpl. destruct (easy_init_ok (S (next s))); simpl.
    + rewrite lookup_insert_ne by lia. by rewrite lookup_insert_eq.
    + by rewrite lookup_insert_eq.
Qed.

(** An object just initialised, its handle not yet bound. *)
Definition initialised (l : nat) (s : heap) : heap :=
  let n := next s in
  {| handles := opt_insert (easy_init_ok n) n freshHandle (handles s);
     objects := <[l := {| w_response := emptyAPIResponse;
                          w_curl := if easy_init_ok n then Some n else None |}]> (objects s);
     next := S n; sent := sent s |}.

Lemma initialise_eq l s : initialise l s = (Ok tt, initialised l s).
Proof. done. Qed.

Lemma alter_as_insert {A} (f : A → A) (m : gmap nat A) i a :
  m !! i = Some a → alter f i m = <[i := f a]> m.
Proof.
  intros E. apply map_eq. intros j. destruct (decide (i = j)) as [->|].
  - by rewrite lookup_alter_eq, lookup_insert_eq, E.
  - by rewrite lookup_alter_ne, lookup_insert_ne.
Qed.

(** The response and the handle of [other] after the move to [l], where [o] was. *)
Definition moved (l other : nat) (o p : requestWrapper) (s : heap) : heap :=
  let hs := opt_delete (w_curl o) (handles s) in
  let info := match w_curl p ≫= λ h, handles s !! h with Some c => with_info c | None => λ o, o end in
  {| handles := match w_curl p with Some h => alter (set_WRITEDATA l) h hs | None => hs end;
     objects := <[l := info (set_curl (w_curl p) o)]> (<[other := set_curl None p]> (objects s));
     next := next s; sent := sent s |}.

Lemma moveAssign_eq x l other o p s :
  owned_but x s → objects s !! l = Some o → objects s !! other = Some p → l ≠ other →
  moveAssign l other s = (Ok tt, moved l other o p s).
Proof.
  intros Ho Hl Hother Hne. unfold moveAssign.
  eapply then_; [by apply object_at_ok|]. rewrite bool_decide_false by done.
  eapply then_; [by apply object_at_ok|].
  eapply then_; [apply assign_ok|].
  { destruct (w_curl o) as [h|] eqn:E; [|done]. destruct (owned_live x s Ho _ _ _ Hl E) as (c & Hc & _). by exists c. }
  cbv beta iota. eapply then_; [by apply set_object_ok|].
  eapply then_; [eapply set_object_ok; simpl; rewrite lookup_insert_ne by done; exact Hother|].
  unfold moved. destruct (w_curl p) as [h|] eqn:Ep.
  - destruct (owned_live x s Ho _ _ _ Hother Ep) as (c & Hc & _).
    assert (w_curl o ≠ Some h) as Hne' by (intros E; by eapply Hne, (owned_distinct x s Ho)).
    assert (opt_delete (w_curl o) (handles s) !! h = Some c) as Hc'.
    { destruct (w_curl o) as [h'|]; simpl; [|done]. rewrite lookup_delete_ne; [done|congruence]. }
    simpl. rewrite Hc. erewrite bindResponse_ok; [| |exact Hc'].
    + f_equal. apply heap_eq; try done; simpl.
      * by rewrite (alter_as_insert _ _ _ _ Hc').
      * rewrite (insert_insert_ne _ other l) by done. by rewrite insert_insert_eq.
    + simpl. rewrite lookup_insert_ne by done. apply lookup_insert_eq.
  - simpl. unfold mret, ST_ret. f_equal. apply heap_eq; try done; simpl.
    by rewrite (insert_insert_ne _ other l).
Qed.

Definition destroyed (l : nat) (o : requestWrapper) (s : heap) : heap :=
  set_objects (delete l) (set_handles (opt_delete (w_curl o)) s).

Lemma owned_live' x s l o : owned_but x s → objects s !! l = Some o → live s (w_curl o).
Proof.
  intros Ho Hl. destruct (w_curl o) as [h|] eqn:E; [|done].
  destruct (owned_live x s Ho _ _ _ Hl E) as (c & Hc & _). by exists c.
Qed.

Lemma destroy_eq x l o s :
  owned_but x s → objects s !! l = Some o → destroy l s = (Ok tt, destroyed l o s).
Proof.
  intros Ho Hl. eapply then_; [by apply object_at_ok|].
  eapply then_; [apply tidy_ok; by eapply owned_live'|]. done.
Qed.

(** ** Who owns what afterwards *)

Lemma lookup_opt_delete {A} (o : option nat) (m : gmap nat A) h a :
  opt_delete o m !! h = Some a ↔ o ≠ Some h ∧ m !! h = Some a.
Proof.
  destruct o as [n|]; simpl; [|naive_solver].
  rewrite lookup_delete_Some. naive_solver.
Qed.

(** A new object with a new handle. *)
Lemma owned_new x x' s (b : bool) n c l r :
  owned_but x s → objects s !! l = None → (next s ≤ n)%nat → x = None →
  (x' ≠ Some l → bound_to l c) →
  owned_but x' {| handles := opt_insert b n c (handles s);
                  objects := <[l := {| w_response := r; w_curl := if b then Some n else None |}]> (objects s);
                  next := S n; sent := sent s |}.
Proof.
  intros Ho Hl Hn -> Hb. pose proof (owned_fresh _ s n Ho Hn) as Hfresh.
  assert (∀ l' o h, objects s !! l' = Some o → w_curl o = Some h → h ≠ n) as Hold.
  { intros l' o h E Eh ->. pose proof (owned_pointer _ _ _ _ _ Ho E Eh). lia. }
  split; simpl.
  - intros l' o h [[<- <-]|[Hne E]]%lookup_insert_Some Eh; simpl in *.
    + destruct b; simplify_eq. exists c. split; [apply lookup_insert_eq|done].
    + destruct (owned_live _ s Ho _ _ _ E Eh) as (c' & Hc' & Hb'). exists c'. split; [|by intros _; apply Hb'].
      destruct b; simpl; [|done]. rewrite lookup_insert_ne; [done|]. by eapply not_eq_sym, Hold.
  - intros l1 l2 o1 o2 h [[<- <-]|[Hne1 E1]]%lookup_insert_Some [[<- <-]|[Hne2 E2]]%lookup_insert_Some H1 H2;
      simpl in *; try done; try (destruct b; simplify_eq; by exfalso; eapply Hold).
    by eapply (owned_distinct _ s Ho).
  - intros h c' Hc'. destruct b; simpl in Hc'.
    + apply lookup_insert_Some in Hc' as [[<- <-]|[Hne Hc']].
      { split; [lia|]. exists l. eexists. split; [apply lookup_insert_eq|done]. }
      destruct (owned_owner _ s Ho _ _ Hc') as [Hlt (l' & o & E & Eh)]. split; [lia|].
      exists l', o. split; [|done]. rewrite lookup_insert_ne; [done|congruence].
    + destruct (owned_owner _ s Ho _ _ Hc') as [Hlt (l' & o & E & Eh)]. split; [lia|].
      exists l', o. split; [|done]. rewrite lookup_insert_ne; [done|congruence].
Qed.

Lemma owned_constructed l u s : owned s → objects s !! l = None → owned (constructed l u s).
Proof. intros Ho Hl. eapply owned_new; [done..|lia|done|done]. Qed.

Lemma owned_initialised l s : owned s → objects s !! l = None → owned_but (Some l) (initialised l s).
Proof. intros Ho Hl. eapply owned_new; [done..|lia|done|done]. Qed.

Lemma owned_moved x l other o p s :
  owned_but x s → x = None ∨ x = Some l → objects s !! l = Some o → objects s !! other = Some p → l ≠ other →
  owned (moved l other o p s).
Proof.
  intros Ho Hx Hl Hp Hne.
  assert (∀ l' o' h, l' ≠ l → objects s !! l' = Some o' → w_curl o' = Some h →
    ∃ c, opt_delete (w_curl o) (handles s) !! h = Some c ∧ bound_to l' c) as Hkeep.
  { intros l' o' h Hl' E Eh. destruct (owned_live x s Ho _ _ _ E Eh) as (c & Hc & Hb). exists c. split.
    - apply lookup_opt_delete. split; [|done]. intros E'. by eapply Hl', (owned_distinct x s Ho).
    - apply Hb. destruct Hx as [->| ->]; congruence. }
  set (info := match w_curl p ≫= λ h, handles s !! h with Some c => with_info c | None => λ o, o end).
  assert (∀ o', w_curl (info o') = w_curl o') as Hinfo by (intros; unfold info; by case_match).
  assert (∀ l' o', objects (moved l other o p s) !! l' = Some o' → ∀ h, w_curl o' = Some h →
    (l' = l ∧ w_curl p = Some h) ∨ (l' ≠ l ∧ l' ≠ other ∧ objects s !! l' = Some o' )) as Hobj.
  { unfold moved. simpl. fold info. intros l' o' [[<- <-]|[Hl1 E]]%lookup_insert_Some h Eh.
    - left. split; [done|]. by rewrite Hinfo in Eh.
    - apply lookup_insert_Some in E as [[<- <-]|[Hl2 E]]; [done|]. right. by rewrite E. }
  split.
  - intros l' o' h E Eh. destruct (Hobj _ _ E _ Eh) as [[-> Ep]|(H1 & H2 & E')]; unfold moved; simpl.
    + destruct (Hkeep other p h) as (c & Hc & Hb); [done..|]. rewrite Ep, lookup_alter_eq, Hc.
      exists (set_WRITEDATA l c). split; [done|]. intros _. destruct Hb as (? & ? & ? & ?). done.
    + destruct (Hkeep l' o' h) as (c & Hc & Hb); [done..|]. exists c. split; [|done].
      destruct (w_curl p) as [hp|] eqn:Ep; [|done]. rewrite lookup_alter_ne; [done|].
      intros ->. by eapply H2, (owned_distinct x s Ho).
  - intros l1 l2 o1 o2 h E1 E2 H1 H2.
    destruct (Hobj _ _ E1 _ H1) as [[-> Ep]|(? & ? & E1')], (Hobj _ _ E2 _ H2) as [[-> Ep']|(? & ? & E2')]; try done.
    + exfalso. by apply (owned_distinct x s Ho other l2 p o2 h) in Ep.
    + exfalso. by apply (owned_distinct x s Ho other l1 p o1 h) in Ep'.
    + by eapply (owned_distinct x s Ho).
  - intros h c Hc.
    assert (is_Some (opt_delete (w_curl o) (handles s) !! h)) as [c' [Hh Hc']%lookup_opt_delete].
    { unfold moved in Hc. simpl in Hc. destruct (w_curl p) as [hp|]; [|by exists c].
      destruct (decide (hp = h)) as [->|]; [|rewrite lookup_alter_ne in Hc by done; by exists c].
      rewrite lookup_alter_eq in Hc. apply fmap_Some in Hc as (c' & Hc & _). by exists c'. }
    destruct (owned_owner x s Ho _ _ Hc') as [Hlt (l' & o' & E & Eh)]. split; [done|].
    unfold moved. simpl. fold info. destruct (decide (l' = l)) as [->|]; [congruence|].
    destruct (decide (l' = other)) as [->|].
    + exists l. eexists. split; [apply lookup_insert_eq|]. rewrite Hinfo. simpl. congruence.
    + exists l', o'. split; [|done]. by rewrite !lookup_insert_ne.
Qed.

Lemma owned_destroyed x l o s :
  owned_but x s → x = None ∨ x = Some l → objects s !! l = Some o → owned (destroyed l o s).
Proof.
  intros Ho Hx Hl. split; simpl.
  - intros l' o' h [Hne E]%lookup_delete_Some Eh. destruct (owned_live x s Ho _ _ _ E Eh) as (c & Hc & Hb).
    exists c. split; [|intros _; apply Hb; destruct Hx as [->| ->]; congruence].
    apply lookup_opt_delete. split; [|done]. intros E'. by eapply Hne, (owned_distinct x s Ho).
  - intros l1 l2 o1 o2 h [_ E1]%lookup_delete_Some [_ E2]%lookup_delete_Some. by apply (owned_distinct x s Ho).
  - intros h c [Hh Hc]%lookup_opt_delete. destruct (owned_owner x s Ho _ _ Hc) as [Hlt (l' & o' & E & Eh)].
    split; [done|]. exists l', o'. split; [|done]. rewrite lookup_delete_ne; [done|congruence].
Qed.

(** ** Options, transfers, answers *)

(** Setting an option that is not one of the pointers. *)
Definition keeps_pointers (f : curlHandle → curlHandle) : Prop := ∀ l c, bound_to l c → bound_to l (f c).

Lemma owned_update s l o h c f g :
  owned s → objects s !! l = Some o → w_curl o = Some h → handles s !! h = Some c →
  keeps_pointers f → (∀ o, w_curl (g o) = w_curl o) →
  ∀ reqs, owned {| handles := <[h := f c]> (handles s); objects := <[l := g o]> (objects s);
                   next := next s; sent := reqs |}.
Proof.
  intros Ho Hl Eh Hh Hf Hg reqs.
  assert (∀ l' o', <[l := g o]> (objects s) !! l' = Some o' →
    ∃ o'', objects s !! l' = Some o'' ∧ w_curl o'' = w_curl o') as Hobj.
  { intros l' o' [[<- <-]|[_ E]]%lookup_insert_Some; [by exists o|by exists o']. }
  split; simpl.
  - intros l' o' h' E Eh'. destruct (Hobj _ _ E) as (o'' & E'' & Ec). rewrite <- Ec in Eh'.
    destruct (owned_live _ s Ho _ _ _ E'' Eh') as (c' & Hc' & Hb). specialize (Hb ltac:(done)).
    destruct (decide (h = h')) as [->|].
    + rewrite lookup_insert_eq. exists (f c). split; [done|]. intros _. apply Hf. congruence.
    + rewrite lookup_insert_ne by done. by exists c'.
  - intros l1 l2 o1 o2 h' E1 E2 H1 H2. destruct (Hobj _ _ E1) as (? & ? & Ec1), (Hobj _ _ E2) as (? & ? & Ec2).
    rewrite <- Ec1 in H1. rewrite <- Ec2 in H2. by eapply (owned_distinct _ s Ho).
  - intros h' c' Hc'.
    assert (is_Some (handles s !! h')) as [c'' Hc''].
    { apply lookup_insert_Some in Hc' as [[<- _]|[_ ?]]; eauto. }
    destruct (owned_owner _ s Ho _ _ Hc'') as [Hlt (l' & o' & E & Eo)]. split; [done|].
    destruct (decide (l = l')) as [<-|].
    + exists l, (g o). split; [apply lookup_insert_eq|]. rewrite Hg. congruence.
    + exists l', o'. by rewrite lookup_insert_ne.
Qed.

Lemma withCurl_eq s l o h c f :
  objects s !! l = Some o → w_curl o = Some h → handles s !! h = Some c →
  withCurl l f s = (Ok tt, set_handles (insert h (f c)) s).
Proof. intros Hl Eh Hh. eapply then_; [by apply object_at_ok|]. rewrite Eh. by apply setopt_ok. Qed.

Lemma withCurl_null s l o f :
  objects s !! l = Some o → w_curl o = None → withCurl l f s = (Ok tt, s).
Proof. intros Hl Eh. eapply then_; [by apply object_at_ok|]. by rewrite Eh. Qed.

(** A header line the way HTTP servers write it. *)
Definition CRLF : text := ["013"%char; NEWLINE].
Definition header_line (line : text) : Prop :=
  ":"%char ∉ line ∨ ∃ name val, ":"%char ∉ name ∧ line = name ++ T ": " ++ val ++ CRLF.

(** What the program keeps of the header lines of an answer. *)
Definition kept (lines : list text) : list (text * text) :=
  lines ≫= λ line, match writeHeaders line with Ok hs => hs | Raise _ => [] end.

Lemma writeHeaders_line name val :
  ":"%char ∉ name →
  writeHeaders (name ++ T ": " ++ val ++ CRLF) =
  Ok (if bool_decide (name ∈ allowedHeaders) then [(name, val)] else []).
Proof.
  intros Hn. unfold writeHeaders. change (T ": ") with [":"%char; " "%char]. cbn [app].
  rewrite span_to_found by done. case_bool_decide; [|done]. cbn [negb].
  assert (name ++ ":"%char :: " "%char :: val ++ CRLF = (name ++ ":"%char :: " "%char :: val) ++ CRLF) as E
    by by rewrite <- app_assoc.
  unfold index_. rewrite E, length_app. set (b := name ++ _).
  assert (length b = length name + 2 + length val)%nat as Hb by (unfold b; rewrite length_app; simpl; lia).
  rewrite !lookup_app_r by (simpl; lia). simpl length.
  replace (length b + 2 - 1 - length b)%nat with 1%nat by lia.
  replace (length b + 2 - 2 - length b)%nat with 0%nat by lia.
  cbn [CRLF lookup list_lookup mbind outcome_bind]. rewrite !bool_decide_true by done.
  cbn [andb assert_ mbind outcome_bind].
  destruct (Nat.ltb_spec (length b + 2 - 2) (length name + 2)) as [?|_]; [lia|].
  replace (length b + 2 - 2 - (length name + 2))%nat with (length val) by lia. by rewrite take_app_length.
Qed.

Lemma writeHeaders_ok line : header_line line → ∃ hs, writeHeaders line = Ok hs.
Proof.
  intros [Hn|(name & val & Hn & ->)].
  - unfold writeHeaders. rewrite span_to_absent by done. case_bool_decide; by eexists.
  - rewrite writeHeaders_line by done. by eexists.
Qed.

Lemma set_objects_twice l a b s :
  set_objects (insert l a) (set_objects (insert l b) s) = set_objects (insert l a) s.
Proof. apply heap_eq; try done. apply insert_insert_eq. Qed.

Lemma set_object_id l o s : objects s !! l = Some o → set_objects (insert l o) s = s.
Proof. intros Hl. apply heap_eq; try done. by apply insert_id. Qed.

Lemma onHeader_all c l lines s o :
  HEADERFUNCTION c = true → HEADERDATA c = Some l → Forall header_line lines → objects s !! l = Some o →
  forEach (onHeader c) lines s = (Ok tt, set_objects (insert l (addHeaders (kept lines) o)) s).
Proof.
  intros Hf Hd HF. revert s o. induction HF as [|line lines Hline _ IH]; intros s o Hl.
  - unfold mret, ST_ret. simpl. f_equal. symmetry. apply set_object_id. rewrite Hl. f_equal.
    destruct o as [[]]. unfold addHeaders, set_response, kept. simpl. by rewrite app_nil_r.
  - destruct (writeHeaders_ok line Hline) as [hs Ehs].
    eapply then_; [unfold onHeader; rewrite Hf, Hd; eapply then_; [unfold liftS; by rewrite Ehs|by apply set_object_ok]|].
    erewrite IH by apply lookup_insert_eq. rewrite set_objects_twice. do 3 f_equal.
    unfold kept, addHeaders, set_response. simpl. rewrite Ehs. by rewrite <- app_assoc.
Qed.

Definition addBody (data : text) : requestWrapper → requestWrapper :=
  set_response (λ r, {| headers := headers r; response := response r ++ data;
                        response_code := response_code r; responseTime := responseTime r |}).

Lemma onBody_all c l pieces s o :
  WRITEFUNCTION c = true → WRITEDATA c = Some l → objects s !! l = Some o →
  forEach (onBody c) pieces s = (Ok tt, set_objects (insert l (addBody (concat pieces) o)) s).
Proof.
  intros Hf Hd. revert s o. induction pieces as [|d pieces IH]; intros s o Hl.
  - unfold mret, ST_ret. simpl. f_equal. symmetry. apply set_object_id. rewrite Hl. f_equal.
    destruct o as [[]]. unfold addBody, set_response. simpl. by rewrite app_nil_r.
  - eapply then_; [unfold onBody; rewrite Hf, Hd; by apply set_object_ok|].
    erewrite IH by apply lookup_insert_eq. rewrite set_objects_twice. do 3 f_equal.
    unfold addBody, set_response. simpl. by rewrite <- app_assoc.
Qed.

Definition answered (r : reply) (a : APIResponse) : APIResponse :=
  {| headers := headers a ++ kept (header_lines r); response := response a ++ concat (body_chunks r);
     response_code := code r; responseTime := total_time r |}.

(** The request a handle sends. *)
Definition request_of (c : curlHandle) (u : text) : request :=
  {| r_url := u; r_post := isPost c; r_cookie := COOKIE c;
     r_body := if isPost c then default [] (POSTFIELDS c) else [] |}.

Definition after_transfer (l h : nat) (o : requestWrapper) (c : curlHandle) (req : request) (s : heap) : heap :=
  let r := transfer (sent s) req in
  {| handles := <[h := set_last r c]> (handles s); objects := <[l := set_response (answered r) o]> (objects s);
     next := next s; sent := sent s ++ [req] |}.

Lemma perform_eq s l o h c u :
  owned s → objects s !! l = Some o → w_curl o = Some h → handles s !! h = Some c → URL c = Some u →
  Forall header_line (header_lines (transfer (sent s) (request_of c u))) →
  perform l s = (Ok tt, after_transfer l h o c (request_of c u) s).
Proof.
  intros Ho Hl Eh Hh Hu Hlines.
  destruct (owned_live _ s Ho _ _ _ Hl Eh) as (c' & Hc' & Hb). rewrite Hh in Hc'. injection Hc' as <-.
  destruct Hb as (Hwd & Hhd & Hwf & Hhf); [done|].
  eapply then_; [by apply object_at_ok|].
  eapply then_.
  { rewrite Eh. eapply then_; [by apply handle_at_ok|]. rewrite Hu.
    eapply then_; [reflexivity|]. cbv zeta. eapply then_; [reflexivity|].
    eapply then_; [by eapply onHeader_all|].
    eapply then_; [eapply onBody_all; [done..|]; apply lookup_insert_eq|].
    by apply setopt_ok. }
  rewrite Eh. eapply then_; [apply handle_at_ok; apply lookup_insert_eq|].
  erewrite set_object_ok by apply lookup_insert_eq. f_equal. apply heap_eq; try done. simpl.
  by rewrite !insert_insert_eq.
Qed.

Lemma perform_null s l o : objects s !! l = Some o → w_curl o = None → perform l s = (Ok tt, s).
Proof.
  intros Hl Eh. eapply then_; [by apply object_at_ok|]. rewrite Eh. by eapply then_.
Qed.

Lemma result_eq s l o : objects s !! l = Some o → result l s = (Ok (w_response o), s).
Proof. intros Hl. eapply then_; [by apply object_at_ok|]. done. Qed.

Lemma keeps_set_method b fields : keeps_pointers (set_method b fields).
Proof. by intros l c Hc. Qed.
Lemma keeps_set_COOKIE v : keeps_pointers (set_COOKIE v).
Proof. by intros l c Hc. Qed.
Lemma keeps_set_URL u : keeps_pointers (set_URL u).
Proof. by intros l c Hc. Qed.
Lemma keeps_set_last r : keeps_pointers (set_last r).
Proof. by intros l c Hc. Qed.

Lemma owned_option s l o h c f :
  owned s → objects s !! l = Some o → w_curl o = Some h → handles s !! h = Some c → keeps_pointers f →
  owned (set_handles (insert h (f c)) s).
Proof.
  intros Ho Hl Eh Hh Hf. pose proof (owned_update s l o h c f (λ o, o) Ho Hl Eh Hh Hf ltac:(done) (sent s)) as E.
  by rewrite (insert_id (objects s)) in E.
Qed.

Lemma owned_after_transfer s l o h c req :
  owned s → objects s !! l = Some o → w_curl o = Some h → handles s !! h = Some c →
  owned (after_transfer l h o c req s).
Proof. intros. eapply owned_update; [done..|apply keeps_set_last|done]. Qed.

(** [post] and [get] on an object with a handle. *)
Lemma exchange_eq s l o h c u b fields :
  owned s → objects s !! l = Some o → w_curl o = Some h → handles s !! h = Some c → URL c = Some u →
  let req := request_of (set_method b fields c) u in
  Forall header_line (header_lines (transfer (sent s) req)) →
  let s' := after_transfer l h o (set_method b fields c) req s in
  (_ ← withCurl l (set_method b fields); _ ← perform l; result l) s =
    (Ok (answered (transfer (sent s) req) (w_response o)), s') ∧ owned s'.
Proof.
  intros Ho Hl Eh Hh Hu req Hlines s'.
  pose proof (owned_option s l o h c _ Ho Hl Eh Hh (keeps_set_method b fields)) as Ho1.
  assert (handles (set_handles (insert h (set_method b fields c)) s) !! h = Some (set_method b fields c)) as Hh1
    by apply lookup_insert_eq.
  assert (s' = after_transfer l h o (set_method b fields c) req (set_handles (insert h (set_method b fields c)) s)) as E.
  { apply heap_eq; try done. simpl. by rewrite insert_insert_eq. }
  split.
  - eapply then_; [by eapply withCurl_eq|]. eapply then_; [by apply (perform_eq _ l o h (set_method b fields c) u)|].
    rewrite E. erewrite result_eq by apply lookup_insert_eq. done.
  - rewrite E. by apply owned_after_transfer.
Qed.

(** ** Programs over the wrappers *)

Inductive operation :=
  | New (l : nat) (u : text)
  | Move (l other : nat)
  | Assign (l other : nat)
  | Cookies (l : nat) (values : text)
  | Retarget (l : nat) (u : text)
  | Post (l : nat) (data : text)
  | Get (l : nat)
  | Destroy (l : nat).

Definition runOne (op : operation) : ST heap unit :=
  match op with
  | New l u => construct l u
  | Move l other => moveConstruct l other
  | Assign l other => moveAssign l other
  | Cookies l v => setCookies l v
  | Retarget l u => retarget l u
  | Post l d => _ ← post l d; mret tt
  | Get l => _ ← get l; mret tt
  | Destroy l => destroy l
  end.
Definition run : list operation → ST heap unit := forEach runOne.

(** The scoping rules of C++: objects are constructed where there is none, used
    and destroyed while they live.  The objects alive afterwards. *)
Definition scopedOne (alive : gset nat) (op : operation) : option (gset nat) :=
  match op with
  | New l _ => if bool_decide (l ∈ alive) then None else Some ({[l]} ∪ alive)
  | Move l other => if bool_decide (l ∉ alive) && bool_decide (other ∈ alive) then Some ({[l]} ∪ alive) else None
  | Assign l other => if bool_decide (l ∈ alive) && bool_decide (other ∈ alive) then Some alive else None
  | Cookies l _ | Retarget l _ | Post l _ | Get l => if bool_decide (l ∈ alive) then Some alive else None
  | Destroy l => if bool_decide (l ∈ alive) then Some (alive ∖ {[l]}) else None
  end.
Fixpoint scoped (alive : gset nat) (ops : list operation) : option (gset nat) :=
  match ops with
  | [] => Some alive
  | op :: ops' => scopedOne alive op ≫= λ alive', scoped alive' ops'
  end.

Definition done_as {A} (m : ST heap A) (s : heap) (alive : gset nat) : Prop :=
  ∃ a s', m s = (Ok a, s') ∧ owned s' ∧ dom (objects s') = alive.

Lemma done_then {A B} (m : ST heap A) (f : A → ST heap B) s alive alive' :
  done_as m s alive → (∀ a s', owned s' → dom (objects s') = alive → done_as (f a) s' alive') →
  done_as (m ≫= f) s alive'.
Proof.
  intros (a & s' & E & Ho & Hd) Hf. destruct (Hf a s' Ho Hd) as (b & s'' & E' & ?).
  exists b, s''. split; [by eapply then_|done].
Qed.

Lemma alive_object s l : l ∈ dom (objects s) → ∃ o, objects s !! l = Some o.
Proof. by rewrite elem_of_dom. Qed.

Lemma withCurl_done s l f alive :
  owned s → dom (objects s) = alive → l ∈ alive → keeps_pointers f → done_as (withCurl l f) s alive.
Proof.
  intros Ho <- [o Hl]%alive_object Hf. destruct (w_curl o) as [h|] eqn:Eh.
  - destruct (owned_live _ s Ho _ _ _ Hl Eh) as (c & Hc & _).
    eexists _, _. split; [by eapply withCurl_eq|]. split; [by eapply owned_option|done].
  - eexists _, _. split; [by eapply withCurl_null|done].
Qed.

Lemma dom_insert_same {A} (m : gmap nat A) l a a' : m !! l = Some a → dom (<[l := a']> m) = dom m.
Proof. intros E%elem_of_dom_2. rewrite dom_insert_L. set_solver. Qed.

Lemma moveAssign_done x s l other alive :
  owned_but x s → x = None ∨ x = Some l → dom (objects s) = alive → l ∈ alive → other ∈ alive → l ≠ other →
  done_as (moveAssign l other) s alive.
Proof.
  intros Ho Hx <- [o Hl]%alive_object [p Hp]%alive_object Hne.
  eexists _, _. split; [by eapply moveAssign_eq|]. split; [by eapply owned_moved|].
  simpl. rewrite (dom_insert_same _ _ o); [by eapply dom_insert_same|]. by rewrite lookup_insert_ne.
Qed.

(** An object moved to itself loses its handle. *)
Lemma moveAssign_self s l o :
  owned s → objects s !! l = Some o →
  moveAssign l l s = (Ok tt, set_objects (insert l (set_curl None o)) (set_handles (opt_delete (w_curl o)) s)).
Proof.
  intros Ho Hl. eapply then_; [by apply object_at_ok|]. rewrite bool_decide_true by done.
  eapply then_; [apply tidy_ok; by eapply owned_live'|]. eapply then_; [by apply set_object_ok|].
  by eapply then_.
Qed.

Lemma owned_self s l o :
  owned s → objects s !! l = Some o →
  owned (set_objects (insert l (set_curl None o)) (set_handles (opt_delete (w_curl o)) s)).
Proof.
  intros Ho Hl. pose proof (owned_destroyed _ l o s Ho ltac:(by left) Hl) as Hd. split; simpl.
  - intros l' o' h [[<- <-]|[Hne E]]%lookup_insert_Some Eh; [done|].
    apply (owned_live _ _ Hd l' o' h); [|done]. simpl. by rewrite lookup_delete_ne.
  - intros l1 l2 o1 o2 h [[<- <-]|[_ E1]]%lookup_insert_Some [[<- <-]|[_ E2]]%lookup_insert_Some Q1 Q2; try done.
    by apply (owned_distinct _ s Ho _ _ _ _ h E1 E2).
  - intros h c Hc. destruct (owned_owner _ _ Hd h c Hc) as [Hlt (l' & o' & E & Eh)]. split; [done|].
    simpl in E. apply lookup_delete_Some in E as [Hne E]. exists l', o'. by rewrite lookup_insert_ne.
Qed.

Section transfers.
Hypothesis header_lines_ok : ∀ before req, Forall header_line (header_lines (transfer before req)).

Lemma perform_done s l alive : owned s → dom (objects s) = alive → l ∈ alive → done_as (perform l) s alive.
Proof.
  intros Ho <- [o Hl]%alive_object. destruct (w_curl o) as [h|] eqn:Eh.
  - destruct (owned_live _ s Ho _ _ _ Hl Eh) as (c & Hc & _). destruct (URL c) as [u|] eqn:Eu.
    + eexists _, _. split; [by eapply perform_eq|]. split; [by apply owned_after_transfer|].
      by eapply dom_insert_same.
    + exists tt, (set_objects (insert l (with_info c o)) s). split; [|split].
      * eapply then_; [by apply object_at_ok|]. rewrite Eh.
        eapply then_; [apply (then_ _ _ s c s _ (handle_at_ok _ _ _ Hc)); rewrite Eu; reflexivity|].
        eapply then_; [by apply handle_at_ok|]. by apply set_object_ok.
      * pose proof (owned_update s l o h c (λ c, c) (with_info c) Ho Hl Eh Hc (λ _ _ Hb, Hb) ltac:(done) (sent s)) as E.
        by rewrite (insert_id (handles s)) in E.
      * by eapply dom_insert_same.
  - eexists _, _. split; [by eapply perform_null|done].
Qed.

Lemma exchange_done s l b fields alive :
  owned s → dom (objects s) = alive → l ∈ alive →
  done_as (_ ← withCurl l (set_method b fields); _ ← perform l; result l) s alive.
Proof.
  intros Ho Hd Hl. eapply done_then; [by apply withCurl_done; [..|apply keeps_set_method]|].
  intros _ s1 Ho1 Hd1. eapply done_then; [by apply perform_done|].
  intros _ s2 Ho2 Hd2. rewrite <- Hd2 in Hl. destruct (alive_object _ _ Hl) as [o Eo].
  eexists _, _. split; [by eapply result_eq|done].
Qed.

Lemma runOne_done op s alive alive' :
  owned s → dom (objects s) = alive → scopedOne alive op = Some alive' → done_as (runOne op) s alive'.
Proof.
  intros Ho Hd Hs. destruct op as [l u|l other|l other|l v|l u|l d|l|l]; simpl in *.
  - case_bool_decide as Hl; [done|]. injection Hs as <-. rewrite <- Hd, not_elem_of_dom in Hl.
    eexists _, _. split; [by apply construct_eq|]. split; [by apply owned_constructed|].
    simpl. rewrite dom_insert_L. by rewrite Hd.
  - destruct (decide (l ∈ alive)) as [?|Hl]; [by rewrite (bool_decide_false (l ∉ alive)) in Hs by auto|].
    rewrite (bool_decide_true (l ∉ alive)) in Hs by done. simpl in Hs.
    case_bool_decide as Hother; [|done]. injection Hs as <-.
    assert (objects s !! l = None) as Hnone by (by rewrite <- not_elem_of_dom, Hd).
    pose proof (owned_initialised l s Ho Hnone) as Ho1. unfold moveConstruct.
    destruct (moveAssign_done (Some l) (initialised l s) l other ({[l]} ∪ alive)) as (a & s' & E & H'); [done|by right|..].
    { simpl. rewrite dom_insert_L. by rewrite Hd. }
    { set_solver. } { set_solver. } { by intros ->. }
    exists a, s'. split; [|done]. by eapply then_; [apply initialise_eq|].
  - case_bool_decide as Hl; [|done]. case_bool_decide as Hother; [|done]. injection Hs as <-.
    destruct (decide (l = other)) as [<-|Hne]; [|by eapply moveAssign_done; [|by left|..]].
    rewrite <- Hd in Hl. destruct (alive_object _ _ Hl) as [o Eo].
    eexists _, _. split; [by apply moveAssign_self|]. split; [by apply owned_self|].
    simpl. rewrite <- Hd. by eapply dom_insert_same.
  - case_bool_decide; [|done]. injection Hs as <-. by apply withCurl_done; [..|apply keeps_set_COOKIE].
  - case_bool_decide; [|done]. injection Hs as <-. by apply withCurl_done; [..|apply keeps_set_URL].
  - case_bool_decide; [|done]. injection Hs as <-. eapply done_then; [by apply exchange_done|].
    intros a s' ? ?. by eexists _, _.
  - case_bool_decide; [|done]. injection Hs as <-. eapply done_then; [by apply exchange_done|].
    intros a s' ? ?. by eexists _, _.
  - case_bool_decide as Hl; [|done]. injection Hs as <-. rewrite <- Hd in Hl.
    destruct (alive_object _ _ Hl) as [o Eo].
    eexists _, _. split; [by eapply destroy_eq|]. split; [by eapply owned_destroyed; [|by left|]|].
    simpl. rewrite dom_delete_L. by rewrite Hd.
Qed.

Lemma run_done ops s alive alive' :
  owned s → dom (objects s) = alive → scoped alive ops = Some alive' → done_as (run ops) s alive'.
Proof.
  revert s alive. induction ops as [|op ops IH]; intros s alive Ho Hd Hs.
  - injection Hs as <-. by eexists _, _.
  - simpl in Hs. apply bind_Some in Hs as (alive1 & H1 & H2).
    eapply done_then; [by eapply runOne_done|]. intros _ s1 Ho1 Hd1. by eapply IH.
Qed.

Lemma owned_none s : owned s → dom (objects s) = ∅ → handles s = ∅.
Proof.
  intros Ho Hd. apply map_empty. intros h. destruct (handles s !! h) as [c|] eqn:E; [|done].
  destruct (owned_owner _ s Ho _ _ E) as [_ (l & o & El & _)]. apply elem_of_dom_2 in El. set_solver.
Qed.
End transfers.
End facts.

(** C9: in any program that constructs, moves, assigns, uses and destroys
    [requestWrapper]s within the scoping rules of the language, no step faults:
    no transfer writes into an object that is gone, no handle is cleaned up twice
    or used afterwards.  Every wrapper keeps a handle of its own whose pointers
    lead to its own response, and once all wrappers are destroyed no handle is
    left. *)
Theorem wrappers_safe `{Libcurl} ops alive :
  (∀ before req, Forall header_line (header_lines (transfer before req))) →
  scoped ∅ ops = Some alive →
  ∃ s, run ops emptyHeap = (Ok tt, s) ∧ owned s ∧ dom (objects s) = alive ∧ (alive = ∅ → handles s = ∅).
Proof.
  intros Hlines Hs. destruct (run_done Hlines ops emptyHeap ∅ alive) as ([] & s & E & Ho & Hd);
    [apply owned_empty|done|done|].
  exists s. split_and!; [done..|]. intros ->. by apply owned_none.
Qed.
