(* ===== verification/Multi.v ===== *)
(** Translator/include/Curl.h, [multicurlwrapper]: a collection of curl handles
    that are polled together.  The program does not use the class.

    The multi handles of libcurl are numbers, and an easy handle is attached to at
    most one of them; cleaning up an easy handle that is still attached, or a multi
    handle that is gone, is a fault. *)

From S2P Require Import Prelude Database Double Effects Handles HandleFacts.

Class LibcurlMulti := {
  multi_init_ok : nat → bool;     (** whether the n-th multi handle can be had *)
  still_running : nat → nat;      (** transfers left after the n-th call of perform *)
}.

Record mheap := {
  m_heap : heap;
  multis : gset nat;             (** not yet cleaned up *)
  attachedTo : gmap nat nat;     (** easy handles and the multi handles they were added to *)
  m_next : nat;
  m_polls : nat;                 (** calls of [curl_multi_perform] so far *)
}.

Definition set_multis (f : gset nat → gset nat) (s : mheap) : mheap :=
  {| m_heap := m_heap s; multis := f (multis s); attachedTo := attachedTo s; m_next := m_next s; m_polls := m_polls s |}.
Definition set_attached (f : gmap nat nat → gmap nat nat) (s : mheap) : mheap :=
  {| m_heap := m_heap s; multis := multis s; attachedTo := f (attachedTo s); m_next := m_next s; m_polls := m_polls s |}.
Definition set_heap (f : heap → heap) (s : mheap) : mheap :=
  {| m_heap := f (m_heap s); multis := multis s; attachedTo := attachedTo s; m_next := m_next s; m_polls := m_polls s |}.

Record multicurlwrapper := { object : option nat; curls : list curlwrapper }.

Section multi.
Context `{LibcurlMulti}.

(** ** libcurl *)

Definition multi_live (m : nat) : ST mheap unit := λ s,
  if bool_decide (m ∈ multis s) then (Ok tt, s) else (Raise UndefinedBehaviour, s).
Definition onEasy {A} (f : ST heap A) : ST mheap A := λ s,
  let '(o, h) := f (m_heap s) in (o, set_heap (λ _, h) s).

Definition curl_multi_init : ST mheap (option nat) := λ s,
  let n := m_next s in
  (Ok (if multi_init_ok n then Some n else None),
   {| m_heap := m_heap s; multis := if multi_init_ok n then {[n]} ∪ multis s else multis s;
      attachedTo := attachedTo s; m_next := S n; m_polls := m_polls s |}).

Definition curl_multi_cleanup (m : nat) : ST mheap unit :=
  _ ← multi_live m;
  modifyS (set_multis (λ ms, ms ∖ {[m]})).

(** On a null handle, or with a null easy handle, these only return an error; so
    does adding a handle that has been added before. *)
Definition curl_multi_add_handle (multi : option nat) (easy : curlwrapper) : ST mheap unit :=
  match multi, easy with
  | Some m, Some h =>
      _ ← multi_live m;
      _ ← onEasy (handle_at h);
      modifyS (set_attached (λ a, match a !! h with Some _ => a | None => <[h := m]> a end))
  | _, _ => mret tt
  end.
Definition curl_multi_remove_handle (m : nat) (easy : curlwrapper) : ST mheap unit :=
  match easy with
  | Some h =>
      _ ← multi_live m;
      _ ← onEasy (handle_at h);
      modifyS (set_attached (λ a, if bool_decide (a !! h = Some m) then delete h a else a))
  | None => mret tt
  end.

(** The number of running transfers; [None] when the variable is left as it was. *)
Definition curl_multi_perform (multi : option nat) : ST mheap (option nat) :=
  match multi with
  | None => mret None
  | Some m =>
      _ ← multi_live m;
      s ← getS;
      _ ← modifyS (λ s, {| m_heap := m_heap s; multis := multis s; attachedTo := attachedTo s;
                           m_next := m_next s; m_polls := S (m_polls s) |});
      mret (Some (still_running (m_polls s)))
  end.

(** ** [multicurlwrapper] *)

(** The destructor of a [curlwrapper] of the collection. *)
Definition tidyCurl (easy : curlwrapper) : ST mheap unit :=
  match easy with
  | None => mret tt
  | Some h =>
      s ← getS;
      if bool_decide (is_Some (attachedTo s !! h)) then liftS (Raise UndefinedBehaviour)
      else _ ← onEasy (tidy easy); mret tt
  end.

(** [object] keeps its value. *)
Definition multiTidy (this : multicurlwrapper) : ST mheap multicurlwrapper :=
  match object this with
  | None => mret this
  | Some m =>
      _ ← forEach (curl_multi_remove_handle m) (curls this);
      _ ← forEach tidyCurl (curls this);
      _ ← curl_multi_cleanup m;
      mret {| object := Some m; curls := [] |}
  end.

Definition multiConstruct : ST mheap multicurlwrapper :=
  m ← curl_multi_init;
  mret {| object := m; curls := [] |}.

(** The move constructor: the new object and what is left of the old one. *)
Definition multiMove (other : multicurlwrapper) : multicurlwrapper * multicurlwrapper :=
  ({| object := object other; curls := curls other |}, {| object := None; curls := [] |}).

(** The move assignment ends without the [return] it promises. *)
Definition multiAssign (this other : multicurlwrapper) : ST mheap (multicurlwrapper * multicurlwrapper) :=
  _ ← multiTidy this;
  liftS (Raise UndefinedBehaviour).

(** The destructor, which destroys the members. *)
Definition multiDestroy (this : multicurlwrapper) : ST mheap unit :=
  this ← multiTidy this;
  forEach tidyCurl (curls this).

(** The [do] loop has no bound of its own. *)
Fixpoint multiPerform (fuel : nat) (this : multicurlwrapper) (connections : nat) : ST mheap unit :=
  match fuel with
  | O => liftS (Raise OutOfFuel)
  | S fuel' =>
      running ← curl_multi_perform (object this);
      let connections := default connections running in
      if bool_decide (connections = 0%nat) then mret tt else multiPerform fuel' this connections
  end.

Definition multiAdd (this : multicurlwrapper) (obj : curlwrapper) : ST mheap multicurlwrapper :=
  _ ← curl_multi_add_handle (object this) obj;
  mret {| object := object this; curls := curls this ++ [obj] |}.
End multi.

(** ** What the destructor does *)

Section facts.
Context `{LibcurlMulti}.

(** The handles of a collection. *)
Definition held (cs : list curlwrapper) : list nat := omap id cs.
Definition without {A} (hs : list nat) (m : gmap nat A) : gmap nat A := foldr delete m hs.

Lemma without_delete {A} h hs (m : gmap nat A) : without hs (delete h m) = delete h (without hs m).
Proof. induction hs as [|h' hs IH]; [done|]. simpl. by rewrite IH, delete_delete. Qed.

(** Every handle of the collection is live, and attached to [m] or not at all. *)
Definition collected (m : nat) (hs : list nat) (s : mheap) : Prop :=
  m ∈ multis s ∧ NoDup hs ∧
  Forall (λ h, is_Some (handles (m_heap s) !! h) ∧ ∀ m', attachedTo s !! h = Some m' → m' = m) hs.

Lemma handle_at_live h s : is_Some (handles (m_heap s) !! h) → ∃ c, onEasy (handle_at h) s = (Ok c, s).
Proof.
  intros [c Hc]. exists c. unfold onEasy, handle_at. rewrite Hc. by destruct s.
Qed.

Lemma removes_eq m cs s :
  collected m (held cs) s →
  forEach (curl_multi_remove_handle m) cs s = (Ok tt, set_attached (without (held cs)) s).
Proof.
  revert s. induction cs as [|[h|] cs IH]; intros s (Hm & Hnd & HF); cbn [forEach].
  - unfold mret, ST_ret, set_attached. by destruct s.
  - change (held (Some h :: cs)) with (h :: held cs) in *.
    apply NoDup_cons in Hnd as [Hh Hnd]. apply Forall_cons in HF as [[Hlive Hatt] HF].
    destruct (handle_at_live h s Hlive) as [c Ec].
    assert (curl_multi_remove_handle m (Some h) s = (Ok tt, set_attached (delete h) s)) as E1.
    { unfold curl_multi_remove_handle. rewrite bindS_eq. unfold multi_live. rewrite bool_decide_true by done.
      rewrite bindS_eq, Ec. unfold modifyS, set_attached. do 2 f_equal. case_bool_decide as Ha; [done|].
      destruct (attachedTo s !! h) as [m'|] eqn:E; [by destruct Ha; rewrite (Hatt m')|]. by rewrite delete_id. }
    rewrite (bindS_ok _ _ _ _ _ E1), IH.
    + unfold set_attached. cbn [attachedTo]. do 2 f_equal. apply without_delete.
    + split_and!; [done|done|]. eapply Forall_impl; [exact HF|]. intros h' [Hl Ha]. split; [done|].
      intros m' Hm'. cbn [attachedTo set_attached] in Hm'. apply lookup_delete_Some in Hm' as [_ Hm']. by apply Ha.
  - rewrite bindS_eq. unfold curl_multi_remove_handle, mret, ST_ret. by apply IH.
Qed.

Lemma tidies_eq cs s :
  NoDup (held cs) → Forall (λ h, is_Some (handles (m_heap s) !! h) ∧ attachedTo s !! h = None) (held cs) →
  forEach tidyCurl cs s = (Ok tt, set_heap (set_handles (without (held cs))) s).
Proof.
  revert s. induction cs as [|[h|] cs IH]; intros s Hnd HF; cbn [forEach].
  - unfold mret, ST_ret, set_heap, set_handles. by destruct s as [[]].
  - change (held (Some h :: cs)) with (h :: held cs) in *.
    apply NoDup_cons in Hnd as [Hh Hnd]. apply Forall_cons in HF as [[[c Hc] Hatt] HF].
    assert (tidyCurl (Some h) s = (Ok tt, set_heap (set_handles (delete h)) s)) as E1.
    { unfold tidyCurl. rewrite bindS_eq. unfold getS. rewrite Hatt, bool_decide_false by (by intros []).
      rewrite bindS_eq. unfold onEasy, tidy, curl_easy_cleanup. rewrite !bindS_eq. unfold handle_at. by rewrite Hc. }
    rewrite (bindS_ok _ _ _ _ _ E1), IH.
    + unfold set_heap, set_handles. cbn [m_heap handles]. do 3 f_equal. apply without_delete.
    + done.
    + apply Forall_forall. intros h' Hin. rewrite Forall_forall in HF. destruct (HF h' Hin) as [Hl Ha].
      split; [|done]. cbn. rewrite lookup_delete_ne; [done|]. by intros ->.
  - rewrite bindS_eq. unfold tidyCurl, mret, ST_ret. by apply IH.
Qed.

Lemma without_notin {A} h hs (m : gmap nat A) : h ∈ hs → without hs m !! h = None.
Proof.
  induction hs as [|h' hs IH]; [by intros ?%elem_of_nil|]. intros [->|Hin]%elem_of_cons; simpl.
  - apply lookup_delete_eq.
  - rewrite lookup_delete_None. right. by apply IH.
Qed.

Lemma multiTidy_eq this m s :
  object this = Some m → collected m (held (curls this)) s →
  multiTidy this s = (Ok {| object := Some m; curls := [] |},
    set_multis (λ ms, ms ∖ {[m]}) (set_heap (set_handles (without (held (curls this))))
      (set_attached (without (held (curls this))) s))).
Proof.
  intros Ho Hc. pose proof Hc as (Hm & Hnd & HF). unfold multiTidy. rewrite Ho.
  rewrite (bindS_ok _ _ _ _ _ (removes_eq m _ s Hc)).
  assert (Forall (λ h, is_Some (handles (m_heap s) !! h) ∧ without (held (curls this)) (attachedTo s) !! h = None)
    (held (curls this))) as HF'.
  { rewrite Forall_forall in *. intros h Hin. split; [apply (HF h Hin)|by apply without_notin]. }
  rewrite (bindS_ok _ _ _ _ _ (tidies_eq (curls this) (set_attached (without (held (curls this))) s) Hnd HF')).
  rewrite bindS_eq. unfold curl_multi_cleanup. rewrite bindS_eq. unfold multi_live.
  rewrite bool_decide_true by done. reflexivity.
Qed.

(** The destructor takes every handle of the collection out of the multi handle
    before it cleans it up, cleans each of them up once, and then the multi handle;
    nothing else changes. *)
Theorem multiDestroy_cleans this m s :
  object this = Some m → collected m (held (curls this)) s →
  ∃ s', multiDestroy this s = (Ok tt, s') ∧ multis s' = multis s ∖ {[m]} ∧
    (∀ h, handles (m_heap s') !! h = if bool_decide (h ∈ held (curls this)) then None else handles (m_heap s) !! h) ∧
    (∀ h, attachedTo s' !! h = if bool_decide (h ∈ held (curls this)) then None else attachedTo s !! h) ∧
    objects (m_heap s') = objects (m_heap s) ∧ sent (m_heap s') = sent (m_heap s).
Proof.
  intros Ho Hc. eexists. split.
  { unfold multiDestroy. rewrite (bindS_ok _ _ _ _ _ (multiTidy_eq this m s Ho Hc)). reflexivity. }
  assert (∀ A (mm : gmap nat A) h, without (held (curls this)) mm !! h =
    if bool_decide (h ∈ held (curls this)) then None else mm !! h) as Hw.
  { intros A mm h. case_bool_decide as Hin; [by apply without_notin|]. revert Hin.
    generalize (held (curls this)). intros hs. induction hs as [|h' hs IH]; intros Hin; [done|]. simpl.
    apply not_elem_of_cons in Hin as [Hne Hin]. rewrite lookup_delete_ne by done. by apply IH. }
  split_and!; [done|intros h; apply Hw|intros h; apply Hw|done|done].
Qed.

(** [tidy] can be called from outside and leaves its pointer behind: the
    destructor then cleans the same multi handle up again. *)
Theorem multiTidy_dangles this m s :
  object this = Some m → collected m (held (curls this)) s →
  (this' ← multiTidy this; multiDestroy this') s = (Raise UndefinedBehaviour, (multiTidy this s).2).
Proof.
  intros Ho Hc. pose proof (multiTidy_eq this m s Ho Hc) as E. rewrite (bindS_ok _ _ _ _ _ E), E. cbn [snd].
  unfold multiDestroy, multiTidy. cbn [object curls forEach]. rewrite !bindS_eq. unfold mret, ST_ret.
  rewrite !bindS_eq. unfold curl_multi_cleanup. rewrite bindS_eq. unfold multi_live.
  rewrite bool_decide_false; [done|]. cbn. set_solver.
Qed.

(** The polling loop ends with the transfers. *)
Theorem multiPerform_ends n fuel this connections s :
  (∀ m, object this = Some m → m ∈ multis s) → (n < fuel)%nat → still_running (m_polls s + n) = 0%nat →
  (object this = None → connections = 0%nat) →
  ∃ s', multiPerform fuel this connections s = (Ok tt, s') ∧ (m_polls s' ≤ m_polls s + S n)%nat ∧ m_heap s' = m_heap s.
Proof.
  revert fuel connections s. induction n as [|n IH]; intros [|fuel] connections s Hm Hf Hz Hnone; try lia;
    cbn [multiPerform]; rewrite bindS_eq; unfold curl_multi_perform; destruct (object this) as [m|] eqn:Ho.
  - rewrite !bindS_eq. unfold multi_live. rewrite bool_decide_true by auto. rewrite !bindS_eq. unfold getS, modifyS.
    rewrite !bindS_eq. rewrite Nat.add_0_r in Hz. simpl. rewrite Hz. cbn. eexists. split; [reflexivity|]. cbn. split; [lia|done].
  - unfold mret, ST_ret. cbn [default]. rewrite Hnone by done. eexists. split; [reflexivity|]. split; [lia|done].
  - rewrite !bindS_eq. unfold multi_live. rewrite bool_decide_true by auto. rewrite !bindS_eq. unfold getS, modifyS.
    rewrite !bindS_eq. unfold mret, ST_ret. cbn [default]. case_bool_decide as Hk.
    + eexists. split; [reflexivity|]. cbn. split; [lia|done].
    + match goal with |- ∃ s', multiPerform _ _ _ ?s1 = _ ∧ _ => destruct (IH fuel (still_running (m_polls s)) s1)
        as (s' & E & Hp & Hheap) end; [exact Hm|lia|cbn; by replace (S (m_polls s + n)) with (m_polls s + S n)%nat by lia|done|].
      exists s'. split; [done|]. cbn in Hp, Hheap. split; [lia|done].
  - unfold mret, ST_ret. cbn [default]. rewrite Hnone by done. eexists. split; [reflexivity|]. split; [lia|done].
Qed.
End facts.
