(* ===== verification/Streams.v ===== *)
(** [std::istream] as far as the program reads from one: [std::getline], and the
    loops over the lines of a stream. *)

From S2P Require Import Prelude Effects.

(** What is left to read, and [good()]. *)
Record istream := { rest : text; good : bool }.

(** A file just opened. *)
Definition opened (contents : text) : istream := {| rest := contents; good := true |}.

(** [std::getline(in, line)]: the stream's state as a bool, the new value of
    [line] and the stream.  On a stream that is not good, [line] is left as it
    was; otherwise it holds what precedes the next newline or the end.  Reaching
    the end sets [eofbit], and [failbit] too when nothing was read. *)
Definition getline (s : istream) (line : text) : bool * text * istream :=
  if good s then
    match span_to NEWLINE (rest s) with
    | (l, _ :: r) => (true, l, {| rest := r; good := true |})
    | (l, []) => (negb (bool_decide (l = [])), l, {| rest := []; good := false |})
    end
  else (false, line, s).

(** [while (std::getline(in, line)) body]; a body that answers [Some r] leaves the
    loop with [r]. *)
Fixpoint whileLines {S A} (fuel : nat) (s : istream) (line : text) (body : text → ST S (option A))
    : ST S (option A) :=
  match fuel with
  | O => liftS (Raise OutOfFuel)
  | Datatypes.S fuel' =>
      match getline s line with
      | (false, _, _) => mret None
      | (true, line', s') =>
          r ← body line';
          match r with
          | Some a => mret (Some a)
          | None => whileLines fuel' s' line' body
          end
      end
  end.

(** Enough fuel for a stream: a round consumes a character or reaches the end. *)
Definition line_fuel (s : istream) : nat := S (S (length (rest s))).

(** ** The lines of a text *)

Definition input_lines (s : text) : list text :=
  let ps := split_on NEWLINE s in
  if bool_decide (last ps = Some []) then take (length ps - 1) ps else ps.

Fixpoint forLines {S A} (lines : list text) (body : text → ST S (option A)) : ST S (option A) :=
  match lines with
  | [] => mret None
  | line :: lines' =>
      r ← body line;
      match r with Some a => mret (Some a) | None => forLines lines' body end
  end.

Lemma input_lines_span s :
  input_lines s = match span_to NEWLINE s with
                  | (l, []) => if bool_decide (l = []) then [] else [l]
                  | (l, _ :: r) => l :: input_lines r
                  end.
Proof.
  unfold input_lines. rewrite split_on_span.
  destruct (span_to NEWLINE s) as [l [|c r]]; simpl.
  - destruct (bool_decide_reflect (l = [])) as [->|Hl]; [by rewrite bool_decide_true|].
    rewrite bool_decide_false; [done|congruence].
  - pose proof (split_on_nonempty NEWLINE r). destruct (split_on NEWLINE r) as [|p ps] eqn:E; [done|].
    change (last (l :: p :: ps)) with (last (p :: ps)).
    case_bool_decide; [|done]. cbn [length]. by rewrite !Nat.sub_succ, !Nat.sub_0_r.
Qed.

Lemma getline_end s line : good s = false → getline s line = (false, line, s).
Proof. unfold getline. by intros ->. Qed.

Lemma whileLines_closed {S A} fuel s line (body : text → ST S (option A)) :
  good s = false → (0 < fuel)%nat → whileLines fuel s line body = mret None.
Proof. intros Hs Hf. destruct fuel; [lia|]. simpl. by rewrite getline_end. Qed.

(** The loop runs its body on the lines of the text, one after the other. *)
Lemma whileLines_lines {S A} fuel contents line (body : text → ST S (option A)) st :
  (length contents + 1 < fuel)%nat →
  whileLines fuel (opened contents) line body st = forLines (input_lines contents) body st.
Proof.
  revert contents line st. induction fuel as [|fuel IH]; intros contents line st Hf; [lia|].
  rewrite input_lines_span. cbn [whileLines getline good opened rest].
  destruct (span_to NEWLINE contents) as [l [|c r]] eqn:E.
  - destruct (bool_decide (l = [])); cbn [negb]; [done|].
    simpl. rewrite !bindS_eq. destruct (body l st) as [[[a|]|e] st']; try done.
    rewrite whileLines_closed; [done|done|lia].
  - simpl. rewrite !bindS_eq. destruct (body l st) as [[[a|]|e] st']; try done.
    apply IH. apply span_to_length in E. simpl in E. lia.
Qed.
