(* ===== verification/Translator.v ===== *)
(** The translator's own server (Translator/src/Source.cpp,
    Translator/include/Forwarding.h): pages that are sent as they are
    ([staticWrapper]), pages that forward the request to the back-end server and
    translate the answer ([forwardingWrapper]), the plain forwarding of
    [Forwarding.h], and the link file that ties addresses to pages ([linkPages]).

    uWebSockets hands the handler a request and, for a body, calls the [onData]
    handler afterwards: a definition of this file runs up to the registration of
    that handler, and [deliver] runs the calls that follow.  [moves] is how often
    uWebSockets moves the handler before it rests. *)

From S2P Require Import Prelude CharConv Query Response Database Http Effects Htmt Handles Streams.

Record tworld := { t_heap : heap; t_events : list event }.

Section translator.
Context `{Curl, Libcurl}.
Context (moves : nat).

Definition onHeap {A} (m : ST heap A) : ST tworld A := λ w,
  let '(o, s) := m (t_heap w) in (o, {| t_heap := s; t_events := t_events w |}).
Definition emitT (ev : event) : ST tworld unit :=
  modifyS (λ w, {| t_heap := t_heap w; t_events := t_events w ++ [ev] |}).

(** Where the next object goes. *)
Definition alloc : ST heap nat := λ s, (Ok (fresh (dom (objects s))), s).

(** ** Answers *)

Definition writeAnswerHeaders (API : APIResponse) : ST tworld unit :=
  _ ← emitT (EvStatus (to_string (response_code API)));
  forEach (λ i, emitT (EvHeader i.1 i.2)) (headers API).

(** [forwardingWrapper::applyTranslation]. *)
Definition applyTranslation (API : APIResponse) (tran : translation) (q : queryBase) : ST tworld unit :=
  _ ← writeAnswerHeaders API;
  resw ← liftS (fromData (response API));
  match resw with
  | Some data =>
      let '(page, warnings) := applied tran data (response_code API) q in
      _ ← forEach (λ line, emitT (EvLog line)) warnings;
      text ← liftS page;
      emitT (EvTryEnd text)
  | None => emitT (EvTryEnd (response API))
  end.

(** [writeBack] (Forwarding.h). *)
Definition writeBack (API : APIResponse) : ST tworld unit :=
  _ ← writeAnswerHeaders API;
  resw ← liftS (fromData (response API));
  match resw with
  | Some data => str ← liftS (toData data true); emitT (EvEnd str)
  | None => emitT (EvEnd (response API))
  end.

(** ** The bodies of requests *)

Section body.
(** A lambda that owns a [requestWrapper]: the location of the latter stands for
    the lambda, moving one moves the other. *)
Context (callback : nat → text → ST tworld unit).

(** uWebSockets moves the handler it is given. *)
Fixpoint storeHandler (n : nat) (l : nat) : ST heap nat :=
  match n with
  | O => mret l
  | S n' =>
      l' ← alloc;
      _ ← moveConstruct l' l;
      _ ← destroy l;
      storeHandler n' l'
  end.

(** [extractPostBody]: calls [callback] on an empty body, or registers the
    handler, whose location it returns. *)
Definition extractPostBody (req : HttpRequest) (l : nat) : ST tworld (option nat) :=
  if (contentLength req =? 0)%Z then _ ← callback l []; mret None
  else
    handler ← onHeap (l' ← alloc; _ ← moveConstruct l' l; storeHandler moves l');
    mret (Some handler).

(** The [onData] handler on the pieces of the body; then it is destroyed. *)
Fixpoint onPieces (l : nat) (buffer : text) (chunks : list (text * bool)) : ST tworld unit :=
  match chunks with
  | [] => mret tt
  | (data, last) :: chunks' =>
      let buffer := buffer ++ data in
      _ ← (if (last : bool) then callback l buffer else mret tt);
      onPieces l buffer chunks'
  end.

Definition deliver (handler : option nat) (chunks : list (text * bool)) : ST tworld unit :=
  match handler with
  | None => mret tt
  | Some l => _ ← onPieces l [] chunks; onHeap (destroy l)
  end.

(** The [onAborted] handler, when the connection ends first. *)
Definition abort (handler : option nat) : ST tworld unit :=
  match handler with
  | None => mret tt
  | Some l =>
      _ ← emitT (EvStatus (T "500"));
      _ ← emitT (EvEnd []);
      onHeap (destroy l)
  end.

(** [forwardPost]: the lambda takes the request object over. *)
Definition forwardPost (req : HttpRequest) (curl : nat) : ST tworld (option nat) :=
  lambda ← onHeap (l ← alloc; _ ← moveConstruct l curl; mret l);
  handler ← extractPostBody req lambda;
  _ ← onHeap (destroy lambda);
  mret handler.
(** [forwardingWrapper] has copies of both functions as members. *)
Definition pageExtractPostBody (req : HttpRequest) (l : nat) : ST tworld (option nat) :=
  extractPostBody req l.

Definition pageForwardPost (req : HttpRequest) (curl : nat) : ST tworld (option nat) :=
  lambda ← onHeap (l ← alloc; _ ← moveConstruct l curl; mret l);
  handler ← pageExtractPostBody req lambda;
  _ ← onHeap (destroy lambda);
  mret handler.
End body.

(** What a POST does with the body once it is there. *)
Definition postAndTranslate (tran : translation) (req : HttpRequest) (l : nat) (body : text) : ST tworld unit :=
  API ← onHeap (post l body);
  applyTranslation API tran (mkQuery (getQuery req)).
Definition postAndWriteBack (l : nat) (body : text) : ST tworld unit :=
  API ← onHeap (post l body);
  writeBack API.

(** The request object both forwarders build. *)
Definition newRequest (url : text) (req : HttpRequest) : ST tworld nat :=
  onHeap (l ← alloc; _ ← construct l url; _ ← setCookies l (getHeader req (T "cookie")); mret l).

(** ** Pages *)

Inductive webpage :=
  | StaticPage (data : text)
  | ForwardingPage (data : translation) (destination : text).

Definition backendURL (destination : text) (req : HttpRequest) : text :=
  let urlQuery := getQuery req in
  T "localhost:9001" ++ destination ++
  (if bool_decide (urlQuery = []) then [] else T "?" ++ urlQuery).

(** [forwardingWrapper::apply]; the handler it leaves behind, if any. *)
Definition applyForwarding (data : translation) (destination : text) (req : HttpRequest)
    : ST tworld (option nat) :=
  request ← newRequest (backendURL destination req) req;
  handler ← (if bool_decide (getMethod req = T "post")
             then pageForwardPost (postAndTranslate data req) req request
             else API ← onHeap (Handles.get request);
                  _ ← applyTranslation API data (mkQuery (getQuery req));
                  mret None);
  _ ← onHeap (destroy request);
  mret handler.

(** A request to a page and the calls that follow. *)
Definition servePage (p : webpage) (req : HttpRequest) (chunks : list (text * bool)) : ST tworld unit :=
  match p with
  | StaticPage data => emitT (EvTryEnd data)
  | ForwardingPage data destination =>
      handler ← applyForwarding data destination req;
      deliver (postAndTranslate data req) handler chunks
  end.

(** [forward] (Forwarding.h), which puts nothing between the path and the query. *)
Definition forward (req : HttpRequest) : ST tworld (option nat) :=
  let url := T "localhost:9001" ++ getUrl req ++ getQuery req in
  request ← newRequest url req;
  handler ← (if bool_decide (getMethod req = T "post")
             then forwardPost postAndWriteBack req request
             else API ← onHeap (Handles.get request);
                  _ ← writeBack API;
                  mret None);
  _ ← onHeap (destroy request);
  mret handler.

Definition serveForward (req : HttpRequest) (chunks : list (text * bool)) : ST tworld unit :=
  handler ← forward req;
  deliver postAndWriteBack handler chunks.
End translator.

(** ** The link file *)

Section links.
(** The files, by name; [None] when one cannot be opened. *)
Context (files : text → option text).

Definition readEntireFile (filename : text) : text := default [] (files filename).

Definition staticWrapper (path : text) : webpage := StaticPage (readEntireFile path).
Definition forwardingWrapper (path dest : text) : outcome webpage :=
  data ← parse (readEntireFile path);
  Ok (ForwardingPage data dest).

(** [app.post] and [app.get], in order, and the lines on the console. *)
Record site := { registered : list (text * text * webpage); console : list text }.

Definition register (method path : text) (p : webpage) : ST site unit :=
  modifyS (λ s, {| registered := registered s ++ [(method, path, p)]; console := console s |}).
Definition say (line : text) : ST site unit :=
  modifyS (λ s, {| registered := registered s; console := console s ++ [line] |}).

Definition quoted (s : text) : text := [QUOTE] ++ s ++ [QUOTE].

Definition invalidEntry (line : text) : ST site (option bool) :=
  _ ← say (T "Invalid linkfile entry " ++ quoted line ++ T "." ++ [NEWLINE]);
  mret (Some false).

(** The body of the loop: [Some false] for an early [return false]. *)
Definition linkLine (line : text) : ST site (option bool) :=
  if bool_decide (line = []) || bool_decide (head line = Some "#"%char) then mret None else
  match line with
  | l0 :: l1 :: l2 :: l3 :: rest =>
      if negb (bool_decide (l0 = "P"%char ∨ l0 = "G"%char) && bool_decide (l1 = "S"%char ∨ l1 = "F"%char)
               && bool_decide (l2 = ":"%char))
      then invalidEntry line else
      match span_to ":"%char rest with
      | (_, []) => invalidEntry line
      | (web, _ :: afterDiv) =>
          let webDirectory := l3 :: web in
          let method := if bool_decide (l0 = "P"%char) then T "post" else T "get" in
          if bool_decide (l1 = "S"%char) then
            let fileDirectory := afterDiv in
            _ ← say (T "Linked page " ++ quoted webDirectory ++ T " to local page " ++ quoted fileDirectory
                     ++ T "." ++ [NEWLINE]);
            _ ← register method webDirectory (staticWrapper fileDirectory);
            mret None
          else
            let '(fileDirectory, secDiv) := span_to ":"%char afterDiv in
            let target := match secDiv with [] => webDirectory | _ :: t => t end in
            _ ← say (T "Linked page " ++ quoted webDirectory ++ T " to local page " ++ quoted fileDirectory
                     ++ T " which forwards to " ++ quoted target ++ T "." ++ [NEWLINE]);
            page ← liftS (forwardingWrapper fileDirectory target);
            _ ← register method webDirectory page;
            mret None
      end
  | _ => invalidEntry line
  end.

Definition linkPages (linkFile : text) : ST site bool :=
  match files linkFile with
  | None => _ ← say (T "Unable to find link file." ++ [NEWLINE]); mret false
  | Some contents =>
      r ← whileLines (line_fuel (opened contents)) (opened contents) [] linkLine;
      mret (default true r)
  end.

(** [main] up to [app.run()]: what [linkPages] returns is not looked at. *)
Definition link_main : ST site unit :=
  _ ← linkPages (T "../Pages/Link.txt");
  say (T "Linking complete." ++ [NEWLINE]).
End links.

(** ** Choosing a page *)

(** uWebSockets hands a request to one of the pages registered, by its method and
    path, where a registered path may hold parameters ([:name]) and wildcards
    ([*]).  That choice is a parameter of the model; it is [None] when the request
    falls to the default [main] registers for every path. *)
Class Router := { pageFor : site → HttpRequest → option webpage }.

(** A path without parameters and wildcards. *)
Definition static_path (path : text) : Prop := ":"%char ∉ path ∧ "*"%char ∉ path.

(** The documented rule the deployment relies on: a static path leads to the page
    registered for it, before any pattern that matches it too. *)
Class RouterFacts `{Router} := {
  pageFor_static s req page :
    NoDup (registered s).*1 → static_path (getUrl req) →
    (getMethod req, getUrl req, page) ∈ registered s → pageFor s req = Some page;
}.

Definition serveSite `{Curl, Libcurl, Router} (moves : nat) (s : site) (req : HttpRequest) (chunks : list (text * bool))
    : ST tworld unit :=
  match pageFor s req with
  | Some page => servePage moves page req chunks
  | None => emitT (EvEnd (T "Bad translation."))
  end.
