(* ===== verification/TranslatorFacts.v ===== *)
(** The translator's server: one request of a browser is one request to the
    back-end server, answered with the page applied to what came back. *)

From S2P Require Import Prelude CharConv Query Response Database Double Http Net Effects Htmt.
From S2P Require Import Handles HandleFacts Streams Translator.

(** ** What a page sends, as a function *)

Definition answer_headers (API : APIResponse) : list event :=
  EvStatus (to_string (response_code API)) :: ((λ i, EvHeader i.1 i.2) <$> headers API).

(** The outcome of translating an answer and what has been sent by then. *)
Definition translated (API : APIResponse) (tran : translation) (q : queryBase) : outcome unit * list event :=
  match fromData (response API) with
  | Ok (Some data) =>
      match applied tran data (response_code API) q with
      | (Ok page, warnings) => (Ok tt, answer_headers API ++ (EvLog <$> warnings) ++ [EvTryEnd page])
      | (Raise e, warnings) => (Raise e, answer_headers API ++ (EvLog <$> warnings))
      end
  | Ok None => (Ok tt, answer_headers API ++ [EvTryEnd (response API)])
  | Raise e => (Raise e, answer_headers API)
  end.

(** The same for [writeBack]. *)
Definition written_back (API : APIResponse) : outcome unit * list event :=
  match fromData (response API) with
  | Ok (Some data) =>
      match toData data true with
      | Ok str => (Ok tt, answer_headers API ++ [EvEnd str])
      | Raise e => (Raise e, answer_headers API)
      end
  | Ok None => (Ok tt, answer_headers API ++ [EvEnd (response API)])
  | Raise e => (Raise e, answer_headers API)
  end.

Definition plus_events (w : tworld) (evs : list event) : tworld :=
  {| t_heap := t_heap w; t_events := t_events w ++ evs |}.

Lemma plus_events_app w a b : plus_events (plus_events w a) b = plus_events w (a ++ b).
Proof. unfold plus_events. simpl. by rewrite app_assoc. Qed.

Lemma emit_all {A} (f : A → event) l w :
  forEach (λ i, emitT (f i)) l w = (Ok tt, plus_events w (f <$> l)).
Proof.
  revert w. induction l as [|a l IH]; intros w.
  - unfold plus_events. simpl. unfold mret, ST_ret. rewrite app_nil_r. by destruct w.
  - simpl. rewrite bindS_eq. unfold emitT at 1, modifyS. rewrite IH. f_equal. apply (plus_events_app w [f a]).
Qed.

Lemma writeAnswerHeaders_eq API w :
  writeAnswerHeaders API w = (Ok tt, plus_events w (answer_headers API)).
Proof.
  unfold writeAnswerHeaders. rewrite bindS_eq. unfold emitT at 1, modifyS.
  rewrite (emit_all (λ i, EvHeader i.1 i.2)). f_equal. apply (plus_events_app w [_]).
Qed.

Lemma applyTranslation_eq API tran q w :
  applyTranslation API tran q w = ((translated API tran q).1, plus_events w (translated API tran q).2).
Proof.
  unfold applyTranslation, translated. rewrite bindS_eq, writeAnswerHeaders_eq, bindS_eq. unfold liftS at 1.
  destruct (fromData (response API)) as [[data|]|e]; [| |done].
  - destruct (applied tran data (response_code API) q) as [page warnings].
    rewrite bindS_eq, (emit_all EvLog), plus_events_app, bindS_eq. unfold liftS.
    destruct page as [page|e]; [|done]. unfold emitT, modifyS. f_equal.
    rewrite app_assoc. apply (plus_events_app w).
  - unfold emitT, modifyS. f_equal. apply (plus_events_app w).
Qed.

Lemma writeBack_eq API w :
  writeBack API w = ((written_back API).1, plus_events w (written_back API).2).
Proof.
  unfold writeBack, written_back. rewrite bindS_eq, writeAnswerHeaders_eq, bindS_eq. unfold liftS at 1.
  destruct (fromData (response API)) as [[data|]|e]; [| |done].
  - rewrite bindS_eq. unfold liftS. destruct (toData data true) as [str|e]; [|done].
    unfold emitT, modifyS. f_equal. apply (plus_events_app w).
  - unfold emitT, modifyS. f_equal. apply (plus_events_app w).
Qed.

Section transfers.
Context `{Curl, Libcurl}.

(** ** One request object on its way through the program

    [view s0 sn husks main s]: the heap [s] is [s0] with the request object [main]
    (its location, its handle, itself and the handle's options) and the [husks]
    it has been moved out of, [sn] having been sent. *)

Record view (s0 : heap) (sn : list request) (husks : gmap nat requestWrapper)
    (main : option (nat * nat * requestWrapper * curlHandle)) (s : heap) : Prop := {
  view_owned : owned s;
  view_sent : sent s = sn;
  view_husks : map_Forall (λ _ o, w_curl o = None) husks;
  view_disjoint : husks ##ₘ objects s0;
  view_main : match main with
              | None => handles s = handles s0 ∧ objects s = husks ∪ objects s0
              | Some (l, h, o, c) =>
                  handles s = <[h := c]> (handles s0) ∧ objects s = <[l := o]> (husks ∪ objects s0) ∧
                  handles s0 !! h = None ∧ husks !! l = None ∧ objects s0 !! l = None ∧ w_curl o = Some h
              end;
}.

Lemma view_done s0 sn s : view s0 sn ∅ None s → owned s ∧ sent s = sn ∧ handles s = handles s0 ∧ objects s = objects s0.
Proof. intros [Ho Hs _ _ [Hh Hob]]. by rewrite (left_id_L ∅ (∪)) in Hob. Qed.

Lemma destroy_main s0 sn husks l h o c s :
  view s0 sn husks (Some (l, h, o, c)) s → ∃ s', destroy l s = (Ok tt, s') ∧ view s0 sn husks None s'.
Proof.
  intros [Ho Hs Hk Hd (Hh & Hob & Hfresh & Hl1 & Hl2 & Hc)].
  assert (objects s !! l = Some o) as El by (rewrite Hob; apply lookup_insert_eq).
  exists (destroyed l o s). split; [by eapply destroy_eq|].
  split; [by eapply owned_destroyed; [|by left|]|done..|].
  unfold destroyed. simpl. rewrite Hc, Hh, Hob. simpl. split.
  - by apply delete_insert_id.
  - apply delete_insert_id. by apply lookup_union_None.
Qed.

Lemma destroy_husk s0 sn husks x p main s :
  view s0 sn husks main s → husks !! x = Some p →
  ∃ s', destroy x s = (Ok tt, s') ∧ view s0 sn (delete x husks) main s'.
Proof.
  intros [Ho Hs Hk Hd Hm] Hx. pose proof (map_Forall_lookup_1 _ _ _ _ Hk Hx) as Hp. simpl in Hp.
  assert ((husks ∪ objects s0) !! x = Some p) as Hx' by by apply lookup_union_Some_l.
  assert (objects s0 !! x = None) as Hx0 by (by eapply map_disjoint_Some_l).
  assert (objects s !! x = Some p) as Ex.
  { destruct main as [[[[l h] o] c]|]; [|by destruct Hm as [_ ->]].
    destruct Hm as (_ & -> & _ & Hl & _). rewrite lookup_insert_ne; [done|congruence]. }
  assert (delete x (husks ∪ objects s0) = delete x husks ∪ objects s0) as Edel.
  { rewrite delete_union. f_equal. by apply delete_id. }
  exists (destroyed x p s). split; [by eapply destroy_eq|].
  split; [exact (owned_destroyed None x p s Ho (or_introl eq_refl) Ex)|done|by apply map_Forall_delete|by apply map_disjoint_delete_l|].
  unfold destroyed. simpl. rewrite Hp. simpl. destruct main as [[[[l h] o] c]|].
  - destruct Hm as (Hh & Hob & ? & Hl & ? & ?). rewrite Hob, delete_insert_ne by congruence. rewrite Edel.
    split_and!; [done..| |done|done]. by rewrite lookup_delete_None; right.
  - destruct Hm as [Hh ->]. by rewrite Edel.
Qed.

(** The request object as it is built, before its transfer. *)
Definition configured (l : nat) (url cookie : text) : curlHandle :=
  {| URL := Some (c_str url); COOKIE := Some (c_str cookie); isPost := false; POSTFIELDS := None;
     WRITEDATA := Some l; HEADERDATA := Some l; WRITEFUNCTION := true; HEADERFUNCTION := true;
     last_code := 0; last_time := double_zero |}.
Definition unsent (l h : nat) (url cookie : text) : nat * nat * requestWrapper * curlHandle :=
  (l, h, {| w_response := emptyAPIResponse; w_curl := Some h |}, configured l url cookie).

Lemma alloc_eq s : ∃ l, alloc s = (Ok l, s) ∧ objects s !! l = None.
Proof.
  exists (fresh (dom (objects s))). split; [done|]. apply not_elem_of_dom, is_fresh.
Qed.

Lemma opt_delete_insert (b : bool) n (c : curlHandle) m :
  m !! n = None → opt_delete (if b then Some n else None) (opt_insert b n c m) = m.
Proof. intros Hn. destruct b; simpl; [|done]. by apply delete_insert_id. Qed.

(** A move leaves a husk behind and takes the handle along. *)
Lemma move_main s0 sn husks l h url cookie s l' :
  view s0 sn husks (Some (unsent l h url cookie)) s → objects s !! l' = None →
  ∃ s' o, moveConstruct l' l s = (Ok tt, s') ∧ w_curl o = None ∧
    view s0 sn (<[l := o]> husks) (Some (unsent l' h url cookie)) s' ∧ husks !! l' = None.
Proof.
  intros [Ho Hs Hk Hd (Hh & Hob & Hfresh & Hl1 & Hl2 & Hc)] Hl'.
  set (o := {| w_response := emptyAPIResponse; w_curl := Some h |}).
  set (o1 := {| w_response := emptyAPIResponse; w_curl := if easy_init_ok (next s) then Some (next s) else None |}).
  assert (objects s !! l = Some o) as El by (rewrite Hob; apply lookup_insert_eq).
  assert (l' ≠ l) as Hne by congruence.
  pose proof (owned_initialised l' s Ho Hl') as Ho1.
  assert (objects (initialised l' s) !! l' = Some o1) as E1 by apply lookup_insert_eq.
  assert (objects (initialised l' s) !! l = Some o) as E2 by (simpl; by rewrite lookup_insert_ne).
  rewrite Hob, lookup_insert_ne in Hl' by done. apply lookup_union_None in Hl' as [Hl1' Hl2'].
  exists (moved l' l o1 o (initialised l' s)), (set_curl None o). split_and!; [|done| |done].
  { eapply then_; [apply initialise_eq|]. by eapply moveAssign_eq. }
  pose proof (owned_fresh _ s (next s) Ho ltac:(lia)) as Hn.
  assert (handles s !! h = Some (configured l url cookie)) as Eh by (rewrite Hh; apply lookup_insert_eq).
  assert (next s ≠ h) as Hnh by congruence.
  split.
  - by eapply owned_moved; [|by right|..].
  - done.
  - by apply map_Forall_insert_2.
  - apply map_disjoint_insert_l. done.
  - unfold moved. cbn [handles objects initialised w_curl o1 o].
    rewrite opt_delete_insert by done.
    assert ((Some h ≫= λ h, opt_insert (easy_init_ok (next s)) (next s) freshHandle (handles s) !! h)
            = Some (configured l url cookie)) as ->.
    { simpl. destruct (easy_init_ok (next s)); simpl; [by rewrite lookup_insert_ne|done]. }
    split_and!; [| | done |by rewrite lookup_insert_ne|done|done].
    + rewrite (alter_as_insert _ _ _ _ Eh), Hh. by rewrite insert_insert_eq.
    + rewrite (insert_insert_ne _ l l') by done. rewrite insert_insert_eq, Hob.
      by rewrite insert_insert_eq, <- insert_union_l.
Qed.

Hypothesis handles_available : ∀ n, easy_init_ok n = true.

Lemma newRequest_view url req w :
  owned (t_heap w) →
  ∃ l h s', newRequest url req w = (Ok l, {| t_heap := s'; t_events := t_events w |}) ∧
    view (t_heap w) (sent (t_heap w)) ∅ (Some (unsent l h url (getHeader req (T "cookie")))) s'.
Proof.
  intros Ho. destruct (alloc_eq (t_heap w)) as (l & El & Hl). set (s := t_heap w) in *.
  set (h := S (next s)). set (cookie := getHeader req (T "cookie")).
  pose proof (owned_constructed l url s Ho Hl) as Ho1.
  assert (handles (constructed l url s) !! h = Some (boundHandle l url)) as Eh.
  { unfold constructed. cbn [handles]. rewrite handles_available. apply lookup_insert_eq. }
  assert (objects (constructed l url s) !! l = Some {| w_response := emptyAPIResponse; w_curl := Some h |}) as Eo.
  { unfold constructed. cbn [objects]. rewrite handles_available. apply lookup_insert_eq. }
  exists l, h, (set_handles (insert h (set_COOKIE cookie (boundHandle l url))) (constructed l url s)). split.
  - unfold newRequest, onHeap. fold s. rewrite (bindS_ok _ _ _ _ _ El).
    rewrite (bindS_ok _ _ _ _ _ (construct_eq l url s Ho)).
    unfold setCookies. erewrite (bindS_ok _ _ _ _ _); [|eapply withCurl_eq; [exact Eo|done|exact Eh]]. done.
  - pose proof (owned_fresh _ s h Ho ltac:(lia)) as Hh.
    split; [eapply owned_option; [done|exact Eo|done|exact Eh|apply keeps_set_COOKIE]|done|
            apply map_Forall_empty|apply map_disjoint_empty_l|].
    unfold constructed, set_handles. cbn [handles objects]. rewrite handles_available. simpl.
    rewrite insert_insert_eq, (left_id_L ∅ (∪)). done.
Qed.

(** ** The transfer *)

Definition request_for (isPost : bool) (url cookie body : text) : request :=
  {| r_url := c_str url; r_post := isPost; r_cookie := Some (c_str cookie); r_body := body |}.

(** The answer has header lines the way HTTP servers write them. *)
Definition well_answered (sn : list request) (rq : request) : Prop :=
  Forall header_line (header_lines (transfer sn rq)).

Lemma exchange_view s0 sn husks l h url cookie s (b : bool) body :
  view s0 sn husks (Some (unsent l h url cookie)) s → b = true ∨ body = [] →
  let req := request_for b url cookie body in
  well_answered sn req →
  ∃ s' o c, (_ ← withCurl l (set_method b (if b then Some body else None)); _ ← perform l; result l) s =
      (Ok (answered (transfer sn req) emptyAPIResponse), s') ∧
    view s0 (sn ++ [req]) husks (Some (l, h, o, c)) s'.
Proof.
  intros [Ho Hs Hk Hd (Hh & Hob & Hfresh & Hl1 & Hl2 & Hc)] Hb req Hans.
  set (fields := if b then Some body else None).
  set (o := {| w_response := emptyAPIResponse; w_curl := Some h |}) in *.
  assert (objects s !! l = Some o) as El by (rewrite Hob; apply lookup_insert_eq).
  assert (handles s !! h = Some (configured l url cookie)) as Eh by (rewrite Hh; apply lookup_insert_eq).
  assert (request_of (set_method b fields (configured l url cookie)) (c_str url) = req) as Ereq.
  { unfold req, request_for, request_of. simpl. destruct b; [done|]. by destruct Hb as [?|<-]. }
  destruct (exchange_eq s l o h (configured l url cookie) (c_str url) b fields) as [E Ho'];
    [done..|by rewrite Ereq, Hs|].
  rewrite Ereq, Hs in E.
  eexists _, _, _. split; [exact E|].
  split; [by rewrite <- Ereq|simpl; by rewrite Hs|done|done|].
  simpl. rewrite Hh, Hob, !insert_insert_eq. split_and!; [reflexivity|reflexivity|done..].
Qed.

Lemma onHeap_ok {A} (m : ST heap A) w a s :
  m (t_heap w) = (Ok a, s) → onHeap m w = (Ok a, {| t_heap := s; t_events := t_events w |}).
Proof. unfold onHeap. by intros ->. Qed.

Context (moves : nat) (req : HttpRequest).

(** What is done with an answer, as a program and as a function. *)
Context (respond : APIResponse → ST tworld unit) (responded : APIResponse → outcome unit * list event).
Hypothesis respond_eq : ∀ API w, respond API w = ((responded API).1, plus_events w (responded API).2).

(** Both forwarders, with the address they send the request to. *)
Definition callback (l : nat) (body : text) : ST tworld unit := API ← onHeap (post l body); respond API.
Definition exchanged (url : text) : ST tworld (option nat) :=
  request ← newRequest url req;
  handler ← (if bool_decide (getMethod req = T "post")
             then forwardPost moves callback req request
             else API ← onHeap (Handles.get request); _ ← respond API; mret None);
  _ ← onHeap (destroy request);
  mret handler.
Definition served (url : text) (chunks : list (text * bool)) : ST tworld unit :=
  handler ← exchanged url;
  deliver callback handler chunks.

Lemma thenT {A B} (m : ST tworld A) (f : A → ST tworld B) w a w1 r :
  m w = (Ok a, w1) → f a w1 = r → (m ≫= f) w = r.
Proof. intros E1 E2. by rewrite (bindS_ok _ _ _ _ _ E1). Qed.

(** What is sent back for an answer, and the answer to a request. *)
Notation answer_to sn rq := (answered (transfer sn rq) emptyAPIResponse).
Notation sent_back sn rq := (responded (answer_to sn rq)).

Lemma callback_view s0 sn husks l h url cookie w body :
  view s0 sn husks (Some (unsent l h url cookie)) (t_heap w) →
  let rq := request_for true url cookie body in
  well_answered sn rq →
  ∃ s' o c, callback l body w =
      ((sent_back sn rq).1, {| t_heap := s'; t_events := t_events w ++ (sent_back sn rq).2 |}) ∧
    view s0 (sn ++ [rq]) husks (Some (l, h, o, c)) s'.
Proof.
  intros Hv rq Hans. destruct (exchange_view _ _ _ _ _ _ _ _ true body Hv ltac:(by left) Hans) as (s' & o & c & E & Hv').
  exists s', o, c. split; [|done].
  eapply thenT; [by apply onHeap_ok|]. by rewrite respond_eq.
Qed.

Lemma storeHandler_view s0 sn husks l h url cookie s n :
  view s0 sn husks (Some (unsent l h url cookie)) s →
  ∃ s' l', storeHandler n l s = (Ok l', s') ∧ view s0 sn husks (Some (unsent l' h url cookie)) s'.
Proof.
  revert l s. induction n as [|n IH]; intros l s Hv; [by exists s, l|].
  destruct (alloc_eq s) as (l1 & El & Hl1).
  destruct (move_main _ _ _ _ _ _ _ _ l1 Hv Hl1) as (s1 & o & E1 & _ & Hv1 & _).
  destruct (destroy_husk _ _ _ l o _ _ Hv1) as (s2 & E2 & Hv2); [apply lookup_insert_eq|].
  assert (husks !! l = None) as Hl.
  { destruct (view_main _ _ _ _ _ Hv) as (_ & _ & _ & Hl & _). exact Hl. }
  rewrite delete_insert_id in Hv2 by done.
  destruct (IH _ _ Hv2) as (s3 & l' & E3 & Hv3). exists s3, l'. split; [|done].
  simpl. eapply then_; [exact El|]. eapply then_; [exact E1|]. eapply then_; [exact E2|]. exact E3.
Qed.

Lemma onPieces_whole (f : nat → text → ST tworld unit) l buffer ds d w :
  onPieces f l buffer (((λ d, (d, false)) <$> ds) ++ [(d, true)]) w =
  (_ ← f l (buffer ++ concat ds ++ d); mret tt) w.
Proof.
  revert buffer. induction ds as [|d' ds IH]; intros buffer; [done|].
  simpl. rewrite bindS_eq. unfold mret at 1, ST_ret. rewrite IH. by rewrite <- !app_assoc.
Qed.

(** What one request to a forwarding page does. *)
Definition forwards (w : tworld) (rq : request) (run : outcome unit * tworld) : Prop :=
  run.1 = (sent_back (sent (t_heap w)) rq).1 ∧
  t_events run.2 = t_events w ++ (sent_back (sent (t_heap w)) rq).2 ∧
  sent (t_heap run.2) = sent (t_heap w) ++ [rq] ∧
  (run.1 = Ok tt → owned (t_heap run.2) ∧ handles (t_heap run.2) = handles (t_heap w) ∧
                   objects (t_heap run.2) = objects (t_heap w)).

(** A run that ends when the translation faults, and otherwise cleans up. *)
Lemma forwards_then w w1 rq (m f : ST tworld unit) s1 husks main :
  m w1 = ((sent_back (sent (t_heap w)) rq).1,
          {| t_heap := s1; t_events := t_events w ++ (sent_back (sent (t_heap w)) rq).2 |}) →
  view (t_heap w) (sent (t_heap w) ++ [rq]) husks main s1 →
  (∀ evs, ∃ s2, f {| t_heap := s1; t_events := evs |} = (Ok tt, {| t_heap := s2; t_events := evs |}) ∧
     view (t_heap w) (sent (t_heap w) ++ [rq]) ∅ None s2) →
  forwards w rq ((_ ← m; f) w1).
Proof.
  intros Em Hv Hf. rewrite bindS_eq, Em. unfold forwards.
  destruct (sent_back (sent (t_heap w)) rq) as [[[]|e] evs] eqn:E; simpl.
  - destruct (Hf (t_events w ++ evs)) as (s2 & -> & Hv2). simpl.
    destruct (view_done _ _ _ Hv2) as (Ho & Hs & Hh & Hob). done.
  - split_and!; [done|done|by apply (view_sent _ _ _ _ _ Hv)|done].
Qed.

(** A lambda that owns the request object: it is destroyed first, then the husk. *)
Lemma forwardPost_view s0 sn l0 h url cookie w :
  view s0 sn ∅ (Some (unsent l0 h url cookie)) (t_heap w) →
  ∃ s1 l1 o, onHeap (l ← alloc; _ ← moveConstruct l l0; mret l) w =
      (Ok l1, {| t_heap := s1; t_events := t_events w |}) ∧
    view s0 sn {[l0 := o]} (Some (unsent l1 h url cookie)) s1.
Proof.
  intros Hv. destruct (alloc_eq (t_heap w)) as (l1 & El & Hl1).
  destruct (move_main _ _ _ _ _ _ _ _ l1 Hv Hl1) as (s1 & o & E1 & _ & Hv1 & _).
  exists s1, l1, o. split; [|by rewrite insert_empty in Hv1].
  apply onHeap_ok. eapply then_; [exact El|]. by eapply then_.
Qed.

Lemma destroy_husk_last s0 sn l0 o main w :
  view s0 sn {[l0 := o]} main (t_heap w) →
  ∃ s1, onHeap (destroy l0) w = (Ok tt, {| t_heap := s1; t_events := t_events w |}) ∧ view s0 sn ∅ main s1.
Proof.
  intros Hv. destruct (destroy_husk _ _ _ l0 o _ _ Hv) as (s1 & E & Hv1); [apply lookup_singleton_eq|].
  exists s1. split; [by apply onHeap_ok|]. by rewrite delete_singleton_eq in Hv1.
Qed.

Lemma destroy_main_last s0 sn husks l h o c w :
  view s0 sn husks (Some (l, h, o, c)) (t_heap w) →
  ∃ s1, onHeap (destroy l) w = (Ok tt, {| t_heap := s1; t_events := t_events w |}) ∧ view s0 sn husks None s1.
Proof.
  intros Hv. destruct (destroy_main _ _ _ _ _ _ _ _ Hv) as (s1 & E & Hv1).
  exists s1. split; [by apply onHeap_ok|done].
Qed.

Context (url : text).
Notation cookie := (getHeader req (T "cookie")).

Lemma bindT_assoc {A B C} (m : ST tworld A) (f : A → ST tworld B) (g : B → ST tworld C) w :
  ((m ≫= f) ≫= g) w = (m ≫= λ a, f a ≫= g) w.
Proof. rewrite !bindS_eq. by destruct (m w) as [[a|e] w1]. Qed.

Ltac normalise := cbv beta iota; repeat (progress rewrite ?bindT_assoc, ?bindS_eq; cbv beta iota).

(** A program that goes on after every result the same way. *)
Lemma bindT_ext {A B} (m : ST tworld A) (f g : A → ST tworld B) w :
  (∀ a w1, f a w1 = g a w1) → (m ≫= f) w = (m ≫= g) w.
Proof. intros E. rewrite !bindS_eq. destruct (m w) as [[a|e] w1]; [apply E|done]. Qed.

(** The lambda takes the request object over. *)
Definition taken (l0 : nat) : ST tworld nat := onHeap (l ← alloc; _ ← moveConstruct l l0; mret l).
(** The handler [onData] keeps. *)
Definition stored (l1 : nat) : ST tworld nat := onHeap (l' ← alloc; _ ← moveConstruct l' l1; storeHandler moves l').

(** What is left of the two forwarders for each kind of request. *)
Lemma served_get chunks w :
  getMethod req ≠ T "post" →
  served url chunks w =
    (l ← newRequest url req; API ← onHeap (Handles.get l); _ ← respond API; onHeap (destroy l)) w.
Proof.
  intros Hm. unfold served, exchanged. rewrite bool_decide_false, bindT_assoc by done.
  apply bindT_ext. intros l w1. rewrite !bindT_assoc. apply bindT_ext. intros API w2.
  rewrite !bindT_assoc. apply bindT_ext. intros [] w3. normalise. unfold mret, ST_ret. normalise.
  by destruct (onHeap (destroy l) w3) as [[[]|e] w4].
Qed.

Lemma served_post_empty chunks w :
  getMethod req = T "post" → contentLength req = 0%Z →
  served url chunks w =
    (l0 ← newRequest url req; l1 ← taken l0; _ ← callback l1 []; _ ← onHeap (destroy l1); onHeap (destroy l0)) w.
Proof.
  intros Hm Hlen. unfold served, exchanged, forwardPost, extractPostBody.
  rewrite bool_decide_true, Hlen, bindT_assoc by done. apply bindT_ext. intros l0 w1.
  rewrite !bindT_assoc. apply bindT_ext. intros l1 w2. rewrite Z.eqb_refl, !bindT_assoc. apply bindT_ext. intros [] w3.
  unfold mret, ST_ret. normalise.
  destruct (onHeap (destroy l1) w3) as [[[]|] w4]; [|done]. normalise.
  by destruct (onHeap (destroy l0) w4) as [[[]|] w5].
Qed.

Lemma served_post_body chunks w :
  getMethod req = T "post" → contentLength req ≠ 0%Z →
  served url chunks w =
    (l0 ← newRequest url req; l1 ← taken l0; l2 ← stored l1; _ ← onHeap (destroy l1); _ ← onHeap (destroy l0);
     _ ← onPieces callback l2 [] chunks; onHeap (destroy l2)) w.
Proof.
  intros Hm Hlen. unfold served, exchanged, forwardPost, extractPostBody.
  rewrite bool_decide_true, bindT_assoc by done. apply bindT_ext. intros l0 w1.
  rewrite !bindT_assoc. apply bindT_ext. intros l1 w2. destruct (Z.eqb_spec (contentLength req) 0) as [|_]; [done|].
  rewrite !bindT_assoc. apply bindT_ext. intros l2 w3. unfold mret, ST_ret. normalise.
  destruct (onHeap (destroy l1) w3) as [[[]|] w4]; [|done]. normalise.
  by destruct (onHeap (destroy l0) w4) as [[[]|] w5].
Qed.

(** A GET: the transfer, the page, the end of the request object. *)
Lemma serve_get w chunks :
  owned (t_heap w) → well_answered (sent (t_heap w)) (request_for false url cookie []) →
  getMethod req ≠ T "post" →
  forwards w (request_for false url cookie []) (served url chunks w).
Proof.
  intros Ho Hans Hm. destruct (newRequest_view url req w Ho) as (l & h & s1 & E1 & Hv1).
  rewrite served_get, (bindS_ok _ _ _ _ _ E1) by done.
  destruct (exchange_view _ _ _ _ _ _ _ _ false [] Hv1 ltac:(by right) Hans) as (s2 & o & c & E2 & Hv2).
  rewrite (bindS_ok _ _ _ _ _ (onHeap_ok (Handles.get l) {| t_heap := s1; t_events := t_events w |} _ _ E2)).
  eapply forwards_then; [by rewrite respond_eq|exact Hv2|].
  intros evs. destruct (destroy_main_last _ _ _ _ _ _ _ {| t_heap := s2; t_events := evs |} Hv2) as (s3 & E3 & Hv3).
  by exists s3.
Qed.

(** A POST without a body: the lambda is called at once. *)
Lemma serve_post_empty w chunks :
  owned (t_heap w) → well_answered (sent (t_heap w)) (request_for true url cookie []) →
  getMethod req = T "post" → contentLength req = 0%Z →
  forwards w (request_for true url cookie []) (served url chunks w).
Proof.
  intros Ho Hans Hm Hlen. destruct (newRequest_view url req w Ho) as (l0 & h & s1 & E1 & Hv1).
  rewrite served_post_empty, (bindS_ok _ _ _ _ _ E1) by done.
  destruct (forwardPost_view _ _ _ _ _ _ {| t_heap := s1; t_events := t_events w |} Hv1) as (s2 & l1 & o & E2 & Hv2).
  rewrite (bindS_ok _ _ _ _ _ E2).
  destruct (callback_view _ _ _ _ _ _ _ {| t_heap := s2; t_events := t_events w |} [] Hv2 Hans) as (s3 & o3 & c3 & E3 & Hv3).
  eapply forwards_then; [exact E3|exact Hv3|].
  intros evs. destruct (destroy_main_last _ _ _ _ _ _ _ {| t_heap := s3; t_events := evs |} Hv3) as (s4 & E4 & Hv4).
  destruct (destroy_husk_last _ _ _ _ _ {| t_heap := s4; t_events := evs |} Hv4) as (s5 & E5 & Hv5).
  exists s5. split; [|done]. eapply thenT; [exact E4|exact E5].
Qed.

(** The handler is stored, and the lambda it was moved from ends. *)
Lemma stored_view s0 sn husks l h u c w :
  view s0 sn husks (Some (unsent l h u c)) (t_heap w) →
  ∃ s2 l2, (l2 ← stored l; _ ← onHeap (destroy l); mret l2) w = (Ok l2, {| t_heap := s2; t_events := t_events w |}) ∧
    view s0 sn husks (Some (unsent l2 h u c)) s2.
Proof.
  intros Hv. destruct (alloc_eq (t_heap w)) as (l' & El & Hl').
  destruct (move_main _ _ _ _ _ _ _ _ l' Hv Hl') as (s1 & o & E1 & _ & Hv1 & _).
  destruct (storeHandler_view _ _ _ _ _ _ _ _ moves Hv1) as (s2 & l2 & E2 & Hv2).
  destruct (destroy_husk _ _ _ l o _ _ Hv2) as (s3 & E3 & Hv3); [apply lookup_insert_eq|].
  rewrite delete_insert_id in Hv3 by (destruct (view_main _ _ _ _ _ Hv) as (_ & _ & _ & Hl & _); exact Hl).
  exists s3, l2. split; [|done].
  assert (stored l w = (Ok l2, {| t_heap := s2; t_events := t_events w |})) as Es
    by (apply onHeap_ok; eapply then_; [exact El|]; eapply then_; [exact E1|exact E2]).
  rewrite (bindS_ok _ _ _ _ _ Es). by rewrite (bindS_ok _ _ _ _ _ (onHeap_ok (destroy l) {| t_heap := s2; t_events := t_events w |} _ _ E3)).
Qed.

(** A POST whose body arrives in pieces: the handler outlives the call. *)
Lemma serve_post_body w ds d :
  owned (t_heap w) → well_answered (sent (t_heap w)) (request_for true url cookie (concat ds ++ d)) →
  getMethod req = T "post" → contentLength req ≠ 0%Z →
  forwards w (request_for true url cookie (concat ds ++ d))
    (served url (((λ d, (d, false)) <$> ds) ++ [(d, true)]) w).
Proof.
  intros Ho Hans Hm Hlen. destruct (newRequest_view url req w Ho) as (l0 & h & s1 & E1 & Hv1).
  rewrite served_post_body, (bindS_ok _ _ _ _ _ E1) by done.
  destruct (forwardPost_view _ _ _ _ _ _ {| t_heap := s1; t_events := t_events w |} Hv1) as (s2 & l1 & o & E2 & Hv2).
  rewrite (bindS_ok _ _ _ _ _ E2).
  destruct (stored_view _ _ _ _ _ _ _ {| t_heap := s2; t_events := t_events w |} Hv2) as (s3 & l2 & E3 & Hv3).
  destruct (destroy_husk_last _ _ _ _ _ {| t_heap := s3; t_events := t_events w |} Hv3) as (s4 & E4 & Hv4).
  match goal with |- forwards _ _ (?m ?w1) => assert (m w1 =
    ((l2 ← (l2 ← stored l1; _ ← onHeap (destroy l1); mret l2);
      _ ← onHeap (destroy l0); _ ← onPieces callback l2 [] (((λ d, (d, false)) <$> ds) ++ [(d, true)]);
      onHeap (destroy l2)) w1)) as -> end.
  { rewrite !bindT_assoc. apply bindT_ext. intros l w1. rewrite !bindT_assoc. by apply bindT_ext. }
  rewrite (bindS_ok _ _ _ _ _ E3), (bindS_ok _ _ _ _ _ E4).
  destruct (callback_view _ _ _ _ _ _ _ {| t_heap := s4; t_events := t_events w |} (concat ds ++ d) Hv4 Hans)
    as (s5 & o5 & c5 & E5 & Hv5).
  eapply (forwards_then _ _ _ _ _ s5); [|exact Hv5|].
  - rewrite onPieces_whole, bindS_eq. cbn [app t_events] in *. rewrite E5. by destruct (sent_back _ _).1 as [[]|].
  - intros evs. destruct (destroy_main_last _ _ _ _ _ _ _ {| t_heap := s5; t_events := evs |} Hv5) as (s6 & E6 & Hv6).
    by exists s6.
Qed.
End transfers.

(** The body a request arrives with. *)
Definition body_of (req : HttpRequest) (chunks : list (text * bool)) : text :=
  if bool_decide (getMethod req = T "post") && negb (contentLength req =? 0)%Z then concat chunks.*1 else [].

(** The request sent to [url] for a request of a browser. *)
Definition passed_on (url : text) (req : HttpRequest) (chunks : list (text * bool)) : request :=
  request_for (bool_decide (getMethod req = T "post")) url (getHeader req (T "cookie")) (body_of req chunks).

Lemma concat_pieces ds (d : text) : concat (((λ d, (d, false)) <$> ds) ++ [(d, true)]).*1 = concat ds ++ d.
Proof.
  rewrite fmap_app, <- list_fmap_compose, concat_app. simpl. rewrite app_nil_r.
  by replace (fst ∘ (λ d0 : text, (d0, false)) <$> ds) with ds by by rewrite list_fmap_id.
Qed.

Section serving.
Context `{Curl, Libcurl}.

Lemma served_run moves req respond responded url chunks w :
  (∀ API w, respond API w = ((responded API).1, plus_events w (responded API).2)) →
  (∀ n, easy_init_ok n = true) →
  well_answered (sent (t_heap w)) (passed_on url req chunks) →
  owned (t_heap w) → (getMethod req = T "post" → body_pieces req chunks) →
  forwards responded w (passed_on url req chunks) (served moves req respond url chunks w).
Proof.
  intros Hr Hh Hl Ho Hb. unfold passed_on, body_of in *.
  destruct (bool_decide_reflect (getMethod req = T "post")) as [Em|Em]; cbn [andb] in *.
  - destruct (Z.eqb_spec (contentLength req) 0) as [Ez|Ez]; cbn [negb] in *.
    + by apply serve_post_empty.
    + destruct (Hb Em) as [?|(ds & d & ->)]; [done|].
      rewrite concat_pieces in *. by apply serve_post_body.
  - by apply serve_get.
Qed.

(** What a page sends back for an answer. *)
Definition page_answer (tran : translation) (req : HttpRequest) (API : APIResponse) : outcome unit * list event :=
  translated API tran (mkQuery (getQuery req)).

(** The request a page sends to the back-end server. *)
Definition forwarded (destination : text) (req : HttpRequest) (chunks : list (text * bool)) : request :=
  passed_on (T "localhost:9001" ++ destination ++ (if bool_decide (getQuery req = []) then [] else T "?" ++ getQuery req))
    req chunks.

Lemma servePage_run moves tran destination req chunks w :
  (∀ n, easy_init_ok n = true) →
  well_answered (sent (t_heap w)) (forwarded destination req chunks) →
  owned (t_heap w) → (getMethod req = T "post" → body_pieces req chunks) →
  forwards (page_answer tran req) w (forwarded destination req chunks)
    (servePage moves (ForwardingPage tran destination) req chunks w).
Proof.
  exact (served_run moves req (λ API, applyTranslation API tran (mkQuery (getQuery req))) (page_answer tran req)
    (backendURL destination req) chunks w (λ API w, applyTranslation_eq API tran _ w)).
Qed.

(** C6: a request to a forwarding page sends the back-end server exactly one
    request: the same kind of request, to the page's destination with the same
    query, the same cookie and the whole body, however many pieces it came in and
    however often uWebSockets moved its handler.  The browser gets the status and
    the cookies of the answer and the page applied to its data, and afterwards
    every request object and every curl handle is gone again. *)
Theorem servePage_forwards moves tran destination req chunks w :
  (∀ n, easy_init_ok n = true) →
  well_answered (sent (t_heap w)) (forwarded destination req chunks) →
  owned (t_heap w) → (getMethod req = T "post" → body_pieces req chunks) →
  forwards (page_answer tran req) w (forwarded destination req chunks)
    (servePage moves (ForwardingPage tran destination) req chunks w).
Proof. apply servePage_run. Qed.

(** [forward] (Forwarding.h) sends the browser's own path, with the query glued to
    it, and answers with the data printed again in the unformatted style, or with
    the body as it came; it cleans up the same way. *)
Theorem serveForward_forwards moves req chunks w :
  let rq := passed_on (T "localhost:9001" ++ getUrl req ++ getQuery req) req chunks in
  (∀ n, easy_init_ok n = true) →
  well_answered (sent (t_heap w)) rq →
  owned (t_heap w) → (getMethod req = T "post" → body_pieces req chunks) →
  forwards written_back w rq (serveForward moves req chunks w).
Proof.
  exact (served_run moves req writeBack written_back (T "localhost:9001" ++ getUrl req ++ getQuery req) chunks w writeBack_eq).
Qed.
End serving.
