(* ===== verification/NoHandle.v ===== *)
(** The translator when libcurl has no handle to give: nothing looks at
    [curlwrapper::valid] outside [requestWrapper::bind], so a request object
    without a handle goes the same way as any other. *)

From S2P Require Import Prelude Query Response Database Double Http Net Effects Htmt.
From S2P Require Import Handles HandleFacts Streams Translator TranslatorFacts.

Section hollow.
Context `{Curl, Libcurl}.
Hypothesis none_available : ∀ n, easy_init_ok n = false.

Definition husk : requestWrapper := {| w_response := emptyAPIResponse; w_curl := None |}.

(** [s] is [s0] with husks at the locations [L]. *)
Record hollow (s0 : heap) (L : gset nat) (s : heap) : Prop := {
  hollow_handles : handles s = handles s0;
  hollow_sent : sent s = sent s0;
  hollow_in l : l ∈ L → objects s !! l = Some husk ∧ objects s0 !! l = None;
  hollow_out l : l ∉ L → objects s !! l = objects s0 !! l;
}.

Lemma hollow_start s : hollow s ∅ s.
Proof. split; [done|done|set_solver|done]. Qed.

Lemma hollow_end s0 s : hollow s0 ∅ s → handles s = handles s0 ∧ objects s = objects s0 ∧ sent s = sent s0.
Proof. intros [Hh Hs _ Ho]. split_and!; [done|apply map_eq; intros l; apply Ho; set_solver|done]. Qed.

Lemma hollow_alloc s0 L s : hollow s0 L s → ∃ l, alloc s = (Ok l, s) ∧ l ∉ L ∧ objects s0 !! l = None.
Proof.
  intros Hv. exists (fresh (dom (objects s))). split; [done|].
  assert (objects s !! fresh (dom (objects s)) = None) as E by apply not_elem_of_dom, is_fresh.
  assert (fresh (dom (objects s)) ∉ L) as Hl by (intros Hin; destruct (hollow_in _ _ _ Hv _ Hin); congruence).
  split; [done|]. by rewrite <- (hollow_out _ _ _ Hv _ Hl).
Qed.

Lemma hollow_insert s0 L s l n :
  hollow s0 L s → objects s0 !! l = None →
  hollow s0 ({[l]} ∪ L) {| handles := handles s; objects := <[l := husk]> (objects s); next := n; sent := sent s |}.
Proof.
  intros [Hh Hs Hin Hout] Hl. split; [done|done| |]; intros l' Hl'; cbn [objects].
  - destruct (decide (l' = l)) as [->|]; [by rewrite lookup_insert_eq|]. rewrite lookup_insert_ne by done. apply Hin. set_solver.
  - rewrite lookup_insert_ne by set_solver. apply Hout. set_solver.
Qed.

Lemma hollow_initialise s0 L s l :
  hollow s0 L s → objects s0 !! l = None → ∃ s', initialise l s = (Ok tt, s') ∧ hollow s0 ({[l]} ∪ L) s'.
Proof.
  intros Hv Hl. eexists. split.
  { unfold initialise. rewrite bindS_eq. unfold curl_easy_init. rewrite none_available. reflexivity. }
  by apply (hollow_insert _ _ _ _ (S (next s)) Hv).
Qed.

Lemma hollow_object s0 L s l : hollow s0 L s → l ∈ L → object_at l s = (Ok husk, s).
Proof. intros Hv Hin. apply object_at_ok. by apply (hollow_in _ _ _ Hv). Qed.

(** Setting the null pointer of a husk to null changes nothing. *)
Lemma hollow_set_curl s0 L s l : hollow s0 L s → l ∈ L → set_object l (set_curl None) s = (Ok tt, s).
Proof.
  intros Hv Hin. unfold set_object. rewrite (bindS_ok _ _ _ _ _ (hollow_object _ _ _ _ Hv Hin)).
  unfold modifyS, set_objects. f_equal. destruct s. f_equal. apply insert_id.
  by apply (hollow_in _ _ _ Hv).
Qed.

Lemma hollow_construct s0 L s l url :
  hollow s0 L s → objects s0 !! l = None → ∃ s', construct l url s = (Ok tt, s') ∧ hollow s0 ({[l]} ∪ L) s'.
Proof.
  intros Hv Hl. destruct (hollow_initialise _ _ _ _ Hv Hl) as (s1 & E1 & Hv1).
  set (s2 := {| handles := handles s1; objects := objects s1; next := S (next s1); sent := sent s1 |}).
  assert (hollow s0 ({[l]} ∪ L) s2) as Hv2 by (destruct Hv1; by split).
  exists s2. split; [|done]. unfold construct. rewrite (bindS_ok _ _ _ _ _ E1).
  assert (bind l url s1 = (Ok None, s2)) as E2.
  { unfold bind. rewrite bindS_eq. unfold curl_easy_init. by rewrite none_available. }
  eapply then_; [exact E2|]. eapply then_; [apply (hollow_object _ _ _ l Hv2); set_solver|].
  eapply then_; [reflexivity|]. eapply then_; [apply (hollow_set_curl _ _ _ l Hv2); set_solver|]. reflexivity.
Qed.

Lemma hollow_move s0 L s l l' :
  hollow s0 L s → l ∈ L → l' ∉ L → objects s0 !! l' = None →
  ∃ s', moveConstruct l' l s = (Ok tt, s') ∧ hollow s0 ({[l']} ∪ L) s'.
Proof.
  intros Hv Hin Hnin Hl. destruct (hollow_initialise _ _ _ _ Hv Hl) as (s1 & E1 & Hv1).
  exists s1. split; [|done]. unfold moveConstruct. rewrite (bindS_ok _ _ _ _ _ E1). unfold moveAssign.
  eapply then_; [apply (hollow_object _ _ _ l' Hv1); set_solver|]. rewrite bool_decide_false by set_solver.
  eapply then_; [apply (hollow_object _ _ _ l Hv1); set_solver|]. eapply then_; [reflexivity|].
  eapply then_; [apply (hollow_set_curl _ _ _ l' Hv1); set_solver|].
  eapply then_; [apply (hollow_set_curl _ _ _ l Hv1); set_solver|]. reflexivity.
Qed.

Lemma hollow_destroy s0 L s l :
  hollow s0 L s → l ∈ L → ∃ s', destroy l s = (Ok tt, s') ∧ hollow s0 (L ∖ {[l]}) s'.
Proof.
  intros Hv Hin. eexists. split.
  { unfold destroy. rewrite (bindS_ok _ _ _ _ _ (hollow_object _ _ _ l Hv Hin)). reflexivity. }
  destruct Hv as [Hh Hs Hi Ho]. split; [done|done| |]; intros l' Hl'; cbn [objects set_objects].
  - rewrite lookup_delete_ne by set_solver. apply Hi. set_solver.
  - destruct (decide (l' = l)) as [->|]; [rewrite lookup_delete_eq; symmetry; by apply Hi|].
    rewrite lookup_delete_ne by done. apply Ho. set_solver.
Qed.

(** No transfer: the answer is the one the object was built with. *)
Lemma hollow_exchange s0 L s l f :
  hollow s0 L s → l ∈ L → (_ ← withCurl l f; _ ← perform l; result l) s = (Ok emptyAPIResponse, s).
Proof.
  intros Hv Hin. pose proof (hollow_object _ _ _ l Hv Hin) as E.
  assert (withCurl l f s = (Ok tt, s)) as E1 by by (eapply then_; [exact E|]).
  assert (perform l s = (Ok tt, s)) as E2 by by (eapply then_; [exact E|]).
  eapply then_; [exact E1|]. eapply then_; [exact E2|]. by eapply then_; [exact E|].
Qed.

Lemma hollow_store s0 L s l n :
  hollow s0 L s → l ∈ L →
  ∃ s' l', storeHandler n l s = (Ok l', s') ∧ l' ∉ L ∖ {[l]} ∧ hollow s0 ({[l']} ∪ L ∖ {[l]}) s'.
Proof.
  revert L s l. induction n as [|n IH]; intros L s l Hv Hin.
  { exists s, l. split_and!; [done|set_solver|].
    replace ({[l]} ∪ L ∖ {[l]}) with L; [done|]. rewrite <- union_difference_L; [done|set_solver]. }
  destruct (hollow_alloc _ _ _ Hv) as (l1 & El & Hnin & Hl1).
  destruct (hollow_move _ _ _ l l1 Hv Hin Hnin Hl1) as (s1 & E1 & Hv1).
  destruct (hollow_destroy _ _ _ l Hv1 ltac:(set_solver)) as (s2 & E2 & Hv2).
  destruct (IH _ _ l1 Hv2 ltac:(set_solver)) as (s3 & l' & E3 & Hl' & Hv3).
  replace ((({[l1]} ∪ L) ∖ {[l]}) ∖ {[l1]}) with (L ∖ {[l]}) in Hl', Hv3 by set_solver.
  exists s3, l'. split_and!; [|done|done]. simpl.
  eapply then_; [exact El|]. eapply then_; [exact E1|]. by eapply then_.
Qed.

(** ** Programs on the translator's state *)

Notation at_heap s w := {| t_heap := s; t_events := t_events w |}.

Lemma hollow_newRequest url req w :
  ∃ s l, newRequest url req w = (Ok l, at_heap s w) ∧ hollow (t_heap w) {[l]} s.
Proof.
  destruct (hollow_alloc _ _ _ (hollow_start (t_heap w))) as (l & El & _ & Hl).
  destruct (hollow_construct _ _ _ l url (hollow_start _) Hl) as (s & E & Hv). rewrite (right_id_L ∅ (∪)) in Hv.
  exists s, l. split; [|done]. apply onHeap_ok. eapply then_; [exact El|]. eapply then_; [exact E|].
  eapply then_; [|done]. eapply then_; [apply (hollow_object _ _ _ l Hv); set_solver|done].
Qed.

Lemma hollow_taken s0 L l w :
  hollow s0 L (t_heap w) → l ∈ L →
  ∃ s l', taken l w = (Ok l', at_heap s w) ∧ l' ∉ L ∧ hollow s0 ({[l']} ∪ L) s.
Proof.
  intros Hv Hin. destruct (hollow_alloc _ _ _ Hv) as (l' & El & Hnin & Hl).
  destruct (hollow_move _ _ _ l l' Hv Hin Hnin Hl) as (s & E & Hv'). exists s, l'. split_and!; [|done|done].
  apply onHeap_ok. eapply then_; [exact El|]. by eapply then_.
Qed.

Lemma hollow_stored moves s0 L l w :
  hollow s0 L (t_heap w) → l ∈ L →
  ∃ s l', stored moves l w = (Ok l', at_heap s w) ∧ l' ∉ L ∧ hollow s0 ({[l']} ∪ L) s.
Proof.
  intros Hv Hin. destruct (hollow_alloc _ _ _ Hv) as (l1 & El & Hnin & Hl).
  destruct (hollow_move _ _ _ l l1 Hv Hin Hnin Hl) as (s1 & E1 & Hv1).
  destruct (hollow_store _ _ _ l1 moves Hv1 ltac:(set_solver)) as (s2 & l' & E2 & Hl' & Hv2).
  replace (({[l1]} ∪ L) ∖ {[l1]}) with L in Hl', Hv2 by set_solver.
  exists s2, l'. split_and!; [|done|done]. apply onHeap_ok. eapply then_; [exact El|]. by eapply then_.
Qed.

Lemma hollow_ends s0 L l w :
  hollow s0 L (t_heap w) → l ∈ L → ∃ s, onHeap (destroy l) w = (Ok tt, at_heap s w) ∧ hollow s0 (L ∖ {[l]}) s.
Proof.
  intros Hv Hin. destruct (hollow_destroy _ _ _ l Hv Hin) as (s & E & Hv'). exists s. split; [by apply onHeap_ok|done].
Qed.

Context (moves : nat) (req : HttpRequest).
Context (respond : APIResponse → ST tworld unit) (responded : APIResponse → outcome unit * list event).
Hypothesis respond_eq : ∀ API w, respond API w = ((responded API).1, plus_events w (responded API).2).
Notation nothing := (responded emptyAPIResponse).

Lemma hollow_callback s0 L l body w :
  hollow s0 L (t_heap w) → l ∈ L → callback respond l body w = (nothing.1, plus_events w nothing.2).
Proof.
  intros Hv Hin. unfold callback. pose proof (hollow_exchange _ _ _ l (set_method true (Some body)) Hv Hin) as E.
  rewrite (bindS_ok _ _ _ _ _ (onHeap_ok (post l body) w _ _ E)). destruct w. apply respond_eq.
Qed.

(** The page is the one for no data; nothing is sent and nothing is left behind. *)
Definition empty_handed (w : tworld) (run : outcome unit * tworld) : Prop :=
  run.1 = nothing.1 ∧ t_events run.2 = t_events w ++ nothing.2 ∧ sent (t_heap run.2) = sent (t_heap w) ∧
  (run.1 = Ok tt → handles (t_heap run.2) = handles (t_heap w) ∧ objects (t_heap run.2) = objects (t_heap w)).

Lemma empty_handed_then w w1 L (m f : ST tworld unit) :
  m w1 = (nothing.1, plus_events w1 nothing.2) → t_events w1 = t_events w → hollow (t_heap w) L (t_heap w1) →
  (∀ evs, ∃ s2, f {| t_heap := t_heap w1; t_events := evs |} = (Ok tt, {| t_heap := s2; t_events := evs |}) ∧
     hollow (t_heap w) ∅ s2) →
  empty_handed w ((_ ← m; f) w1).
Proof.
  intros Em Hw Hv Hf. rewrite bindS_eq, Em. unfold empty_handed, plus_events. rewrite Hw.
  destruct nothing as [[[]|e] evs]; cbn [fst snd].
  - destruct (Hf (t_events w ++ evs)) as (s2 & -> & Hv2). destruct (hollow_end _ _ Hv2) as (? & ? & ?). done.
  - split_and!; [done|done|apply (hollow_sent _ _ _ Hv)|done].
Qed.

Lemma serve_empty_handed url chunks w :
  (getMethod req = T "post" → body_pieces req chunks) → empty_handed w (served moves req respond url chunks w).
Proof.
  intros Hb. destruct (hollow_newRequest url req w) as (s1 & l0 & E1 & Hv1).
  destruct (decide (getMethod req = T "post")) as [Hm|Hm].
  2: { rewrite served_get, (bindS_ok _ _ _ _ _ E1) by done.
       pose proof (hollow_exchange _ _ _ l0 (set_method false None) Hv1 ltac:(set_solver)) as E.
       rewrite (bindS_ok _ _ _ _ _ (onHeap_ok (Handles.get l0) (at_heap s1 w) _ _ E)).
       eapply empty_handed_then; [apply respond_eq|done|exact Hv1|]. intros evs.
       destruct (hollow_ends _ _ l0 {| t_heap := s1; t_events := evs |} Hv1 ltac:(set_solver)) as (s2 & E2 & Hv2).
       exists s2. split; [done|]. by rewrite difference_diag_L in Hv2. }
  destruct (hollow_taken _ _ l0 (at_heap s1 w) Hv1 ltac:(set_solver)) as (s2 & l1 & E2 & Hl1 & Hv2).
  destruct (decide (contentLength req = 0%Z)) as [Hz|Hz].
  - rewrite served_post_empty, (bindS_ok _ _ _ _ _ E1), (bindS_ok _ _ _ _ _ E2) by done.
    eapply empty_handed_then; [by eapply hollow_callback; [exact Hv2|set_solver]|done|exact Hv2|]. intros evs.
    destruct (hollow_ends _ _ l1 {| t_heap := s2; t_events := evs |} Hv2 ltac:(set_solver)) as (s3 & E3 & Hv3).
    destruct (hollow_ends _ _ l0 {| t_heap := s3; t_events := evs |} Hv3 ltac:(set_solver)) as (s4 & E4 & Hv4).
    exists s4. split; [eapply thenT; [exact E3|exact E4]|].
    by replace ((({[l1]} ∪ {[l0]}) ∖ {[l1]}) ∖ {[l0]}) with (∅ : gset nat) in Hv4 by set_solver.
  - destruct (Hb Hm) as [?|(ds & d & ->)]; [done|].
    rewrite served_post_body, (bindS_ok _ _ _ _ _ E1), (bindS_ok _ _ _ _ _ E2) by done.
    destruct (hollow_stored moves _ _ l1 (at_heap s2 w) Hv2 ltac:(set_solver)) as (s3 & l2 & E3 & Hl2 & Hv3).
    destruct (hollow_ends _ _ l1 (at_heap s3 w) Hv3 ltac:(set_solver)) as (s4 & E4 & Hv4).
    destruct (hollow_ends _ _ l0 (at_heap s4 w) Hv4 ltac:(set_solver)) as (s5 & E5 & Hv5).
    rewrite (bindS_ok _ _ _ _ _ E3), (bindS_ok _ _ _ _ _ E4), (bindS_ok _ _ _ _ _ E5).
    replace ((({[l2]} ∪ ({[l1]} ∪ {[l0]})) ∖ {[l1]}) ∖ {[l0]}) with ({[l2]} : gset nat) in Hv5 by set_solver.
    eapply (empty_handed_then _ _ {[l2]}); [|done|exact Hv5|].
    + rewrite onPieces_whole, bindS_eq.
      rewrite (hollow_callback (t_heap w) {[l2]} l2 _ (at_heap s5 w) Hv5 ltac:(set_solver)). by destruct nothing.1 as [[]|].
    + intros evs. destruct (hollow_ends _ _ l2 {| t_heap := s5; t_events := evs |} Hv5 ltac:(set_solver)) as (s6 & E6 & Hv6).
      exists s6. split; [done|]. by rewrite difference_diag_L in Hv6.
Qed.
End hollow.

(** C31: when libcurl has no handle to give, a request to a forwarding page, of either
    kind and whatever its body, sends the back-end server nothing and is answered
    with what the template makes of no data, under the status line "0", which is
    no HTTP status.  No object is left behind. *)
Theorem servePage_unavailable `{Curl, Libcurl} moves tran destination req chunks w :
  (∀ n, easy_init_ok n = false) → (getMethod req = T "post" → body_pieces req chunks) →
  let '(page, warnings) := applied tran emptyWrapper 0 (mkQuery (getQuery req)) in
  let '(o, w') := servePage moves (ForwardingPage tran destination) req chunks w in
  o = (_ ← page; Ok tt) ∧ sent (t_heap w') = sent (t_heap w) ∧
  t_events w' = t_events w ++ EvStatus (T "0") :: (EvLog <$> warnings) ++
    match page with Ok shown => [EvTryEnd shown] | Raise _ => [] end ∧
  (o = Ok tt → handles (t_heap w') = handles (t_heap w) ∧ objects (t_heap w') = objects (t_heap w)).
Proof.
  intros Hh Hb.
  pose proof (serve_empty_handed Hh moves req (λ API, applyTranslation API tran (mkQuery (getQuery req)))
    (page_answer tran req) (λ API w, applyTranslation_eq API tran _ w) (backendURL destination req) chunks w Hb) as He.
  change (served moves req _ _ chunks w) with (servePage moves (ForwardingPage tran destination) req chunks w) in He.
  unfold empty_handed, page_answer, translated in He. change (fromData (response emptyAPIResponse)) with (Ok (Some emptyWrapper)) in He.
  cbn [response_code emptyAPIResponse] in He.
  destruct (applied tran emptyWrapper 0 _) as [[page|e] warnings]; destruct (servePage _ _ _ _ w) as [o w'];
    cbn [fst snd] in He; destruct He as (-> & Hev & Hs & Hc); split_and!; try done.
  by rewrite Hev, app_nil_r.
Qed.
