(* ===== verification/LinkFacts.v ===== *)
(** The link file of the translator: what its lines mean. *)

From S2P Require Import Prelude CharConv Query Response Effects Htmt HtmtTotal Streams Translator.

(** ** Links as they are written *)

Inductive link :=
  | StaticLink (isPost : bool) (web file : text)
  | ForwardLink (isPost : bool) (web file : text) (target : option text).

(** The address has at least one character; only the first may be a colon. *)
Definition web_ok (web : text) : Prop := web ≠ [] ∧ ":"%char ∉ tail web.
Definition link_ok (l : link) : Prop :=
  match l with
  | StaticLink _ web _ => web_ok web
  | ForwardLink _ web file _ => web_ok web ∧ ":"%char ∉ file
  end.

Definition letter (isPost : bool) : text := if isPost then T "P" else T "G".

Definition printLink (l : link) : text :=
  match l with
  | StaticLink b web file => letter b ++ T "S:" ++ web ++ T ":" ++ file
  | ForwardLink b web file target =>
      letter b ++ T "F:" ++ web ++ T ":" ++ file ++
      match target with None => [] | Some t => T ":" ++ t end
  end.

(** What a line of the file says. *)
Inductive item := Skip | Link (l : link) | Invalid.

#[global] Instance link_eq_dec : EqDecision link.
Proof. solve_decision. Defined.
#[global] Instance item_eq_dec : EqDecision item.
Proof. solve_decision. Defined.

Definition reads (line : text) (i : item) : Prop :=
  match i with
  | Skip => line = [] ∨ head line = Some "#"%char
  | Link l => link_ok l ∧ line = printLink l
  | Invalid => line ≠ [] ∧ head line ≠ Some "#"%char ∧ ∀ l, link_ok l → line ≠ printLink l
  end.

(** [reads], decided. *)
Definition item_of (line : text) : item :=
  if bool_decide (line = []) || bool_decide (head line = Some "#"%char) then Skip else
  match line with
  | l0 :: l1 :: l2 :: l3 :: rest =>
      if negb (bool_decide (l0 = "P"%char ∨ l0 = "G"%char) && bool_decide (l1 = "S"%char ∨ l1 = "F"%char)
               && bool_decide (l2 = ":"%char))
      then Invalid else
      match span_to ":"%char rest with
      | (_, []) => Invalid
      | (w, _ :: after) =>
          let b := bool_decide (l0 = "P"%char) in
          if bool_decide (l1 = "S"%char) then Link (StaticLink b (l3 :: w) after) else
          let '(file, sec) := span_to ":"%char after in
          Link (ForwardLink b (l3 :: w) file (match sec with [] => None | _ :: t => Some t end))
      end
  | _ => Invalid
  end.

Lemma item_of_link l : link_ok l → item_of (printLink l) = Link l.
Proof.
  assert (∀ b w rest, ":"%char ∉ w → span_to ":"%char (w ++ ":"%char :: rest) = (w, ":"%char :: rest)
    ∧ letter b = [if b then "P"%char else "G"%char]) as Hweb.
  { intros b w rest Hw. split; [by apply span_to_found|by destruct b]. }
  destruct l as [b [|l3 w] file|b [|l3 w] file target]; simpl; try (by intros []); try (by intros [[] _]).
  - intros [_ Hw]. destruct (Hweb b w file Hw) as [Es ->]. unfold item_of.
    change (T "S:") with ["S"%char; ":"%char]. change (T ":") with [":"%char]. cbn [app].
    rewrite Es. by destruct b.
  - intros [[_ Hw] Hf]. unfold item_of.
    destruct (Hweb b w (file ++ match target with None => [] | Some t => ":"%char :: t end) Hw) as [Es ->].
    change (T "F:") with ["F"%char; ":"%char]. change (T ":") with [":"%char]. cbn [app]. rewrite Es.
    assert (span_to ":"%char (file ++ match target with None => [] | Some t => ":"%char :: t end)
            = (file, match target with None => [] | Some t => ":"%char :: t end)) as Es2.
    { destruct target as [t|]; [by apply span_to_found|]. rewrite app_nil_r. by apply span_to_absent. }
    destruct b, target; cbn; rewrite Es2; done.
Qed.

Section links.
Context (files : text → option text).

Definition method_of (isPost : bool) : text := if isPost then T "post" else T "get".

(** The page a link registers. *)
Definition entry_of (l : link) : outcome (text * text * webpage) :=
  match l with
  | StaticLink b web file => Ok (method_of b, web, staticWrapper files file)
  | ForwardLink b web file target =>
      p ← forwardingWrapper files file (default web target);
      Ok (method_of b, web, p)
  end.

Definition message (l : link) : text :=
  match l with
  | StaticLink _ web file =>
      T "Linked page " ++ quoted web ++ T " to local page " ++ quoted file ++ T "." ++ [NEWLINE]
  | ForwardLink _ web file target =>
      T "Linked page " ++ quoted web ++ T " to local page " ++ quoted file ++
      T " which forwards to " ++ quoted (default web target) ++ T "." ++ [NEWLINE]
  end.

Definition said (line : text) (s : site) : site :=
  {| registered := registered s; console := console s ++ [line] |}.
Definition added (e : text * text * webpage) (s : site) : site :=
  {| registered := registered s ++ [e]; console := console s |}.

Lemma linkLine_link l s e :
  link_ok l → entry_of l = Ok e →
  linkLine files (printLink l) s = (Ok None, added e (said (message l) s)).
Proof.
  intros Hok He.
  assert (∀ b web rest, web_ok web → ∃ l3 w, web = l3 :: w ∧ span_to ":"%char (w ++ ":"%char :: rest) = (w, ":"%char :: rest)
    ∧ letter b = [if b then "P"%char else "G"%char]) as Hweb.
  { intros b web rest [Hne Hc]. destruct web as [|l3 w]; [done|]. exists l3, w.
    split_and!; [done|by apply span_to_found|by destruct b]. }
  destruct l as [b web file|b web file target]; simpl in *.
  - destruct (Hweb b web file Hok) as (l3 & w & -> & Es & ->). injection He as <-.
    change (T "S:") with ["S"%char; ":"%char]. change (T ":") with [":"%char]. cbn [app].
    unfold linkLine. rewrite Es. by destruct b.
  - destruct Hok as [Hok Hf].
    change (T "F:") with ["F"%char; ":"%char]. change (T ":") with [":"%char]. cbn [app].
    destruct (Hweb b web (file ++ match target with None => [] | Some t => ":"%char :: t end) Hok)
      as (l3 & w & -> & Es & ->).
    destruct (forwardingWrapper files file _) as [p|] eqn:Hp; [|done]. injection He as <-.
    cbn [app]. unfold linkLine. rewrite Es.
    assert (span_to ":"%char (file ++ match target with None => [] | Some t => ":"%char :: t end)
            = (file, match target with None => [] | Some t => ":"%char :: t end)) as Es2.
    { destruct target as [t|]; [by apply span_to_found|]. rewrite app_nil_r. by apply span_to_absent. }
    destruct b, target as [t|]; simpl in *; rewrite Es2; unfold say, register, modifyS, liftS;
      rewrite !bindS_eq; cbv beta iota; rewrite ?bindS_eq, Hp; done.
Qed.

Lemma linkLine_skip line s : reads line Skip → linkLine files line s = (Ok None, s).
Proof. unfold linkLine. intros [->|H]; [done|]. rewrite (bool_decide_true (head line = _)) by done. by rewrite orb_true_r. Qed.

(** A line with the letters and the colons in place is some link. *)
Lemma shape_is_link l0 l1 l3 rest w after :
  l0 = "P"%char ∨ l0 = "G"%char → l1 = "S"%char ∨ l1 = "F"%char → span_to ":"%char rest = (w, ":"%char :: after) →
  ∃ l, link_ok l ∧ l0 :: l1 :: ":"%char :: l3 :: rest = printLink l.
Proof.
  intros H0 H1 Es. pose proof (span_to_fst _ _ _ _ Es) as Hw. apply span_to_eq in Es as ->.
  assert (web_ok (l3 :: w)) as Hweb by done.
  set (b := bool_decide (l0 = "P"%char)).
  assert (letter b = [l0]) as El by (unfold b; by destruct H0 as [->| ->]).
  destruct H1 as [->| ->].
  - exists (StaticLink b (l3 :: w) after). split; [done|]. simpl. by rewrite El.
  - destruct (span_to ":"%char after) as [file sec] eqn:Es.
    pose proof (span_to_fst _ _ _ _ Es) as Hfile. pose proof (span_to_snd _ _ _ _ Es) as Hsec.
    apply span_to_eq in Es as ->.
    exists (ForwardLink b (l3 :: w) file (match sec with [] => None | _ :: t => Some t end)).
    split; [done|]. simpl. rewrite El. by destruct Hsec as [->|[t ->]].
Qed.

Lemma linkLine_invalid line s :
  reads line Invalid →
  linkLine files line s =
  (Ok (Some false), said (T "Invalid linkfile entry " ++ quoted line ++ T "." ++ [NEWLINE]) s).
Proof.
  intros (Hne & Hc & Hl). unfold linkLine. rewrite !bool_decide_false by done. cbn [orb].
  destruct line as [|l0 [|l1 [|l2 [|l3 rest]]]]; try done.
  match goal with |- context [negb ?b] => destruct b eqn:Eb end; cbn [negb]; [|done].
  apply andb_true_iff in Eb as [[E0 E1]%andb_true_iff E2]. rewrite !bool_decide_eq_true in E0, E1, E2. subst l2.
  destruct (span_to ":"%char rest) as [w [|c after]] eqn:Es; [done|].
  destruct (span_to_snd _ _ _ _ Es) as [?|[r [= -> ->]]]; [done|].
  destruct (shape_is_link l0 l1 l3 rest w r E0 E1 Es) as (l & Hok & E). by destruct (Hl l Hok).
Qed.

Lemma item_of_reads line : reads line (item_of line).
Proof.
  destruct (item_of line) as [|l|] eqn:E; simpl.
  - unfold item_of in E. repeat case_bool_decide; repeat case_match; auto; discriminate.
  - unfold item_of in E. destruct (_ || _); [done|].
    destruct line as [|l0 [|l1 [|l2 [|l3 rest]]]]; try discriminate.
    destruct (_ && _ && _) eqn:Eb; [|discriminate]. cbn [negb] in E.
    apply andb_true_iff in Eb as [[E0 E1]%andb_true_iff E2]. rewrite !bool_decide_eq_true in E0, E1, E2. subst l2.
    destruct (span_to ":"%char rest) as [w [|c after]] eqn:Es; [discriminate|].
    destruct (span_to_snd _ _ _ _ Es) as [?|[r [= -> ->]]]; [done|].
    destruct (shape_is_link l0 l1 l3 rest w r E0 E1 Es) as (l' & Hok & Ep). rewrite Ep.
    pose proof (item_of_link l' Hok) as Ei. rewrite <- Ep in Ei. unfold item_of in Ei.
    destruct (_ || _); [discriminate|]. destruct (_ && _ && _); [|discriminate]. cbn [negb] in Ei.
    rewrite Es in Ei. rewrite E in Ei. by injection Ei as ->.
  - split_and!.
    + intros ->. discriminate.
    + intros Hh. unfold item_of in E. rewrite (bool_decide_true (head line = _)) in E by done.
      by rewrite orb_true_r in E.
    + intros l Hok ->. by rewrite item_of_link in E.
Qed.

(** ** The whole file *)

(** The links up to the first line that is none. *)
Fixpoint links_of (items : list item) : list link :=
  match items with
  | [] | Invalid :: _ => []
  | Skip :: items' => links_of items'
  | Link l :: items' => l :: links_of items'
  end.
Definition complete (items : list item) : bool := bool_decide (Invalid ∉ items).

Definition extended (entries : list (text * text * webpage)) (lines : list text) (s : site) : site :=
  {| registered := registered s ++ entries; console := console s ++ lines |}.

Lemma extended_step e m entries lines s :
  extended entries lines (added e (said m s)) = extended (e :: entries) (m :: lines) s.
Proof. unfold extended, added, said. simpl. by rewrite <- !app_assoc. Qed.

Lemma forLines_reads lines items entries s :
  Forall2 reads lines items → Forall2 (λ l e, entry_of l = Ok e) (links_of items) entries →
  ∃ after, forLines lines (linkLine files) s =
    (Ok (if complete items then None else Some false), extended entries ((message <$> links_of items) ++ after) s) ∧
    (complete items = true → after = []).
Proof.
  intros Hr. revert entries s. induction Hr as [|line i lines items Hi _ IH]; intros entries s He.
  - inversion He. exists []. split; [|done]. unfold extended. simpl. rewrite !app_nil_r. by destruct s.
  - destruct i as [|l|]; simpl in He.
    + destruct (IH entries s He) as (after & E & Ha). exists after.
      replace (complete (Skip :: items)) with (complete items) by (apply bool_decide_ext; set_solver).
      split; [|done]. cbn [forLines]. by rewrite bindS_eq, linkLine_skip.
    + inversion He as [|? e ? entries' Hl He']; subst. destruct Hi as [Hok ->].
      destruct (IH entries' (added e (said (message l) s)) He') as (after & E & Ha). exists after.
      replace (complete (Link l :: items)) with (complete items) by (apply bool_decide_ext; set_solver).
      split; [|done]. cbn [forLines]. rewrite bindS_eq, (linkLine_link l s e) by done. rewrite E.
      by rewrite extended_step.
    + inversion He; subst.
      assert (complete (Invalid :: items) = false) as -> by (apply bool_decide_eq_false; set_solver).
      eexists [_]. split; [|done]. cbn [forLines]. rewrite bindS_eq, linkLine_invalid by done.
      unfold extended, said. simpl. by rewrite app_nil_r.
Qed.
End links.

Lemma linkPages_reads files linkFile contents items entries s :
  files linkFile = Some contents → Forall2 reads (input_lines contents) items →
  Forall2 (λ l e, entry_of files l = Ok e) (links_of items) entries →
  ∃ after, linkPages files linkFile s =
    (Ok (complete items), extended entries ((message <$> links_of items) ++ after) s) ∧
    (complete items = true → after = []).
Proof.
  intros Hf Hr He. destruct (forLines_reads files _ _ _ s Hr He) as (after & E & Ha).
  exists after. split; [|done]. unfold linkPages. rewrite Hf, bindS_eq.
  rewrite whileLines_lines by (unfold line_fuel; simpl; lia). rewrite E. by destruct (complete items).
Qed.

(** C23: the link file registers exactly the links it spells out, in their order
    and with the pages and targets they name: a forwarding link without a target
    forwards to its own address, comments and empty lines are skipped, and the
    first line that is no link ends the linking, with [false] and all links before
    it registered. *)
Theorem linkPages_links files linkFile contents items entries s :
  files linkFile = Some contents → Forall2 reads (input_lines contents) items →
  Forall2 (λ l e, entry_of files l = Ok e) (links_of items) entries →
  ∃ after, linkPages files linkFile s =
    (Ok (complete items), extended entries ((message <$> links_of items) ++ after) s) ∧
    (complete items = true → after = []).
Proof. apply linkPages_reads. Qed.
