(* ===== verification/Pages.v ===== *)
(** A page of the program, end to end: the list of suppliers
    (Translator/Pages/Parts/Suppliers/ManageSuppliers.htmt), from the rows of the
    database to the HTML the browser gets. *)

From S2P Require Import Prelude CharConv Query Response ResponseSpec Database Http Sql Auth Routes RouteLogic.
From S2P Require Import RouteAuth RouteParts Policy RouteTheorems Trace Security Behaviour Effects Htmt Handles Translator TranslatorFacts.

(** The texts below are written with backquotes for the double quotes of HTML. *)
Definition quotes (s : text) : text := (λ c, if bool_decide (c = "`"%char) then QUOTE else c) <$> s.

Definition manageSuppliers : text := quotes (T "<html>
	<form action=`http://localhost:9002/parts` method=`get`>
		<input type=`hidden` value=`` name=`name`>
		<input type=`submit` value=`Back to Parts List`>
	</form>
	<p>
		This page lists all suppliers and allows user to update the details.
		Suppliers can be searched by their name, phone number or email.
	</p>
	<HTMTCODE:200>
		<style>
		table, th, td
		{
			border: 1px solid black;
			border-collapse: collapse;
		}
		</style>

		<form action=`http://localhost:9002/suppliers` method=`get`>
		  <label for=`details`>Search Term:</label>
		  <input type=`text` name=`searchterm`>
		  <input type=`submit` value=`Search`>
		</form>

		<form action=`http://localhost:9002/suppliers/create` method=`get`>
			<input type=`submit` value=`Create`>
		</form>

		<H1>Suppliers:</H1>
		<table>
			<tr>
				<th>Name</th><th>Phone</th><th>Email</th><th>Modify</th><th>Add Part</th></tr>
				<HTMT:Suppliers>
					<tr>
						<td><HTMTVAL:Name></td><td><HTMTVAL:Phone></td><td><HTMTVAL:Email></td>
						<td>
							<form action=`http://localhost:9002/suppliers/modify` method=`get`>
								<input type=`hidden` value=`<HTMTVAL:ID>` name=`ID`>
								<input type=`submit` value=`Modify`>
							</form>
						</td>
						<td>
							<form action=`http://localhost:9002/parts/create` method=`get`>
								<input type=`hidden` value=`<HTMTVAL:ID>` name=`ID`>
								<input type=`submit` value=`Add Part` >
							</form>
						</td>
					</tr>
				</HTMT>
		</table>
	</HTMTCODE>
	<HTMTCODE:404>

		<form action=`http://localhost:9002/suppliers` method=`get`>
		  <label for=`username`>Search Term:</label>
		  <input type=`text` name=`searchterm`><br><br>
		  <input type=`submit` value=`Search`>
		</form>

		<form action=`http://localhost:9002/suppliers/create` method=`get`>
			<input type=`submit` value=`Create`>
		</form>

		<H1>No suppliers found!</H1>
	</HTMTCODE>
	<HTMTCODE:400>
		<H1>Invalid request!</H1>
	</HTMTCODE>
	<HTMTCODE:403>
		<H1>Invalid permissions!</H1>
	</HTMTCODE>
	<HTMTCODE:500>
		<H1>Internal error!</H1>
	</HTMTCODE>
</html>").

(** What its parser makes of it. *)
Definition manageSuppliersTemplate : translation :=
  Eval vm_compute in
  match parse manageSuppliers with Ok t => t | Raise _ => Translation M_always (TagName []) [] end.

(** The HTML before the suppliers, of one supplier, and after them. *)
Definition suppliersTop : text := quotes (T "<html>
	<form action=`http://localhost:9002/parts` method=`get`>
		<input type=`hidden` value=`` name=`name`>
		<input type=`submit` value=`Back to Parts List`>
	</form>
	<p>
		This page lists all suppliers and allows user to update the details.
		Suppliers can be searched by their name, phone number or email.
	</p>
	
		<style>
		table, th, td
		{
			border: 1px solid black;
			border-collapse: collapse;
		}
		</style>

		<form action=`http://localhost:9002/suppliers` method=`get`>
		  <label for=`details`>Search Term:</label>
		  <input type=`text` name=`searchterm`>
		  <input type=`submit` value=`Search`>
		</form>

		<form action=`http://localhost:9002/suppliers/create` method=`get`>
			<input type=`submit` value=`Create`>
		</form>

		<H1>Suppliers:</H1>
		<table>
			<tr>
				<th>Name</th><th>Phone</th><th>Email</th><th>Modify</th><th>Add Part</th></tr>
				").

Definition supplierRow (id name phone email : text) : text :=
  quotes (T "
					<tr>
						<td>") ++
  name ++
  quotes (T "</td><td>") ++
  phone ++
  quotes (T "</td><td>") ++
  email ++
  quotes (T "</td>
						<td>
							<form action=`http://localhost:9002/suppliers/modify` method=`get`>
								<input type=`hidden` value=`") ++
  id ++
  quotes (T "` name=`ID`>
								<input type=`submit` value=`Modify`>
							</form>
						</td>
						<td>
							<form action=`http://localhost:9002/parts/create` method=`get`>
								<input type=`hidden` value=`") ++
  id ++
  quotes (T "` name=`ID`>
								<input type=`submit` value=`Add Part` >
							</form>
						</td>
					</tr>
				").

Definition suppliersBottom : text := quotes (T "
		</table>
	
	
	
	
	
</html>").

Lemma parse_manageSuppliers : parse manageSuppliers = Ok manageSuppliersTemplate.
Proof. vm_compute. reflexivity. Qed.

(** ** Writing to the page *)

Definition added (s : text) (p : page) : page := {| contents := contents p ++ s; warnings := warnings p |}.

Lemma added_app a b p : added b (added a p) = added (a ++ b) p.
Proof. unfold added. simpl. by rewrite app_assoc. Qed.

(** A piece of a template that writes [s] on [data], without a warning. *)
Definition puts (data : responseWrapper) (code : Z) (q : queryBase) (v : translationValue) (s : text) : Prop :=
  ∀ p, applyValue v data code q p = (Ok tt, added s p).

Lemma puts_HTML data code q html : puts data code q (V_HTML html) html.
Proof. done. Qed.

Lemma puts_access data code q name v : search data name = Some (Strings [v]) → puts data code q (V_access name) v.
Proof. intros E p. simpl. rewrite E. done. Qed.

Lemma puts_all data code q vs ss p :
  Forall2 (puts data code q) vs ss →
  forEach (λ u, applyValue u data code q) vs p = (Ok tt, added (concat ss) p).
Proof.
  intros H. revert p. induction H as [|v s vs ss Hv _ IH]; intros p.
  - unfold added. simpl. unfold mret, ST_ret. rewrite app_nil_r. by destruct p.
  - simpl. rewrite bindS_eq, Hv, IH. by rewrite added_app.
Qed.

Lemma apply_always tag vs data code q :
  apply (Translation M_always tag vs) data code q = forEach (λ u, applyValue u data code q) vs.
Proof. done. Qed.

Lemma puts_code data code q n vs ss :
  Forall2 (puts data code q) vs ss → n = code →
  puts data code q (V_translation (Translation M_code (TagCode n) vs)) (concat ss).
Proof.
  intros H -> p. simpl. rewrite bindS_eq. unfold liftS. rewrite Z.eqb_refl. cbn [negb]. by apply puts_all.
Qed.

Lemma puts_other_code data code q n vs :
  n ≠ code → puts data code q (V_translation (Translation M_code (TagCode n) vs)) [].
Proof.
  intros Hn p. simpl. rewrite bindS_eq. unfold liftS.
  destruct (Z.eqb_spec code n); [by subst|]. simpl. unfold mret, ST_ret, added. rewrite app_nil_r. by destruct p.
Qed.

(** A block repeated for the objects under its tag. *)
Lemma puts_objects data code q name vs objs f :
  search data name = Some (Objects objs) → Forall (λ o, Forall2 (puts o code q) vs (f o)) objs →
  puts data code q (V_translation (Translation M_tag (TagName name) vs)) (objs ≫= λ o, concat (f o)).
Proof.
  intros E HF p. simpl. rewrite bindS_eq. unfold liftS at 1. cbn [matches negb]. rewrite bindS_eq. unfold liftS at 1.
  cbn [get_name]. rewrite E, bindS_eq. unfold liftS at 1. rewrite bool_decide_true by done. cbn [assert_].
  rewrite bindS_eq. unfold liftS at 1. cbn [get_objects]. clear E. revert p.
  induction HF as [|o objs Ho _ IH]; intros p.
  - unfold added. simpl. unfold mret, ST_ret. rewrite app_nil_r. by destruct p.
  - simpl. rewrite bindS_eq, (puts_all _ _ _ _ _ _ Ho). rewrite IH. by rewrite added_app.
Qed.

(** ** The list of suppliers *)

Definition rowOf (r : SQLResult) (i : nat) : text :=
  supplierRow (cell r i 0) (cell r i 1) (cell r i 2) (cell r i 3).

Definition supplierPage (r : SQLResult) (rows : nat) : text :=
  suppliersTop ++ (seq 0 rows ≫= rowOf r) ++ suppliersBottom.

Definition supplierData (r : SQLResult) (rows : nat) (forced : bool) : responseWrapper :=
  RW [(T "Suppliers", Objects ((λ i, record_of r i supplierKeys) <$> seq 0 rows))] [forced].

(** The texts one supplier contributes, read off the template. *)
Definition value_of (o : responseWrapper) (name : text) : text :=
  match search o name with Some (Strings [v]) => v | _ => [] end.
Definition piece (o : responseWrapper) (v : translationValue) : text :=
  match v with V_HTML html => html | V_access name => value_of o name | _ => [] end.

Lemma pieces_put o code q vs :
  Forall (λ v, match v with V_HTML _ => True | V_access name => ∃ s, search o name = Some (Strings [s]) | _ => False end) vs →
  Forall2 (puts o code q) vs (piece o <$> vs).
Proof.
  induction 1 as [|v vs Hv _ IH]; simpl; constructor; [|done].
  destruct v; try done. destruct Hv as [s E]. simpl. unfold value_of. rewrite E. by apply puts_access.
Qed.

Ltac put :=
  first [ apply puts_HTML
        | apply puts_other_code; discriminate
        | eapply puts_code; [repeat first [apply Forall2_nil_2|apply Forall2_cons_2; [put|]]|reflexivity]
        | eapply (puts_objects _ _ _ _ _ _ (λ o, piece o <$> _)); [reflexivity|] ].

(** The block of the template that is repeated. *)
Definition rowValues : list translationValue :=
  Eval vm_compute in
  match manageSuppliersTemplate with
  | Translation _ _ (_ :: V_translation (Translation _ _ (_ :: V_translation (Translation _ _ vs) :: _)) :: _) => vs
  | _ => []
  end.

Lemma row_pieces r i : concat (piece (record_of r i supplierKeys) <$> rowValues) = rowOf r i.
Proof.
  unfold rowOf, record_of. cbn [fmap list_fmap supplierKeys fst snd].
  generalize (cell r i 0) (cell r i 1) (cell r i 2) (cell r i 3). intros a b c d. vm_compute. reflexivity.
Qed.

Lemma suppliers_applied r rows forced q :
  applied manageSuppliersTemplate (supplierData r rows forced) 200 q = (Ok (supplierPage r rows), []).
Proof.
  unfold applied, manageSuppliersTemplate. rewrite apply_always.
  erewrite puts_all; [|repeat first [apply Forall2_nil_2|apply Forall2_cons_2; [put|]]].
  2: { apply Forall_fmap, Forall_true. intros i. apply pieces_put.
       repeat first [apply Forall_nil_2|apply Forall_cons_2; [try exact I; eexists; reflexivity|]]. }
  unfold added. cbn [contents warnings app]. do 2 f_equal.
  rewrite list_fmap_bind. unfold supplierPage.
  match goal with |- context [seq 0 rows ≫= (?g ∘ ?f)] =>
    assert (seq 0 rows ≫= (g ∘ f) = seq 0 rows ≫= rowOf r) as -> by (apply list_bind_ext; [intros i; apply row_pieces|done]) end.
  generalize (seq 0 rows ≫= rowOf r). intros M.
  cbn [concat]. rewrite <- !app_assoc. vm_compute. reflexivity.
Qed.

(** A search for suppliers, end to end: the rows the database returns reach the
    browser as the rows of the table on the page, one for each, in their order,
    each with its name, phone number and email address and with its ID in the two
    forms.  Nothing else is sent but the status and the headers of the answer, and
    no value is missing. *)
Theorem suppliers_page `{Database} req b q w term d code res rows API q' :
  field q (T "searchterm") term → verify (w_sessions w) req employee = true →
  db_query (w_db w) sql_searchSuppliers [(T ":VAL", generateLIKEArgument term)] = Ok (d, (code, res)) →
  isOK code = true → shape 4 rows res → rows ≠ 0%nat → rows_clean res →
  (Z.of_nat (length (compact (supplierData res rows false))) < 2 ^ 64)%Z →
  response_code API = 200%Z →
  ∃ w' line answer, searchSuppliers req b q w = (Ok tt, w') ∧
    w_trace w' = w_trace w ++
      [EvLog line; EvQuery sql_searchSuppliers [(T ":VAL", generateLIKEArgument term)] code res;
       EvTryEnd answer] ∧
    (response API = answer →
     ∀ tw, applyTranslation API manageSuppliersTemplate q' tw =
     (Ok tt, plus_events tw (answer_headers API ++ [EvTryEnd (supplierPage res rows)]))).
Proof.
  intros Ht Hv Hq Hok Hs Hr Hc Hl H200.
  destruct (searchSuppliers_read req b q w term d code res rows) as (w' & line & answer & E & Etr & Er); [done..|].
  exists w', line, answer. split_and!; [done|done|]. intros <- tw.
  rewrite applyTranslation_eq. unfold translated. rewrite Er, H200.
  change (RW _ _) with (supplierData res rows (1 <? rows)%nat). by rewrite suppliers_applied.
Qed.
