(* ===== verification/Deployment.v ===== *)
(** The program as it is deployed: the link file of the repository
    (Translator/Pages/Link.txt) and the routes of the server its pages lead to. *)

From S2P Require Import Prelude CharConv Query Response Database Http Policy Net Effects.
From S2P Require Import Htmt HtmtTotal Streams Translator LinkFacts.

Definition linkTxt : text := T "GF:/debugTables::/debug/displayTables

GF:/home:../Pages/Home.htmt:/user/me

GS:/login:../Pages/Login.html
GS:/create:../Pages/Register.html
GF:/logout:../Pages/Logout_Result.htmt:/release

PF:/request:../Pages/Login_Result.htmt
PF:/register:../Pages/Login_Result.htmt:/register
GF:/user/me:../Pages/testForward.htmt

#USERS
GF:/users:../Pages/Users/ManageUsers.htmt:/user/search

GS:/users/create:../Pages/Users/AddUser.htmt
PF:/users/create/result:../Pages/Users/AddUserResult.htmt:/user/create

GF:/users/modify:../Pages/Users/ModifyUser.htmt:/user/select
PF:/users/modify/result:../Pages/Users/ModifyUserResult.htmt:/user/update

PF:/users/delete:../Pages/Users/DeleteUserResult.htmt:/user/delete


#SUPPLIERS
GF:/suppliers:../Pages/Parts/Suppliers/ManageSuppliers.htmt:/part/supplier/search

GS:/suppliers/create:../Pages/Parts/Suppliers/AddSupplier.htmt
PF:/suppliers/create/result:../Pages/Parts/Suppliers/AddSupplierResult.htmt:/part/supplier/create

GF:/suppliers/modify:../Pages/Parts/Suppliers/ModifySupplier.htmt:/part/supplier/select
PF:/suppliers/modify/result:../Pages/Parts/Suppliers/ModifySupplierResult.htmt:/part/supplier/update


#PARTS
GF:/parts/create:../Pages/Parts/Parts/AddPart.htmt:/part/supplier/select
PF:/parts/create/result:../Pages/Parts/Parts/AddPartResult.htmt:/part/create

GF:/parts:../Pages/Parts/Parts/ManageParts.htmt:/part/search

GF:/parts/modify:../Pages/Parts/Parts/ModifyPart.htmt:/part/select
PF:/parts/modify/result:../Pages/Parts/Parts/ModifyPartResult.htmt:/part/update

GF:/parts/group:../Pages/Parts/Parts/AddPartToGroup.htmt:/part/select
PF:/parts/group/result:../Pages/Parts/Parts/AddPartToGroupResult.htmt:/part/update

#GROUPS
GF:/groups:../Pages/Parts/Groups/ManageGroups.htmt:/part/group/search

PF:/groups/create:../Pages/Parts/Groups/AddGroupResult.htmt:/part/group/create


GF:/groups/modify:../Pages/Parts/Groups/ModifyGroup.htmt:/part/group/select
PF:/groups/modify/result:../Pages/Parts/Groups/ModifyGroupResult.htmt:/part/group/update

GF:/groups/part:../Pages/Parts/Groups/AddGroupToPart.htmt:/part/group/select
PF:/groups/part/result:../Pages/Parts/Groups/AddGroupToPartResult.htmt:/part/update

#VEHICLES
GF:/vehicles/me:../Pages/Vehicles/ManageLocalVehicles.htmt:/user/me

GF:/vehicles/create:../Pages/Vehicles/AddVehicle.htmt:/user/me
PF:/vehicles/create/result:../Pages/Vehicles/AddVehicleResult.htmt:/vehicle/create


GF:/vehicles/modify:../Pages/Vehicles/ModifyVehicle.htmt:/vehicle/select
PF:/vehicles/modify/result:../Pages/Vehicles/ModifyVehicleResult.htmt:/vehicle/update
PF:/vehicles/remove/result:../Pages/Vehicles/RemoveVehicleResult.htmt:/vehicle/delete

#SERVICES
GF:/services/create:../Pages/Services/createService.htmt:/vehicle/select
PF:/services/create/result:../Pages/Services/createServiceResult.htmt:/service/create

GF:/services/me:../Pages/Services/viewServices.htmt:/service/search

GF:/services/unauthorised:../Pages/Services/listUnauthorisedServices.htmt:/service/search
GF:/services/authorise:../Pages/Services/authoriseService.htmt:/service/select
PF:/services/authorise/result:../Pages/Services/authoriseServiceResult.htmt:/service/authorise


GF:/services/authorised:../Pages/Services/listAuthorisedServices.htmt:/service/search
GF:/services/authorised/edit:../Pages/Services/modifyAuthorisedService.htmt:/service/select
PF:/services/authorised/edit/result:../Pages/Services/modifyAuthorisedServiceResult.htmt:/service/update


GF:/services/authorised/close:../Pages/Services/closeService.htmt:/service/select
PF:/services/authorised/close/result:../Pages/Services/closeServiceResult.htmt:/service/close

GF:/services/authorised/part/add:../Pages/Services/addPartToService.htmt:/service/select
PF:/services/authorised/part/add/result:../Pages/Services/addPartToServiceResult.htmt:/service/part/add


GF:/services/authorised/part/remove:../Pages/Services/removePartFromService.htmt:/service/part/select
PF:/services/authorised/part/remove/result:../Pages/Services/removePartFromServiceResult.htmt:/service/part/remove



GF:/services/authorised/view:../Pages/Services/viewAuthorisedService.htmt:/service/select
GF:/services/closed/view:../Pages/Services/viewClosedService.htmt:/service/select".

(** What its lines say. *)
Definition linkItems : list item := Eval vm_compute in item_of <$> input_lines linkTxt.

Lemma linkTxt_reads : Forall2 reads (input_lines linkTxt) linkItems.
Proof.
  replace linkItems with (item_of <$> input_lines linkTxt) by (vm_compute; reflexivity).
  generalize (input_lines linkTxt). intros ls. induction ls; constructor; [apply item_of_reads|done].
Qed.

(** The kind of request and the address a browser uses, and what the request
    leads to: the entry of the server's table, or a file. *)
Inductive destination := Served (e : entry) | FromFile (file : text).

Definition destination_of (l : link) : text * text * destination :=
  match l with
  | StaticLink b web file => (method_of b, web, FromFile file)
  | ForwardLink b web file target => (method_of b, web, Served (dispatch (method_of b) (default web target)))
  end.

(** Where each address of the site leads. *)
Definition siteMap : list (text * text * destination) :=
  [
    (T "get", T "/debugTables", Served E_displayTables);
    (T "get", T "/home", Served (E_route R_getLocalUserData));
    (T "get", T "/login", FromFile (T "../Pages/Login.html"));
    (T "get", T "/create", FromFile (T "../Pages/Register.html"));
    (T "get", T "/logout", Served E_deauthenticate);
    (T "post", T "/request", Served E_authenticate);
    (T "post", T "/register", Served E_registerUser);
    (T "get", T "/user/me", Served (E_route R_getLocalUserData));
    (T "get", T "/users", Served (E_route R_searchUsers));
    (T "get", T "/users/create", FromFile (T "../Pages/Users/AddUser.htmt"));
    (T "post", T "/users/create/result", Served (E_route R_createUser));
    (T "get", T "/users/modify", Served (E_route R_selectUser));
    (T "post", T "/users/modify/result", Served (E_route R_updateUser));
    (T "post", T "/users/delete", Served (E_route R_deleteUser));
    (T "get", T "/suppliers", Served (E_route R_searchSuppliers));
    (T "get", T "/suppliers/create", FromFile (T "../Pages/Parts/Suppliers/AddSupplier.htmt"));
    (T "post", T "/suppliers/create/result", Served (E_route R_createSupplier));
    (T "get", T "/suppliers/modify", Served (E_route R_selectSupplier));
    (T "post", T "/suppliers/modify/result", Served (E_route R_updateSupplier));
    (T "get", T "/parts/create", Served (E_route R_selectSupplier));
    (T "post", T "/parts/create/result", Served (E_route R_createPart));
    (T "get", T "/parts", Served (E_route R_searchParts));
    (T "get", T "/parts/modify", Served (E_route R_selectPart));
    (T "post", T "/parts/modify/result", Served (E_route R_updatePart));
    (T "get", T "/parts/group", Served (E_route R_selectPart));
    (T "post", T "/parts/group/result", Served (E_route R_updatePart));
    (T "get", T "/groups", Served (E_route R_searchPartGroups));
    (T "post", T "/groups/create", Served (E_route R_createPartGroup));
    (T "get", T "/groups/modify", Served (E_route R_selectPartGroup));
    (T "post", T "/groups/modify/result", Served (E_route R_updatePartGroup));
    (T "get", T "/groups/part", Served (E_route R_selectPartGroup));
    (T "post", T "/groups/part/result", Served (E_route R_updatePart));
    (T "get", T "/vehicles/me", Served (E_route R_getLocalUserData));
    (T "get", T "/vehicles/create", Served (E_route R_getLocalUserData));
    (T "post", T "/vehicles/create/result", Served (E_route R_createVehicle));
    (T "get", T "/vehicles/modify", Served (E_route R_selectVehicle));
    (T "post", T "/vehicles/modify/result", Served (E_route R_updateVehicle));
    (T "post", T "/vehicles/remove/result", Served (E_route R_deleteVehicle));
    (T "get", T "/services/create", Served (E_route R_selectVehicle));
    (T "post", T "/services/create/result", Served (E_route R_createRequest));
    (T "get", T "/services/me", Served (E_route R_searchServices));
    (T "get", T "/services/unauthorised", Served (E_route R_searchServices));
    (T "get", T "/services/authorise", Served (E_route R_selectService));
    (T "post", T "/services/authorise/result", Served (E_route R_authoriseRequest));
    (T "get", T "/services/authorised", Served (E_route R_searchServices));
    (T "get", T "/services/authorised/edit", Served (E_route R_selectService));
    (T "post", T "/services/authorised/edit/result", Served (E_route R_updateService));
    (T "get", T "/services/authorised/close", Served (E_route R_selectService));
    (T "post", T "/services/authorised/close/result", Served (E_route R_closeService));
    (T "get", T "/services/authorised/part/add", Served (E_route R_selectService));
    (T "post", T "/services/authorised/part/add/result", Served (E_route R_addPartToService));
    (T "get", T "/services/authorised/part/remove", Served (E_route R_selectServicePart));
    (T "post", T "/services/authorised/part/remove/result", Served (E_route R_removePartFromService));
    (T "get", T "/services/authorised/view", Served (E_route R_selectService));
    (T "get", T "/services/closed/view", Served (E_route R_selectService))
  ].

#[global] Instance route_eq_dec : EqDecision route.
Proof. solve_decision. Defined.
#[global] Instance entry_eq_dec : EqDecision entry.
Proof. solve_decision. Defined.
#[global] Instance destination_eq_dec : EqDecision destination.
Proof. solve_decision. Defined.

Lemma siteMap_links : destination_of <$> links_of linkItems = siteMap.
Proof. by_decision. Qed.

Section deployment.
Context (files : text → option text).
Hypothesis linked : files (T "../Pages/Link.txt") = Some linkTxt.
Hypothesis templates : ∀ name contents, files name = Some contents → ∃ t, parse contents = Ok t.

(** A registered page and what the map says of its address. *)
Definition leads (e : text * text * webpage) (row : text * text * destination) : Prop :=
  e.1 = row.1 ∧
  match e.2, row.2 with
  | ForwardingPage _ dest, Served en => dispatch e.1.1 dest = en
  | StaticPage data, FromFile file => data = readEntireFile files file
  | _, _ => False
  end.

Lemma template_parses name : ∃ t, parse (readEntireFile files name) = Ok t.
Proof.
  unfold readEntireFile. destruct (files name) as [contents|] eqn:E; simpl; [by eapply templates|].
  by eexists.
Qed.

Lemma entries_exist ls : ∃ entries,
  Forall2 (λ l e, entry_of files l = Ok e) ls entries ∧ Forall2 leads entries (destination_of <$> ls).
Proof.
  induction ls as [|l ls (entries & He & Hl)]; [by exists []|].
  assert (∃ e, entry_of files l = Ok e ∧ leads e (destination_of l)) as (e & E & Hle).
  { destruct l as [b web file|b web file target]; simpl; [by eexists|].
    unfold forwardingWrapper. destruct (template_parses file) as [t ->]. by eexists. }
  exists (e :: entries). by split; constructor.
Qed.

Lemma main_links s0 entries :
  Forall2 (λ l e, entry_of files l = Ok e) (links_of linkItems) entries →
  ∃ s, link_main files s0 = (Ok tt, s) ∧ registered s = registered s0 ++ entries.
Proof.
  intros He. destruct (linkPages_reads files _ _ _ _ s0 linked linkTxt_reads He) as (after & E & _).
  unfold link_main. rewrite bindS_eq, E. eexists. split; [reflexivity|]. done.
Qed.

(** No path of the site has parameters or wildcards. *)
#[global] Instance static_path_dec path : Decision (static_path path).
Proof. unfold static_path. apply _. Defined.

Lemma siteMap_static : Forall (λ row, static_path row.1.2) siteMap.
Proof. by_decision. Qed.

(** No two pages share method and path. *)
Lemma registered_once s : Forall2 leads (registered s) siteMap → NoDup (registered s).*1.
Proof.
  intros HF. replace (registered s).*1 with (siteMap.*1); [by_decision|].
  induction HF as [|e row es rows [He _] _ IH]; [done|]. rewrite !fmap_cons. by f_equal.
Qed.
End deployment.

(** C18: With the link file of the repository, and whatever templates that parse, the
    translator starts and registers exactly the 55 addresses of [siteMap], each
    once and none of them a pattern; every page that forwards leads to the route listed for it on the back-end
    server, with the method the route is registered for, and never to its default. *)
Theorem deployment_serves files :
  files (T "../Pages/Link.txt") = Some linkTxt →
  (∀ name contents, files name = Some contents → ∃ t, parse contents = Ok t) →
  ∃ s, link_main files {| registered := []; console := [] |} = (Ok tt, s) ∧
    Forall2 (leads files) (registered s) siteMap ∧ NoDup (siteMap.*1) ∧
    Forall (λ row, static_path row.1.2) siteMap ∧ Forall (λ row, row.2 ≠ Served E_default) siteMap.
Proof.
  intros Hl Ht. destruct (entries_exist files Ht (links_of linkItems)) as (entries & He & Hlead).
  destruct (main_links files Hl {| registered := []; console := [] |} entries He) as (s & E & Er).
  exists s. split; [done|]. rewrite Er, <- siteMap_links. split_and!; [done|by_decision|apply siteMap_static|by_decision].
Qed.
