(* ===== verification/System.v ===== *)
(** The whole program: browser, translator, back-end server, database.

    The translator's libcurl is connected to the server of [Net]: a transfer is
    one request the server handles, in the state its earlier requests left it in.
    What lies between, HTTP as libcurl sends it and uWebSockets presents it, is the
    interface [Wire]; what their documentation promises of it is [WireFacts]. *)

From S2P Require Import Prelude CharConv Query Response ResponseSpec Database Double Http Sql Auth Routes.
From S2P Require Import RouteLogic RouteParts Policy Net NetFacts Frames Security Behaviour Effects Htmt Handles HandleFacts.
From S2P Require Import Streams Translator TranslatorFacts LinkFacts Pages Deployment.

(** ** HTTP *)

Class Wire := {
  incoming : request → HttpRequest;          (** the request the server is shown *)
  pieces : request → list (text * bool);     (** its body, as [onData] gets it *)
  delivered : list event → reply;            (** what comes back of an answered request *)
  broken : list event → reply;               (** and when the server is gone *)
}.

(** Printable characters but the ones that would be cut off or escaped. *)
Definition url_char (c : ascii) : Prop := (33 ≤ nat_of_ascii c ≤ 126)%nat ∧ c ≠ "#"%char.
Definition url_path (path : text) : Prop :=
  head path = Some "/"%char ∧ Forall url_char path ∧ "?"%char ∉ path ∧ "."%char ∉ path.
(** A header value: no control characters, no space at its ends. *)
Definition header_value (v : text) : Prop :=
  Forall (λ c, 32 ≤ nat_of_ascii c ≤ 126)%nat v ∧ head v ≠ Some " "%char ∧ last v ≠ Some " "%char.

(** The status of an answer: the one written first; headers or a body before it
    send 200. *)
Fixpoint status_of (evs : list event) : text :=
  match evs with
  | EvStatus s :: _ => s
  | EvHeader _ _ :: _ | EvEnd _ :: _ | EvTryEnd _ :: _ => OK
  | _ :: evs' => status_of evs'
  | [] => OK
  end.
Definition written_headers (evs : list event) : list (text * text) :=
  omap (λ ev, match ev with EvHeader n v => Some (n, v) | _ => None end) evs.
Fixpoint body_sent (evs : list event) : text :=
  match evs with
  | EvEnd b :: _ | EvTryEnd b :: _ => b
  | _ :: evs' => body_sent evs'
  | [] => []
  end.

(** A header that is neither of the two the translator forwards. *)
Definition other_line (line : text) : Prop :=
  ":"%char ∉ line ∨
  ∃ name val, ":"%char ∉ name ∧ name ∉ [T "Set-Cookie"; T "cookie"] ∧ line = name ++ T ": " ++ val ++ CRLF.

Class WireFacts `{Wire} := {
  incoming_method rq : getMethod (incoming rq) = if r_post rq then T "post" else T "get";
  incoming_url rq path q : url_path path → Forall url_char q →
    r_url rq = T "localhost:9001" ++ path ++ (if bool_decide (q = []) then [] else T "?" ++ q) →
    getUrl (incoming rq) = path ∧ getQuery (incoming rq) = q;
  incoming_cookie rq v : header_value v → r_cookie rq = Some v → getHeader (incoming rq) (T "cookie") = v;
  incoming_length rq : getHeader (incoming rq) (T "content-length") =
    if r_post rq then to_string (Z.of_nat (length (r_body rq))) else [];
  pieces_body rq : r_body rq ≠ [] →
    (∃ ds d, pieces rq = ((λ d, (d, false)) <$> ds) ++ [(d, true)]) ∧ concat (pieces rq).*1 = r_body rq;
  delivered_code evs n : from_chars_uint 64 (status_of evs) = Some n → Handles.code (delivered evs) = n;
  delivered_body evs : concat (body_chunks (delivered evs)) = body_sent evs;
  (** the status line and the server's own headers around the written ones *)
  delivered_headers evs : ∃ before after, Forall other_line before ∧ Forall other_line after ∧
    header_lines (delivered evs) =
      before ++ ((λ nv, nv.1 ++ T ": " ++ nv.2 ++ CRLF) <$> written_headers evs) ++ after;
  broken_lines evs : Forall other_line (header_lines (broken evs));
}.

Section system.
Context `{Database, Curl, UnorderedMap, Router, !RouterFacts, Wire, !WireFacts}.
(** The draws each request may see, the bound on them, and the first state. *)
Context (fuel : nat) (random : nat → nat → Z) (start : world).

(** ** The back-end server, request by request *)

(** [None] once a fault has ended the process.  A statement without end takes the
    process as well: its client is answered when somebody puts an end to both. *)
Definition backend : Type := option world.

Definition handle (n : nat) (b : backend) (rq : request) : backend * reply :=
  match b with
  | None => (None, broken [])
  | Some w =>
      let '(o, w') := serve fuel (incoming rq) (pieces rq) (reseed w (random n)) in
      let evs := drop (length (w_trace w)) (w_trace w') in
      match o with
      | Ok _ => (Some w', delivered evs)
      | Raise _ => (None, broken evs)
      end
  end.

(** The requests there have been, numbered, and the state they lead to. *)
Definition backend_step (s : nat * backend) (rq : request) : nat * backend :=
  (S s.1, (handle s.1 s.2 rq).1).
Definition backend_after (rqs : list request) : backend :=
  (foldl backend_step (0%nat, Some start) rqs).2.

Lemma backend_count rqs : (foldl backend_step (0%nat, Some start) rqs).1 = length rqs.
Proof.
  induction rqs as [|rq rqs IH] using rev_ind; [done|].
  rewrite foldl_app, length_app. simpl. rewrite IH. lia.
Qed.

Lemma backend_after_snoc rqs rq :
  backend_after (rqs ++ [rq]) = (handle (length rqs) (backend_after rqs) rq).1.
Proof. unfold backend_after. by rewrite foldl_app, <- backend_count. Qed.

(** libcurl, connected to it. *)
#[local] Instance connected : Libcurl := {|
  easy_init_ok _ := true;
  transfer before rq := (handle (length before) (backend_after before) rq).2;
|}.

Lemma other_header_line line : other_line line → header_line line.
Proof. intros [?|(name & val & ? & _ & ->)]; [by left|right; eauto]. Qed.

(** The run of the server behind a transfer. *)
Lemma handle_run n w rq :
  ∃ evs, w_trace (serve fuel (incoming rq) (pieces rq) (reseed w (random n))).2 = w_trace w ++ evs ∧
    Forall plain_header evs ∧
    handle n (Some w) rq =
      match serve fuel (incoming rq) (pieces rq) (reseed w (random n)) with
      | (Ok _, w') => (Some w', delivered evs)
      | (Raise _, w') => (None, broken evs)
      end.
Proof.
  destruct (serve_plain fuel (incoming rq) (pieces rq) (reseed w (random n))) as (evs & Ht & Hevs).
  exists evs. split_and!; [done..|]. unfold handle.
  destruct (serve _ _ _ _) as [o w']. simpl in Ht. by rewrite Ht, drop_app_length.
Qed.

Lemma delivered_lines evs : Forall plain_header evs → Forall header_line (header_lines (delivered evs)).
Proof.
  intros Hevs. destruct (delivered_headers evs) as (before & after & Hb & Ha & ->). rewrite !Forall_app. split_and!.
  - eapply Forall_impl; [exact Hb|apply other_header_line].
  - apply Forall_fmap. induction Hevs as [|ev evs Hev _ IH]; [constructor|].
    destruct ev as [| |?|name val|?|?|?]; try exact IH. constructor; [|exact IH]. right. by exists name, val.
  - eapply Forall_impl; [exact Ha|apply other_header_line].
Qed.

Lemma connected_lines before rq : well_answered before rq.
Proof.
  unfold well_answered. cbn [transfer connected]. destruct (backend_after before) as [w|].
  - destruct (handle_run (length before) w rq) as (evs & _ & Hevs & ->).
    destruct (serve _ _ _ _) as [[]]; [by apply delivered_lines|].
    eapply Forall_impl; [apply broken_lines|apply other_header_line].
  - eapply Forall_impl; [apply broken_lines|apply other_header_line].
Qed.

(** ** The request the server sees *)

(** What a browser can send to a page with this destination. *)
Record browsable (destination : text) (req : HttpRequest) : Prop := {
  browsable_path : url_path destination;
  browsable_query : Forall url_char (getQuery req);
  browsable_cookie : header_value (getHeader req (T "cookie"));
}.

Lemma c_str_printable s : Forall (λ c, 32 ≤ nat_of_ascii c)%nat s → c_str s = s.
Proof.
  induction 1 as [|c s Hc _ IH]; [done|]. cbn [c_str]. rewrite IH, bool_decide_false; [done|].
  intros ->. vm_compute in Hc. lia.
Qed.

Lemma url_char_printable s : Forall url_char s → Forall (λ c, 32 ≤ nat_of_ascii c)%nat s.
Proof. intros Hs. eapply Forall_impl; [exact Hs|]. intros c [[? _] _]. lia. Qed.

Lemma query_part_printable q : Forall url_char q → Forall (λ c, 32 ≤ nat_of_ascii c)%nat (if bool_decide (q = []) then [] else T "?" ++ q).
Proof.
  intros Hq. case_bool_decide; [constructor|]. apply Forall_app. split; [by_decision|by apply url_char_printable].
Qed.

(** The server is shown the browser's own request, at the page's destination. *)
Lemma incoming_forwarded destination req chunks :
  browsable destination req →
  let seen := incoming (forwarded destination req chunks) in
  getMethod seen = (if bool_decide (getMethod req = T "post") then T "post" else T "get") ∧
  getUrl seen = destination ∧ getQuery seen = getQuery req ∧
  getHeader seen (T "cookie") = getHeader req (T "cookie").
Proof.
  intros [Hp Hq Hc] seen. unfold seen, forwarded, passed_on, request_for. split; [apply incoming_method|].
  destruct Hp as (Hh & Hp & Hp').
  match goal with |- getUrl (incoming ?rq) = _ ∧ _ =>
    destruct (incoming_url rq destination (getQuery req)) as [-> ->]; [done|done| |] end.
  { cbn [r_url]. apply c_str_printable. rewrite !Forall_app. split_and!;
      [by_decision|by apply url_char_printable|by apply query_part_printable]. }
  split_and!; [done..|]. apply incoming_cookie; [done|]. cbn [r_cookie]. f_equal. apply c_str_printable.
  destruct Hc as (Hc & _). eapply Forall_impl; [exact Hc|]. intros c [? _]. done.
Qed.

(** ** The system, step by step *)

Context (moves : nat).

(** The state of the back-end server behind the translator's. *)
Definition behind (w : tworld) : backend := backend_after (sent (t_heap w)).

(** One request of a browser is one request of the server: the page shows what the
    server answers, and the server moves on. *)
Lemma page_step tran destination req chunks w :
  owned (t_heap w) → (getMethod req = T "post" → body_pieces req chunks) →
  let n := length (sent (t_heap w)) in
  let '(b', answer) := handle n (behind w) (forwarded destination req chunks) in
  let shown := page_answer tran req (answered answer emptyAPIResponse) in
  let '(o, w') := servePage moves (ForwardingPage tran destination) req chunks w in
  o = shown.1 ∧ t_events w' = t_events w ++ shown.2 ∧ behind w' = b' ∧ (o = Ok tt → owned (t_heap w')).
Proof.
  intros Ho Hb n.
  destruct (servePage_run moves tran destination req chunks w ltac:(done) (connected_lines _ _) Ho Hb)
    as (E1 & E2 & E3 & E4).
  destruct (servePage _ _ _ _ w) as [o w'] eqn:Es. cbn [fst snd] in *.
  cbn [transfer connected] in E1, E2. fold (behind w) in E1, E2. fold n in E1, E2.
  destruct (handle n (behind w) (forwarded destination req chunks)) as [b' answer] eqn:Eh. cbn [fst snd] in *.
  split_and!; [done|done| |intros Hok; by apply E4].
  unfold behind. rewrite E3, backend_after_snoc. fold (behind w). fold n. by rewrite Eh.
Qed.

(** ** What the server makes of it *)

Lemma incoming_contentLength rq :
  (Z.of_nat (length (r_body rq)) < 2 ^ 64)%Z →
  contentLength (incoming rq) = if r_post rq then Z.of_nat (length (r_body rq)) else 0%Z.
Proof.
  intros Hl. unfold contentLength. rewrite incoming_length. destruct (r_post rq); [|done].
  pose proof (from_chars_uint_to_string 64 (Z.of_nat (length (r_body rq))) [] ltac:(lia) ltac:(done)) as E.
  rewrite app_nil_r in E. by rewrite E.
Qed.

Lemma incoming_pieces rq :
  (Z.of_nat (length (r_body rq)) < 2 ^ 64)%Z → body_pieces (incoming rq) (pieces rq).
Proof.
  intros Hl. unfold body_pieces. rewrite incoming_contentLength by done.
  destruct (r_post rq); [|by left]. destruct (r_body rq) as [|c body] eqn:E; [by left|right].
  destruct (pieces_body rq) as [Hp _]; [by rewrite E|done].
Qed.

Lemma incoming_body rq :
  (Z.of_nat (length (r_body rq)) < 2 ^ 64)%Z → (r_post rq = false → r_body rq = []) →
  body_of (incoming rq) (pieces rq) = r_body rq.
Proof.
  intros Hl Hget. unfold body_of. rewrite incoming_method, incoming_contentLength by done.
  destruct (r_post rq); [|by rewrite Hget].
  rewrite bool_decide_true by done. destruct (r_body rq) as [|c body] eqn:E; [done|].
  destruct (pieces_body rq) as [_ Hc]; [by rewrite E|]. by rewrite <- E, Hc, E.
Qed.

(** Every state the requests of browsers lead to is one [Net] calls reachable. *)
Lemma backend_reachable rqs w :
  reachable start → (∀ n, draws_ok (random n)) →
  Forall (λ rq, (Z.of_nat (length (r_body rq)) < 2 ^ 64)%Z) rqs →
  backend_after rqs = Some w → reachable w.
Proof.
  intros Hstart Hd. revert w. induction rqs as [|rq rqs IH] using rev_ind; intros w Hl Hb.
  { by injection Hb as <-. }
  apply Forall_app in Hl as [Hl Hrq]. rewrite Forall_singleton in Hrq.
  rewrite backend_after_snoc in Hb. destruct (backend_after rqs) as [w0|]; [|done].
  specialize (IH _ Hl eq_refl). unfold handle in Hb.
  destruct (serve _ _ _ _) as [[[]|e] w'] eqn:Es; [|done]. injection Hb as <-.
  eapply reach_serve; [exact IH|apply Hd|by apply incoming_pieces|exact Es].
Qed.

(** The database of the server is what the statements on record made of it. *)
Lemma backend_replays rqs w : backend_after rqs = Some w → replayed start w.
Proof.
  revert w. induction rqs as [|rq rqs IH] using rev_ind; intros w Hb.
  { injection Hb as <-. apply framed_refl. }
  rewrite backend_after_snoc in Hb. destruct (backend_after rqs) as [w0|]; [|done].
  unfold handle in Hb. destruct (serve _ _ _ _) as [[[]|e] w'] eqn:Es; [|done]. injection Hb as <-.
  eapply framed_trans; [by apply IH|]. pose proof (serve_framed (R := replayed) fuel (incoming rq) (pieces rq)
    (reseed w0 (random (length rqs)))) as Hr. by rewrite Es in Hr.
Qed.

(** ** Browsing *)

(** What browsers can do to a translator that has just started with the pages of
    [pages], request by request, and the requests that go to the server. *)
Inductive browsed (pages : site) : tworld → list request → Prop :=
  | browsed_start : browsed pages {| t_heap := emptyHeap; t_events := [] |} []
  | browsed_local w rqs req chunks w' :
      browsed pages w rqs → (∀ tran destination, pageFor pages req ≠ Some (ForwardingPage tran destination)) →
      serveSite moves pages req chunks w = (Ok tt, w') → browsed pages w' rqs
  | browsed_page w rqs tran destination req chunks w' :
      browsed pages w rqs → pageFor pages req = Some (ForwardingPage tran destination) →
      (getMethod req = T "post" → body_pieces req chunks) → (Z.of_nat (length (body_of req chunks)) < 2 ^ 64)%Z →
      serveSite moves pages req chunks w = (Ok tt, w') →
      browsed pages w' (rqs ++ [forwarded destination req chunks]).

Lemma browsed_heap pages w rqs :
  browsed pages w rqs →
  sent (t_heap w) = rqs ∧ owned (t_heap w) ∧ handles (t_heap w) = ∅ ∧ objects (t_heap w) = ∅ ∧
  Forall (λ rq, (Z.of_nat (length (r_body rq)) < 2 ^ 64)%Z) rqs.
Proof.
  induction 1 as [|w rqs req chunks w' _ IH Hp Hrun|w rqs tran destination req chunks w' _ IH Hp Hb Hl Hrun].
  - split_and!; [done|apply owned_empty|done..].
  - unfold serveSite in Hrun. destruct (pageFor pages req) as [[data|tran dest]|];
      [by injection Hrun as <-|by destruct (Hp tran dest)|by injection Hrun as <-].
  - unfold serveSite in Hrun. rewrite Hp in Hrun. destruct IH as (Hsent & Ho & Hh & Hobj & Hrqs).
    destruct (servePage_run moves tran destination req chunks w ltac:(done) (connected_lines _ _) Ho Hb)
      as (_ & _ & Es & Ec). rewrite Hrun in Es, Ec. cbn [fst snd] in *.
    destruct (Ec eq_refl) as (Ho' & Hh' & Hobj'). split_and!; [congruence|done|congruence|congruence|].
    apply Forall_app. split; [done|]. by apply Forall_singleton.
Qed.

(** C4: whatever browsers request of the translator, the back-end server has
    handled exactly the requests the pages forward, one for each and in their
    order; the translator keeps no handle and no object of any of them; every
    session the server has by then belongs to a login its database confirmed; and
    the database is what the statements sent since the start made of it. *)
Theorem browsing_refines pages w rqs :
  reachable start → (∀ n, draws_ok (random n)) → browsed pages w rqs →
  behind w = backend_after rqs ∧ handles (t_heap w) = ∅ ∧ objects (t_heap w) = ∅ ∧
  ∀ sw, behind w = Some sw → replayed start sw ∧
    ∀ id ses, w_sessions sw !! id = Some ses → (1 ≤ id < 2 ^ 64)%Z ∧ backed (w_trace sw) ses.
Proof.
  intros Hstart Hd Hb. destruct (browsed_heap pages w rqs Hb) as (Hsent & _ & Hh & Hobj & Hrqs).
  assert (behind w = backend_after rqs) as E by (unfold behind; by rewrite Hsent).
  split_and!; [done..|]. intros sw Hsw. rewrite E in Hsw. split; [by eapply backend_replays|]. intros id ses Hses.
  eapply reachable_origin; [by eapply backend_reachable|exact Hses].
Qed.

(** ** The suppliers page *)

Lemma verify_cookie s a b l :
  getHeader a (T "cookie") = getHeader b (T "cookie") → verify s a l = verify s b l.
Proof. intros E. unfold verify, getSessionID, getCookies. by rewrite E. Qed.

Lemma kept_other lines : Forall other_line lines → kept lines = [].
Proof.
  induction 1 as [|line lines Hline _ IH]; [done|]. unfold kept in *. cbn [mbind list_bind]. rewrite IH.
  destruct Hline as [Hn|(name & val & Hn & Hother & ->)].
  - unfold writeHeaders. rewrite span_to_absent by done. by case_bool_decide.
  - rewrite writeHeaders_line, bool_decide_false by done. done.
Qed.

(** What the translator keeps of an answer without headers of its own. *)
Lemma answered_plain evs :
  written_headers evs = [] → status_of evs = OK →
  answered (delivered evs) emptyAPIResponse =
    {| headers := []; response := body_sent evs; response_code := 200;
       responseTime := total_time (delivered evs) |}.
Proof.
  intros Hw Hs. unfold answered. f_equal.
  - destruct (delivered_headers evs) as (before & after & Hb & Ha & ->). rewrite Hw. simpl.
    apply kept_other. by apply Forall_app.
  - simpl. apply delivered_body.
  - apply delivered_code. by rewrite Hs.
Qed.

Definition suppliersFile : text := T "../Pages/Parts/Suppliers/ManageSuppliers.htmt".

(** The page the link file ties "/suppliers" to. *)
Lemma suppliers_registered files s :
  files (T "../Pages/Link.txt") = Some linkTxt → files suppliersFile = Some manageSuppliers →
  (∀ name contents, files name = Some contents → ∃ t, parse contents = Ok t) →
  link_main files {| registered := []; console := [] |} = (Ok tt, s) →
  ∀ req, getMethod req = T "get" → getUrl req = T "/suppliers" →
  pageFor s req = Some (ForwardingPage manageSuppliersTemplate (T "/part/supplier/search")).
Proof.
  intros Hl Hf Ht Hs req Hm Hu. destruct (entries_exist files Ht (links_of linkItems)) as (entries & He & Hlead).
  destruct (main_links files Hl {| registered := []; console := [] |} entries He) as (s' & E & Er).
  rewrite E in Hs. injection Hs as <-. cbn [registered app] in Er.
  apply pageFor_static; [apply (registered_once files); by rewrite Er, <- siteMap_links|rewrite Hu; by_decision|].
  rewrite Er, Hm, Hu.
  assert (ForwardLink false (T "/suppliers") suppliersFile (Some (T "/part/supplier/search")) ∈ links_of linkItems)
    as Hin by by_decision.
  apply list_elem_of_lookup_1 in Hin as [i Hi].
  destruct (Forall2_lookup_l _ _ _ _ _ He Hi) as (e & Hei & Ee).
  apply list_elem_of_lookup_2 with i. rewrite Hei. f_equal.
  simpl in Ee. unfold forwardingWrapper, readEntireFile in Ee. rewrite Hf in Ee. simpl in Ee.
  rewrite parse_manageSuppliers in Ee. simpl in Ee. by injection Ee as <-.
Qed.

(** The server's run for the request behind a search. *)
Lemma search_served sw n rq term d code res rows :
  getMethod (incoming rq) = T "get" → getUrl (incoming rq) = T "/part/supplier/search" →
  r_post rq = false → r_body rq = [] →
  field (mkQuery (getQuery (incoming rq))) (T "searchterm") term →
  verify (w_sessions sw) (incoming rq) employee = true →
  db_query (w_db sw) sql_searchSuppliers [(T ":VAL", generateLIKEArgument term)] = Ok (d, (code, res)) →
  isOK code = true → shape 4 rows res → rows ≠ 0%nat → rows_clean res →
  (Z.of_nat (length (compact (supplierData res rows false))) < 2 ^ 64)%Z →
  ∃ sw' line answer,
    handle n (Some sw) rq = (Some sw', delivered [EvLog line;
      EvQuery sql_searchSuppliers [(T ":VAL", generateLIKEArgument term)] code res; EvTryEnd answer]) ∧
    fromData answer = Ok (Some (supplierData res rows (1 <? rows)%nat)).
Proof.
  intros Hm Hu Hget Hbody Ht Hv Hq Hok Hs Hr Hc Hl.
  destruct (searchSuppliers_read (incoming rq) emptyQuery (mkQuery (getQuery (incoming rq)))
    (reseed sw (random n)) term d code res rows) as (sw' & line & answer & E & Etr & Er); [done..|].
  exists sw', line, answer. split; [|done]. unfold handle, serve. rewrite Hm, Hu.
  change (dispatch (T "get") (T "/part/supplier/search")) with (E_route R_searchSuppliers). cbv iota.
  unfold callWrapper. rewrite incoming_contentLength by (by rewrite Hbody).
  rewrite Hget. cbn [Z.eqb handler]. rewrite E, Etr. cbn [reseed w_trace]. by rewrite drop_app_length.
Qed.

(** C11: From the browser's request to the HTML it gets: with the files of the
    repository, an employee who asks the translator for "/suppliers" is sent the
    suppliers the database returns for the search term, one table row each, in
    their order; the answer is the page and nothing else, and the server lives on.
    This needs a search term, and a query and a cookie of printable characters; at
    least one supplier (none at all is answered with 404); and no cell that holds a
    brace, a bracket or a comma, which the format between the two servers does not
    escape ([rows_clean]). *)
Theorem suppliers_in_browser files s req chunks w sw term d code res rows :
  files (T "../Pages/Link.txt") = Some linkTxt → files suppliersFile = Some manageSuppliers →
  (∀ name contents, files name = Some contents → ∃ t, parse contents = Ok t) →
  link_main files {| registered := []; console := [] |} = (Ok tt, s) →
  getMethod req = T "get" → getUrl req = T "/suppliers" → Forall url_char (getQuery req) → header_value (getHeader req (T "cookie")) →
  field (mkQuery (getQuery req)) (T "searchterm") term →
  owned (t_heap w) → behind w = Some sw → verify (w_sessions sw) req employee = true →
  db_query (w_db sw) sql_searchSuppliers [(T ":VAL", generateLIKEArgument term)] = Ok (d, (code, res)) →
  isOK code = true → shape 4 rows res → rows ≠ 0%nat → rows_clean res →
  (Z.of_nat (length (compact (supplierData res rows false))) < 2 ^ 64)%Z →
  ∃ w' sw', serveSite moves s req chunks w = (Ok tt, w') ∧
    t_events w' = t_events w ++ [EvStatus OK; EvTryEnd (supplierPage res rows)] ∧
    behind w' = Some sw'.
Proof.
  intros Hl Hf Ht Hs Hm Hu Hq Hck Hterm Ho Hsw Hv Hdb Hok Hsh Hr Hc Hlen.
  unfold serveSite. rewrite (suppliers_registered files s) by done.
  assert (bool_decide (getMethod req = T "post") = false) as Hpost
    by (apply bool_decide_eq_false; rewrite Hm; by_decision).
  set (dest := T "/part/supplier/search"). set (rq := forwarded dest req chunks).
  destruct (incoming_forwarded dest req chunks) as (E1 & E2 & E3 & E4); [split; [split_and!; by_decision|done|done]|].
  rewrite Hpost in E1. fold rq in E1, E2, E3, E4.
  assert (r_post rq = false ∧ r_body rq = []) as [Hget Hbody].
  { unfold rq, forwarded, passed_on, request_for, body_of. cbn [r_post r_body]. by rewrite Hpost. }
  destruct (search_served sw (length (sent (t_heap w))) rq term d code res rows)
    as (sw' & line & answer & Eh & Er); try done; [by rewrite E3|by rewrite (verify_cookie _ _ req)|].
  pose proof (page_step manageSuppliersTemplate dest req chunks w Ho ltac:(by rewrite Hm)) as Hstep.
  cbv zeta in Hstep. fold rq in Hstep. rewrite Hsw, Eh in Hstep. cbv beta iota in Hstep.
  rewrite answered_plain in Hstep by done. unfold page_answer, translated in Hstep. cbn [response response_code body_sent] in Hstep.
  rewrite Er, suppliers_applied in Hstep. cbv beta iota in Hstep.
  destruct (servePage _ _ _ _ w) as [o w']. destruct Hstep as (-> & Hev & Hbehind & _).
  exists w', sw'. split_and!; [done|exact Hev|done].
Qed.
End system.
