(* ===== verification/Console.v ===== *)
(** Server/src/Source.cpp and the class [sqlite3DB] of Server/include/Database.h:
    the console the server opens with.  It reads SQL lines and control sequences
    from the standard input until one line is a double backslash; then [main] adds
    the administrator and starts the network part.

    The files of SQLite are a parameter ([SQLiteFiles]); a connection stands for
    all it has read and written until it is closed. *)

From S2P Require Import Prelude Query Database Sql Auth Routes Net Effects Streams.

Class SQLiteFiles `{SQLite} := {
  disk : Type;
  (** [None] opens a database in memory; a handle is returned even on failure *)
  sqlite3_open : disk → option text → disk * (SQLCode * connection);
  sqlite3_close : disk → connection → disk;
}.

(** ** [printResult] *)

Definition printHeader (result : SQLResult) (sizes : list nat) : outcome (list nat * text) :=
  forRows (seq 0 (columnCount result)) (λ c '(sizes, out),
    name ← getColName result c;
    sz ← index_ sizes c;
    let sizes := if (sz <? length name)%nat then <[c := length name]> sizes else sizes in
    sz ← index_ sizes c;
    Ok (sizes, out ++ padded name sz ++ T "|")) (sizes, T "|").

Definition printRow (result : SQLResult) (sizes : list nat) (row : nat) (out : text) : outcome text :=
  out ← forRows (seq 0 (columnCount result)) (λ col out,
    v ← get result row col;
    sz ← index_ sizes col;
    Ok (out ++ padded v sz ++ T "|")) (out ++ T "|");
  Ok (out ++ [NEWLINE]).

Definition printResult (result : SQLResult) : outcome text :=
  if bool_decide (columnCount result = 0%nat) then Ok [] else
  rows ← rowCount result;
  if bool_decide (rows = 0%nat) then Ok [] else
  sizes ← columnSizes result;
  '(sizes, header) ← printHeader result sizes;
  forRows (seq 0 rows) (printRow result sizes) (header ++ [NEWLINE]).

(** ** The world of the console *)

Section console.
Context `{SQLiteFiles}.

(** A file the program can read, by name. *)
Context (files : text → option text).

Record cworld := {
  c_database : option handle;    (** [DB.database] *)
  c_disk : disk;
  c_opened : nat;                (** handles SQLite has given out *)
  c_closed : nat;                (** handles closed *)
  c_in : istream;                (** [std::cin] *)
  c_out : text;                  (** [std::cout] *)
  c_queries : list text;         (** the SQL texts the database has answered *)
}.

Definition out (s : text) : ST cworld unit :=
  modifyS (λ w, {| c_database := c_database w; c_disk := c_disk w; c_opened := c_opened w;
                   c_closed := c_closed w; c_in := c_in w; c_out := c_out w ++ s; c_queries := c_queries w |}).
Definition outLine (s : text) : ST cworld unit := out (s ++ [NEWLINE]).
Definition setIn (s : istream) : ST cworld unit :=
  modifyS (λ w, {| c_database := c_database w; c_disk := c_disk w; c_opened := c_opened w;
                   c_closed := c_closed w; c_in := s; c_out := c_out w; c_queries := c_queries w |}).
Definition setDatabase (d : option handle) : ST cworld unit :=
  modifyS (λ w, {| c_database := d; c_disk := c_disk w; c_opened := c_opened w;
                   c_closed := c_closed w; c_in := c_in w; c_out := c_out w; c_queries := c_queries w |}).

(** ** [sqlite3DB] *)

(** The two constructors: the pointer of the new object.  The handle of a failed
    open is not kept. *)
Definition openDB (source : option text) : ST cworld (option handle) := λ w,
  let '(d, (code, c)) := sqlite3_open (c_disk w) source in
  (Ok (if isOK code then Some {| conn := c; live := 0 |} else None),
   {| c_database := c_database w; c_disk := d; c_opened := S (c_opened w); c_closed := c_closed w;
      c_in := c_in w; c_out := c_out w; c_queries := c_queries w |}).

(** The move constructor: the pointer of the new object and of the old one. *)
Definition moveDB (other : option handle) : option handle * option handle := (other, None).

(** The destructor. *)
Definition closeDB (database : option handle) : ST cworld unit :=
  match database with
  | None => mret tt
  | Some h => modifyS (λ w,
      {| c_database := c_database w; c_disk := sqlite3_close (c_disk w) (conn h); c_opened := c_opened w;
         c_closed := S (c_closed w); c_in := c_in w; c_out := c_out w; c_queries := c_queries w |})
  end.

(** [DB = std::move(temp)], a swap; the pointer the temporary has afterwards. *)
Definition swapDB (temp : option handle) : ST cworld (option handle) :=
  w ← getS;
  _ ← setDatabase temp;
  mret (c_database w).

Definition isOpen : ST cworld bool := w ← getS; mret (bool_decide (is_Some (c_database w))).

(** [DB.query]; SQLite must not be given a null connection. *)
Definition queryDB (SQL : text) (ps : params) : ST cworld (SQLCode * SQLResult) :=
  w ← getS;
  match c_database w with
  | None => liftS (Raise UndefinedBehaviour)
  | Some h =>
      '(h', code, r) ← liftS (query h SQL ps);
      _ ← modifyS (λ w,
        {| c_database := Some h'; c_disk := c_disk w; c_opened := c_opened w; c_closed := c_closed w;
           c_in := c_in w; c_out := c_out w; c_queries := c_queries w ++ [SQL] |});
      mret (code, r)
  end.

Definition print (r : SQLResult) : ST cworld unit := s ← liftS (printResult r); out s.

(** ** The control sequences

    The arguments are a view of the line behind the space; without a space the
    view has 2^64 - 1 characters that begin behind the end of the line, [None]. *)

Abbreviation view := (option text).

(** [std::string(args)], [args.data()] read as a C string. *)
Definition string_of (args : view) : outcome text :=
  match args with Some s => Ok s | None => Raise LengthError end.
Definition c_string_of (args : view) : outcome text :=
  match args with Some s => Ok (c_str s) | None => Raise UndefinedBehaviour end.

Definition displayTables (args : view) : ST cworld unit :=
  '(code, data) ← queryDB (T "SELECT name FROM sqlite_schema WHERE type='table' ORDER BY name") [];
  if negb (isOK code) then outLine (T "Error accessing database metadata.") else print data.

Definition displayRows (args : view) : ST cworld unit :=
  table ← liftS (string_of args);
  '(code, data) ← queryDB (T "SELECT * FROM " ++ table) [];
  if negb (isOK code) then outLine (T "Error displaying table rows.") else print data.

(** The body of the loop of [autoexec]; [Some tt] for the [break]. *)
Definition autoexecLine (line : text) : ST cworld (option unit) :=
  if bool_decide (line = []) then mret None else
  _ ← out (T ">># " ++ line ++ [NEWLINE]);
  '(status, result) ← queryDB line [];
  if negb (isOK status) then
    _ ← outLine (T "!!! Command failed, stopping autoexecution.");
    mret (Some tt)
  else
    _ ← (if bool_decide (0 < columnCount result)%nat then _ ← outLine (T "Output:"); print result
         else mret tt);
    mret None.

Definition autoexec (args : view) : ST cworld unit :=
  name ← liftS (c_string_of args);
  match files name with
  | None => outLine (T "Error opening file.")
  | Some contents =>
      _ ← whileLines (line_fuel (opened contents)) (opened contents) [] autoexecLine;
      outLine (T "Done.")
  end.

Definition load (args : view) : ST cworld unit :=
  name ← liftS (c_string_of args);
  temp ← openDB (Some name);
  temp ← swapDB temp;
  _ ← closeDB temp;
  ok ← isOpen;
  if negb (ok : bool) then s ← liftS (string_of args); outLine (T "Failed to open " ++ s ++ T ".")
  else outLine (T "Opened DB file.").

Definition generateControlSequences : gmap text (view → ST cworld unit) :=
  <[T "ld" := load]> (<[T "ax" := autoexec]> (<[T "dr" := displayRows]> (<[T "dt" := displayTables]> ∅))).

(** ** [db] *)

Definition BACKSLASH : ascii := "\"%char.

(** One round of the loop on the line read; [true] for the [return]. *)
Definition dbLine (input : text) : ST cworld bool :=
  match input with
  | [] => mret false
  | c :: rest =>
      if bool_decide (c = BACKSLASH) then
        if bool_decide (rest = []) then _ ← outLine (T "Error: Empty control sequence."); mret false else
        let '(sequence, behind) := span_to " "%char rest in
        let arguments := match behind with [] => None | _ :: a => Some a end in
        if bool_decide (sequence = [BACKSLASH]) then mret true else
        match generateControlSequences !! sequence with
        | None => _ ← outLine (T "Error: Invalid control sequence."); mret false
        | Some f => _ ← f arguments; mret false
        end
      else
        '(status, result) ← queryDB input [];
        _ ← (if isOK status then _ ← print result; outLine (T "Done.")
             else outLine (T "SQL execution failed."));
        mret false
  end.

Fixpoint dbLoop (fuel : nat) (input : text) : ST cworld unit :=
  match fuel with
  | O => liftS (Raise OutOfFuel)
  | S fuel' =>
      w ← getS;
      let '(_, input, s) := getline (c_in w) input in
      _ ← setIn s;
      leave ← dbLine input;
      if (leave : bool) then mret tt else dbLoop fuel' input
  end.

Definition db (fuel : nat) : ST cworld unit := dbLoop fuel [].

(** [main] up to the call of [net]; [false] when the program is terminated. *)
Definition main (fuel : nat) : ST cworld bool :=
  database ← openDB None;
  _ ← setDatabase database;
  open ← isOpen;
  if negb (open : bool) then _ ← outLine (T "Failed to open database."); mret false else
  _ ← outLine (T "Database ready:");
  _ ← db fuel;
  '(status, result) ← queryDB
    (T "INSERT INTO USERS(ID, USERNAME, PASSWORD, PERMISSIONS) VALUES(0, " ++ [QUOTE] ++ T "ADMIN" ++ [QUOTE] ++
     T ", :HAS, 3);") [(T ":HAS", hash (T "ADMIN"))];
  _ ← (if negb (isOK status) then outLine (T "Admin user not added.") else mret tt);
  mret true.
End console.
