(* ===== verification/ConsoleFacts.v ===== *)
(** The server's console: what it prints, what it does to the database, and when
    it comes to an end. *)

From S2P Require Import Prelude Query Database Routes Net NetFacts Effects Streams Console.

(** ** Tables *)

(** One line of a table. *)
Definition tableLine (ws : list nat) (text_of : nat → text) : text :=
  T "|" ++ (seq 0 (length ws) ≫= λ j, padded (text_of j) (width ws j) ++ T "|").

Definition name_of (r : SQLResult) (j : nat) : text := default [] (colNames r !! j).

(** The lines of the table of [r], for columns as wide as [ws]. *)
Definition tableLines (ws : list nat) (r : SQLResult) (rows : nat) : list text :=
  tableLine ws (name_of r) :: ((λ i, tableLine ws (cell r i)) <$> seq 0 rows).

Lemma index_name r j : (j < length (colNames r))%nat → getColName r j = Ok (name_of r j).
Proof.
  intros Hj. unfold getColName, index_, name_of.
  destruct (lookup_lt_is_Some_2 (colNames r) j Hj) as [n ->]. done.
Qed.

Lemma index_width ws j : (j < length ws)%nat → index_ ws j = Ok (width ws j).
Proof.
  intros Hj. unfold index_, width. destruct (lookup_lt_is_Some_2 ws j Hj) as [n ->]. done.
Qed.

(** The columns of a line up to the [c]-th. *)
Definition columns (ws : list nat) (text_of : nat → text) (c : nat) : text :=
  T "|" ++ (seq 0 c ≫= λ j, padded (text_of j) (width ws j) ++ T "|").

Lemma columns_S ws text_of c :
  columns ws text_of (S c) = columns ws text_of c ++ padded (text_of c) (width ws c) ++ T "|".
Proof. unfold columns. rewrite seq_S, bind_app. simpl. by rewrite !app_nil_r, <- !app_assoc. Qed.

Lemma columns_ext ws ws' text_of c :
  (∀ j, (j < c)%nat → width ws j = width ws' j) → columns ws text_of c = columns ws' text_of c.
Proof.
  induction c as [|c IH]; intros Hw; [done|]. rewrite !columns_S, IH, Hw by (intros; try apply Hw; lia). done.
Qed.

Lemma printHeader_spec cols r sizes :
  columnCount r = cols → length (colNames r) = cols → length sizes = cols →
  ∃ ws, printHeader r sizes = Ok (ws, tableLine ws (name_of r)) ∧ length ws = cols ∧
    (∀ j, (width sizes j ≤ width ws j)%nat) ∧ (∀ j, (j < cols)%nat → (length (name_of r j) ≤ width ws j)%nat).
Proof.
  intros Hc Hn Hs. unfold printHeader. rewrite Hc.
  match goal with |- context [forRows _ ?f ?a] =>
  destruct (spec_forRows_seq cols 0 f a
    (λ c p, length p.1 = cols ∧ (∀ j, width sizes j ≤ width p.1 j)%nat ∧
       (∀ j, (j < c)%nat → (length (name_of r j) ≤ width p.1 j)%nat) ∧ p.2 = columns p.1 (name_of r) c))
    as ([ws line] & -> & Hl & Hle & Hnames & Hline) end; simpl in *; [| |subst line].
  - simpl. split_and!; [done|lia|lia|]. unfold columns. simpl. by rewrite app_nil_r.
  - intros c [ws line] [_ Hlt] (Hl & Hle & Hnames & Hline). simpl in *. subst line.
    rewrite index_name by lia. rewrite bind_Ok, index_width by lia. rewrite bind_Ok.
    set (ws' := if (width ws c <? length (name_of r c))%nat then <[c := length (name_of r c)]> ws else ws).
    assert (length ws' = cols ∧ ∀ j, width ws' j = if decide (j = c) then Nat.max (width ws c) (length (name_of r c)) else width ws j)
      as [Hl' Hw].
    { unfold ws'. destruct (Nat.ltb_spec (width ws c) (length (name_of r c))).
      - split; [by rewrite length_insert|]. intros j. rewrite width_insert by lia. destruct (decide _); lia.
      - split; [done|]. intros j. destruct (decide (j = c)) as [->|]; lia. }
    rewrite index_width by lia. rewrite bind_Ok. eexists. split; [done|]. simpl. split_and!; [done| | |].
    + intros j. rewrite Hw. specialize (Hle j). destruct (decide (j = c)) as [->|]; lia.
    + intros j Hj. rewrite Hw. destruct (decide (j = c)) as [->|]; [lia|]. apply Hnames. lia.
    + rewrite columns_S. f_equal. apply columns_ext. intros j Hj. rewrite Hw. by rewrite decide_False by lia.
  - exists ws. split_and!; try done. unfold tableLine, columns. by rewrite Hl.
Qed.

Lemma printRow_spec cols rows r ws i out :
  shape cols rows r → length ws = cols → (i < rows)%nat →
  printRow r ws i out = Ok (out ++ tableLine ws (cell r i) ++ [NEWLINE]).
Proof.
  intros Hs Hl Hi. unfold printRow. assert (columnCount r = cols) as -> by apply Hs.
  match goal with |- context [forRows _ ?f ?a] =>
  destruct (spec_forRows_seq cols 0 f a
    (λ c o, o = out ++ columns ws (cell r i) c)) as (o & -> & ->) end.
  - unfold columns. simpl. by rewrite app_nil_r.
  - intros c o [_ Hc] ->. rewrite (shape_get _ _ _ _ _ Hs Hi Hc), bind_Ok, index_width, bind_Ok by lia.
    eexists. split; [done|]. by rewrite columns_S, <- !app_assoc.
  - rewrite bind_Ok. unfold tableLine, columns. by rewrite Hl, <- !app_assoc.
Qed.

Lemma length_tableLine ws text_of :
  (∀ j, (j < length ws)%nat → (length (text_of j) ≤ width ws j)%nat) →
  length (tableLine ws text_of) = S (sum_list ws + length ws).
Proof.
  intros Hfit.
  assert (∀ c, (c ≤ length ws)%nat → length (columns ws text_of c) = S (sum_list (take c ws) + c)) as Hc.
  { induction c as [|c IH]; intros Hle; [done|].
    rewrite columns_S, !length_app, IH by lia. unfold padded. rewrite length_app, length_replicate.
    specialize (Hfit c ltac:(lia)). unfold width in *.
    destruct (lookup_lt_is_Some_2 ws c) as [n Hn]; [lia|]. rewrite Hn in *. simpl in *.
    rewrite (take_S_r _ _ _ Hn), sum_list_with_app. change (length (T "|")) with 1%nat. simpl. lia. }
  specialize (Hc (length ws) ltac:(lia)). rewrite firstn_all in Hc. exact Hc.
Qed.

Lemma printResult_lines r cols rows :
  shape cols rows r → rows ≠ 0%nat → length (colNames r) = cols →
  ∃ ws n, length ws = cols ∧
    printResult r = Ok (tableLines ws r rows ≫= λ line, line ++ [NEWLINE]) ∧
    (∀ i j, (i < rows)%nat → (j < cols)%nat → (length (cell r i j) ≤ width ws j)%nat) ∧
    Forall (λ line, length line = n) (tableLines ws r rows).
Proof.
  intros Hs Hr Hn. assert (columnCount r = cols) as Hc by apply Hs.
  destruct (columnSizes_fit _ _ _ Hs) as (sizes & Esizes & Hl & Hfit).
  destruct (printHeader_spec cols r sizes Hc Hn Hl) as (ws & Ehead & Hlw & Hle & Hnames).
  exists ws, (S (sum_list ws + length ws)). split_and!; [done| | |].
  - unfold printResult. rewrite bool_decide_false by (rewrite Hc; apply Hs).
    rewrite (shape_rowCount _ _ _ Hs), bind_Ok, bool_decide_false by done.
    rewrite Esizes, bind_Ok, Ehead, bind_Ok.
    match goal with |- forRows _ ?f ?a = _ =>
      destruct (spec_forRows_seq rows 0 f a
        (λ i o, o = (tableLine ws (name_of r) :: ((λ i, tableLine ws (cell r i)) <$> seq 0 i))
                    ≫= λ line, line ++ [NEWLINE])) as (o & -> & ->) end; [|intros i o [_ Hi] ->|done].
    + simpl. by rewrite app_nil_r.
    + rewrite (printRow_spec cols rows) by done. eexists. split; [done|].
      rewrite seq_S, fmap_app. simpl. rewrite bind_app. simpl. by rewrite app_nil_r, <- !app_assoc.
  - intros i j Hi Hj. etransitivity; [by apply Hfit|apply Hle].
  - unfold tableLines. constructor; [|apply Forall_fmap, Forall_forall; intros i [_ Hi]%elem_of_seq];
      apply length_tableLine; intros j Hj.
    + apply Hnames. lia.
    + etransitivity; [apply Hfit; lia|apply Hle].
Qed.

(** A result is printed as a table: the names of the columns and then every
    row, cell by cell, each line as long as the others, so that the columns stand
    one under the other. *)
Theorem printResult_table r cols rows :
  shape cols rows r → rows ≠ 0%nat → length (colNames r) = cols →
  ∃ ws n, length ws = cols ∧
    printResult r = Ok (tableLines ws r rows ≫= λ line, line ++ [NEWLINE]) ∧
    (∀ i j, (i < rows)%nat → (j < cols)%nat → (length (cell r i j) ≤ width ws j)%nat) ∧
    Forall (λ line, length line = n) (tableLines ws r rows).
Proof. apply printResult_lines. Qed.

(** ** Results of [DB.query] *)

(** Whatever the statement, the result can be printed. *)
Definition printable (r : SQLResult) : Prop :=
  colCount r = 0%nat ∨ ∃ rows, shape (colCount r) rows r ∧ length (colNames r) = colCount r.

Lemma printResult_printable r : printable r → ∃ s, printResult r = Ok s.
Proof.
  intros [Hc|([|rows] & Hs & Hn)].
  - unfold printResult. rewrite bool_decide_true by done. by eexists.
  - unfold printResult. case_bool_decide; [by eexists|].
    rewrite (shape_rowCount _ _ _ Hs), bind_Ok, bool_decide_true by done. by eexists.
  - destruct (printResult_lines r _ _ Hs) as (ws & n & _ & E & _ & _); [done|done|by eexists].
Qed.

Section console.
Context `{SQLiteFiles, !SQLiteFacts}.

Lemma query_printable h SQL ps h' code r : query h SQL ps = Ok (h', code, r) → printable r.
Proof.
  unfold query. destruct (assert_ _) as [[]|]; [|done]. simpl.
  unfold prepare. destruct (sqlite3_prepare_v2 (conn h) SQL) as [st|]; [|intros [= <- <- <-]; by left].
  destruct (bindAll st ps) as [st'|]; [|intros [= <- <- <-]; by left].
  match goal with |- context [execute ?h' ?s ?r] =>
    destruct (execute_cases h' s r) as [(rows & status & c' & Hy)|[_ ->]] end; [|done].
  rewrite (execute_yields _ _ _ _ _ _ Hy). pose proof (yields_lengths _ _ _ _ _ _ Hy) as HF. cbn [colCount] in HF.
  intros [= <- <- <-].
  destruct (decide (sqlite3_column_count st' = 0%nat)) as [->|Hne]; [by left|right].
  exists (length rows). simpl. split; [|by rewrite length_fmap, length_seq].
  split_and!; [done|done|]. simpl. by rewrite (length_concat_rows _ _ HF).
Qed.

(** The query of a database that is open. *)
Definition queried (SQL : text) (h : handle) (w : cworld) : cworld :=
  {| c_database := Some h; c_disk := c_disk w; c_opened := c_opened w; c_closed := c_closed w;
     c_in := c_in w; c_out := c_out w; c_queries := c_queries w ++ [SQL] |}.

Lemma query_ok h SQL ps :
  (Z.of_nat (length SQL) < 2 ^ 31)%Z → ¬ hangs h SQL ps → ∃ h' code r, query h SQL ps = Ok (h', code, r).
Proof.
  intros Hl Hh. pose proof (query_outcome h SQL ps) as Ho.
  destruct (query h SQL ps) as [[[h' code] r]|[]]; try done; [by eexists _, _, _|lia|naive_solver].
Qed.

Lemma queryDB_eq w h SQL ps h' code r :
  c_database w = Some h → query h SQL ps = Ok (h', code, r) →
  queryDB SQL ps w = (Ok (code, r), queried SQL h' w).
Proof.
  intros Hd E. unfold queryDB. rewrite bindS_eq. unfold getS. rewrite Hd, bindS_eq. unfold liftS. by rewrite E.
Qed.

(** ** Where the loop ends *)

(** The lines that end the console: a double backslash, alone or before a space. *)
Definition quits (input : text) : bool :=
  match input with
  | c :: rest => bool_decide (c = BACKSLASH) && bool_decide ((span_to " "%char rest).1 = [BACKSLASH])
  | [] => false
  end.

Context (files : text → option text).

(** The faults of the console: a null connection or a missing argument, SQL longer
    than an [int] can say, a statement with no end. *)
Definition console_fault (e : fault) : Prop :=
  e ∈ [UndefinedBehaviour; LengthError; AssertFailed; NeverReturns].

Definition stops {A} (P : A → Prop) (o : outcome A) : Prop :=
  match o with Ok a => P a | Raise e => console_fault e end.

(** A step that had enough fuel and has not read from the standard input. *)
Definition quiet {A} (P : A → Prop) (m : ST cworld A) : Prop :=
  ∀ w, stops P (m w).1 ∧ c_in (m w).2 = c_in w.

Lemma quiet_bind {A B} P (Q : B → Prop) (m : ST cworld A) f :
  quiet P m → (∀ a, P a → quiet Q (f a)) → quiet Q (m ≫= f).
Proof.
  intros Hm Hf w. destruct (Hm w) as [He Hin]. rewrite bindS_eq.
  destruct (m w) as [[a|e] w1]; simpl in *; [|done]. destruct (Hf a He w1) as [He' Hin']. by rewrite Hin'.
Qed.

Lemma quiet_any {A B} (Q : B → Prop) (m : ST cworld A) f :
  quiet (λ _, True) m → (∀ a, quiet Q (f a)) → quiet Q (m ≫= f).
Proof. intros Hm Hf. eapply quiet_bind; [exact Hm|]. intros a _. apply Hf. Qed.

Lemma quiet_lift {A} (P : A → Prop) o : stops P o → quiet P (liftS o).
Proof. by intros Ho w. Qed.
Lemma quiet_ret {A} (P : A → Prop) a : P a → quiet P (mret a).
Proof. by intros Ha w. Qed.
Lemma quiet_out s : quiet (λ _, True) (out s).
Proof. done. Qed.

Lemma quiet_query SQL ps : quiet (λ cr, printable cr.2) (queryDB SQL ps).
Proof.
  intros w. unfold queryDB. rewrite bindS_eq. unfold getS. destruct (c_database w) as [h|]; [|split; [simpl; one_of|done]].
  pose proof (query_outcome h SQL ps) as Ho. rewrite bindS_eq. unfold liftS.
  destruct (query h SQL ps) as [[[h' code] r]|e] eqn:E; simpl; (split; [|done]); [by eapply query_printable|].
  destruct e; first [done | unfold console_fault; one_of].
Qed.

Lemma quiet_print r : printable r → quiet (λ _, True) (print r).
Proof.
  intros Hr. destruct (printResult_printable r Hr) as [s E]. unfold print.
  eapply quiet_any; [by apply quiet_lift; rewrite E|]. intros a. apply quiet_out.
Qed.

Ltac done_or_fault := first [done | cbn; unfold console_fault; one_of].
Ltac quiet :=
  repeat first
    [ apply quiet_out | apply quiet_print; assumption
    | apply quiet_ret; done | apply quiet_lift; done_or_fault
    | eapply quiet_bind; [apply quiet_query|intros [? ?] ?]; simpl in *
    | eapply quiet_any; [|intros ?]
    | case_match ].

Lemma quiet_forLines {A} (body : text → ST cworld (option A)) lines :
  (∀ line, quiet (λ _, True) (body line)) → quiet (λ _, True) (forLines lines body).
Proof.
  intros Hb. induction lines as [|line lines IH]; simpl; [by apply quiet_ret|].
  eapply quiet_any; [apply Hb|]. intros [a|]; [by apply quiet_ret|exact IH].
Qed.

Lemma quiet_whileLines {A} (body : text → ST cworld (option A)) contents line :
  (∀ line, quiet (λ _, True) (body line)) →
  quiet (λ _, True) (whileLines (line_fuel (opened contents)) (opened contents) line body).
Proof.
  intros Hb w. rewrite whileLines_lines by (unfold line_fuel; simpl; lia). by apply quiet_forLines.
Qed.

Lemma quiet_open source : quiet (λ _, True) (openDB source).
Proof. intros w. unfold openDB. by destruct (sqlite3_open _ _) as [d [code c]]. Qed.
Lemma quiet_close d : quiet (λ _, True) (closeDB d).
Proof. by destruct d. Qed.
Lemma quiet_swap d : quiet (λ _, True) (swapDB d).
Proof. done. Qed.
Lemma quiet_isOpen : quiet (λ _, True) isOpen.
Proof. done. Qed.

Lemma quiet_sequence name f args :
  generateControlSequences files !! name = Some f → quiet (λ _, True) (f args).
Proof.
  assert (∀ args, quiet (λ _, True) (displayTables args)) as Q1 by (intros; unfold displayTables; quiet).
  assert (∀ args, quiet (λ _, True) (displayRows args)) as Q2.
  { intros []; unfold displayRows; quiet. }
  assert (∀ args, quiet (λ _, True) (autoexec files args)) as Q3.
  { intros [s|]; unfold autoexec; simpl; [|eapply (quiet_bind (λ _, False)); [apply quiet_lift; done_or_fault|done]].
    eapply quiet_any; [by apply quiet_lift|]. intros n. destruct (files n) as [contents|]; [|apply quiet_out].
    eapply quiet_any; [|intros; apply quiet_out]. apply quiet_whileLines.
    intros line. unfold autoexecLine. quiet. }
  assert (∀ args, quiet (λ _, True) (load args)) as Q4.
  { intros [s|]; unfold load; simpl; [|eapply (quiet_bind (λ _, False)); [apply quiet_lift; done_or_fault|done]].
    eapply quiet_any; [by apply quiet_lift|]. intros n.
    eapply quiet_any; [apply quiet_open|]. intros d. eapply quiet_any; [apply quiet_swap|]. intros d'.
    eapply quiet_any; [apply quiet_close|]. intros _. eapply quiet_any; [apply quiet_isOpen|]. intros b. quiet. }
  unfold generateControlSequences. rewrite !lookup_insert, lookup_empty.
  repeat case_decide; intros [= <-]; auto.
Qed.

Lemma dbLine_quiet input : quiet (λ b, b = quits input) (dbLine files input).
Proof.
  destruct input as [|c line]; [by apply quiet_ret|]. unfold dbLine, quits.
  case_bool_decide as Hc; cbn [andb]; [|by quiet].
  destruct line as [|x line]; [by quiet|]. rewrite (bool_decide_false (x :: line = [])) by done.
  destruct (span_to " " (x :: line)) as [sequence behind]; cbn [fst]. case_bool_decide; [by apply quiet_ret|].
  destruct (generateControlSequences files !! sequence) as [f|] eqn:E; [|by quiet].
  eapply quiet_any; [by eapply quiet_sequence|]. intros _. by apply quiet_ret.
Qed.

(** What is typed: a newline after each line. *)
Definition typed_lines (ls : list text) : text := ls ≫= λ l, l ++ [NEWLINE].

Lemma getline_typed l r old :
  NEWLINE ∉ l → getline (opened (l ++ NEWLINE :: r)) old = (true, l, opened r).
Proof. intros Hl. unfold getline. simpl. by rewrite span_to_found. Qed.

Definition with_in (s : istream) (w : cworld) : cworld :=
  {| c_database := c_database w; c_disk := c_disk w; c_opened := c_opened w; c_closed := c_closed w;
     c_in := s; c_out := c_out w; c_queries := c_queries w |}.

Lemma dbLoop_step fuel input w b line s :
  getline (c_in w) input = (b, line, s) →
  dbLoop files (S fuel) input w =
  match dbLine files line (with_in s w) with
  | (Ok true, w') => (Ok tt, w')
  | (Ok false, w') => dbLoop files fuel line w'
  | (Raise e, w') => (Raise e, w')
  end.
Proof.
  intros E. cbn [dbLoop]. rewrite bindS_eq. unfold getS. rewrite E, bindS_eq. unfold setIn, modifyS. cbv beta iota.
  rewrite bindS_eq. destruct (dbLine files line _) as [[[]|e] w']; done.
Qed.

Lemma dbLine_outcome input w :
  c_in (dbLine files input w).2 = c_in w ∧
  ((dbLine files input w).1 = Ok (quits input) ∨ ∃ e, (dbLine files input w).1 = Raise e ∧ console_fault e).
Proof.
  destruct (dbLine_quiet input w) as [He Hin]. split; [done|].
  destruct (dbLine files input w).1 as [b|e]; simpl in He; [left; by subst|right; by eexists].
Qed.

Lemma dbLine_quits q w : quits q = true → dbLine files q w = (Ok true, w).
Proof.
  destruct q as [|c line]; [done|]. unfold quits, dbLine. case_bool_decide; [|done]. cbn [andb].
  destruct line as [|x line]; [done|]. rewrite (bool_decide_false (x :: line = [])) by done.
  destruct (span_to " " (x :: line)) as [sequence behind]; cbn [fst]. by case_bool_decide.
Qed.

(** Where the loop ends when [ls] and then the quitting line [q] are typed: behind
    [q], or in a fault behind the line that has it. *)
Definition loop_ended (ls : list text) (q after : text) (o : outcome unit) (s : istream) : Prop :=
  match o with
  | Ok _ => s = opened after
  | Raise e => console_fault e ∧ ∃ pre l post, ls = pre ++ l :: post ∧
                 s = opened (typed_lines post ++ q ++ NEWLINE :: after)
  end.

Lemma dbLoop_typed ls q after fuel input w :
  c_in w = opened (typed_lines ls ++ q ++ NEWLINE :: after) →
  Forall (λ l, NEWLINE ∉ l ∧ quits l = false) ls → NEWLINE ∉ q → quits q = true → (length ls < fuel)%nat →
  loop_ended ls q after (dbLoop files fuel input w).1 (c_in (dbLoop files fuel input w).2).
Proof.
  intros Hin HF Hq Hquit. revert fuel input w Hin.
  induction HF as [|l ls [Hl Hlq] _ IH]; intros fuel input w Hin Hf; (destruct fuel as [|fuel]; [simpl in Hf; lia|]).
  - simpl in Hin. rewrite (dbLoop_step _ _ _ true q (opened after)) by (rewrite Hin; by apply getline_typed).
    by rewrite dbLine_quits.
  - assert (typed_lines (l :: ls) ++ q ++ NEWLINE :: after = l ++ NEWLINE :: typed_lines ls ++ q ++ NEWLINE :: after) as E.
    { unfold typed_lines. simpl. by rewrite <- !app_assoc. }
    rewrite E in Hin.
    rewrite (dbLoop_step _ _ _ true l (opened (typed_lines ls ++ q ++ NEWLINE :: after)))
      by (rewrite Hin; by apply getline_typed).
    match goal with |- context [dbLine files l ?w1] => destruct (dbLine_outcome l w1) as [Hin' Ho] end.
    destruct (dbLine files l _) as [o w']. simpl in *. rewrite Hlq in Ho. destruct Ho as [->|(e & -> & He)].
    + specialize (IH fuel l w' Hin' ltac:(lia)). unfold loop_ended in *.
      destruct (dbLoop files fuel l w').1 as [[]|e]; [done|]. destruct IH as (He & pre & l' & post & -> & Hs).
      split; [done|]. by exists (l :: pre), l', post.
    + split; [done|]. by exists [], l, ls.
Qed.

Lemma dbLoop_stuck fuel input w :
  (if good (c_in w) then Forall (λ l, quits l = false) (input_lines (Streams.rest (c_in w))) else quits input = false) →
  (dbLoop files fuel input w).1 ≠ Ok tt.
Proof.
  revert input w. induction fuel as [|fuel IH]; intros input w Hw; [done|].
  assert (∃ b line s, getline (c_in w) input = (b, line, s) ∧ quits line = false ∧
    if good s then Forall (λ l, quits l = false) (input_lines (Streams.rest s)) else True) as (b & line & s & E & Hq & Hs).
  { unfold getline. destruct (good (c_in w)) eqn:Eg; [|by eexists _, _, _; rewrite Eg].
    rewrite input_lines_span in Hw. destruct (span_to NEWLINE _) as [l [|c r]].
    - eexists _, _, _. split; [done|]. split; [|done]. case_bool_decide; [by subst|].
      by apply Forall_cons in Hw as [? _].
    - apply Forall_cons in Hw as [? ?]. by eexists _, _, _. }
  rewrite (dbLoop_step _ _ _ b line s) by done.
  destruct (dbLine_outcome line (with_in s w)) as [Hin' Ho]. simpl in Hin'.
  destruct (dbLine files line _) as [o w']. simpl in *. rewrite Hq in Ho.
  destruct Ho as [->|(e & -> & He)]; [|done]. apply IH. rewrite Hin'. by destruct (good s).
Qed.

Lemma dbLoop_repeats n SQL w h :
  c_database w = Some h → good (c_in w) = false →
  SQL ≠ [] → head SQL ≠ Some BACKSLASH → (Z.of_nat (length SQL) < 2 ^ 31)%Z → (∀ h, ¬ hangs h SQL []) →
  (dbLoop files n SQL w).1 = Raise OutOfFuel ∧ c_queries (dbLoop files n SQL w).2 = c_queries w ++ replicate n SQL.
Proof.
  intros Hd Hg Hne Hh Hl Hends. revert w h Hd Hg. induction n as [|n IH]; intros w h Hd Hg.
  { simpl. by rewrite app_nil_r. }
  rewrite (dbLoop_step _ _ _ false SQL (c_in w)) by by apply getline_end.
  destruct (query_ok h SQL [] Hl (Hends h)) as (h' & code & r & E).
  destruct (printResult_printable r (query_printable _ _ _ _ _ _ E)) as [tbl Et].
  assert (∃ o, dbLine files SQL (with_in (c_in w) w) = (Ok false,
    {| c_database := Some h'; c_disk := c_disk w; c_opened := c_opened w; c_closed := c_closed w;
       c_in := c_in w; c_out := o; c_queries := c_queries w ++ [SQL] |})) as [o ->].
  { destruct SQL as [|c SQL]; [done|]. unfold dbLine. rewrite bool_decide_false by (by intros ->).
    rewrite (bindS_ok _ _ _ _ _ (queryDB_eq (with_in (c_in w) w) h (c :: SQL) [] h' code r Hd E)).
    unfold print. destruct (isOK code); rewrite !bindS_eq; unfold liftS; rewrite ?Et; by eexists. }
  match goal with |- context [dbLoop files n SQL ?w1] => destruct (IH w1 h') as [-> ->]; [done..|] end.
  split; [done|]. simpl. by rewrite <- app_assoc.
Qed.

(** ** [autoexec] and [load] *)

(** The SQL lines of a file that are executed, up to the first that fails or has no
    result, and what the database is then. *)
Fixpoint executed (h : handle) (lines : list text) : outcome unit * handle * list text :=
  match lines with
  | [] => (Ok tt, h, [])
  | line :: lines' =>
      if bool_decide (line = []) then executed h lines' else
      match query h line [] with
      | Ok (h', code, _) =>
          if isOK code then let '(o, h'', ls) := executed h' lines' in (o, h'', line :: ls)
          else (Ok tt, h', [line])
      | Raise e => (Raise e, h, [])
      end
  end.

Lemma autoexecLine_ok line h w h' code r :
  line ≠ [] → c_database w = Some h → query h line [] = Ok (h', code, r) →
  ∃ o, autoexecLine line w =
    (Ok (if isOK code then None else Some tt),
     {| c_database := Some h'; c_disk := c_disk w; c_opened := c_opened w; c_closed := c_closed w;
        c_in := c_in w; c_out := o; c_queries := c_queries w ++ [line] |}).
Proof.
  intros Hne Hd E. destruct (printResult_printable r (query_printable _ _ _ _ _ _ E)) as [tbl Et].
  unfold autoexecLine. rewrite bool_decide_false by done. rewrite bindS_eq. unfold out at 1, modifyS at 1.
  cbv beta iota. match goal with |- context [(queryDB line [] ≫= _) ?w1] =>
    rewrite (bindS_ok _ _ w1 _ _ (queryDB_eq w1 h line [] h' code r Hd E)) end. cbv beta iota.
  unfold print. destruct (isOK code); cbn [negb]; [|eexists; reflexivity].
  rewrite bindS_eq. case_bool_decide; rewrite ?bindS_eq; unfold liftS; rewrite ?Et; eexists; reflexivity.
Qed.

Lemma autoexecLine_lost line h w e :
  line ≠ [] → c_database w = Some h → query h line [] = Raise e →
  ∃ o, autoexecLine line w =
    (Raise e, {| c_database := Some h; c_disk := c_disk w; c_opened := c_opened w; c_closed := c_closed w;
                 c_in := c_in w; c_out := o; c_queries := c_queries w |}).
Proof.
  intros Hne Hd E. unfold autoexecLine. rewrite bool_decide_false by done. rewrite bindS_eq.
  unfold out, modifyS. cbv beta iota. rewrite bindS_eq. unfold queryDB. rewrite bindS_eq. unfold getS.
  cbn [c_database]. rewrite Hd, bindS_eq. unfold liftS. rewrite E. by eexists.
Qed.

Lemma autoexec_lines lines w h :
  c_database w = Some h →
  ∃ out r, forLines lines autoexecLine w =
    (_ ← (executed h lines).1.1; Ok r,
     {| c_database := Some (executed h lines).1.2; c_disk := c_disk w; c_opened := c_opened w; c_closed := c_closed w;
        c_in := c_in w; c_out := out; c_queries := c_queries w ++ (executed h lines).2 |}).
Proof.
  revert w h. induction lines as [|line lines IH]; intros w h Hd.
  - exists (c_out w), None. simpl. rewrite app_nil_r, <- Hd. by destruct w.
  - cbn [forLines executed]. destruct (bool_decide_reflect (line = [])) as [->|Hne].
    { rewrite bindS_eq. unfold autoexecLine at 1. rewrite bool_decide_true by done. by apply IH. }
    destruct (query h line []) as [[[h' code] r]|e] eqn:E.
    + destruct (autoexecLine_ok line h w h' code r Hne Hd E) as [o Eo]. rewrite bindS_eq, Eo.
      destruct (isOK code); [|by eexists _, _].
      match goal with |- context [forLines lines autoexecLine ?w1] => destruct (IH w1 h' eq_refl) as (o' & r' & ->) end.
      destruct (executed h' lines) as [[o1 h''] ls]. simpl. rewrite <- app_assoc. by eexists _, _.
    + destruct (autoexecLine_lost line h w e Hne Hd E) as [o Eo]. rewrite bindS_eq, Eo.
      exists o, None. simpl. by rewrite app_nil_r.
Qed.

(** Handles SQLite has given out that no object holds any more and nobody has closed. *)
Definition lost (w : cworld) : nat :=
  c_opened w - c_closed w - (if bool_decide (is_Some (c_database w)) then 1 else 0).
End console.

(** The console ends: once a line that is a double backslash comes, after any
    number of lines of SQL and control sequences, [db] returns and the rest of the
    input is still to be read, unless one of the lines faulted before. *)
Theorem db_returns `{SQLiteFiles, !SQLiteFacts} files ls q after fuel w :
  c_in w = opened (typed_lines ls ++ q ++ NEWLINE :: after) →
  Forall (λ l, NEWLINE ∉ l ∧ quits l = false) ls → NEWLINE ∉ q → quits q = true → (length ls < fuel)%nat →
  loop_ended ls q after (db files fuel w).1 (c_in (db files fuel w).2).
Proof. apply dbLoop_typed. Qed.

(** C33: an input without such a line never lets [db] return, not even when it
    ends: [getline] fails then, and nothing looks at that. *)
Theorem db_needs_quit `{SQLiteFiles, !SQLiteFacts} files fuel w :
  Forall (λ l, quits l = false) (input_lines (Streams.rest (c_in w))) → (db files fuel w).1 ≠ Ok tt.
Proof. intros Hl. apply dbLoop_stuck. by destruct (good (c_in w)). Qed.

(** a last line of SQL without a newline is executed again and again: once the
    input has ended, every further round sends the same statement. *)
Theorem db_repeats `{SQLiteFiles, !SQLiteFacts} files n SQL w h :
  c_database w = Some h → good (c_in w) = false →
  SQL ≠ [] → head SQL ≠ Some BACKSLASH → (Z.of_nat (length SQL) < 2 ^ 31)%Z → (∀ h, ¬ hangs h SQL []) →
  (dbLoop files n SQL w).1 = Raise OutOfFuel ∧ c_queries (dbLoop files n SQL w).2 = c_queries w ++ replicate n SQL.
Proof. apply dbLoop_repeats. Qed.

(** [autoexec] sends the lines of the file to the database one by one, skips
    empty lines, stops at the first line that fails, leaves the effects of the
    lines before it, and comes back unless a line has no result. *)
Theorem autoexec_executes `{SQLiteFiles, !SQLiteFacts} files name contents w h :
  files (c_str name) = Some contents → c_database w = Some h →
  let '(o, h', ls) := executed h (input_lines contents) in
  ∃ out, autoexec files (Some name) w =
    (o, {| c_database := Some h'; c_disk := c_disk w; c_opened := c_opened w; c_closed := c_closed w;
           c_in := c_in w; c_out := out; c_queries := c_queries w ++ ls |}).
Proof.
  intros Hf Hd. destruct (autoexec_lines (input_lines contents) w h Hd) as (o & r & E).
  destruct (executed h (input_lines contents)) as [[[[]|e] h'] ls]; cbn [fst snd] in E.
  all: unfold autoexec; rewrite bindS_eq; unfold liftS; cbn [c_string_of]; rewrite Hf, bindS_eq.
  all: rewrite whileLines_lines by (unfold line_fuel; simpl; lia); rewrite E; by eexists.
Qed.

(** C32: [load] closes the database that was open, exactly once, and takes the new
    one; when that cannot be opened the console is left without a database and
    the handle of the failed attempt is lost. *)
Theorem load_replaces `{SQLiteFiles} name w d code c :
  sqlite3_open (c_disk w) (Some (c_str name)) = (d, (code, c)) →
  (c_closed w + (if bool_decide (is_Some (c_database w)) then 1 else 0) ≤ c_opened w)%nat →
  ∃ w', load (Some name) w = (Ok tt, w') ∧
    c_database w' = (if isOK code then Some {| conn := c; live := 0 |} else None) ∧
    c_disk w' = (match c_database w with Some h => sqlite3_close d (conn h) | None => d end) ∧
    c_closed w' = (c_closed w + if bool_decide (is_Some (c_database w)) then 1 else 0)%nat ∧
    lost w' = (lost w + if isOK code then 0 else 1)%nat ∧ c_queries w' = c_queries w.
Proof.
  intros Eo Hb. unfold load. rewrite bindS_eq. unfold liftS at 1. simpl.
  rewrite bindS_eq. unfold openDB at 1. rewrite Eo, !bindS_eq.
  unfold swapDB, setDatabase, getS, modifyS. rewrite !bindS_eq. unfold mret at 1, ST_ret. cbv beta iota.
  unfold lost. destruct (c_database w) as [h|] eqn:Ed, (isOK code) eqn:Ek; simpl in *;
    eexists; (split; [reflexivity|]); simpl; rewrite ?Ed; simpl; split_and!; try done; lia.
Qed.

(** a control sequence typed without an argument hands on a view that begins
    behind the end of the line: "\dr" ends in an exception, "\ax" and "\ld" read
    where they must not. *)
Theorem missing_argument `{SQLiteFiles} files w :
  (dbLine files (T "\dr") w).1 = Raise LengthError ∧
  (dbLine files (T "\ax") w).1 = Raise UndefinedBehaviour ∧
  (dbLine files (T "\ld") w).1 = Raise UndefinedBehaviour.
Proof. split_and!; reflexivity. Qed.
