(* ===== verification/Startup.v ===== *)
(** The life of the server: the console it opens with ([Console.main]) hands the
    database over to the network part ([Net]). *)

From S2P Require Import Prelude CharConv Query Response Database Http Sql Auth Routes RouteLogic Policy Trace.
From S2P Require Import Net NetFacts Frames Effects Streams Console ConsoleFacts.

Lemma query_live `{SQLite, !SQLiteFacts} h SQL ps h' code r :
  query h SQL ps = Ok (h', code, r) → live h' = live h.
Proof.
  intros E. pose proof (query_outcome h SQL ps) as Ho. rewrite E in Ho. naive_solver.
Qed.

(** ** The console *)

Section console.
Context `{SQLiteFiles, !SQLiteFacts}.
Context (files : text → option text).

(** No statement of an open connection is left unfinished. *)
Definition finished (d : option handle) : Prop := ∀ h, d = Some h → live h = 0%nat.

Definition settled {A} (P : A → Prop) (m : ST cworld A) : Prop :=
  ∀ w, finished (c_database w) → finished (c_database (m w).2) ∧ ∀ a, (m w).1 = Ok a → P a.
Notation any := (λ _, True).

Lemma settled_bind {A B} P (Q : B → Prop) (m : ST cworld A) f :
  settled P m → (∀ a, P a → settled Q (f a)) → settled Q (m ≫= f).
Proof.
  intros Hm Hf w Hw. destruct (Hm w Hw) as [Hw1 HP]. rewrite bindS_eq.
  destruct (m w) as [[a|e] w1]; simpl in *; [by apply Hf; [apply HP|]|done].
Qed.
Lemma settled_any {A B} (Q : B → Prop) (m : ST cworld A) f : settled any m → (∀ a, settled Q (f a)) → settled Q (m ≫= f).
Proof. intros Hm Hf. by eapply settled_bind; [exact Hm|]. Qed.
Lemma settled_lift {A} (o : outcome A) : settled any (liftS o).
Proof. done. Qed.
Lemma settled_ret {A} (P : A → Prop) a : P a → settled P (mret a).
Proof. intros Ha w Hw. split; [done|]. by intros ? [= <-]. Qed.
Lemma settled_out s : settled any (out s).
Proof. done. Qed.
Lemma settled_query SQL ps : settled any (queryDB SQL ps).
Proof.
  intros w Hw. split; [|done]. unfold queryDB. rewrite bindS_eq. unfold getS.
  destruct (c_database w) as [h|] eqn:Ed; [|simpl; by rewrite Ed]. rewrite bindS_eq. unfold liftS.
  destruct (query h SQL ps) as [[[h' code] r]|e] eqn:E; simpl; [|by rewrite Ed].
  intros h1 [= <-]. rewrite (query_live _ _ _ _ _ _ E). by apply Hw.
Qed.
Lemma settled_open source : settled finished (openDB source).
Proof.
  intros w Hw. unfold openDB. destruct (sqlite3_open _ _) as [d [code c]]. split; [done|].
  intros a [= <-] h. by destruct (isOK code); [intros [= <-]|].
Qed.
Lemma settled_set d : finished d → settled any (setDatabase d).
Proof. by intros Hd w _. Qed.
Lemma settled_close d : settled any (closeDB d).
Proof. by destruct d. Qed.

Ltac settled :=
  repeat first
    [ apply settled_out | apply settled_lift | by apply settled_ret | apply settled_query | apply settled_close
    | eapply settled_any; [|intros ?]
    | match goal with
      | |- settled _ (if ?b then _ else _) => destruct b
      | |- settled _ (match ?x with _ => _ end) => destruct x
      | |- settled _ ?m => let h := head_of m in unfold h; cbv beta
      end ].

Lemma settled_while {A} (body : text → ST cworld (option A)) contents line :
  (∀ line, settled any (body line)) →
  settled any (whileLines (line_fuel (opened contents)) (opened contents) line body).
Proof.
  intros Hb w Hw. rewrite whileLines_lines by (unfold line_fuel; simpl; lia). revert w Hw.
  match goal with |- context [forLines ?l body] => generalize l end. intros lines.
  change (settled any (forLines lines body)). induction lines as [|l lines IH]; simpl; [by apply settled_ret|].
  eapply settled_any; [apply Hb|]. intros [a|]; [by apply settled_ret|exact IH].
Qed.

Lemma settled_load args : settled any (load args).
Proof.
  unfold load. eapply settled_any; [apply settled_lift|]. intros name.
  eapply settled_bind; [apply settled_open|]. intros temp Htemp.
  eapply (settled_any _ (swapDB temp)).
  { unfold swapDB. eapply settled_any; [done|]. intros w1. eapply settled_any; [by apply settled_set|]. intros _. by apply settled_ret. }
  intros old. eapply settled_any; [apply settled_close|]. intros _. eapply settled_any; [done|]. intros ok. settled.
Qed.

Lemma settled_sequence name f args : generateControlSequences files !! name = Some f → settled any (f args).
Proof.
  assert (settled any (autoexec files args)) as Ha.
  { unfold autoexec. eapply settled_any; [apply settled_lift|]. intros n. destruct (files n) as [contents|]; [|apply settled_out].
    eapply settled_any; [|intros; apply settled_out]. apply settled_while. intros line. settled. }
  pose proof (settled_load args) as Hl.
  assert (settled any (displayRows args)) as Hr by settled. assert (settled any (displayTables args)) as Ht by settled.
  unfold generateControlSequences. rewrite !lookup_insert, lookup_empty. repeat case_decide; by intros [= <-].
Qed.

Lemma settled_line input : settled any (dbLine files input).
Proof.
  destruct input as [|c line]; [by apply settled_ret|]. unfold dbLine. case_bool_decide; [|by settled].
  case_bool_decide; [by settled|]. destruct (span_to " " line) as [sequence behind]. case_bool_decide; [by apply settled_ret|].
  destruct (generateControlSequences files !! sequence) as [f|] eqn:E; [|by settled].
  eapply settled_any; [by eapply settled_sequence|]. intros _. by apply settled_ret.
Qed.

Lemma settled_loop fuel input : settled any (dbLoop files fuel input).
Proof.
  revert input. induction fuel as [|fuel IH]; intros input; [done|]. cbn [dbLoop].
  eapply settled_any; [done|]. intros w. destruct (getline (c_in w) input) as [[b line] s].
  eapply settled_any; [done|]. intros _. eapply settled_any; [apply settled_line|]. intros [|]; [by apply settled_ret|apply IH].
Qed.
End console.

(** ** The hand-over *)

(** The statement [main] ends with. *)
Definition admin_sql : text :=
  T "INSERT INTO USERS(ID, USERNAME, PASSWORD, PERMISSIONS) VALUES(0, " ++ [QUOTE] ++ T "ADMIN" ++ [QUOTE] ++ T ", :HAS, 3);".

Section startup.
Context `{SQLiteFiles, !SQLiteFacts}.
Context (files : text → option text).

Definition admin_params : params := [(T ":HAS", hash (T "ADMIN"))].

(** How it can fail to come back: on a null connection, or without end. *)
Definition admin_fails (e : fault) (d : option handle) : Prop :=
  match d with
  | None => e = UndefinedBehaviour
  | Some h => e = NeverReturns ∧ hangs h admin_sql admin_params
  end.

(** [main] behind the console. *)
Definition addAdmin : ST cworld bool :=
  '(status, _) ← queryDB admin_sql [(T ":HAS", hash (T "ADMIN"))];
  _ ← (if negb (isOK status) then outLine (T "Admin user not added.") else mret tt);
  mret true.

Lemma main_opened fuel w :
  main files fuel w =
  let '(d, (code, c)) := sqlite3_open (c_disk w) None in
  let w1 := {| c_database := if isOK code then Some {| conn := c; live := 0 |} else None; c_disk := d;
               c_opened := S (c_opened w); c_closed := c_closed w; c_in := c_in w;
               c_out := c_out w ++ (if isOK code then T "Database ready:" else T "Failed to open database.") ++ [NEWLINE];
               c_queries := c_queries w |} in
  if isOK code then (_ ← db files fuel; addAdmin) w1 else (Ok false, w1).
Proof.
  unfold main, openDB. rewrite bindS_eq. destruct (sqlite3_open _ _) as [d [code c]]. by destruct (isOK code).
Qed.

Lemma addAdmin_run w :
  match addAdmin w with
  | (Ok b, w') => b = true ∧ is_Some (c_database w') ∧ c_in w' = c_in w ∧ c_queries w' = c_queries w ++ [admin_sql] ∧
                  (finished (c_database w) → finished (c_database w'))
  | (Raise e, w') => w' = w ∧ admin_fails e (c_database w)
  end.
Proof.
  unfold addAdmin, queryDB. rewrite !bindS_eq. unfold getS. destruct (c_database w) as [h|] eqn:Ed; [|done].
  pose proof (query_outcome h admin_sql admin_params) as Ho. unfold admin_params in *. rewrite bindS_eq. unfold liftS at 1.
  destruct (query h admin_sql _) as [[[h' code] r]|e] eqn:E;
    [destruct Ho as (_ & Hlive & _)|by destruct e; [..|destruct Ho|]; try done; vm_compute in Ho].
  simpl. destruct (isOK code); simpl; (split_and!; [done|by eexists|done|done|]);
    intros Hf h1 [= <-]; rewrite Hlive; by apply Hf.
Qed.

(** C22: from the first line of the console to the hand-over: with a line that is a
    double backslash among the lines typed, the program comes to the network part,
    or stops at the message that SQLite could not open a database in memory, or
    it does not get through: at one of the lines before, whose successors are still
    to be read, by one of four faults (a null connection or missing argument, SQL
    beyond an [int], a statement without end); or behind the double backslash, at
    the administrator's INSERT, on a null connection or without end.  The network
    part is entered with a database that is open and has no unfinished statement,
    with the administrator as the last statement answered, and with the rest of the
    input unread. *)
Theorem main_hands_over ls q after fuel w :
  c_in w = opened (typed_lines ls ++ q ++ NEWLINE :: after) →
  Forall (λ l, NEWLINE ∉ l ∧ quits l = false) ls → NEWLINE ∉ q → quits q = true → (length ls < fuel)%nat →
  match main files fuel w with
  | (Ok true, w') =>
      (∃ h, c_database w' = Some h ∧ live h = 0%nat) ∧ c_in w' = opened after ∧ last (c_queries w') = Some admin_sql
  | (Ok false, w') => isOK (sqlite3_open (c_disk w) None).2.1 = false ∧ c_in w' = c_in w ∧ c_queries w' = c_queries w
  | (Raise e, w') =>
      (console_fault e ∧ ∃ pre l post, ls = pre ++ l :: post ∧
         c_in w' = opened (typed_lines post ++ q ++ NEWLINE :: after)) ∨
      (c_in w' = opened after ∧ admin_fails e (c_database w'))
  end.
Proof.
  intros Hin Hls Hnl Hq Hf. rewrite main_opened. destruct (sqlite3_open _ _) as [d [code c]]. cbn [fst snd].
  destruct (isOK code); [|done]. match goal with |- context [(db files fuel ≫= _) ?w1] => set (w2 := w1) end.
  rewrite bindS_eq. pose proof (dbLoop_typed files ls q after fuel [] w2 Hin Hls Hnl Hq Hf) as Hdb.
  pose proof (settled_loop files fuel [] w2) as Hset. unfold db.
  destruct (dbLoop files fuel [] w2) as [[[]|e] w3]; [|by left]. cbn [fst snd loop_ended] in Hset, Hdb.
  pose proof (addAdmin_run w3) as Ha. destruct (addAdmin w3) as [[b|e] w4].
  - destruct Ha as (-> & [h Hh] & -> & -> & Hfin). split_and!; [|done|by rewrite last_snoc].
    exists h. split; [done|]. apply Hfin; [|done]. apply Hset. by intros h0 [= <-].
  - destruct Ha as [-> Ha]. by right.
Qed.

(** ** Its whole life *)

Context `{Curl, UnorderedMap}.

(** The worlds of a server started at the console in [w0]. *)
Inductive lifetime (w0 : cworld) : world → Prop :=
  | life_start fuel w1 h random :
      main files fuel w0 = (Ok true, w1) → c_database w1 = Some h →
      lifetime w0 {| w_db := h; w_sessions := ∅; w_random := random; w_trace := [] |}
  | life_serve w random fuel req chunks w' :
      lifetime w0 w → draws_ok random → body_pieces req chunks →
      serve fuel req chunks (reseed w random) = (Ok tt, w') → lifetime w0 w'.

#[local] Instance live_framed : Framed (λ w w' : world, live (w_db w') = live (w_db w)).
Proof.
  split; [done|congruence|done| |done|done].
  intros SQL ps w. unfold dbQuery. cbn [db_query sqlite_database].
  destruct (query (w_db w) SQL ps) as [[[h code] r]|e] eqn:E; [|done]. simpl. by eapply query_live.
Qed.

Lemma main_settled fuel w0 w1 h : main files fuel w0 = (Ok true, w1) → c_database w1 = Some h → live h = 0%nat.
Proof.
  rewrite main_opened. destruct (sqlite3_open _ _) as [d [code c]]. cbv zeta. destruct (isOK code); [|done].
  match goal with |- context [(db files fuel ≫= _) ?w1] => set (w2 := w1) end. rewrite bindS_eq.
  pose proof (settled_loop files fuel [] w2) as Hset. unfold db.
  destruct (dbLoop files fuel [] w2) as [[[]|e] w3]; [|done]. cbn [fst snd] in Hset.
  pose proof (addAdmin_run w3) as Ha. intros E. rewrite E in Ha. destruct Ha as (_ & _ & _ & _ & Hfin).
  apply Hfin, Hset. by intros h0 [= <-].
Qed.

(** C5: whatever the operator types and whatever requests come, the server runs on the
    database the console handed over and on no other: what the statements on
    record made of it.  No statement is ever left unfinished between requests, and
    every session belongs to a login this database confirmed. *)
Theorem server_lifetime w0 w :
  lifetime w0 w →
  (∃ fuel w1 h, main files fuel w0 = (Ok true, w1) ∧ c_database w1 = Some h ∧ replay h (w_trace w) = Some (w_db w)) ∧
  live (w_db w) = 0%nat ∧
  ∀ id ses, w_sessions w !! id = Some ses → (1 ≤ id < 2 ^ 64)%Z ∧ backed (w_trace w) ses.
Proof.
  intros Hw. assert (reachable w) as Hr.
  { induction Hw; [apply reach_start|by eapply reach_serve]. }
  split_and!; [| |intros id ses; by apply reachable_origin].
  - induction Hw as [fuel w1 h random Hm Hh|w random fuel req chunks w' Hw IH Hd Hb Hs]; [by exists fuel, w1, h|].
    destruct IH as (f & w1 & h & Hm & Hh & Hrep); [by clear -Hw; induction Hw; [apply reach_start|by eapply reach_serve]|].
    exists f, w1, h. split_and!; [done..|].
    pose proof (serve_framed (R := replayed) fuel req chunks (reseed w random)) as (evs & Ht & Hrep').
    rewrite Hs in Ht, Hrep'. cbn [snd reseed w_trace w_db] in *. by rewrite Ht, replay_app, Hrep.
  - clear Hr. induction Hw as [fuel w1 h random Hm Hh|w random fuel req chunks w' Hw IH Hd Hb Hs]; [by eapply main_settled|].
    pose proof (serve_framed (R := λ w w' : world, live (w_db w') = live (w_db w)) fuel req chunks (reseed w random)) as Hl.
    rewrite Hs in Hl. simpl in Hl. by rewrite Hl.
Qed.
End startup.
