(* ===== verification/Concrete.v ===== *)
(** Concrete instances of the interfaces, and inputs for the examples: a database
    that answers from a script, an SQLite with one table, a percent
    decoder, requests, sessions and worlds. *)

From S2P Require Import Prelude CharConv Query Response ResponseSpec Database Http Sql Auth Routes RouteLogic.
From S2P Require Import Policy RouteTheorems.

(** ** Databases *)

(** Every statement succeeds; the ones of the script give the rows listed, all
    others none. *)
Definition scripted_reply (script : list (text * list text)) (SQL : text) : SQLResult :=
  match list_find (λ e, e.1 = SQL) script with
  | Some (_, e) => {| colCount := default 0%nat (select_arity SQL); data := e.2; colNames := [] |}
  | None => empty_reply SQL
  end.

Definition scripted (script : list (text * list text)) : Database :=
  {| db_state := unit; db_query d SQL ps := Ok (d, (SQLITE_OK, scripted_reply script SQL)) |}.

Lemma emptyDatabase_answers `{UnorderedMap} r s req b :
  @answers emptyDatabase (contract_of r s req b).
Proof. intros d SQL ps d' code res [= _ <- <-]. split; [apply empty_shape|done]. Qed.

(** ** A map that keeps the order it was built in *)

Definition inOrder : UnorderedMap := {| iteration l := l; iteration_perm l := Permutation_refl l |}.

(** ** A percent decoder *)

Definition hex_value (c : ascii) : nat :=
  let n := nat_of_ascii c in if bool_decide (n < 58)%nat then n - 48 else n - 55.

(** Upper-case codes only, which is what forms are sent with. *)
Fixpoint unescape (s : text) : text :=
  match s with
  | "%"%char :: a :: b :: s' => ascii_of_nat (hex_value a * 16 + hex_value b) :: unescape s'
  | c :: s' => c :: unescape s'
  | [] => []
  end.

Definition percent : Curl := {| curl_easy_unescape := unescape |}.

Lemma hex_value_code c :
  match hex_code c with [a; b] => ascii_of_nat (hex_value a * 16 + hex_value b) = c | _ => False end.
Proof. revert c. all_bytes. Qed.

#[global] Instance percent_facts : @CurlFacts percent.
Proof.
  split; [done| |].
  - intros [[] [] [] [] [] [] [] []] s Hc; first [done|by destruct Hc].
  - intros c s. pose proof (hex_value_code c) as Hc. unfold hex_code in *. simpl in *. by rewrite Hc.
Qed.

(** ** A small SQLite: it accepts one statement, which has two columns and yields
    a fixed list of rows. *)

Record cursor := { pending : list (list text); current : list text }.

Definition one_table (rows : list (list text)) : SQLite := {|
  connection := unit;
  statement := cursor;
  sqlite3_prepare_v2 _ SQL :=
    if bool_decide (SQL = sql_login) then Some {| pending := rows; current := [] |} else None;
  sqlite3_bind_parameter_index _ name :=
    if bool_decide (name = T ":USR") then 1%Z else if bool_decide (name = T ":PWD") then 2%Z else 0%Z;
  sqlite3_bind_text st _ _ := st;
  sqlite3_column_count _ := 2%nat;
  sqlite3_column_name _ i := if (i =? 0)%nat then T "ID" else T "PERMISSIONS";
  sqlite3_step c st := match pending st with
                       | [] => (SQLITE_DONE, c, st)
                       | row :: rows => (SQLITE_ROW, c, {| pending := rows; current := row |})
                       end;
  sqlite3_column_text st i := current st !! i;
  rows_left _ st := Some (length (pending st));
|}.

Lemma one_table_facts rows : @SQLiteFacts (one_table rows).
Proof.
  split; [|done]. intros c st n [= <-]. destruct st as [p cur]. cbn [pending].
  revert cur. induction p as [|row p IH]; intros cur; [done|apply (IH row)].
Qed.

(** Another, whose every statement gives empty rows for ever. *)
Definition endless_table : SQLite := {|
  connection := unit;
  statement := unit;
  sqlite3_prepare_v2 _ _ := Some tt;
  sqlite3_bind_parameter_index _ _ := 1%Z;
  sqlite3_bind_text st _ _ := st;
  sqlite3_column_count _ := 1%nat;
  sqlite3_column_name _ _ := [];
  sqlite3_step c st := (SQLITE_ROW, c, st);
  sqlite3_column_text _ _ := None;
  rows_left _ _ := None;
|}.

Lemma endless_table_facts : @SQLiteFacts endless_table.
Proof. split; [done|]. intros [] [] _ n. by induction n. Qed.

Lemma one_table_columns rows : @SQLiteColumns (one_table rows).
Proof.
  split.
  - intros c SQL st cols. cbn. case_bool_decide as HS; [|done]. intros _ Hc. subst SQL.
    vm_compute in Hc. congruence.
  - done.
  - intros c SQL st ps st' r code c'. cbn. case_bool_decide as HS; [|done]. subst SQL.
    intros _ Hone. exfalso. revert Hone. by vm_compute.
Qed.

(** ** Requests and worlds *)

Definition get_request (url : text) (cookie query : text) : HttpRequest := {|
  getHeader name := if bool_decide (name = T "cookie") then cookie else [];
  getQuery := query; getUrl := url; getMethod := T "get" |}.

Definition post_request (url : text) (cookie : text) (size : Z) : HttpRequest := {|
  getHeader name := if bool_decide (name = T "cookie") then cookie
                    else if bool_decide (name = T "content-length") then to_string size else [];
  getQuery := []; getUrl := url; getMethod := T "post" |}.

(** A request of session 5. *)
Definition req5 : HttpRequest := get_request (T "/") (T "auth=5") [].

Definition session_of (user lev : Z) : session := {| authLevel_of := lev; userID := user |}.

(** A world in which session 5 is user 7 at the given level. *)
Definition world5 (D : Database) (d : @db_state D) (lev : Z) : @world D := {|
  w_db := d; w_sessions := {[ 5%Z := session_of 7 lev ]};
  w_random := λ n, (41 + Z.of_nat n mod 1000)%Z; w_trace := [] |}.

Definition form (fields : list (text * text)) : queryBase := {| elements := list_to_map fields |}.
