(* ===== verification/Witnesses.v ===== *)
(** Every theorem with hypotheses, applied where they hold. *)

From S2P Require Import Prelude CharConv Query Response ResponseSpec ResponseTotal ResponseFormat.
From S2P Require Import Database Http Sql Auth Routes RouteLogic.
From S2P Require Import RouteAuth RouteUser RouteParts RouteVehicle RouteServices RouteServiceViews.
From S2P Require Import Policy RouteLax RouteFacts RouteTheorems Trace Net NetFacts Security Behaviour Concrete.

(** Evaluate both sides, and nothing of the instances they mention. *)
Ltac by_running := lazymatch goal with |- ?a = ?b => vm_cast_no_check (@eq_refl _ b) end.

(** ** Wire formats *)

Definition fields1 : list (text * text) :=
  [(T "username", T "a&b=c d"); (T "password", []); (T "first name", T "x")].

(** The last name is not what the form called it. *)
Lemma parseURLValues_form_witness :
  let parsed := @parseURLValues percent (T "username=a%26b%3Dc+d&password=&first+name=x") in
  parsed = list_to_map [(T "username", T "a&b=c d"); (T "password", []); (T "first+name", T "x")] ∧
  parsed !! T "username" = Some (T "a&b=c d") ∧ parsed !! T "first+name" = Some (T "x").
Proof.
  assert (NoDup (fields1.*1)) as HN by by_decision.
  destruct (@parseURLValues_form percent percent_facts fields1 HN) as [E Hk]. split; [exact E|]. split.
  - apply (Hk (T "username") (T "a&b=c d")). by left.
  - apply (Hk (T "first name") (T "x")). by right; right; left.
Defined.

Definition tree1 : responseWrapper :=
  RW [(T "ID", Strings [T "7"]); (T "Vehicles", Objects [RW [(T "Plate", Strings [T "AB 12"])] [false]])]
     [false; true].

Lemma tree1_wf : wf tree1.
Proof. repeat constructor; discriminate. Qed.

Lemma fromData_toData_witness :
  fromData (T "{ID:7,Vehicles:[{Plate:AB 12}]}") = Ok (Some (normalise tree1)).
Proof.
  apply (fromData_toData tree1); [exact tree1_wf| |reflexivity|reflexivity].
  repeat constructor; by_decision.
Defined.

Lemma fromData_reprints_witness : ∃ s w',
  toData tree1 false = Ok s ∧ fromData s = Ok (Some w') ∧ toData w' false = Ok s.
Proof.
  destruct (fromData_reprints tree1 (compact tree1)) as (w' & Hr & _ & Hp);
    [exact tree1_wf|repeat constructor; by_decision|reflexivity|by_decision|].
  exists (compact tree1), w'. split; [reflexivity|]. split; [exact Hr|exact Hp].
Defined.

Lemma fromData_printable_witness : ∃ s, toData tree1 true = Ok s.
Proof. apply (fromData_printable (T "{ID:7,Vehicles:[{Plate:AB 12}]}") tree1 true). reflexivity. Defined.

Lemma open_brace_crashes_witness :
  ∃ w s, add emptyWrapper (T "Notes") (T "{" ++ T "oil") false = Ok w ∧ toData w false = Ok s ∧
         fromData s = Raise UndefinedBehaviour.
Proof. apply (open_brace_crashes (T "Notes") (T "oil")); by_decision. Defined.

Lemma fromUnformattedData_toData_witness :
  ∃ s s', toData tree1 true = Ok s ∧ toData tree1 false = Ok s' ∧ fromUnformattedData s = fromData s'.
Proof.
  do 2 eexists. split; [reflexivity|]. split; [reflexivity|].
  eapply (fromUnformattedData_toData tree1); [exact tree1_wf| |reflexivity|reflexivity].
  repeat constructor; by_decision.
Defined.

Lemma parseCookies_header_witness :
  cookie_get (parseCookies (T "theme=dark; auth=5")) (T "auth") = T "5".
Proof.
  apply (parseCookies_header [(T "theme", T "dark"); (T "auth", T "5")] (T "auth")).
  - repeat constructor; try by_decision; intros ? ? [= <- _]; reflexivity.
  - by_decision.
Defined.

(** ** SQL *)

Lemma generateUpdateStatement_injection_witness :
  generateUpdateStatement
    {| elements := {[ T "plate" := T "X" ++ [QUOTE] ++ T "," ++ T "OWNER" ++ T " = " ++ [QUOTE] ++ T "1" ]} |}
    [(T "plate", T "PLATE")]
  = generateUpdateStatement {| elements := {[ T "plate" := T "X"; T "owner" := T "1" ]} |}
      [(T "plate", T "PLATE"); (T "owner", T "OWNER")].
Proof. apply (generateUpdateStatement_injection (T "plate") (T "PLATE") (T "owner") (T "OWNER") (T "X") (T "1")); by_decision. Defined.

Definition rows2 : list (list text) := [[T "7"; T "2"]; [T "8"; T "1"]].
Definition handle0 : @handle (one_table rows2) := {| conn := tt : @connection (one_table rows2); live := 0 |}.
Definition login_params : params := [(T ":USR", T "ann"); (T ":PWD", hash (T "pw"))].

Definition endless0 : @handle endless_table := {| conn := tt : @connection endless_table; live := 0 |}.

Lemma query_returns_witness :
  (∃ h' code r, @query (one_table rows2) handle0 sql_login login_params = Ok (h', code, r) ∧
    @live (one_table rows2) h' = 0%nat) ∧
  @query endless_table endless0 sql_login login_params = Raise NeverReturns ∧
  @hangs endless_table endless0 sql_login login_params.
Proof.
  pose proof (@query_returns (one_table rows2) (one_table_facts rows2) handle0 sql_login login_params) as H1.
  pose proof (@query_returns endless_table endless_table_facts endless0 sql_login login_params) as H2.
  assert (@query endless_table endless0 sql_login login_params = Raise NeverReturns) as E by reflexivity.
  split; [|split; [exact E|by rewrite E in H2; destruct H2]].
  destruct (@query (one_table rows2) handle0 sql_login login_params) as [[[h' code] r]|e] eqn:E1; [|by vm_compute in E1].
  exists h', code, r. split; [reflexivity|]. by destruct H1 as (_ & -> & _).
Defined.

Lemma query_cells_witness :
  ∃ h' r, @query (one_table rows2) handle0 sql_login login_params = Ok (h', SQLITE_OK, r) ∧
    rowCount r = Ok 2%nat ∧
    ∀ i j row c, rows2 !! i = Some row → row !! j = Some c → get r i j = Ok c.
Proof.
  apply (@query_cells (one_table rows2) (one_table_facts rows2) handle0 sql_login login_params
           {| pending := rows2; current := [] |} {| pending := rows2; current := [] |} rows2 tt);
    [reflexivity|reflexivity|reflexivity|discriminate|].
  apply (@yields_row (one_table rows2) 2 tt _ tt {| pending := [[T "8"; T "1"]]; current := [T "7"; T "2"] |});
    [reflexivity|].
  apply (@yields_row (one_table rows2) 2 tt _ tt {| pending := []; current := [T "8"; T "1"] |});
    [reflexivity|].
  by apply (@yields_end (one_table rows2) 2 tt {| pending := []; current := [T "8"; T "1"] |} SQLITE_DONE tt
           {| pending := []; current := [T "8"; T "1"] |}).
Defined.

(** ** Parameters of the concrete runs *)

#[local] Existing Instance inOrder.
#[local] Existing Instance percent.

(** ** Logging in *)

(** The database that knows one account: number 7, level 2. *)
Definition accounts : Database := scripted [(sql_login, [T "7"; T "2"])].
Definition login_form : queryBase := form [(T "username", T "ann"); (T "password", T "pw")].

Definition draws (n : nat) : Z := (41 + Z.of_nat n mod 1000)%Z.
Lemma draws_range n : (1 ≤ draws n < 2 ^ 64)%Z.
Proof. unfold draws. pose proof (Z.mod_pos_bound (Z.of_nat n) 1000). lia. Qed.

Definition start (D : Database) (d : @db_state D) : @world D :=
  {| w_db := d; w_sessions := ∅; w_random := draws; w_trace := [] |}.

Lemma accounts_match s :
  @login_matches accounts login_form
    {| w_db := tt : @db_state accounts; w_sessions := s; w_random := draws; w_trace := [] |}
    (session_of 7 2).
Proof.
  exists (T "ann"), (T "pw"), tt, SQLITE_OK,
    {| colCount := 2; data := [T "7"; T "2"]; colNames := [] |}, (T "7"), (T "2"), 2%Z.
  split_and!; by_running.
Qed.

(** A route that logs the field "a" of the form it is given. *)
Definition log_a (req : HttpRequest) (b q : queryBase) : @M emptyDatabase unit :=
  @log emptyDatabase (default [] (elements b !! T "a")).

Lemma callWrapper_pieces_witness :
  @callWrapper emptyDatabase percent log_a (post_request (T "/request") [] 7)
    [(T "a=", false); (T "ab", false); (T "&b=", true)] (start emptyDatabase tt)
  = log_a (post_request (T "/request") [] 7) (mkQuery (T "a=ab&b=")) (mkQuery []) (start emptyDatabase tt).
Proof.
  apply (@callWrapper_pieces emptyDatabase percent log_a (post_request (T "/request") [] 7)
           [T "a="; T "ab"] (T "&b=")). vm_compute. discriminate.
Defined.

Lemma drawLoop_fresh_witness :
  ∃ val w', @drawLoop accounts 2 {[ 41%Z := session_of 1 0 ]} (start accounts tt) = (Ok val, w') ∧
    ({[ 41%Z := session_of 1 0 ]} : gmap Z session) !! val = None ∧
    @w_sessions accounts w' = ∅.
Proof.
  apply (@drawLoop_fresh accounts 2 {[ 41%Z := session_of 1 0 ]} (start accounts tt) 1); [lia|by_running].
Defined.

Lemma request_sound_witness :
  let run := @request accounts 1 req5 login_form (start accounts tt) in
  (∀ id ses, @w_sessions accounts (start accounts tt) !! id = Some ses →
             getSessionID req5 ≠ Some id → @w_sessions accounts run.2 !! id = Some ses) ∧
  ∀ id ses, @w_sessions accounts run.2 !! id = Some ses → is_Some (@w_sessions accounts (start accounts tt) !! id) ∨
    @login_matches accounts login_form (start accounts tt) ses.
Proof.
  intros run.
  destruct (@request_sound accounts 1 req5 login_form (start accounts tt) run.1 run.2
              (surjective_pairing run)) as [Hkeep Hnew].
  split; [auto|]. intros id ses Hs. destruct (Hnew id ses Hs) as [?|(_ & ? & _)]; eauto.
Defined.

Lemma login_verify_witness :
  ∃ cookie w', @request accounts 1 req5 login_form (start accounts tt) = (Ok true, w') ∧
    EvHeader (T "Set-Cookie") cookie ∈ @w_trace accounts w' ∧
    (getHeader (get_request [] (T "auth=41") []) (T "cookie") = cookie →
     getSessionUser (@w_sessions accounts w') (get_request [] (T "auth=41") []) = Some 7%Z ∧
     ∀ l, verify (@w_sessions accounts w') (get_request [] (T "auth=41") []) l = (l <=? 2)%Z).
Proof.
  apply (@login_verify accounts 1 req5 login_form (start accounts tt) (session_of 7 2) 0).
  - apply accounts_match.
  - by_running.
  - lia.
  - by_running.
  - exact draws_range.
Defined.

(** ** The server *)

Lemma pair_run {A B} (p : A * B) a : p.1 = a → p = (a, p.2).
Proof. destruct p. by intros <-. Qed.

Definition login_body : text := encodeFields formEncode [(T "username", T "ann"); (T "password", T "pw")].
Definition login_request : HttpRequest := post_request (T "/request") [] (Z.of_nat (length login_body)).
Definition after_login : @world accounts :=
  (@serve accounts percent inOrder 1 login_request [(login_body, true)]
     (@reseed accounts (start accounts tt) draws)).2.

Lemma login_runs :
  @serve accounts percent inOrder 1 login_request [(login_body, true)]
     (@reseed accounts (start accounts tt) draws) = (Ok tt, after_login).
Proof. unfold after_login. apply pair_run. by_running. Qed.

Lemma after_login_reachable : @reachable accounts percent inOrder after_login.
Proof.
  apply (@reach_serve accounts percent inOrder (start accounts tt) draws 1 login_request [(login_body, true)]).
  - apply (@reach_start accounts percent inOrder tt draws).
  - exact draws_range.
  - right. by exists [], login_body.
  - exact login_runs.
Qed.

Lemma session_origin_witness :
  (1 ≤ 41 < 2 ^ 64)%Z ∧ @backed (@w_trace accounts after_login) (session_of 7 2).
Proof.
  apply (@session_origin accounts percent inOrder after_login 41 (session_of 7 2));
    [exact after_login_reachable|by_running].
Defined.

Definition search_request : HttpRequest := get_request (T "/user/search") (T "auth=5") (T "username=").

Definition after_search : @world emptyDatabase :=
  (@serve emptyDatabase percent inOrder 1 search_request [] (world5 emptyDatabase tt 1)).2.

Lemma search_runs :
  @serve emptyDatabase percent inOrder 1 search_request [] (world5 emptyDatabase tt 1) = (Ok tt, after_search).
Proof. unfold after_search. apply pair_run. by_running. Qed.

Lemma serve_answers_once_witness :
  ∃ evs, @w_trace emptyDatabase after_search = [] ++ evs ∧ count_ends evs = 1%nat.
Proof.
  apply (@serve_answers_once emptyDatabase percent inOrder 1 search_request []
           (world5 emptyDatabase tt 1) after_search).
  - left. by_running.
  - exact search_runs.
Defined.

Lemma columnSizes_fit_witness :
  let r := {| colCount := 2; data := [T "7"; T "ann"; T "12"; T "bo"]; colNames := [] |} in
  ∃ sizes, columnSizes r = Ok sizes ∧ length sizes = 2%nat ∧
    ∀ i j, (i < 2)%nat → (j < 2)%nat → (length (cell r i j) ≤ width sizes j)%nat.
Proof. intros r. apply (columnSizes_fit 2 2 r). by repeat split. Defined.

(** ** All data routes *)

Lemma route_guarded_witness :
  ∃ evs, @w_trace emptyDatabase (@handler emptyDatabase inOrder R_createSupplier req5
      (form [(T "name", T "ACME")]) (form []) (world5 emptyDatabase tt 1)).2 = [] ++ evs ∧
    Forall (λ ev, is_query ev = false) evs.
Proof.
  apply (@route_guarded emptyDatabase inOrder R_createSupplier manager req5
           (form [(T "name", T "ACME")]) (form []) (world5 emptyDatabase tt 1)); by_running.
Defined.

Lemma route_completes_witness :
  let run := @handler emptyDatabase inOrder R_createSupplier req5
      (form [(T "name", T "ACME")]) (form []) (world5 emptyDatabase tt 2) in
  (∃ evs, run.1 = Ok tt ∧ @w_trace emptyDatabase run.2 = [] ++ evs ∧ count_ends evs = 1%nat) ∨
  (∃ e, run.1 = Raise e ∧ fault_of R_createSupplier = Some e) ∨
  (∃ e evs, run.1 = Raise e ∧ @w_trace emptyDatabase run.2 = [] ++ evs ∧ lost evs e).
Proof.
  apply (@route_completes emptyDatabase inOrder R_createSupplier req5 (form [(T "name", T "ACME")])
           (form []) (world5 emptyDatabase tt 2)).
  apply emptyDatabase_answers.
Defined.

Lemma sqlite_answers_witness :
  @answers (@sqlite_database (one_table rows2)) (contract_of R_searchUsers ∅ req5 (form [])).
Proof.
  apply (@sqlite_answers (one_table rows2) (one_table_facts rows2) (one_table_columns rows2)
           R_searchUsers ∅ req5 (form []) inOrder).
Defined.

(** ** Single routes *)

Definition owner8 : Database := scripted [(sql_vehicleOwner, [T "8"])].
Definition level3 : Database := scripted [(sql_userPermissions, [T "3"])].
Definition level1 : Database := scripted [(sql_userPermissions, [T "1"])].
Definition quantity5 : Database := scripted [(sql_entryQuantity, [T "5"])].
Definition pending4 : Database := scripted [(sql_findUnauthorised, [T "4"])].

(** An open service of user 7, number 21, in the columns of the search. *)
Definition open21 : Database :=
  scripted [(sql_searchOpen true, [T "a"; T "b"; T "c"; T "d"; T "e"; T "f"; T "g"; T "h"; T "i"; T "21"])].

Lemma searchServices_own_witness :
  ∃ evs, @w_trace open21 (@searchServices open21 req5 (form [])
      (form [(T "UID", T "7"); (T "open", [])]) (world5 open21 tt 0)).2 = [] ++ evs ∧
    ∀ before ev after SQL ps, evs = before ++ ev :: after → asked ev = Some (SQL, ps) →
      @own_services open21 (world5 open21 tt 0) req5 before SQL ps.
Proof.
  apply (@searchServices_own open21 req5 (form [])
           (form [(T "UID", T "7"); (T "open", [])]) (world5 open21 tt 0)).
  by_running.
Defined.

Definition one_cell (v : text) : SQLResult := {| colCount := 1; data := [v]; colNames := [] |}.

Lemma one_cell_shape v : shape 1 1 (one_cell v).
Proof. by repeat split. Qed.

Lemma vehicle_denied_witness :
  ∃ w', @handler owner8 inOrder R_deleteVehicle req5
      (form [(T "ID", T "3")]) (form []) (world5 owner8 tt 0) = (Ok tt, w') ∧
    @w_trace owner8 w' =
      [] ++ [EvQuery sql_vehicleOwner [(T ":ID", T "3")] SQLITE_OK (one_cell (T "8"));
             EvStatus FORBIDDEN; EvEnd []].
Proof.
  apply (@vehicle_denied owner8 inOrder R_deleteVehicle req5
           (form [(T "ID", T "3")]) (form []) (world5 owner8 tt 0) (T "3") tt SQLITE_OK (one_cell (T "8")) (T "8"));
    first [by_running | unfold field; by_running | by right | by_decision].
Defined.

Lemma deleteUser_superior_witness :
  ∃ w', @deleteUser level3 req5
      (form [(T "ID", T "1")]) (form []) (world5 level3 tt 1) = (Ok tt, w') ∧
    @w_trace level3 w' =
      [] ++ [EvQuery sql_userPermissions [(T ":ID", T "1")] SQLITE_OK (one_cell (T "3"));
             EvStatus FORBIDDEN; EvEnd []].
Proof.
  apply (@deleteUser_superior level3 req5
           (form [(T "ID", T "1")]) (form []) (world5 level3 tt 1) (T "1") tt SQLITE_OK (one_cell (T "3")) (T "3") 3);
    first [apply one_cell_shape | by_running | unfold field; by_running | by_decision].
Defined.

Lemma updateUser_unchecked_witness :
  ∃ w' rest, @updateUser level1 inOrder req5
      (form [(T "ID", T "7"); (T "permissions", T "3")]) (form []) (world5 level1 tt 1) = (Ok tt, w') ∧
    @w_trace level1 w' = [] ++ rest ∧
    queries rest = [(sql_userPermissions, [(T ":ID", T "7")]);
                    (sql_updateUser (T "PERMISSIONS = " ++ quoted (T "3")), [(T ":ID", T "7")])].
Proof.
  eapply (@updateUser_unchecked level1 inOrder req5
            (form [(T "ID", T "7"); (T "permissions", T "3")]) (form []) (world5 level1 tt 1) (T "7") (T "1") (T "3")
            tt SQLITE_OK (one_cell (T "1")) tt SQLITE_OK _ 1);
    first [apply one_cell_shape | by_decision | reflexivity | by_running | unfold field; by_running].
Defined.

Lemma removePart_quantity_witness :
  ∃ w' rest, @removePartFromService quantity5 req5
      (form [(T "entry", T "9"); (T "quantity", T "2")]) (form []) (world5 quantity5 tt 1) = (Ok tt, w') ∧
    @w_trace quantity5 w' = [] ++ rest ∧
    queries rest = [(sql_entryQuantity, [(T ":ID", T "9")]);
                    (sql_decreaseQuantity, [(T ":QNT", T "2"); (T ":ID", T "9")])].
Proof.
  eapply (@removePart_quantity quantity5 req5
            (form [(T "entry", T "9"); (T "quantity", T "2")]) (form []) (world5 quantity5 tt 1) (T "9")
            tt SQLITE_OK (one_cell (T "5")) (T "5") 5 (T "2") 2 tt SQLITE_OK);
    first [apply one_cell_shape | lia | by_decision | reflexivity | by_running | unfold field; by_running].
Defined.

Lemma authorise_moves_witness :
  ∃ w' rest, @authoriseRequest pending4 req5
      (form [(T "ID", T "4"); (T "quote", T "100")]) (form []) (world5 pending4 tt 2) = (Ok tt, w') ∧
    @w_trace pending4 w' = [] ++ rest ∧
    queries rest = [(sql_findUnauthorised, [(T ":ID", T "4")]);
                    (sql_deleteUnauthorised, [(T ":ID", T "4")]);
                    (sql_createActive, [(T ":ID", T "4"); (T ":NOT", []); (T ":UID", T "7"); (T ":QOT", T "100")]);
                    (sql_createOpen, [])].
Proof.
  eapply (@authorise_moves pending4 req5
            (form [(T "ID", T "4"); (T "quote", T "100")]) (form []) (world5 pending4 tt 2) (T "4") (T "100") 7
            tt SQLITE_OK (one_cell (T "4")) 1 tt SQLITE_OK _ tt SQLITE_OK _ tt SQLITE_OK);
    first [apply one_cell_shape | by_decision | reflexivity | by_running | unfold field; by_running].
Defined.

Lemma registerUser_mismatch_witness :
  @emits accounts unit (@registerUser accounts 1 req5 login_form (form [])) (λ _ evs,
    queries evs = [(sql_registerUser, [(T ":USR", T "ann"); (T ":PAS", T "pw")]);
                   (sql_login, [(T ":USR", T "ann"); (T ":PWD", hash (T "pw"))])] ∨
    ∃ e, evs = [EvLost sql_registerUser [(T ":USR", T "ann"); (T ":PAS", T "pw")] e]) ∧
  hash (T "pw") ≠ T "pw".
Proof.
  apply (@registerUser_mismatch accounts 1 req5 login_form (form []) (T "ann") (T "pw"));
    first [by_running | unfold field; by_running | by_decision].
Defined.

Lemma checkSession_stale_witness :
  ∃ w', @checkSession emptyDatabase req5 (start emptyDatabase tt) = (Raise BadOptionalAccess, w') ∧
    @w_trace emptyDatabase w' = [] ++ [EvStatus OK].
Proof. apply (@checkSession_stale emptyDatabase req5 (start emptyDatabase tt) 5); by_running. Defined.

Definition suppliers : list text := [T "1"; T "ACME"; T "555"; T "a@b"; T "2"; T "Bolts"; T "556"; T "NULL"].
Definition suppliersDb : Database := scripted [(sql_searchSuppliers, suppliers)].
Definition suppliers_result : SQLResult := {| colCount := 4; data := suppliers; colNames := [] |}.

Lemma searchSuppliers_answer_witness :
  ∃ w' line answer, @searchSuppliers suppliersDb req5 (form [])
      (form [(T "searchterm", T "a")]) (world5 suppliersDb tt 1) = (Ok tt, w') ∧
    @w_trace suppliersDb w' = [] ++
      [EvLog line; EvQuery sql_searchSuppliers [(T ":VAL", generateLIKEArgument (T "a"))] SQLITE_OK suppliers_result;
       EvTryEnd answer] ∧
    fromData answer = Ok (Some (RW [(T "Suppliers",
      Objects ((λ i, record_of suppliers_result i supplierKeys) <$> seq 0 2))] [true])).
Proof.
  eapply (@searchSuppliers_answer suppliersDb req5 (form [])
            (form [(T "searchterm", T "a")]) (world5 suppliersDb tt 1) (T "a") tt SQLITE_OK suppliers_result 2);
    first [by repeat split | by_decision | reflexivity | by_running | unfold field; by_running].
Defined.
