(* ===== verification/PageWitnesses.v ===== *)
(** The theorems on the translator and on the console, applied where their
    hypotheses hold. *)

From S2P Require Import Prelude CharConv Query Response ResponseSpec Database Double Http Sql Auth Routes RouteLogic.
From S2P Require Import RouteAuth RouteParts Policy RouteTheorems Trace Net NetFacts Security Behaviour Concrete.
From S2P Require Import Effects Htmt HtmtTotal HtmtRender HtmtPrint HtmtRoundTrip.
From S2P Require Import Handles HandleFacts Streams Translator TranslatorFacts NoHandle LinkFacts Pages Console ConsoleFacts.
From S2P Require Import Witnesses.

(** ** A back-end server that always answers the same *)

Definition cookieServer : Libcurl := {|
  easy_init_ok _ := true;
  transfer _ _ := {| header_lines := [T "HTTP/1.1 200 OK" ++ CRLF; T "Set-Cookie: auth=5" ++ CRLF; CRLF];
                     body_chunks := [T "Welc"; T "ome"]; code := 200; total_time := double_zero |} |}.

Lemma cookieServer_lines before req : Forall header_line (header_lines (@transfer cookieServer before req)).
Proof.
  apply Forall_cons_2; [|apply Forall_cons_2; [|apply Forall_cons_2; [|apply Forall_nil_2]]].
  - left. by apply (bool_decide_unpack _); vm_compute.
  - right. exists (T "Set-Cookie"), (T "auth=5"). split; [by apply (bool_decide_unpack _); vm_compute|reflexivity].
  - left. by apply (bool_decide_unpack _); vm_compute.
Qed.

Definition loginPage : translation := Translation M_always (TagName []) [V_HTML (T "<b>")].
Definition quietWorld : tworld := {| t_heap := emptyHeap; t_events := [] |}.

Lemma servePage_forwards_witness :
  @forwards cookieServer (@page_answer percent loginPage (post_request (T "/request") (T "auth=4") 3)) quietWorld
    (request_for true (T "localhost:9001/request") (T "auth=4") (T "abc"))
    (@servePage percent cookieServer 2 (ForwardingPage loginPage (T "/request"))
       (post_request (T "/request") (T "auth=4") 3) [(T "a", false); (T "bc", true)] quietWorld).
Proof.
  apply (@servePage_forwards percent cookieServer 2 loginPage (T "/request")
    (post_request (T "/request") (T "auth=4") 3) [(T "a", false); (T "bc", true)] quietWorld).
  - reflexivity.
  - apply cookieServer_lines.
  - apply owned_empty.
  - right. exists [T "a"], (T "bc"). reflexivity.
Defined.

Lemma serveForward_forwards_witness :
  @forwards cookieServer written_back quietWorld
    (request_for true (T "localhost:9001/request") (T "auth=4") (T "abc"))
    (@serveForward cookieServer 2
       (post_request (T "/request") (T "auth=4") 3) [(T "a", false); (T "bc", true)] quietWorld).
Proof.
  apply (@serveForward_forwards cookieServer 2
    (post_request (T "/request") (T "auth=4") 3) [(T "a", false); (T "bc", true)] quietWorld).
  - reflexivity.
  - apply cookieServer_lines.
  - apply owned_empty.
  - right. exists [T "a"], (T "bc"). reflexivity.
Defined.

Definition exhausted : Libcurl := {| easy_init_ok _ := false; transfer := @transfer cookieServer |}.

Lemma servePage_unavailable_witness :
  let req := post_request (T "/request") (T "auth=4") 3 in
  let '(page, warnings) := applied loginPage emptyWrapper 0 (@mkQuery percent (getQuery req)) in
  let '(o, w') := @servePage percent exhausted 2 (ForwardingPage loginPage (T "/request")) req
                    [(T "a", false); (T "bc", true)] quietWorld in
  o = (_ ← page; Ok tt) ∧ sent (t_heap w') = [] ∧
  t_events w' = [] ++ EvStatus (T "0") :: (EvLog <$> warnings) ++
    match page with Ok shown => [EvTryEnd shown] | Raise _ => [] end ∧
  (o = Ok tt → handles (t_heap w') = ∅ ∧ objects (t_heap w') = ∅).
Proof.
  apply (@servePage_unavailable percent exhausted 2 loginPage (T "/request") _ _ quietWorld).
  - reflexivity.
  - right. exists [T "a"], (T "bc"). reflexivity.
Defined.

Lemma wrappers_safe_witness :
  let ops := [New 0 (T "localhost:9001/a"); Move 1 0; Cookies 1 (T "auth=5"); Post 1 (T "x"); Assign 1 1; Get 1;
              Destroy 0; Destroy 1] in
  scoped ∅ ops = Some ∅ ∧
  ∃ s, @run cookieServer ops emptyHeap = (Ok tt, s) ∧ owned s ∧ dom (objects s) = ∅ ∧ (∅ = (∅ : gset nat) → handles s = ∅).
Proof.
  split; [reflexivity|].
  apply (@wrappers_safe cookieServer _ ∅ cookieServer_lines). reflexivity.
Defined.

(** ** Templates *)

Definition nested : list translationValue :=
  [V_HTML (T "<p>");
   V_translation (Translation M_tag (TagName (T "Groups"))
     [V_access (T "Name");
      V_translation (Translation M_tag (TagName (T "Parts")) [V_HTML (T " <i>"); V_access (T "ID"); V_HTML (T "</i>")]);
      V_translation (Translation M_condition
        (TagCondition {| conditions := [{| action := notEqual; constant := T "NULL"; variable := T "Notes" |};
                                        {| action := equal; constant := T "1"; variable := T "ID" |}];
                         conjunctions := [or_] |}) [V_query (T "searchterm")])]);
   V_translation (Translation M_code (TagCode 404) [V_HTML (T "none")]);
   V_translation (Translation M_always (TagName []) [])].

(** Decide a list of conditions on concrete texts. *)
Ltac decided := first [done | by apply (bool_decide_unpack _); vm_compute].

Lemma parse_prints_witness :
  parse (T "<p><HTMT:Groups><HTMTVAL:Name><HTMT:Parts> <i><HTMTVAL:ID></i></HTMT><HTMTCOND:Notes!NULL|ID=1><HTMTQUERY:searchterm></HTMTCOND></HTMT><HTMTCODE:404>none</HTMTCODE><HTMT:></HTMT>")
  = Ok (Translation M_always (TagName []) nested).
Proof.
  apply (parse_prints nested).
  - repeat match goal with
    | |- Forall writable _ => constructor
    | |- writable _ => constructor
    | |- tag_ok _ _ => cbn [tag_ok]
    | |- _ ∧ _ => split
    | |- Forall sub_ok _ => constructor
    | |- sub_ok _ => cbn [sub_ok action]
    | |- separate _ => exact I
    | |- html_ok _ => split_and!; [discriminate|reflexivity|reflexivity]
    | _ => decided
    end.
  - exact I.
  - by vm_compute.
Defined.

Lemma applied_render_witness :
  (applied manageSuppliersTemplate (RW [(T "Suppliers", Strings [T "x"])] [false]) 404 emptyQuery).1 =
  Ok (render 404 emptyQuery (V_translation manageSuppliersTemplate) (RW [(T "Suppliers", Strings [T "x"])] [false])) ∧
  ∃ e, (applied manageSuppliersTemplate (RW [(T "Suppliers", Strings [T "x"])] [false]) 200 emptyQuery).1 = Raise e ∧
    (e = AssertFailed ∨ e = BadVariantAccess).
Proof.
  split.
  - exact (applied_render manageSuppliers manageSuppliersTemplate (RW [(T "Suppliers", Strings [T "x"])] [false]) 404
             emptyQuery parse_manageSuppliers).
  - exact (applied_render manageSuppliers manageSuppliersTemplate (RW [(T "Suppliers", Strings [T "x"])] [false]) 200
             emptyQuery parse_manageSuppliers).
Defined.

(** ** The link file *)

Definition someFiles (name : text) : option text :=
  if bool_decide (name = T "Link.txt")
  then Some (T "#PAGES" ++ [NEWLINE; NEWLINE] ++ T "GS:/login:Login.html" ++ [NEWLINE] ++
             T "PF:/request:Login.htmt" ++ [NEWLINE] ++ T "GF:/suppliers:M.htmt:/part/supplier/search" ++ [NEWLINE])
  else if bool_decide (name = T "Login.html") then Some (T "<form>") else None.

Definition someItems : list item :=
  [Skip; Skip; Link (StaticLink false (T "/login") (T "Login.html"));
   Link (ForwardLink true (T "/request") (T "Login.htmt") None);
   Link (ForwardLink false (T "/suppliers") (T "M.htmt") (Some (T "/part/supplier/search")))].

Definition emptyPage : translation := Translation M_always (TagName []) [].

Lemma linkPages_links_witness :
  ∃ after, linkPages someFiles (T "Link.txt") {| registered := []; console := [] |} =
    (Ok true, extended [(T "get", T "/login", StaticPage (T "<form>"));
                        (T "post", T "/request", ForwardingPage emptyPage (T "/request"));
                        (T "get", T "/suppliers", ForwardingPage emptyPage (T "/part/supplier/search"))]
                ((message <$> links_of someItems) ++ after) {| registered := []; console := [] |}) ∧
    (true = true → after = []).
Proof.
  eapply (linkPages_links someFiles (T "Link.txt") _ someItems); [reflexivity| |repeat constructor].
  replace (input_lines _) with [T "#PAGES"; []; T "GS:/login:Login.html"; T "PF:/request:Login.htmt";
    T "GF:/suppliers:M.htmt:/part/supplier/search"] by (vm_compute; reflexivity).
  repeat constructor; repeat split; try discriminate; try (right; reflexivity); decided.
Defined.

(** ** The list of suppliers *)

Definition suppliersAnswer : APIResponse :=
  {| headers := []; response := compact (supplierData suppliers_result 2 false); response_code := 200;
     responseTime := double_zero |}.

Lemma suppliers_page_witness :
  ∃ w' line answer, @searchSuppliers suppliersDb req5 (form [])
      (form [(T "searchterm", T "a")]) (world5 suppliersDb tt 1) = (Ok tt, w') ∧
    @w_trace suppliersDb w' = [] ++
      [EvLog line; EvQuery sql_searchSuppliers [(T ":VAL", generateLIKEArgument (T "a"))] SQLITE_OK suppliers_result;
       EvTryEnd answer] ∧
    (response suppliersAnswer = answer →
     ∀ tw, applyTranslation suppliersAnswer manageSuppliersTemplate emptyQuery tw =
     (Ok tt, plus_events tw (answer_headers suppliersAnswer ++ [EvTryEnd (supplierPage suppliers_result 2)]))).
Proof.
  eapply (@suppliers_page suppliersDb req5 (form [])
            (form [(T "searchterm", T "a")]) (world5 suppliersDb tt 1) (T "a") tt SQLITE_OK suppliers_result 2);
    first [by repeat split | by_decision | reflexivity | by_running | unfold field; by_running].
Defined.

(** ** The console *)

Definition someSQLite : SQLite := one_table [[T "7"; T "1"]; [T "12"; T "3"]].
Definition someSQLiteFacts : @SQLiteFacts someSQLite := one_table_facts _.
#[local] Existing Instances someSQLite someSQLiteFacts.

(** Every database opens but one. *)
#[local] Instance someDatabases : SQLiteFiles := {|
  disk := nat;
  sqlite3_open d source := (d, (if bool_decide (source = Some (T "bad")) then SQLITE_ERROR else SQLITE_OK, tt));
  sqlite3_close d _ := S d;
|}.

Definition theHandle : @handle someSQLite := @Build_handle someSQLite tt 0.

Definition consoleWorld (input : text) (good : bool) : cworld :=
  {| c_database := Some theHandle; c_disk := 0%nat; c_opened := 1; c_closed := 0;
     c_in := {| rest := input; good := good |}; c_out := []; c_queries := [] |}.

Definition noFiles (name : text) : option text := None.

Lemma db_returns_witness :
  let run := db noFiles 3
    (consoleWorld (T "SELECT 1" ++ [NEWLINE] ++ T "\dt" ++ [NEWLINE] ++ T "\\" ++ [NEWLINE] ++ T "rest") true) in
  loop_ended [T "SELECT 1"; T "\dt"] (T "\\") (T "rest") run.1 (c_in run.2).
Proof.
  apply (db_returns noFiles [T "SELECT 1"; T "\dt"] (T "\\") (T "rest") 3 (consoleWorld _ true)).
  - reflexivity.
  - repeat constructor; decided.
  - decided.
  - reflexivity.
  - simpl. lia.
Defined.

Lemma db_needs_quit_witness :
  (db noFiles 5 (consoleWorld (T "SELECT 1" ++ [NEWLINE] ++ T "\dt") true)).1 ≠ Ok tt.
Proof.
  apply (db_needs_quit noFiles 5 (consoleWorld (T "SELECT 1" ++ [NEWLINE] ++ T "\dt") true)).
  replace (input_lines _) with [T "SELECT 1"; T "\dt"] by (vm_compute; reflexivity).
  repeat constructor.
Defined.

(** A script whose second statement fails. *)
Definition script (name : text) : option text :=
  if bool_decide (name = T "setup.sql")
  then Some (sql_login ++ [NEWLINE; NEWLINE] ++ T "SELEC" ++ [NEWLINE] ++ sql_login ++ [NEWLINE]) else None.

Lemma autoexec_executes_witness :
  ∃ out, autoexec script (Some (T "setup.sql")) (consoleWorld [] true) =
    (Ok tt, {| c_database := Some theHandle; c_disk := 0%nat; c_opened := 1; c_closed := 0;
               c_in := {| rest := []; good := true |}; c_out := out; c_queries := [sql_login; T "SELEC"] |}).
Proof.
  pose proof (autoexec_executes script (T "setup.sql")
           (sql_login ++ [NEWLINE; NEWLINE] ++ T "SELEC" ++ [NEWLINE] ++ sql_login ++ [NEWLINE])
           (consoleWorld [] true) theHandle eq_refl eq_refl) as Ha.
  replace (input_lines _) with [sql_login; []; T "SELEC"; sql_login] in Ha by (vm_compute; reflexivity).
  exact Ha.
Defined.

Lemma load_replaces_witness :
  ∃ w', load (Some (T "bad")) (consoleWorld [] true) = (Ok tt, w') ∧
    c_database w' = None ∧ c_disk w' = 1%nat ∧ c_closed w' = 1%nat ∧ lost w' = 1%nat ∧ c_queries w' = [].
Proof.
  apply (load_replaces (T "bad") (consoleWorld [] true) 0%nat SQLITE_ERROR tt); [reflexivity|].
  vm_compute. lia.
Defined.

Definition someUsers : SQLResult :=
  {| colCount := 2; data := [T "7"; T "ann"; T "12"; T "bo"]; colNames := [T "ID"; T "NAME"] |}.

Lemma printResult_table_witness :
  ∃ ws n, length ws = 2%nat ∧
    printResult someUsers = Ok (tableLines ws someUsers 2 ≫= λ line, line ++ [NEWLINE]) ∧
    (∀ i j, (i < 2)%nat → (j < 2)%nat → (length (cell someUsers i j) ≤ width ws j)%nat) ∧
    Forall (λ line, length line = n) (tableLines ws someUsers 2).
Proof. apply (printResult_table someUsers 2 2); [by repeat split|done|done]. Defined.

Lemma db_repeats_witness :
  (dbLoop noFiles 3 sql_login (consoleWorld [] false)).1 = Raise OutOfFuel ∧
  c_queries (dbLoop noFiles 3 sql_login (consoleWorld [] false)).2 = [] ++ replicate 3 sql_login.
Proof.
  apply (db_repeats noFiles 3 sql_login (consoleWorld [] false) theHandle);
    [reflexivity|reflexivity|discriminate|discriminate|by vm_compute|].
  intros h (st & st' & Hp & Hb & He). vm_compute in Hp. injection Hp as <-. injection Hb as <-.
  by specialize (He 3%nat).
Defined.
