(* ===== verification/SystemWitnesses.v ===== *)
(** The theorems on whole requests at concrete inputs: one service, a request after a login, the site of the
    link file, and a browser, a translator and a server connected by a plain wire. *)

From S2P Require Import Prelude CharConv Query Response ResponseSpec Database Double DoubleFacts Http Sql Auth Routes.
From S2P Require Import RouteLogic RouteParts RouteServices RouteServiceViews Policy Net NetFacts Frames.
From S2P Require Import Security Behaviour ViewFacts Effects Htmt Handles HandleFacts Multi Streams Translator.
From S2P Require Import TranslatorFacts LinkFacts Pages Deployment System Console ConsoleFacts Startup Concrete Witnesses PageWitnesses.

(** ** One service *)

Definition sharedRow : list text := [T "4"; T "2"; T "7"; T "brakes"; T "2024-01-02"].
Definition activeRow : list text := [T "1.5"; T "ok"; T "9"; T "100"].
Definition partRows : list text := [T "bolt"; T "3"; T "4"; T "5"; T "pad"; T "6"; T "2"; T "50"].

Definition serviceDb : Database := scripted
  [(sql_selectShared, sharedRow); (sql_selectActive, activeRow); (sql_selectParts, partRows); (sql_selectOpen, [T "1"])].

Definition result_of (cols : nat) (cells : list text) : SQLResult :=
  {| colCount := cols; data := cells; colNames := [] |}.

Definition twoPrices (i : nat) : Z := match i with O => 5 | _ => 50 end.
Definition twoQuantities (i : nat) : Z := match i with O => 4 | _ => 2 end.

Lemma partRows_priced : priced (result_of 4 partRows) 2 3 2 twoPrices twoQuantities.
Proof.
  split; [intros [|[|i]] Hi; [split; [by_running|done]..|lia]|
          intros [|[|i]] Hi; [split; [by_running|done]..|lia]|done].
Qed.

Lemma selectService_authorised_witness :
  ∃ w' answer, @selectService serviceDb req5 (form []) (form [(T "ID", T "4")]) (world5 serviceDb tt 1) = (Ok tt, w') ∧
    @w_trace serviceDb w' = [] ++
      [EvQuery sql_selectShared [(T ":ID", T "4")] SQLITE_OK (result_of 5 sharedRow);
       EvQuery sql_selectUnauthorised [(T ":ID", T "4")] SQLITE_OK (result_of 1 []);
       EvQuery sql_selectActive [(T ":ID", T "4")] SQLITE_OK (result_of 4 activeRow);
       EvQuery sql_selectParts [(T ":ID", T "4")] SQLITE_OK (result_of 4 partRows);
       EvQuery sql_selectOpen [(T ":ID", T "4")] SQLITE_OK (result_of 1 [T "1"]);
       EvTryEnd answer] ∧
    fromData answer = Ok (Some (service_view (result_of 5 sharedRow) (result_of 4 activeRow) (result_of 4 partRows) 2 120)).
Proof.
  eapply (@selectService_authorised serviceDb req5 (form []) (form [(T "ID", T "4")]) (world5 serviceDb tt 1) (T "4")
    tt SQLITE_OK (result_of 5 sharedRow) 0 tt SQLITE_OK (result_of 1 []) tt SQLITE_OK (result_of 4 activeRow) 0
    tt SQLITE_OK (result_of 4 partRows) 2 twoPrices twoQuantities tt SQLITE_OK (result_of 1 [T "1"]) 0);
    first [apply partRows_priced | by repeat split | by_decision | reflexivity | by_running | unfold field; by_running].
Defined.

(** ** The site *)

Definition theFiles (name : text) : option text :=
  if bool_decide (name = T "../Pages/Link.txt") then Some linkTxt
  else if bool_decide (name = suppliersFile) then Some manageSuppliers else None.

Lemma theFiles_parse name contents : theFiles name = Some contents → ∃ t, parse contents = Ok t.
Proof.
  unfold theFiles. intros H. case_bool_decide; [|case_bool_decide; [|done]]; injection H as <-.
  - eexists. vm_compute. reflexivity.
  - eexists. apply parse_manageSuppliers.
Qed.

Lemma deployment_serves_witness :
  ∃ s, link_main theFiles {| registered := []; console := [] |} = (Ok tt, s) ∧
    Forall2 (leads theFiles) (registered s) siteMap ∧ NoDup (siteMap.*1) ∧
    Forall (λ row, static_path row.1.2) siteMap ∧
    Forall (λ row, row.2 ≠ Served E_default) siteMap.
Proof. apply (deployment_serves theFiles); [reflexivity|exact theFiles_parse]. Defined.

(** ** A logged-in request *)

Definition own_search : HttpRequest := get_request (T "/user/search") (T "auth=41") (T "username=a").
Definition searched : outcome unit * @world accounts :=
  @serve accounts percent inOrder 1 own_search [] (@reseed accounts after_login draws).
Definition search_events : list event := drop (length (@w_trace accounts after_login)) (@w_trace accounts searched.2).

Lemma search_trace : @w_trace accounts searched.2 = @w_trace accounts after_login ++ search_events.
Proof.
  destruct (@serve_sound accounts percent inOrder 1 own_search [] (@reseed accounts after_login draws) ltac:(left; by_running))
    as [(evs & Ht) _].
  unfold search_events. change (w_trace searched.2 = w_trace after_login ++ evs) in Ht. by rewrite Ht, drop_app_length.
Qed.

Lemma statements_by_login_witness :
  EvQuery sql_searchUsers [(T ":USR", T "%a%")] SQLITE_OK (result_of 3 []) ∈ search_events ∧
  ∃ id ses, getSessionID own_search = Some id ∧ @w_sessions accounts after_login !! id = Some ses ∧
    (employee ≤ authLevel_of ses)%Z ∧ @backed (@w_trace accounts after_login) ses.
Proof.
  assert (EvQuery sql_searchUsers [(T ":USR", T "%a%")] SQLITE_OK (result_of 3 []) ∈ search_events) as Hin.
  { apply (list_elem_of_lookup_2 _ 1). by_running. }
  split; [exact Hin|].
  apply (@statements_by_login accounts percent inOrder 1 own_search [] after_login draws R_searchUsers employee
    searched.1 searched.2 search_events (EvQuery sql_searchUsers [(T ":USR", T "%a%")] SQLITE_OK (result_of 3 []))
    sql_searchUsers [(T ":USR", T "%a%")]);
    [exact after_login_reachable|left; by_running|by_running|by_running|apply surjective_pairing|apply search_trace|exact Hin|reflexivity].
Defined.

(** ** A plain wire *)

Definition shownURL (url : text) : text * text := span_to "?"%char (drop 14 url).

Definition plainWire : Wire := {|
  incoming rq := {|
    getHeader name :=
      if bool_decide (name = T "cookie") then default [] (r_cookie rq)
      else if bool_decide (name = T "content-length")
      then if r_post rq then to_string (Z.of_nat (length (r_body rq))) else []
      else [];
    getQuery := tail (shownURL (r_url rq)).2;
    getUrl := (shownURL (r_url rq)).1;
    getMethod := if r_post rq then T "post" else T "get" |};
  pieces rq := [(r_body rq, true)];
  delivered evs := {|
    header_lines := [T "HTTP/1.1 200 OK" ++ CRLF] ++
      ((λ nv, nv.1 ++ T ": " ++ nv.2 ++ CRLF) <$> written_headers evs) ++ [CRLF];
    body_chunks := [body_sent evs];
    code := default 0%Z (from_chars_uint 64 (status_of evs));
    total_time := double_zero |};
  broken _ := {| header_lines := []; body_chunks := []; code := 0; total_time := double_zero |};
|}.

#[global] Instance plainWire_facts : @WireFacts plainWire.
Proof.
  split.
  - done.
  - intros rq path q (_ & _ & Hpath & _) _ Eu. cbn [incoming plainWire getUrl getQuery]. rewrite Eu.
    unfold shownURL. change (drop 14 (T "localhost:9001" ++ ?s)) with s.
    case_bool_decide as Hq.
    + rewrite app_nil_r, span_to_absent by done. by subst.
    + change (T "?" ++ q) with ("?"%char :: q). by rewrite span_to_found.
  - intros rq v _ Ec. cbn. by rewrite Ec.
  - done.
  - intros rq _. split; [by exists [], (r_body rq)|]. cbn. by rewrite app_nil_r.
  - intros evs n En. cbn [delivered plainWire code]. by rewrite En.
  - intros evs. cbn. by rewrite app_nil_r.
  - intros evs. eexists [_], [_]. split_and!; [| |reflexivity];
      (constructor; [left; decided|constructor]).
  - intros evs. constructor.
Qed.

(** ** A browser *)

(** A router without patterns: the first page registered for the method and path. *)
#[local] Instance exactRouter : Router := {|
  pageFor s req :=
    (λ e, e.2.2) <$> list_find (λ e, e.1.1 = getMethod req ∧ e.1.2 = getUrl req) (registered s);
|}.

Lemma exactRouter_facts : @RouterFacts exactRouter.
Proof.
  split. intros s req page Hnd _ Hin. cbn [pageFor exactRouter].
  destruct (list_find_elem_of (λ e : text * text * webpage, e.1.1 = getMethod req ∧ e.1.2 = getUrl req)
    _ _ Hin) as [[i e] E]; [done|]. rewrite E. simpl. f_equal.
  apply list_find_Some in E as (Hi & [Hm Hu] & _). apply list_elem_of_lookup_1 in Hin as [j Hj].
  destruct e as [[m u] p]. simpl in *. subst.
  assert (i = j) as ->; [|congruence].
  eapply (NoDup_lookup _ _ _ (getMethod req, getUrl req) Hnd); by rewrite list_lookup_fmap, ?Hi, ?Hj.
Qed.

Definition noDraws (n m : nat) : Z := 7.
Definition suppliersRequest : HttpRequest := get_request (T "/suppliers") (T "auth=5") (T "searchterm=a").

Definition theSite : site := (link_main theFiles {| registered := []; console := [] |}).2.

Lemma theSite_linked : link_main theFiles {| registered := []; console := [] |} = (Ok tt, theSite).
Proof. unfold theSite. apply pair_run. by_running. Qed.

Lemma suppliers_in_browser_witness :
  let start := world5 suppliersDb tt 1 in
  ∃ w' sw', @serveSite percent (@connected suppliersDb percent inOrder plainWire 1 noDraws start) exactRouter 2 theSite
      suppliersRequest [] quietWorld = (Ok tt, w') ∧
    t_events w' = [] ++ [EvStatus OK; EvTryEnd (supplierPage suppliers_result 2)] ∧
    @behind suppliersDb percent inOrder plainWire 1 noDraws start w' = Some sw'.
Proof.
  intros start.
  apply (@suppliers_in_browser suppliersDb percent inOrder exactRouter exactRouter_facts plainWire plainWire_facts 1 noDraws start 2 theFiles theSite
    suppliersRequest [] quietWorld start (T "a") tt SQLITE_OK suppliers_result 2);
    first [exact theSite_linked | exact theFiles_parse | apply owned_empty | by_running | unfold field; by_running | by_decision | by repeat split].
Defined.

Definition emptyStart : @world suppliersDb :=
  @Build_world suppliersDb tt ∅ (noDraws 0) [].

Lemma browsing_refines_witness :
  let wire := @connected suppliersDb percent inOrder plainWire 1 noDraws emptyStart in
  let w' := (@serveSite percent wire exactRouter 2 theSite suppliersRequest [] quietWorld).2 in
  let rqs := [forwarded (T "/part/supplier/search") suppliersRequest []] in
  @behind suppliersDb percent inOrder plainWire 1 noDraws emptyStart w'
    = @backend_after suppliersDb percent inOrder plainWire 1 noDraws emptyStart rqs ∧
  handles (t_heap w') = ∅ ∧ objects (t_heap w') = ∅ ∧
  ∀ sw, @behind suppliersDb percent inOrder plainWire 1 noDraws emptyStart w' = Some sw →
    replayed emptyStart sw ∧
    ∀ id ses, w_sessions sw !! id = Some ses → (1 ≤ id < 2 ^ 64)%Z ∧ backed (w_trace sw) ses.
Proof.
  intros wire w' rqs.
  apply (@browsing_refines suppliersDb percent inOrder exactRouter plainWire plainWire_facts 1 noDraws emptyStart 2 theSite w' rqs).
  - apply reach_start.
  - intros n m. done.
  - apply (browsed_page _ _ _ _ theSite quietWorld [] manageSuppliersTemplate (T "/part/supplier/search") suppliersRequest []);
      [apply browsed_start|by_running|discriminate|done|apply pair_run; by_running].
Defined.

(** ** A collection of handles *)

Definition multiServer : LibcurlMulti := {| multi_init_ok _ := true; still_running n := 3 - n |}.

(** A collection made by its constructor, with two handles, and a third handle that
    is not in it. *)
Definition handle_made (n : nat) : gmap nat curlHandle → gmap nat curlHandle := insert n freshHandle.
Definition noMulti : mheap := {|
  m_heap := set_handles (λ hs, handle_made 0 (handle_made 1 (handle_made 2 hs))) emptyHeap;
  multis := ∅; attachedTo := ∅; m_next := 0; m_polls := 0 |}.
Definition collection : multicurlwrapper := {| object := Some 0; curls := [Some 0; None; Some 2] |}.
Definition filled : outcome multicurlwrapper * mheap :=
  (c ← @multiConstruct multiServer; c ← multiAdd c (Some 0); c ← multiAdd c None; multiAdd c (Some 2)) noMulti.

Lemma filled_collected : filled.1 = Ok collection ∧ collected 0 (held (curls collection)) filled.2.
Proof.
  split; [reflexivity|]. split_and!; [by_decision|by_decision|].
  repeat (apply Forall_cons_2; [split; [by eexists|by intros m' [= <-]]|]). apply Forall_nil_2.
Qed.

Lemma multiDestroy_cleans_witness :
  ∃ s', multiDestroy collection filled.2 = (Ok tt, s') ∧ multis s' = multis filled.2 ∖ {[0]} ∧
    (∀ h, handles (m_heap s') !! h = if bool_decide (h ∈ held (curls collection)) then None else handles (m_heap filled.2) !! h) ∧
    (∀ h, attachedTo s' !! h = if bool_decide (h ∈ held (curls collection)) then None else attachedTo filled.2 !! h) ∧
    objects (m_heap s') = objects (m_heap filled.2) ∧ sent (m_heap s') = sent (m_heap filled.2).
Proof. apply (multiDestroy_cleans collection 0 filled.2); [reflexivity|apply filled_collected]. Defined.

Lemma multiTidy_dangles_witness :
  (this' ← multiTidy collection; multiDestroy this') filled.2 = (Raise UndefinedBehaviour, (multiTidy collection filled.2).2).
Proof. apply (multiTidy_dangles collection 0 filled.2); [reflexivity|apply filled_collected]. Defined.

Lemma multiPerform_ends_witness :
  ∃ s', @multiPerform multiServer 4 collection 0 filled.2 = (Ok tt, s') ∧ (m_polls s' ≤ 0 + 4)%nat ∧ m_heap s' = m_heap filled.2.
Proof.
  apply (@multiPerform_ends multiServer 3 4 collection 0 filled.2); [|lia|reflexivity|done].
  intros m [= <-]. by_decision.
Defined.

(** ** The server, from its start *)

Definition accountSQLite : SQLite := one_table [[T "7"; T "2"]].
Definition accountSQLiteFacts : @SQLiteFacts accountSQLite := one_table_facts _.
#[local] Existing Instances accountSQLite accountSQLiteFacts.
#[local] Instance accountFiles : SQLiteFiles := {|
  disk := nat;
  sqlite3_open d source := (d, (if bool_decide (source = Some (T "bad")) then SQLITE_ERROR else SQLITE_OK, tt));
  sqlite3_close d _ := S d |}.

Definition fresh_process (input : text) : cworld :=
  {| c_database := None; c_disk := 0%nat; c_opened := 0; c_closed := 0;
     c_in := opened input; c_out := []; c_queries := [] |}.
Definition typed : text := T "SELECT 1" ++ [NEWLINE] ++ T "\dt" ++ [NEWLINE] ++ T "\\" ++ [NEWLINE] ++ T "rest".

(** The hand-over, and the run after a database that could not be loaded. *)
Definition lost_typed : text := T "\ld bad" ++ [NEWLINE] ++ T "\\" ++ [NEWLINE] ++ T "rest".

Lemma main_hands_over_witness :
  ((main noFiles 3 (fresh_process typed)).1 = Ok true ∧
   (∃ h, c_database (main noFiles 3 (fresh_process typed)).2 = Some h ∧ Database.live h = 0%nat)) ∧
  ((main noFiles 2 (fresh_process lost_typed)).1 = Raise UndefinedBehaviour ∧
   (c_in (main noFiles 2 (fresh_process lost_typed)).2 = opened (T "rest") →
    admin_fails UndefinedBehaviour (c_database (main noFiles 2 (fresh_process lost_typed)).2))).
Proof.
  assert ((main noFiles 3 (fresh_process typed)).1 = Ok true) as E1 by by_running.
  assert ((main noFiles 2 (fresh_process lost_typed)).1 = Raise UndefinedBehaviour) as E2 by by_running.
  split; (split; [done|]).
  - pose proof (main_hands_over noFiles [T "SELECT 1"; T "\dt"] (T "\\") (T "rest") 3 (fresh_process typed)) as Hm.
    destruct (main noFiles 3 (fresh_process typed)) as [[[]|e] w']; try discriminate E1.
    apply Hm; [reflexivity|repeat constructor; decided|decided|reflexivity|simpl; lia].
  - pose proof (main_hands_over noFiles [T "\ld bad"] (T "\\") (T "rest") 2 (fresh_process lost_typed)) as Hm.
    destruct (main noFiles 2 (fresh_process lost_typed)) as [[|e] w']; [discriminate E2|]. injection E2 as ->.
    intros Hin. cbn [snd] in *.
    destruct Hm as [(_ & pre & l & post & _ & Hin')|[_ Ha]];
      [reflexivity|repeat constructor; decided|decided|reflexivity|simpl; lia| |exact Ha].
    exfalso. rewrite Hin in Hin'. injection Hin' as Hr. apply (f_equal length) in Hr.
    rewrite !length_app in Hr. simpl in Hr. lia.
Defined.

Definition openHandle : @Database.handle accountSQLite := @Build_handle accountSQLite tt 0.
Definition started : outcome bool * cworld := main noFiles 3 (fresh_process typed).
Definition served_from : @world sqlite_database :=
  @Build_world sqlite_database openHandle ∅ draws [].
Definition one_login : outcome unit * @world sqlite_database :=
  @serve sqlite_database percent inOrder 1 login_request [(login_body, true)] (reseed served_from draws).

Lemma started_runs : main noFiles 3 (fresh_process typed) = (Ok true, started.2) ∧ c_database started.2 = Some openHandle.
Proof. split; [unfold started; apply pair_run|]; by_running. Qed.

Lemma server_lifetime_witness :
  (∃ fuel w1 h, main noFiles fuel (fresh_process typed) = (Ok true, w1) ∧ c_database w1 = Some h ∧
     replay h (w_trace one_login.2) = Some (w_db one_login.2)) ∧
  Database.live (w_db one_login.2) = 0%nat ∧
  ∀ id ses, w_sessions one_login.2 !! id = Some ses → (1 ≤ id < 2 ^ 64)%Z ∧ backed (w_trace one_login.2) ses.
Proof.
  apply (@server_lifetime _ _ _ noFiles percent inOrder (fresh_process typed) one_login.2).
  destruct started_runs as [Hm Hh].
  apply (life_serve _ _ served_from draws 1 login_request [(login_body, true)]).
  - exact (life_start _ _ 3 _ _ draws Hm Hh).
  - exact draws_range.
  - right. by exists [], login_body.
  - change (one_login = (Ok tt, one_login.2)). unfold one_login. apply pair_run. by_running.
Defined.
